(** * InsiderWire: the filing-to-signal pipeline

    A shallow embedding of the TypeScript sources of the pipeline:

    - [Types]      domain/sec/types.ts (transaction codes, executive titles)
    - [Scoring]    domain/scoring/calculator.ts and rules.ts, over idealised
                   numbers
    - [Binary64]   domain/scoring/calculator.ts, over doubles
    - [Store]      sql/schema/insiders.ts and
                   sql/queries/insiders/queries.ts, mutations.ts
    - [Digest]     domain/slack/formatters.ts (formatDailyDigest)
    - [Pipeline]   Form4Processor and DailyDigestAggregator, with
                   domain/slack/client.ts (postMessage)
    - [RegExp], [Pattern], [NumberQ], [Parser]  domain/sec/parser.ts

    Conventions.  A JavaScript string is a [string] of code units below 256,
    and case conversion is the ASCII one: strings with code units from 256
    on, some of which [toUpperCase] maps to ASCII letters (U+017F to S,
    U+0131 to I), are outside the model.

    Numbers come in two models.  In [Binary64] a number is the IEEE 754
    double it is and the scorer is computed as the code computes it; what
    is proved of scores is proved there.  In [JsNumber] a number is an
    exact real (or, in the parser, a rational) extended with the three
    IEEE special values, so rounding of intermediate results and signed
    zeros are not represented; the store, the processor and the parser,
    of which only comparisons with thresholds, tests for NaN and the
    control flow are studied, are built on it. *)

From Stdlib Require Import String Ascii List Bool Arith ZArith QArith Lia.
From Stdlib Require Import Permutation Qabs.
From Stdlib Require Import Reals Lra.
From Stdlib Require Floats.
Import ListNotations.

Set Implicit Arguments.

(* ================================================================== *)
(** * JavaScript string primitives *)
(* ================================================================== *)

Module JsString.

Local Open Scope string_scope.

Definition is_lower (c : ascii) : bool :=
  (97 <=? nat_of_ascii c)%nat && (nat_of_ascii c <=? 122)%nat.

Definition is_upper (c : ascii) : bool :=
  (65 <=? nat_of_ascii c)%nat && (nat_of_ascii c <=? 90)%nat.

Definition upper_char (c : ascii) : ascii :=
  if is_lower c then ascii_of_nat (nat_of_ascii c - 32) else c.

Definition lower_char (c : ascii) : ascii :=
  if is_upper c then ascii_of_nat (nat_of_ascii c + 32) else c.

(** [String.prototype.toUpperCase] / [toLowerCase]. *)
Fixpoint toUpperCase (s : string) : string :=
  match s with
  | EmptyString => EmptyString
  | String c s' => String (upper_char c) (toUpperCase s')
  end.

Fixpoint toLowerCase (s : string) : string :=
  match s with
  | EmptyString => EmptyString
  | String c s' => String (lower_char c) (toLowerCase s')
  end.

(** [s.startsWith(p)]. *)
Fixpoint startsWith (s p : string) : bool :=
  match p, s with
  | EmptyString, _ => true
  | String _ _, EmptyString => false
  | String a p', String b s' => Ascii.eqb a b && startsWith s' p'
  end.

(** [s.includes(sub)]: some position of [s] starts an occurrence of [sub]. *)
Fixpoint includes (s sub : string) : bool :=
  startsWith s sub ||
  match s with
  | EmptyString => false
  | String _ s' => includes s' sub
  end.

(** The declarative reading of containment. *)
Definition occurs_in (sub s : string) : Prop :=
  exists pre post, s = pre ++ sub ++ post.

(** JavaScript truthiness of a [string | undefined | null] value. *)
Definition truthy (o : option string) : bool :=
  match o with
  | Some (String _ _) => true
  | _ => false
  end.

End JsString.

(* ================================================================== *)
(** * sec/types.ts: executive titles *)
(* ================================================================== *)

Module Types.

Import JsString.
Local Open Scope string_scope.

Definition TRANSACTION_CODE_BUY : string := "P".
Definition TRANSACTION_CODE_SELL : string := "S".

Definition EXECUTIVE_TITLES : list string :=
  [ "CEO"; "Chief Executive Officer"; "CFO"; "Chief Financial Officer";
    "Chairman"; "Chairwoman"; "Chair"; "President"; "COO";
    "Chief Operating Officer" ].

(** [isExecutiveRole(title)]: [!title] covers both [undefined] and the empty
    string; otherwise some listed title, upper-cased, occurs in the
    upper-cased title. *)
Definition isExecutiveRole (title : option string) : bool :=
  match title with
  | None => false
  | Some t =>
      if negb (truthy (Some t)) then false
      else
        let normalizedTitle := toUpperCase t in
        existsb (fun execTitle => includes normalizedTitle (toUpperCase execTitle))
                EXECUTIVE_TITLES
  end.

End Types.

(* ================================================================== *)
(** * JavaScript numbers, idealised *)
(* ================================================================== *)

(** A number is a real or one of [Infinity], [-Infinity], [NaN].  The
    arithmetic below follows IEEE 754 on the special values and is exact on
    the finite ones, where the code rounds to the nearest double; see
    [Binary64] for the doubles themselves. *)
Module JsNumber.

Local Open Scope R_scope.

Inductive number : Type :=
  | Fin (r : R)
  | PosInf
  | NegInf
  | NaN.

Definition sign_times (r : R) (pos : number) (neg : number) : number :=
  if Req_dec_T r 0 then NaN
  else if Rlt_dec 0 r then pos else neg.

Definition add (x y : number) : number :=
  match x, y with
  | NaN, _ | _, NaN => NaN
  | Fin a, Fin b => Fin (a + b)
  | PosInf, NegInf | NegInf, PosInf => NaN
  | PosInf, _ | _, PosInf => PosInf
  | NegInf, _ | _, NegInf => NegInf
  end.

Definition sub (x y : number) : number :=
  match x, y with
  | NaN, _ | _, NaN => NaN
  | Fin a, Fin b => Fin (a - b)
  | PosInf, PosInf | NegInf, NegInf => NaN
  | PosInf, _ | _, NegInf => PosInf
  | NegInf, _ | _, PosInf => NegInf
  end.

Definition mul (x y : number) : number :=
  match x, y with
  | NaN, _ | _, NaN => NaN
  | Fin a, Fin b => Fin (a * b)
  | Fin a, PosInf | PosInf, Fin a => sign_times a PosInf NegInf
  | Fin a, NegInf | NegInf, Fin a => sign_times a NegInf PosInf
  | PosInf, PosInf | NegInf, NegInf => PosInf
  | PosInf, NegInf | NegInf, PosInf => NaN
  end.

(** Division; a zero divisor is taken as [+0]. *)
Definition div (x y : number) : number :=
  match x, y with
  | NaN, _ | _, NaN => NaN
  | Fin a, Fin b =>
      if Req_dec_T b 0 then sign_times a PosInf NegInf else Fin (a / b)
  | Fin _, _ => Fin 0
  | PosInf, Fin b => if Rlt_dec b 0 then NegInf else PosInf
  | NegInf, Fin b => if Rlt_dec b 0 then PosInf else NegInf
  | _, _ => NaN
  end.

(** [x >= y] *)
Definition ge (x y : number) : bool :=
  match x, y with
  | NaN, _ | _, NaN => false
  | Fin a, Fin b => if Rle_dec b a then true else false
  | PosInf, _ => true
  | _, NegInf => true
  | _, _ => false
  end.

(** [x === 0] *)
Definition is_zero (x : number) : bool :=
  match x with
  | Fin r => if Req_dec_T r 0 then true else false
  | _ => false
  end.

Definition Math_abs (x : number) : number :=
  match x with
  | Fin r => Fin (Rabs r)
  | PosInf | NegInf => PosInf
  | NaN => NaN
  end.

Definition Math_max (x y : number) : number :=
  match x, y with
  | NaN, _ | _, NaN => NaN
  | PosInf, _ | _, PosInf => PosInf
  | NegInf, z | z, NegInf => z
  | Fin a, Fin b => Fin (Rmax a b)
  end.

Definition log10 (r : R) : R := ln r / ln 10.

(** [Math.log10]: [-Infinity] at zero, [NaN] below it. *)
Definition Math_log10 (x : number) : number :=
  match x with
  | NaN | NegInf => NaN
  | PosInf => PosInf
  | Fin r =>
      if Req_dec_T r 0 then NegInf
      else if Rlt_dec r 0 then NaN
      else Fin (log10 r)
  end.

(** The integer [n] for which [n / 100 - r] is closest to zero, the larger
    one on a tie, for [r >= 0]. *)
Definition nearest_hundredth (r : R) : Z := Int_part (r * 100 + / 2).

(** [Number(x.toFixed(2))].  [toFixed] prints the sign and then the digits
    of the magnitude; magnitudes from [1e21] on are printed in full by
    [ToString], as are the special values, and read back unchanged. *)
Definition round2 (r : R) : R :=
  if Rle_dec 1e21 (Rabs r) then r
  else if Rlt_dec r 0 then - (IZR (nearest_hundredth (- r)) / 100)
  else IZR (nearest_hundredth r) / 100.

Definition toFixed2 (x : number) : number :=
  match x with
  | Fin r => Fin (round2 r)
  | other => other
  end.

(** [x || 0] on an optional number: [undefined], [0] and [NaN] are falsy. *)
Definition or_zero (x : option number) : number :=
  match x with
  | None => Fin 0
  | Some NaN => Fin 0
  | Some (Fin r) => if Req_dec_T r 0 then Fin 0 else Fin r
  | Some v => v
  end.

End JsNumber.

(* ================================================================== *)
(** * scoring/rules.ts and scoring/calculator.ts *)
(* ================================================================== *)

(** The scorer over idealised numbers, as the processor model calls it.
    The comparisons of [shouldTriggerUrgentAlert] are exact on doubles as
    well; the arithmetic of [calculateSignalScore] and
    [calculateHoldingsDelta] is not, and [Binary64] has it in doubles. *)
Module Scoring.

Import JsString Types JsNumber.
Local Open Scope R_scope.

Definition URGENT_ALERT_SCORE_THRESHOLD : R := 5.
Definition URGENT_ALERT_VALUE_THRESHOLD : R := 250000.
Definition CLUSTER_DETECTION_DAYS : Z := 7.
Definition FIRST_ACTIVITY_DAYS : Z := 180.

Record ScoreInput : Type := {
  transactionCode : string;
  transactionValue : number;
  insiderTitle : option string;
  isFirstActivityIn180Days : option bool;
  additionalInsidersInCluster : option number
}.

Record Breakdown : Type := {
  baseScore : number;
  sizeMultiplier : number;
  roleMultiplier : number;
  firstActivityBonus : number;
  clusterBonus : number
}.

Record ScoreResult : Type := {
  score : number;
  breakdown : Breakdown
}.

(** The unrounded size multiplier, line 40 of calculator.ts. *)
Definition rawSizeMultiplier (input : ScoreInput) : number :=
  Math_max (Fin 1) (Math_log10 (div (transactionValue input) (Fin 10000))).

Definition calculateSignalScore (input : ScoreInput) : ScoreResult :=
  let baseScore :=
    if String.eqb (transactionCode input) "P" then Fin 1 else Fin (-1) in
  let sizeMultiplier := rawSizeMultiplier input in
  let roleMultiplier :=
    if isExecutiveRole (insiderTitle input) then Fin 1.5 else Fin 1 in
  let firstActivityBonus :=
    match isFirstActivityIn180Days input with
    | Some true => Fin 1
    | _ => Fin 0
    end in
  let clusterBonus := or_zero (additionalInsidersInCluster input) in
  let score :=
    mul (mul (add (add baseScore firstActivityBonus) clusterBonus) sizeMultiplier)
        roleMultiplier in
  {| score := toFixed2 score;
     breakdown := {| baseScore := baseScore;
                     sizeMultiplier := toFixed2 sizeMultiplier;
                     roleMultiplier := roleMultiplier;
                     firstActivityBonus := firstActivityBonus;
                     clusterBonus := clusterBonus |} |}.

Definition shouldTriggerUrgentAlert (signalScore transactionValue : number) : bool :=
  ge (Math_abs signalScore) (Fin 5) || ge transactionValue (Fin 250000).

Definition calculateHoldingsDelta (priorHoldings postTransactionHoldings : number) : number :=
  if is_zero priorHoldings then Fin 0
  else
    let delta :=
      mul (div (sub postTransactionHoldings priorHoldings) priorHoldings) (Fin 100) in
    toFixed2 delta.

End Scoring.
(* ================================================================== *)
(** * JavaScript numbers as IEEE 754 doubles *)
(* ================================================================== *)

(** The numbers of calculator.ts as the doubles they are: a number is a
    binary64 float of the kernel, and [+], [-], [*], [/] and the
    comparisons are its correctly rounded operations.  [toFixed(2)] and the
    reading of its digits by [Number] follow ECMA-262 on the exact value of
    the double.  [Math.log10] is left to the host by ECMA-262, which fixes
    its value at NaN, at the zeros, at 1, below zero and at +Infinity only;
    it is a parameter of the scorer. *)
Module Binary64.

Import PrimFloat SpecFloat.
Local Open Scope float_scope.

Definition number : Type := float.

(** [Math.max(x, y)]: NaN when either is, and [+0] is above [-0]. *)
Definition Math_max (x y : number) : number :=
  if is_nan x || is_nan y then nan
  else if x <? y then y
  else if y <? x then x
  else if is_zero x && get_sign x then y
  else x.

(** [x || 0] on an optional number: [undefined], the zeros and NaN are
    falsy. *)
Definition or_zero (x : option number) : number :=
  match x with
  | None => 0
  | Some v => if is_nan v || is_zero v then 0 else v
  end.

(** The integer [n] for which [n / 100 - x] is closest to zero, the larger
    one on a tie, for the double [x = m * 2^e], [x >= 0]. *)
Definition nearest_hundredth (x : spec_float) : Z :=
  match x with
  | S754_finite _ m e =>
      if (0 <=? e)%Z then (100 * Z.pos m * 2 ^ e)%Z
      else ((200 * Z.pos m + 2 ^ (- e)) / 2 ^ (1 - e))%Z
  | _ => 0%Z
  end.

(** [Number(s)] for the digits [s] of [n / 100], [n >= 0]: the double
    nearest to [n / 100], the even one on a tie. *)
Definition of_hundredths (n : Z) : number :=
  match n with
  | Zpos p =>
      FloatOps.SF2Prim
        (SFdiv FloatOps.prec FloatOps.emax (S754_finite false p 0)
               (S754_finite false 100 0))
  | _ => 0
  end.

(** [Number(x.toFixed(2))].  NaN and the infinities are printed by name,
    and a magnitude from [1e21] on in full by [ToString]; both read back
    as [x].  Otherwise [toFixed] prints a sign for [x < 0] and then the
    digits of the hundredths nearest to the magnitude. *)
Definition toFixed2 (x : number) : number :=
  if is_nan x || is_infinity x then x
  else if 1e21 <=? abs x then x
  else
    let n := nearest_hundredth (FloatOps.Prim2SF (abs x)) in
    if x <? 0 then - of_hundredths n else of_hundredths n.

Record ScoreInput : Type := {
  transactionCode : string;
  transactionValue : number;
  insiderTitle : option string;
  isFirstActivityIn180Days : option bool;
  additionalInsidersInCluster : option number
}.

Record Breakdown : Type := {
  baseScore : number;
  sizeMultiplier : number;
  roleMultiplier : number;
  firstActivityBonus : number;
  clusterBonus : number
}.

Record ScoreResult : Type := {
  score : number;
  breakdown : Breakdown
}.

Section Host.

(** The host's [Math.log10]. *)
Variable Math_log10 : number -> number.

Definition calculateSignalScore (input : ScoreInput) : ScoreResult :=
  let baseScore := if String.eqb (transactionCode input) "P" then 1 else -1 in
  let sizeMultiplier :=
    Math_max 1 (Math_log10 (transactionValue input / 10000)) in
  let roleMultiplier :=
    if Types.isExecutiveRole (insiderTitle input) then 1.5 else 1 in
  let firstActivityBonus :=
    match isFirstActivityIn180Days input with
    | Some true => 1
    | _ => 0
    end in
  let clusterBonus := or_zero (additionalInsidersInCluster input) in
  let score :=
    (baseScore + firstActivityBonus + clusterBonus) * sizeMultiplier * roleMultiplier in
  {| score := toFixed2 score;
     breakdown := {| baseScore := baseScore;
                     sizeMultiplier := toFixed2 sizeMultiplier;
                     roleMultiplier := roleMultiplier;
                     firstActivityBonus := firstActivityBonus;
                     clusterBonus := clusterBonus |} |}.

End Host.

Definition shouldTriggerUrgentAlert (signalScore transactionValue : number) : bool :=
  (5 <=? abs signalScore) || (250000 <=? transactionValue).

Definition calculateHoldingsDelta (priorHoldings postTransactionHoldings : number)
    : number :=
  if priorHoldings =? 0 then 0
  else
    let delta := ((postTransactionHoldings - priorHoldings) / priorHoldings) * 100 in
    toFixed2 delta.

Definition isSignificantHoldingsChange (deltaPercent : number) : bool :=
  10 <=? abs deltaPercent.

End Binary64.

(* ================================================================== *)
(** * sql/schema/insiders.ts, sql/queries/insiders/*.ts *)
(* ================================================================== *)

(** The tables as lists of rows.  A [uuid] is a number handed out by the
    store, a [date] column holds a day number (the ISO strings the code
    passes around denote days and compare in the same order), and a
    [decimal(p, s)] column holds an integer count of units of [10^-s] or
    the special value ['NaN'], which PostgreSQL's [numeric] accepts,
    treats as equal to itself and sorts above every number (an infinity is
    refused by a column of declared precision).
    The timestamp columns [createdAt], [updatedAt] and [postedAt] are left
    out, and foreign keys are not checked. *)
Module Store.

Local Open Scope string_scope.
Local Open Scope Z_scope.

Definition uuid : Type := nat.
Definition date : Type := Z.

Inductive decimal : Type :=
  | Dec (units : Z)
  | DecNaN.

Coercion Dec : Z >-> decimal.

Definition decimal_eqb (a b : decimal) : bool :=
  match a, b with
  | Dec x, Dec y => Z.eqb x y
  | DecNaN, DecNaN => true
  | _, _ => false
  end.

(** [a < b] in the order of [numeric]: ['NaN'] is above every number. *)
Definition decimal_ltb (a b : decimal) : bool :=
  match a, b with
  | Dec x, Dec y => Z.ltb x y
  | Dec _, DecNaN => true
  | DecNaN, _ => false
  end.

Record Issuer : Type := {
  issuer_id : uuid;
  cik : string;
  ticker : option string;
  companyName : string
}.

Record Insider : Type := {
  insider_id : uuid;
  insider_issuerId : uuid;
  name : string;
  title : option string
}.

(** [InsertTransaction] without [id], [createdAt], [updatedAt]. *)
Record InsertTransaction : Type := {
  filingAccession : string;
  insiderId : uuid;
  issuerId : uuid;
  transactionDate : date;
  transactionCode : string;
  shares : decimal;
  price : decimal;
  transactionValue : decimal;
  postTransactionShares : decimal;
  isDirectOwnership : bool;
  is10b51 : bool;
  signalScore : decimal
}.

Record Transaction : Type := {
  id : uuid;
  fields : InsertTransaction
}.

Inductive AlertType : Type := urgent | digest.

Definition AlertType_eqb (a b : AlertType) : bool :=
  match a, b with
  | urgent, urgent | digest, digest => true
  | _, _ => false
  end.

Record InsertSlackAlert : Type := {
  transactionId : uuid;
  alert_issuerId : uuid;
  alertType : AlertType;
  slackMessageTs : option string;
  slackThreadTs : option string
}.

Record SlackAlert : Type := {
  alert_id : uuid;
  alert : InsertSlackAlert
}.

Record DB : Type := {
  issuers : list Issuer;
  insiders : list Insider;
  transactions : list Transaction;
  slackAlerts : list SlackAlert;
  next_uuid : uuid
}.

Definition empty_db : DB :=
  {| issuers := []; insiders := []; transactions := []; slackAlerts := [];
     next_uuid := 0%nat |}.

Definition set_issuers (db : DB) (l : list Issuer) (n : uuid) : DB :=
  {| issuers := l; insiders := insiders db; transactions := transactions db;
     slackAlerts := slackAlerts db; next_uuid := n |}.

Definition set_insiders (db : DB) (l : list Insider) (n : uuid) : DB :=
  {| issuers := issuers db; insiders := l; transactions := transactions db;
     slackAlerts := slackAlerts db; next_uuid := n |}.

Definition set_transactions (db : DB) (l : list Transaction) (n : uuid) : DB :=
  {| issuers := issuers db; insiders := insiders db; transactions := l;
     slackAlerts := slackAlerts db; next_uuid := n |}.

Definition set_slackAlerts (db : DB) (l : list SlackAlert) (n : uuid) : DB :=
  {| issuers := issuers db; insiders := insiders db;
     transactions := transactions db; slackAlerts := l; next_uuid := n |}.

(** ** The unique constraint [transactions_dedupe] *)

Definition dedupe_key : Type := (string * uuid * date * decimal * decimal)%type.

Definition key_of (d : InsertTransaction) : dedupe_key :=
  (filingAccession d, insiderId d, transactionDate d, shares d, price d).

Definition key_eqb (k1 k2 : dedupe_key) : bool :=
  match k1, k2 with
  | (f1, i1, d1, s1, p1), (f2, i2, d2, s2, p2) =>
      String.eqb f1 f2 && Nat.eqb i1 i2 && Z.eqb d1 d2
      && decimal_eqb s1 s2 && decimal_eqb p1 p2
  end.

Definition row_key (r : Transaction) : dedupe_key := key_of (fields r).

(** The [set] clause of [onConflictDoUpdate]: the existing row keeps its
    key columns and its [issuerId]; the six listed columns are overwritten. *)
Definition refresh (old new : InsertTransaction) : InsertTransaction :=
  {| filingAccession := filingAccession old;
     insiderId := insiderId old;
     issuerId := issuerId old;
     transactionDate := transactionDate old;
     transactionCode := transactionCode new;
     shares := shares old;
     price := price old;
     transactionValue := transactionValue new;
     postTransactionShares := postTransactionShares new;
     isDirectOwnership := isDirectOwnership new;
     is10b51 := is10b51 new;
     signalScore := signalScore new |}.

(** The conflicting row, updated in place; [None] when no row conflicts. *)
Fixpoint update_conflict (data : InsertTransaction) (rows : list Transaction)
    : option (Transaction * list Transaction) :=
  match rows with
  | [] => None
  | r :: rest =>
      if key_eqb (row_key r) (key_of data) then
        let r' := {| id := id r; fields := refresh (fields r) data |} in
        Some (r', r' :: rest)
      else
        match update_conflict data rest with
        | Some (x, rest') => Some (x, r :: rest')
        | None => None
        end
  end.

(** [upsertTransaction]: insert, or on a conflict on the dedupe key update;
    the row is returned. *)
Definition upsertTransaction (db : DB) (data : InsertTransaction) : Transaction * DB :=
  match update_conflict data (transactions db) with
  | Some (r, rows') => (r, set_transactions db rows' (next_uuid db))
  | None =>
      let r := {| id := next_uuid db; fields := data |} in
      (r, set_transactions db (transactions db ++ [r]) (S (next_uuid db)))
  end.

(** [upsertIssuer]: conflict target [cik]. *)
Fixpoint update_issuer (c : string) (t : option string) (n : string)
    (rows : list Issuer) : option (Issuer * list Issuer) :=
  match rows with
  | [] => None
  | r :: rest =>
      if String.eqb (cik r) c then
        let r' := {| issuer_id := issuer_id r; cik := cik r; ticker := t;
                     companyName := n |} in
        Some (r', r' :: rest)
      else
        match update_issuer c t n rest with
        | Some (x, rest') => Some (x, r :: rest')
        | None => None
        end
  end.

Definition upsertIssuer (db : DB) (c : string) (t : option string) (n : string)
    : Issuer * DB :=
  match update_issuer c t n (issuers db) with
  | Some (r, rows') => (r, set_issuers db rows' (next_uuid db))
  | None =>
      let r := {| issuer_id := next_uuid db; cik := c; ticker := t;
                  companyName := n |} in
      (r, set_issuers db (issuers db ++ [r]) (S (next_uuid db)))
  end.

(** [upsertInsider]: conflict target [(name, issuerId)]. *)
Fixpoint update_insider (iss : uuid) (n : string) (t : option string)
    (rows : list Insider) : option (Insider * list Insider) :=
  match rows with
  | [] => None
  | r :: rest =>
      if String.eqb (name r) n && Nat.eqb (insider_issuerId r) iss then
        let r' := {| insider_id := insider_id r;
                     insider_issuerId := insider_issuerId r;
                     name := name r; title := t |} in
        Some (r', r' :: rest)
      else
        match update_insider iss n t rest with
        | Some (x, rest') => Some (x, r :: rest')
        | None => None
        end
  end.

Definition upsertInsider (db : DB) (iss : uuid) (n : string) (t : option string)
    : Insider * DB :=
  match update_insider iss n t (insiders db) with
  | Some (r, rows') => (r, set_insiders db rows' (next_uuid db))
  | None =>
      let r := {| insider_id := next_uuid db; insider_issuerId := iss;
                  name := n; title := t |} in
      (r, set_insiders db (insiders db ++ [r]) (S (next_uuid db)))
  end.

(** [recordSlackAlert]: a plain insert. *)
Definition recordSlackAlert (db : DB) (data : InsertSlackAlert) : SlackAlert * DB :=
  let a := {| alert_id := next_uuid db; alert := data |} in
  (a, set_slackAlerts db (slackAlerts db ++ [a]) (S (next_uuid db))).

(** ** Queries *)

(** [ORDER BY transaction_date DESC LIMIT 1]: a row of the greatest date;
    among rows of that date the one stored first stands for the one the
    database happens to return. *)
Fixpoint latest (rows : list Transaction) : option Transaction :=
  match rows with
  | [] => None
  | r :: rest =>
      match latest rest with
      | Some m =>
          if transactionDate (fields r) <? transactionDate (fields m)
          then Some m else Some r
      | None => Some r
      end
  end.

(** [WHERE insider_id = insiderId AND transaction_date <= beforeDate] *)
Definition on_or_before (insider : uuid) (beforeDate : date) (r : Transaction) : bool :=
  Nat.eqb (insiderId (fields r)) insider && (transactionDate (fields r) <=? beforeDate).

Definition getInsiderLastTransactionDate (db : DB) (insider : uuid) (beforeDate : date)
    : option date :=
  option_map (fun r => transactionDate (fields r))
             (latest (filter (on_or_before insider beforeDate) (transactions db))).

Definition getInsiderPreviousTransaction (db : DB) (insider : uuid) (beforeDate : date)
    : option Transaction :=
  latest (filter (on_or_before insider beforeDate) (transactions db)).

(** What the SQL of [getInsiderPreviousTransaction] allows as a result,
    whatever the order among rows of one date. *)
Definition previous_transaction_result (db : DB) (insider : uuid) (beforeDate : date)
    (res : option Transaction) : Prop :=
  match res with
  | Some r =>
      In r (transactions db) /\ on_or_before insider beforeDate r = true /\
      forall r', In r' (transactions db) -> on_or_before insider beforeDate r' = true ->
                 transactionDate (fields r') <= transactionDate (fields r)
  | None =>
      forall r', In r' (transactions db) -> on_or_before insider beforeDate r' = false
  end.

(** [COUNT(DISTINCT insider_id)] over the rows of an issuer in a date range,
    leaving out one insider. *)
Definition in_cluster (issuer : uuid) (startDate endDate : date)
    (exclude : option uuid) (r : Transaction) : bool :=
  Nat.eqb (issuerId (fields r)) issuer
  && (startDate <=? transactionDate (fields r))
  && (transactionDate (fields r) <=? endDate)
  && match exclude with
     | Some x => negb (Nat.eqb (insiderId (fields r)) x)
     | None => true
     end.

Definition getDistinctInsiderCountInCluster (db : DB) (issuer : uuid)
    (startDate endDate : date) (exclude : option uuid) : nat :=
  length (nodup Nat.eq_dec
            (map (fun r => insiderId (fields r))
                 (filter (in_cluster issuer startDate endDate exclude)
                         (transactions db)))).

Definition is_alert_for (tx : uuid) (ty : AlertType) (a : SlackAlert) : bool :=
  Nat.eqb (transactionId (alert a)) tx && AlertType_eqb (alertType (alert a)) ty.

Definition hasSlackAlertForTransaction (db : DB) (tx : uuid) (ty : AlertType) : bool :=
  existsb (is_alert_for tx ty) (slackAlerts db).

(** [ORDER BY signal_score DESC]: a row goes behind the rows whose score
    is above its own.  Among rows of one score the order is the database's
    choice; the order in which they are stored stands for it. *)
Fixpoint insert_by_score (r : Transaction) (rows : list Transaction)
    : list Transaction :=
  match rows with
  | [] => [r]
  | x :: rest =>
      if decimal_ltb (signalScore (fields r)) (signalScore (fields x))
      then x :: insert_by_score r rest
      else r :: rows
  end.

Definition order_by_score_desc (rows : list Transaction) : list Transaction :=
  fold_right insert_by_score [] rows.

(** [getDailyTransactionsByDate] without the joined issuer and insider:
    [WHERE transaction_date = date ORDER BY signal_score DESC]. *)
Definition getDailyTransactionsByDate (db : DB) (d : date) : list Transaction :=
  order_by_score_desc
    (filter (fun r => transactionDate (fields r) =? d) (transactions db)).

(** ** Counting rows and alerts *)

Definition count_key (k : dedupe_key) (rows : list Transaction) : nat :=
  length (filter (fun r => key_eqb (row_key r) k) rows).

Definition count_alerts (tx : uuid) (ty : AlertType) (db : DB) : nat :=
  length (filter (is_alert_for tx ty) (slackAlerts db)).

(** The constraint [transactions_dedupe] holds of a table. *)
Definition dedupe_ok (rows : list Transaction) : Prop :=
  forall k, (count_key k rows <= 1)%nat.

End Store.

(* ================================================================== *)
(** * slack/formatters.ts: the daily digest *)
(* ================================================================== *)

(** A Block Kit message as structured blocks.  The text of a context block
    that lists insiders is its lines joined by a newline; a line is kept as
    its parts, and amounts are kept as the stored decimals, since their
    rendering ([toLocaleString]) depends on the locale of the host. *)
Module Digest.

Import Store.
Local Open Scope string_scope.
Local Open Scope Z_scope.

(** [Transaction & { issuer: Issuer; insider: Insider }] *)
Record JoinedTransaction : Type := {
  tx : Transaction;
  issuer : Issuer;
  insider : Insider
}.

Definition score_of (t : JoinedTransaction) : decimal := signalScore (fields (tx t)).

(** [Math.abs(Number(tx.signalScore))], in hundredths; of ['NaN'] it is
    [NaN]. *)
Definition abs_score (t : JoinedTransaction) : decimal :=
  match score_of t with
  | Dec z => Dec (Z.abs z)
  | DecNaN => DecNaN
  end.

(** [b - a > 0] for two such numbers; a difference with [NaN] is [NaN],
    which is not above zero. *)
Definition exceeds (b a : decimal) : bool :=
  match b, a with
  | Dec y, Dec x => x <? y
  | _, _ => false
  end.

Inductive Emoji : Type :=
  | rocket | chart_up | check_mark | warning | chart_down | red_circle.

(** [getScoreEmoji], on a score in hundredths; every comparison with
    [NaN] is false. *)
Definition getScoreEmoji (score : decimal) : Emoji :=
  match score with
  | Dec s =>
      if 500 <=? s then rocket
      else if 250 <=? s then chart_up
      else if 0 <? s then check_mark
      else if -250 <? s then warning
      else if -500 <? s then chart_down
      else red_circle
  | DecNaN => red_circle
  end.

(** The parts of
    [`${scoreEmoji} ${tx.insider.name} ${action} ${value} worth (score: ${score})`]. *)
Record DetailLine : Type := {
  line_emoji : Emoji;
  line_name : string;
  line_action : string;
  line_value : decimal;
  line_score : decimal
}.

Definition insiderLine (t : JoinedTransaction) : DetailLine :=
  {| line_emoji := getScoreEmoji (score_of t);
     line_name := name (insider t);
     line_action :=
       if String.eqb (transactionCode (fields (tx t))) "P" then "bought" else "sold";
     line_value := transactionValue (fields (tx t));
     line_score := score_of t |}.

Inductive Block : Type :=
  | header (text : string)
  | summary (totalTransactions tickers : nat)
  | divider
  | ticker_section (display : string) (buyCount sellCount : nat) (totalValue : decimal)
  | context_lines (lines : list DetailLine)
  | context_text (text : string).

(** Decimal digits of a natural number, as [`${n}`] prints it. *)
Definition digit (n : nat) : ascii := ascii_of_nat (48 + n).

Fixpoint digits (fuel n : nat) (acc : string) : string :=
  match fuel with
  | O => acc
  | S fuel' =>
      let acc' := String (digit (n mod 10)) acc in
      if (n <? 10)%nat then acc' else digits fuel' (n / 10) acc'
  end.

Definition show_nat (n : nat) : string := digits (S n) n "".

(** [Array.prototype.sort] with the comparator
    [(a, b) => Math.abs(b.score) - Math.abs(a.score)]: a stable sort,
    greatest magnitude first; an element moves behind the ones the
    comparator puts before it.  With a [NaN] score in the array the
    comparator is not consistent and the order [sort] returns is left to
    the implementation; the list below is then one possible outcome. *)
Fixpoint insert_desc (x : JoinedTransaction) (l : list JoinedTransaction)
    : list JoinedTransaction :=
  match l with
  | [] => [x]
  | y :: l' =>
      if exceeds (abs_score y) (abs_score x) then y :: insert_desc x l' else x :: l
  end.

Definition sort_desc (l : list JoinedTransaction) : list JoinedTransaction :=
  fold_right insert_desc [] l.

(** [slice(0, 3)] *)
Definition topInsiders (txs : list JoinedTransaction) : list JoinedTransaction :=
  firstn 3 (sort_desc txs).

Definition count_code (code : string) (txs : list JoinedTransaction) : nat :=
  length (filter (fun t => String.eqb (transactionCode (fields (tx t))) code) txs).

(** [txs.reduce((sum, tx) => sum + Number(tx.transactionValue), 0)]; the
    sum is kept exact, where the code adds the nearest doubles. *)
Definition decimal_add (a b : decimal) : decimal :=
  match a, b with
  | Dec x, Dec y => Dec (x + y)
  | _, _ => DecNaN
  end.

Definition sum_value (txs : list JoinedTransaction) : decimal :=
  fold_left (fun sum t => decimal_add sum (transactionValue (fields (tx t)))) txs
            (Dec 0).

(** [ticker || txs[0].issuer.companyName]; reading [txs[0].issuer] of an empty
    group is a TypeError, here [None]. *)
Definition display_name (ticker : string) (txs : list JoinedTransaction)
    : option string :=
  match ticker with
  | String _ _ => Some ticker
  | EmptyString =>
      match txs with
      | t :: _ => Some (companyName (issuer t))
      | [] => None
      end
  end.

(** The note pushed when [txs.length > 3]. *)
Definition more_note (n : nat) : Block :=
  context_text ("_...and " ++ show_nat (n - 3) ++ " more transactions_").

(** One pass of the loop [for (const [ticker, txs] of sortedTickers)]. *)
Definition ticker_blocks (ticker : string) (txs : list JoinedTransaction)
    : option (list Block) :=
  match display_name ticker txs with
  | None => None
  | Some display =>
      Some ([ ticker_section display (count_code "P" txs) (count_code "S" txs)
                             (sum_value txs);
              context_lines (map insiderLine (topInsiders txs)) ]
            ++ (if (3 <? length txs)%nat then [more_note (length txs)] else [])
            ++ [divider])%list
  end.

(** [Math.max(...txs.map(abs))]: [NaN] as soon as one score is [NaN], and
    [-Infinity] for an empty group, for which [-1] stands (it is below
    every magnitude, and the difference of two of them is not above zero,
    as [NaN] is not). *)
Definition max_abs_score (txs : list JoinedTransaction) : decimal :=
  fold_right (fun t m =>
                match abs_score t, m with
                | Dec a, Dec b => Dec (Z.max a b)
                | _, _ => DecNaN
                end)
             (Dec (-1)) txs.

Fixpoint insert_ticker (x : string * list JoinedTransaction)
    (l : list (string * list JoinedTransaction))
    : list (string * list JoinedTransaction) :=
  match l with
  | [] => [x]
  | y :: l' =>
      if exceeds (max_abs_score (snd y)) (max_abs_score (snd x))
      then y :: insert_ticker x l' else x :: l
  end.

Definition sortedTickers (m : list (string * list JoinedTransaction))
    : list (string * list JoinedTransaction) :=
  fold_right insert_ticker [] m.

Fixpoint all_ticker_blocks (m : list (string * list JoinedTransaction))
    : option (list Block) :=
  match m with
  | [] => Some []
  | (ticker, txs) :: rest =>
      match ticker_blocks ticker txs, all_ticker_blocks rest with
      | Some b, Some bs => Some (b ++ bs)%list
      | _, _ => None
      end
  end.

Record SlackMessage : Type := {
  fallback_date : date;
  fallback_total : nat;
  fallback_tickers : nat;
  blocks : list Block
}.

(** [formatDailyDigest(date, transactionsByTicker)]; the map is the list of
    its entries in insertion order.  [None] stands for the TypeError above. *)
Definition formatDailyDigest (d : date) (m : list (string * list JoinedTransaction))
    : option SlackMessage :=
  let totalTransactions := fold_left (fun sum e => (sum + length (snd e))%nat) m 0%nat in
  match all_ticker_blocks (sortedTickers m) with
  | None => None
  | Some bs =>
      Some {| fallback_date := d;
              fallback_total := totalTransactions;
              fallback_tickers := length m;
              blocks := ([ header "Daily Insider Trading Digest";
                          summary totalTransactions (length m);
                          divider ] ++ bs)%list |}
  end.

End Digest.

(* ================================================================== *)
(** * domain/pipeline: Form4Processor and DailyDigestAggregator *)
(* ================================================================== *)

(** The processor threads the store and the messages handed to Slack
    through its calls, and an exception unwinds to the nearest [catch];
    both are explicit here.  What the outside world answers is a parameter:
    the webhook URL the Slack client was built with, the reply to the n-th
    message posted, and the conversion of a JavaScript number to a decimal
    column of a given scale ([None] when the database rejects the value and
    the call throws). *)
Module Pipeline.

Import JsNumber Store.
Local Open Scope string_scope.
Local Open Scope Z_scope.

Record IssuerInfo : Type := {
  info_cik : string;
  info_ticker : option string;
  info_companyName : string
}.

Record InsiderInfo : Type := {
  info_name : string;
  info_title : option string
}.

(** A parsed transaction whose date string denotes a day. *)
Record TransactionInfo : Type := {
  tx_transactionDate : date;
  tx_transactionCode : string;
  tx_shares : number;
  tx_pricePerShare : number;
  tx_transactionValue : number;
  tx_postTransactionShares : number;
  tx_isDirectOwnership : bool;
  tx_is10b51 : bool
}.

Record Form4Data : Type := {
  accessionNumber : string;
  form_issuer : IssuerInfo;
  form_insider : InsiderInfo;
  form_transactions : list TransactionInfo
}.

Record SlackMessageResponse : Type := {
  ok : bool;
  ts : option string;
  error : option string
}.

(** The arguments of [formatUrgentAlert], and a formatted digest. *)
Inductive SlackMessage : Type :=
  | UrgentAlert (transaction : Transaction) (issuer : IssuerInfo)
                (insider : InsiderInfo) (holdingsDeltaPercent : option number)
  | DailyDigest (message : Digest.SlackMessage).

Record World : Type := {
  db : DB;
  outbox : list SlackMessage
}.

Inductive Outcome (A : Type) : Type :=
  | Returned (a : A) (w : World)
  | Thrown (message : string) (w : World).

Arguments Returned {A} a w.
Arguments Thrown {A} message w.

Definition world_of {A : Type} (o : Outcome A) : World :=
  match o with
  | Returned _ w => w
  | Thrown _ w => w
  end.

Definition M (A : Type) : Type := World -> Outcome A.

Definition ret {A : Type} (a : A) : M A := fun w => Returned a w.

Definition bind {A B : Type} (m : M A) (f : A -> M B) : M B :=
  fun w =>
    match m w with
    | Returned a w' => f a w'
    | Thrown e w' => Thrown e w'
    end.

Definition throw {A : Type} (e : string) : M A := fun w => Thrown e w.

Definition try_catch {A : Type} (m : M A) (handler : string -> M A) : M A :=
  fun w =>
    match m w with
    | Returned a w' => Returned a w'
    | Thrown e w' => handler e w'
    end.

Definition query {A : Type} (f : DB -> A) : M A :=
  fun w => Returned (f (db w)) w.

Definition mutate {A : Type} (f : DB -> A * DB) : M A :=
  fun w => let (a, d) := f (db w) in Returned a {| db := d; outbox := outbox w |}.

Notation "x <- m ;; k" := (bind m (fun x => k))
  (at level 61, m at next level, right associativity).
Notation "m ;;; k" := (bind m (fun _ => k))
  (at level 61, right associativity).

(** [for (const x of xs) await body(x)] *)
Fixpoint for_each {A : Type} (body : A -> M unit) (xs : list A) : M unit :=
  match xs with
  | [] => ret tt
  | x :: rest => body x ;;; for_each body rest
  end.

(** ** Lookups made before scoring *)

(** [checkFirstActivity]: the cutoff is the transaction date less
    [FIRST_ACTIVITY_DAYS] (the host computes in UTC);
    [!lastTxDate || lastTxDate < cutoffDateStr]. *)
Definition checkFirstActivity (d : DB) (insider : uuid) (transactionDate : date) : bool :=
  let cutoffDate := transactionDate - Scoring.FIRST_ACTIVITY_DAYS in
  let lastTxDate := getInsiderLastTransactionDate d insider transactionDate in
  match lastTxDate with
  | None => true
  | Some last => last <? cutoffDate
  end.

(** [getClusterBonus]: [Math.max(0, count)] of a count is the count. *)
Definition getClusterBonus (d : DB) (issuer insider : uuid) (transactionDate : date) : nat :=
  let startDate := transactionDate - Scoring.CLUSTER_DETECTION_DAYS in
  let endDate := transactionDate + Scoring.CLUSTER_DETECTION_DAYS in
  Nat.max 0 (getDistinctInsiderCountInCluster d issuer startDate endDate (Some insider)).

(** [Number(s)] of a stored [decimal(_, 4)]. *)
Definition Number4 (z : decimal) : number :=
  match z with
  | Dec units => Fin (IZR units / 10000)
  | DecNaN => NaN
  end.

(** The holdings delta handed to [formatUrgentAlert]. *)
Definition holdingsDelta (d : DB) (insider : uuid) (transaction : Transaction)
    : option number :=
  let previousTx :=
    getInsiderPreviousTransaction d insider (transactionDate (fields transaction)) in
  match previousTx with
  | Some p =>
      Some (Scoring.calculateHoldingsDelta
              (Number4 (postTransactionShares (fields p)))
              (Number4 (postTransactionShares (fields transaction))))
  | None => None
  end.

(** [formatUrgentAlert] shows the delta when it is defined and not zero. *)
Definition shows_holdings_delta (m : SlackMessage) : bool :=
  match m with
  | UrgentAlert _ _ _ (Some x) => negb (is_zero x)
  | _ => false
  end.

Section Environment.

Variable webhookUrl : string.
Variable slack : nat -> SlackMessageResponse.
Variable numeric : nat -> number -> option decimal.

(** [SlackClient.postMessage]: throws when no webhook is configured; a
    failed request is a reply with [ok = false]. *)
Definition postMessage (message : SlackMessage) : M SlackMessageResponse :=
  fun w =>
    if negb (JsString.truthy (Some webhookUrl)) then
      Thrown "SLACK_WEBHOOK_URL not configured" w
    else
      Returned (slack (length (outbox w)))
               {| db := db w; outbox := outbox w ++ [message] |}.

Definition postUrgentAlert (transaction : Transaction) (form4Data : Form4Data)
    (insider : uuid) : M unit :=
  alreadyAlerted <- query (fun d => hasSlackAlertForTransaction d (id transaction) urgent) ;;
  if alreadyAlerted : bool then ret tt
  else
    delta <- query (fun d => holdingsDelta d insider transaction) ;;
    let message :=
      UrgentAlert transaction (form_issuer form4Data) (form_insider form4Data) delta in
    response <- postMessage message ;;
    if ok response then
      mutate (fun d =>
        recordSlackAlert d
          {| transactionId := id transaction;
             alert_issuerId := issuerId (fields transaction);
             alertType := urgent;
             slackMessageTs := ts response;
             slackThreadTs := ts response |}) ;;;
      ret tt
    else ret tt.

(** [x.toString()] handed to a decimal column of scale [s]. *)
Definition to_decimal (s : nat) (x : number) : M decimal :=
  match numeric s x with
  | Some z => ret z
  | None => throw "invalid input syntax for type numeric"
  end.

Definition scoreInput (d : DB) (form4Data : Form4Data) (txInfo : TransactionInfo)
    (issuer insider : uuid) : Scoring.ScoreInput :=
  {| Scoring.transactionCode := tx_transactionCode txInfo;
     Scoring.transactionValue := tx_transactionValue txInfo;
     Scoring.insiderTitle := info_title (form_insider form4Data);
     Scoring.isFirstActivityIn180Days :=
       Some (checkFirstActivity d insider (tx_transactionDate txInfo));
     Scoring.additionalInsidersInCluster :=
       Some (Fin (INR (getClusterBonus d issuer insider (tx_transactionDate txInfo)))) |}.

Definition processTransaction (form4Data : Form4Data) (txInfo : TransactionInfo)
    (issuer insider : uuid) : M unit :=
  input <- query (fun d => scoreInput d form4Data txInfo issuer insider) ;;
  let scoreResult := Scoring.calculateSignalScore input in
  shares_ <- to_decimal 4 (tx_shares txInfo) ;;
  price_ <- to_decimal 4 (tx_pricePerShare txInfo) ;;
  value_ <- to_decimal 2 (tx_transactionValue txInfo) ;;
  post_ <- to_decimal 4 (tx_postTransactionShares txInfo) ;;
  score_ <- to_decimal 2 (Scoring.score scoreResult) ;;
  transaction <- mutate (fun d =>
    upsertTransaction d
      {| filingAccession := accessionNumber form4Data;
         insiderId := insider;
         issuerId := issuer;
         transactionDate := tx_transactionDate txInfo;
         transactionCode := tx_transactionCode txInfo;
         shares := shares_;
         price := price_;
         transactionValue := value_;
         postTransactionShares := post_;
         isDirectOwnership := tx_isDirectOwnership txInfo;
         is10b51 := tx_is10b51 txInfo;
         signalScore := score_ |}) ;;
  if Scoring.shouldTriggerUrgentAlert (Scoring.score scoreResult)
                                      (tx_transactionValue txInfo)
  then postUrgentAlert transaction form4Data insider
  else ret tt.

Definition is_buy_or_sell (txInfo : TransactionInfo) : bool :=
  String.eqb (tx_transactionCode txInfo) Types.TRANSACTION_CODE_BUY
  || String.eqb (tx_transactionCode txInfo) Types.TRANSACTION_CODE_SELL.

(** What fetching and parsing one filing gave: an exception, or the form. *)
Record Filing : Type := {
  filing_accession : string;
  fetched : string + Form4Data
}.

Definition processSingleFiling (f : Filing) : M unit :=
  match fetched f with
  | inl e => throw e
  | inr form4Data =>
      issuer <- mutate (fun d =>
        upsertIssuer d (info_cik (form_issuer form4Data))
                     (info_ticker (form_issuer form4Data))
                     (info_companyName (form_issuer form4Data))) ;;
      insider <- mutate (fun d =>
        upsertInsider d (issuer_id issuer) (info_name (form_insider form4Data))
                      (info_title (form_insider form4Data))) ;;
      let relevantTransactions := filter is_buy_or_sell (form_transactions form4Data) in
      for_each (fun txInfo =>
                  processTransaction form4Data txInfo (issuer_id issuer)
                                     (insider_id insider))
               relevantTransactions
  end.

Record ProcessorStats : Type := {
  filingsProcessed : nat;
  transactionsCreated : nat;
  transactionsUpdated : nat;
  urgentAlertsPosted : nat;
  errors : list (string * string)
}.

Definition count_filing (s : ProcessorStats) : ProcessorStats :=
  {| filingsProcessed := S (filingsProcessed s);
     transactionsCreated := transactionsCreated s;
     transactionsUpdated := transactionsUpdated s;
     urgentAlertsPosted := urgentAlertsPosted s;
     errors := errors s |}.

Definition push_error (s : ProcessorStats) (filing message : string) : ProcessorStats :=
  {| filingsProcessed := filingsProcessed s;
     transactionsCreated := transactionsCreated s;
     transactionsUpdated := transactionsUpdated s;
     urgentAlertsPosted := urgentAlertsPosted s;
     errors := errors s ++ [(filing, message)] |}.

Fixpoint process_filings (filings : list Filing) (stats : ProcessorStats)
    : M ProcessorStats :=
  match filings with
  | [] => ret stats
  | f :: rest =>
      stats' <- try_catch (processSingleFiling f ;;; ret (count_filing stats))
                          (fun e => ret (push_error stats (filing_accession f) e)) ;;
      process_filings rest stats'
  end.

(** [process]: the feed is the list of recent filings or the exception of
    fetching it. *)
Definition process (feed : string + list Filing) : M ProcessorStats :=
  let stats := {| filingsProcessed := 0; transactionsCreated := 0;
                  transactionsUpdated := 0; urgentAlertsPosted := 0;
                  errors := [] |} in
  match feed with
  | inl e => ret (push_error stats "FETCH_FILINGS" e)
  | inr filings => process_filings filings stats
  end.

(** ** DailyDigestAggregator *)

Definition join (d : DB) (r : Transaction) : option Digest.JoinedTransaction :=
  match find (fun i => Nat.eqb (issuer_id i) (issuerId (fields r))) (issuers d),
        find (fun i => Nat.eqb (insider_id i) (insiderId (fields r))) (insiders d) with
  | Some iss, Some ins =>
      Some {| Digest.tx := r; Digest.issuer := iss; Digest.insider := ins |}
  | _, _ => None
  end.

Fixpoint joined (d : DB) (rows : list Transaction) : list Digest.JoinedTransaction :=
  match rows with
  | [] => []
  | r :: rest =>
      match join d r with
      | Some j => j :: joined d rest
      | None => joined d rest
      end
  end.

Fixpoint group_insert (key : string) (t : Digest.JoinedTransaction)
    (m : list (string * list Digest.JoinedTransaction))
    : list (string * list Digest.JoinedTransaction) :=
  match m with
  | [] => [(key, [t])]
  | (k, txs) :: rest =>
      if String.eqb k key then (k, (txs ++ [t])%list) :: rest
      else (k, txs) :: group_insert key t rest
  end.

Definition groupByTicker (transactions : list Digest.JoinedTransaction)
    : list (string * list Digest.JoinedTransaction) :=
  fold_left
    (fun grouped t =>
       let key := match ticker (Digest.issuer t) with
                  | Some (String c s) => String c s
                  | _ => companyName (Digest.issuer t)
                  end in
       group_insert key t grouped)
    transactions [].

Record DigestStats : Type := {
  digest_date : date;
  transactionsProcessed : nat;
  tickersIncluded : nat;
  digestPosted : bool;
  digest_error : option string
}.

Definition record_digest_alert (response : SlackMessageResponse)
    (t : Digest.JoinedTransaction) : M unit :=
  try_catch
    (mutate (fun d =>
       recordSlackAlert d
         {| transactionId := id (Digest.tx t);
            alert_issuerId := issuerId (fields (Digest.tx t));
            alertType := digest;
            slackMessageTs := ts response;
            slackThreadTs := ts response |}) ;;;
     ret tt)
    (fun _ => ret tt).

Definition generateDigest (day : date) : M DigestStats :=
  transactions <- query (fun d => joined d (getDailyTransactionsByDate d day)) ;;
  match transactions with
  | [] =>
      ret {| digest_date := day; transactionsProcessed := 0; tickersIncluded := 0;
             digestPosted := false; digest_error := None |}
  | _ :: _ =>
      let transactionsByTicker := groupByTicker transactions in
      let stats (posted : bool) (e : option string) :=
        {| digest_date := day;
           transactionsProcessed := length transactions;
           tickersIncluded := length transactionsByTicker;
           digestPosted := posted; digest_error := e |} in
      try_catch
        (match Digest.formatDailyDigest day transactionsByTicker with
         | None => throw "Cannot read properties of undefined"
         | Some message =>
             response <- postMessage (DailyDigest message) ;;
             if ok response then
               for_each (record_digest_alert response) transactions ;;;
               ret (stats true None)
             else ret (stats false (error response))
         end)
        (fun e => ret (stats false (Some e)))
  end.

(** ** States reachable by runs of the two jobs, one after the other *)

Inductive run : World -> World -> Prop :=
  | run_process (feed : string + list Filing) (w : World) :
      run w (world_of (process feed w))
  | run_digest (day : date) (w : World) :
      run w (world_of (generateDigest day w)).

Inductive reachable : World -> Prop :=
  | reachable_start : reachable {| db := empty_db; outbox := [] |}
  | reachable_run (w w' : World) : reachable w -> run w w' -> reachable w'.

End Environment.

End Pipeline.

(* ================================================================== *)
(** * The regular expressions of sec/parser.ts *)
(* ================================================================== *)

(** The parser is written with [RegExp]: fixed patterns, patterns built
    around a tag name, and one pattern built around text taken from the
    document.  This module gives the pattern syntax and the backtracking
    matcher of ECMA-262 (without the [u] flag) for the constructs those
    patterns are made of: characters, [.], classes, groups, alternatives,
    quantifiers, [^] and [$].  A pattern that uses anything else (groups
    opened by a question mark other than the non-capturing one,
    back-references, word boundaries, control, hexadecimal, unicode and
    octal escapes) is [Foreign]: what the host engine does with it is left
    to a parameter of the parser.  Code units from 128 on have no case. *)
Module RegExp.

Import JsString.
Local Open Scope string_scope.
Local Open Scope nat_scope.

Definition code (c : ascii) : nat := nat_of_ascii c.

Definition is_digit (c : ascii) : bool := (48 <=? code c) && (code c <=? 57).

Definition is_letter (c : ascii) : bool := is_lower c || is_upper c.

(** [\w] *)
Definition is_word (c : ascii) : bool :=
  is_letter c || is_digit c || (code c =? 95).

(** [\s], and the characters [trim] strips: white space and line terminators. *)
Definition is_space (c : ascii) : bool :=
  ((9 <=? code c) && (code c <=? 13)) || (code c =? 32) || (code c =? 160).

Definition is_line_terminator (c : ascii) : bool :=
  (code c =? 10) || (code c =? 13).

Inductive ClassItem : Type :=
  | item_char (c : ascii)
  | item_range (lo hi : ascii)
  | item_digit (negated : bool)
  | item_space (negated : bool)
  | item_word (negated : bool).

Inductive Regex : Type :=
  | Empty
  | Char (c : ascii)
  | Dot
  | Class (negated : bool) (items : list ClassItem)
  | Seq (r1 r2 : Regex)
  | Alt (r1 r2 : Regex)
  | Repeat (r : Regex) (min : nat) (max : option nat) (greedy : bool)
  | Group (index : nat) (r : Regex)
  | Bol
  | Eol.

(** ** Matching *)

Record MatchState : Type := {
  endIndex : nat;
  rest : string;
  captures : list (nat * string)
}.

Definition Continuation : Type := MatchState -> option MatchState.

Definition advance (x : MatchState) (s' : string) : MatchState :=
  {| endIndex := S (endIndex x); rest := s'; captures := captures x |}.

(** The text between two states of one match. *)
Fixpoint take (n : nat) (s : string) : string :=
  match n, s with
  | S n', String c s' => String c (take n' s')
  | _, _ => EmptyString
  end.

Fixpoint drop (n : nat) (s : string) : string :=
  match n, s with
  | S n', String _ s' => drop n' s'
  | _, _ => s
  end.

Definition set_capture (index : nat) (x y : MatchState) : MatchState :=
  {| endIndex := endIndex y; rest := rest y;
     captures :=
       (index, take (endIndex y - endIndex x) (rest x))
       :: filter (fun p => negb (fst p =? index)) (captures y) |}.

Definition clear_captures (indices : list nat) (x : MatchState) : MatchState :=
  {| endIndex := endIndex x; rest := rest x;
     captures :=
       filter (fun p => negb (existsb (Nat.eqb (fst p)) indices)) (captures x) |}.

Fixpoint capture (index : nat) (caps : list (nat * string)) : option string :=
  match caps with
  | [] => None
  | (i, s) :: caps' => if i =? index then Some s else capture index caps'
  end.

Fixpoint groups_of (r : Regex) : list nat :=
  match r with
  | Seq r1 r2 | Alt r1 r2 => groups_of r1 ++ groups_of r2
  | Repeat r1 _ _ _ => groups_of r1
  | Group i r1 => i :: groups_of r1
  | _ => []
  end.

(** Canonicalize: with [ignoreCase] characters are compared upper-cased. *)
Definition char_eq (ignoreCase : bool) (a ch : ascii) : bool :=
  if ignoreCase then Ascii.eqb (upper_char a) (upper_char ch) else Ascii.eqb a ch.

Definition item_mem (it : ClassItem) (ch : ascii) : bool :=
  match it with
  | item_char c => Ascii.eqb c ch
  | item_range lo hi => (code lo <=? code ch) && (code ch <=? code hi)
  | item_digit neg => xorb neg (is_digit ch)
  | item_space neg => xorb neg (is_space ch)
  | item_word neg => xorb neg (is_word ch)
  end.

(** Some member of the set canonicalizes to what [ch] canonicalizes to. *)
Definition class_mem (ignoreCase : bool) (items : list ClassItem) (ch : ascii) : bool :=
  if ignoreCase then
    existsb (fun it => item_mem it (upper_char ch)
                       || item_mem it (lower_char (upper_char ch))) items
  else existsb (fun it => item_mem it ch) items.

(** RepeatMatcher, for the matcher [m1] of the quantified atom.  An
    iteration of a satisfied quantifier that consumes nothing fails, so
    [min] plus the length of the remaining input bounds the iterations left;
    [fuel] is that bound. *)
Section RepeatMatcher.

Variable m1 : MatchState -> Continuation -> option MatchState.
Variable inner_groups : list nat.
Variable greedy : bool.
Variable c : Continuation.

Fixpoint repeat_loop (fuel min : nat) (max : option nat) (x : MatchState)
    {struct fuel} : option MatchState :=
  match max with
  | Some 0 => c x
  | _ =>
      match fuel with
      | 0 => None
      | S fuel' =>
          let d := fun y : MatchState =>
            if (min =? 0) && (endIndex y =? endIndex x) then None
            else repeat_loop fuel' (pred min) (option_map pred max) y in
          let xr := clear_captures inner_groups x in
          if negb (min =? 0) then m1 xr d
          else if greedy then
            match m1 xr d with
            | Some z => Some z
            | None => c x
            end
          else
            match c x with
            | Some z => Some z
            | None => m1 xr d
            end
      end
  end.

End RepeatMatcher.

Fixpoint matcher (ignoreCase : bool) (r : Regex) (x : MatchState) (c : Continuation)
    {struct r} : option MatchState :=
  match r with
  | Empty => c x
  | Char a =>
      match rest x with
      | String ch s' => if char_eq ignoreCase a ch then c (advance x s') else None
      | EmptyString => None
      end
  | Dot =>
      match rest x with
      | String ch s' => if is_line_terminator ch then None else c (advance x s')
      | EmptyString => None
      end
  | Class negated items =>
      match rest x with
      | String ch s' =>
          if xorb negated (class_mem ignoreCase items ch) then c (advance x s') else None
      | EmptyString => None
      end
  | Seq r1 r2 => matcher ignoreCase r1 x (fun y => matcher ignoreCase r2 y c)
  | Alt r1 r2 =>
      match matcher ignoreCase r1 x c with
      | Some z => Some z
      | None => matcher ignoreCase r2 x c
      end
  | Group index r1 =>
      matcher ignoreCase r1 x (fun y => c (set_capture index x y))
  | Bol => if endIndex x =? 0 then c x else None
  | Eol => match rest x with EmptyString => c x | _ => None end
  | Repeat r1 min max greedy =>
      repeat_loop (matcher ignoreCase r1) (groups_of r1) greedy c
                  (S (min + String.length (rest x))) min max x
  end.

(** The result of [RegExpBuiltinExec]: where the match starts and ends,
    and the captures. *)
Record MatchResult : Type := {
  index : nat;
  lastIndex : nat;
  groups : list (nat * string)
}.

(** Try every start index from [from] on; [s] is the input from there. *)
Fixpoint exec_from (ignoreCase : bool) (r : Regex) (from : nat) (s : string)
    : option MatchResult :=
  match matcher ignoreCase r {| endIndex := from; rest := s; captures := [] |}
                (fun y => Some y) with
  | Some y => Some {| index := from; lastIndex := endIndex y; groups := captures y |}
  | None =>
      match s with
      | EmptyString => None
      | String _ s' => exec_from ignoreCase r (S from) s'
      end
  end.

(** [str.match(regex)] for a regex without the [g] flag. *)
Definition exec (ignoreCase : bool) (r : Regex) (s : string) : option MatchResult :=
  exec_from ignoreCase r 0 s.

(** [str.matchAll(regex)]: each search starts where the last match ended,
    one further after an empty match. *)
Fixpoint matchAll_from (fuel : nat) (ignoreCase : bool) (r : Regex) (from : nat)
    (s : string) : list MatchResult :=
  match fuel with
  | 0 => []
  | S fuel' =>
      match exec_from ignoreCase r from s with
      | None => []
      | Some res =>
          let next := if lastIndex res =? index res then S (lastIndex res)
                      else lastIndex res in
          res :: (if String.length s <? next - from then []
                  else matchAll_from fuel' ignoreCase r next (drop (next - from) s))
      end
  end.

Definition matchAll (ignoreCase : bool) (r : Regex) (s : string) : list MatchResult :=
  matchAll_from (S (String.length s)) ignoreCase r 0 s.

End RegExp.

(* ================================================================== *)
(** * Pattern syntax *)
(* ================================================================== *)

Module Pattern.

Import JsString RegExp.
Local Open Scope string_scope.
Local Open Scope nat_scope.

(** What [new RegExp(pattern)] makes of a pattern. *)
Inductive Compiled : Type :=
  | Parsed (r : Regex)
  | SyntaxError (message : string)
  | Foreign.

Inductive PResult : Type :=
  | POk (r : Regex) (rest : string) (ngroups : nat)
  | PErr (message : string)
  | PForeign.

(** A run of decimal digits and its value. *)
Fixpoint digits_value (s : string) (acc : nat) : nat * string :=
  match s with
  | String c s' =>
      if is_digit c then digits_value s' (10 * acc + (code c - 48)) else (acc, s)
  | EmptyString => (acc, s)
  end.

Definition parse_digits (s : string) : option (nat * string) :=
  match s with
  | String c _ => if is_digit c then Some (digits_value s 0) else None
  | EmptyString => None
  end.

(** After an opening brace: [n}], [n,}] or [n,m}]. *)
Definition parse_braces (s : string) : option (nat * option nat * string) :=
  match parse_digits s with
  | None => None
  | Some (n, s1) =>
      match s1 with
      | String "}" s2 => Some (n, Some n, s2)
      | String "," (String "}" s2) => Some (n, None, s2)
      | String "," s2 =>
          match parse_digits s2 with
          | Some (m, String "}" s3) => Some (n, Some m, s3)
          | _ => None
          end
      | _ => None
      end
  end.

Inductive QResult : Type :=
  | QNone
  | QSome (min : nat) (max : option nat) (greedy : bool) (rest : string)
  | QErr (message : string).

Definition lazy_suffix (min : nat) (max : option nat) (s : string) : QResult :=
  match s with
  | String "?" s' => QSome min max false s'
  | _ => QSome min max true s
  end.

Definition parse_quantifier (s : string) : QResult :=
  match s with
  | String "*" s' => lazy_suffix 0 None s'
  | String "+" s' => lazy_suffix 1 None s'
  | String "?" s' => lazy_suffix 0 (Some 1) s'
  | String "{" s' =>
      match parse_braces s' with
      | Some (n, Some m, s'') =>
          if (m <? n)%nat then QErr "numbers out of order in {} quantifier"
          else lazy_suffix n (Some m) s''
      | Some (n, None, s'') => lazy_suffix n None s''
      | None => QNone
      end
  | _ => QNone
  end.

Inductive ClassAtom : Type :=
  | atom_char (c : ascii)
  | atom_set (it : ClassItem)
  | atom_foreign
  | atom_unterminated.

Definition control_escape (c : ascii) : option ascii :=
  match c with
  | "t"%char => Some (ascii_of_nat 9)
  | "n"%char => Some (ascii_of_nat 10)
  | "v"%char => Some (ascii_of_nat 11)
  | "f"%char => Some (ascii_of_nat 12)
  | "r"%char => Some (ascii_of_nat 13)
  | _ => None
  end.

Definition class_escape (c : ascii) : option ClassItem :=
  match c with
  | "d"%char => Some (item_digit false)
  | "D"%char => Some (item_digit true)
  | "s"%char => Some (item_space false)
  | "S"%char => Some (item_space true)
  | "w"%char => Some (item_word false)
  | "W"%char => Some (item_word true)
  | _ => None
  end.

(** Escapes whose meaning is not given here. *)
Definition foreign_escape (c : ascii) : bool :=
  is_digit c ||
  match c with
  | "b"%char | "B"%char | "c"%char | "k"%char | "u"%char | "x"%char => true
  | _ => false
  end.

Definition parse_class_atom (s : string) : ClassAtom * string :=
  match s with
  | EmptyString => (atom_unterminated, s)
  | String "\" EmptyString => (atom_unterminated, EmptyString)
  | String "\" (String c s') =>
      match class_escape c, control_escape c with
      | Some it, _ => (atom_set it, s')
      | None, Some k => (atom_char k, s')
      | None, None =>
          if foreign_escape c then (atom_foreign, s') else (atom_char c, s')
      end
  | String c s' => (atom_char c, s')
  end.

Definition item_of (a : ClassAtom) : list ClassItem :=
  match a with
  | atom_char c => [item_char c]
  | atom_set it => [it]
  | _ => []
  end.

(** ClassRanges, up to and including the closing bracket. *)
Fixpoint parse_class_items (fuel : nat) (s : string) (acc : list ClassItem)
    : option (string + (list ClassItem * string)) :=
  match fuel with
  | 0 => None
  | S fuel' =>
      match s with
      | String "]" s' => Some (inr (rev acc, s'))
      | _ =>
          match parse_class_atom s with
          | (atom_unterminated, _) => Some (inl "Unterminated character class")
          | (atom_foreign, _) => None
          | (a, s1) =>
              match s1 with
              | String "-" (String "]" _) | String "-" EmptyString =>
                  parse_class_items fuel' s1 (item_of a ++ acc)
              | String "-" s2 =>
                  match parse_class_atom s2 with
                  | (atom_unterminated, _) => Some (inl "Unterminated character class")
                  | (atom_foreign, _) => None
                  | (b, s3) =>
                      match a, b with
                      | atom_char lo, atom_char hi =>
                          if (code hi <? code lo)%nat
                          then Some (inl "Range out of order in character class")
                          else parse_class_items fuel' s3 (item_range lo hi :: acc)
                      | _, _ =>
                          parse_class_items fuel' s3
                            (item_of b ++ item_char "-"%char :: item_of a ++ acc)
                      end
                  end
              | _ => parse_class_items fuel' s1 (item_of a ++ acc)
              end
          end
      end
  end.

(** After an opening bracket. *)
Definition parse_class (s : string) : PResult :=
  let (negated, body) :=
    match s with
    | String "^" s' => (true, s')
    | _ => (false, s)
    end in
  match parse_class_items (S (String.length body)) body [] with
  | None => PForeign
  | Some (inl e) => PErr e
  | Some (inr (items, rest)) => POk (Class negated items) rest 0
  end.

(** After a backslash, outside a class. *)
Definition parse_atom_escape (s : string) : PResult :=
  match s with
  | EmptyString => PErr "\ at end of pattern"
  | String c s' =>
      match class_escape c, control_escape c with
      | Some it, _ => POk (Class false [it]) s' 0
      | None, Some k => POk (Char k) s' 0
      | None, None => if foreign_escape c then PForeign else POk (Char c) s' 0
      end
  end.

Definition quantify (r : Regex) (q : QResult) (s : string) : Regex * string + string :=
  match q with
  | QNone => inl (r, s)
  | QSome min max greedy rest => inl (Repeat r min max greedy, rest)
  | QErr e => inr e
  end.

(** Disjunction, Alternative and Atom; [n] counts the capturing groups
    opened so far.  The recursion is bounded by the length of the pattern;
    running out of fuel gives [PForeign]. *)
Fixpoint parse_disjunction (fuel : nat) (s : string) (n : nat) : PResult :=
  match fuel with
  | 0 => PForeign
  | S fuel' =>
      match parse_alternative fuel' s n with
      | POk r1 (String "|" s') n' =>
          match parse_disjunction fuel' s' n' with
          | POk r2 s'' n'' => POk (Alt r1 r2) s'' n''
          | other => other
          end
      | other => other
      end
  end

with parse_alternative (fuel : nat) (s : string) (n : nat) : PResult :=
  match fuel with
  | 0 => PForeign
  | S fuel' =>
      match s with
      | EmptyString => POk Empty s n
      | String "|" _ | String ")" _ => POk Empty s n
      | String "^" s' =>
          match parse_alternative fuel' s' n with
          | POk r rest n' => POk (Seq Bol r) rest n'
          | other => other
          end
      | String "$" s' =>
          match parse_alternative fuel' s' n with
          | POk r rest n' => POk (Seq Eol r) rest n'
          | other => other
          end
      | _ =>
          match parse_atom fuel' s n with
          | POk a s1 n1 =>
              match quantify a (parse_quantifier s1) s1 with
              | inr e => PErr e
              | inl (term, s2) =>
                  match parse_alternative fuel' s2 n1 with
                  | POk r rest n' => POk (Seq term r) rest n'
                  | other => other
                  end
              end
          | other => other
          end
      end
  end

with parse_atom (fuel : nat) (s : string) (n : nat) : PResult :=
  match fuel with
  | 0 => PForeign
  | S fuel' =>
      match s with
      | EmptyString => PForeign
      | String "." s' => POk Dot s' n
      | String "*" _ | String "+" _ | String "?" _ => PErr "Nothing to repeat"
      | String "{" s' =>
          match parse_braces s' with
          | Some _ => PErr "Nothing to repeat"
          | None => POk (Char "{"%char) s' n
          end
      | String "\" s' =>
          match parse_atom_escape s' with
          | POk r rest _ => POk r rest n
          | other => other
          end
      | String "[" s' =>
          match parse_class s' with
          | POk r rest _ => POk r rest n
          | other => other
          end
      | String "(" (String "?" (String ":" s')) =>
          match parse_disjunction fuel' s' n with
          | POk r (String ")" rest) n' => POk r rest n'
          | POk _ _ _ => PErr "Unterminated group"
          | other => other
          end
      | String "(" (String "?" (String _ _)) => PForeign
      | String "(" (String "?" EmptyString) => PErr "Invalid group"
      | String "(" s' =>
          match parse_disjunction fuel' s' (S n) with
          | POk r (String ")" rest) n' => POk (Group (S n) r) rest n'
          | POk _ _ _ => PErr "Unterminated group"
          | other => other
          end
      | String c s' => POk (Char c) s' n
      end
  end.

(** [new RegExp(pattern, flags)]: the pattern as a whole. *)
Definition compile (pattern : string) : Compiled :=
  match parse_disjunction (4 * String.length pattern + 8) pattern 0 with
  | POk r EmptyString _ => Parsed r
  | POk _ (String _ _) _ => SyntaxError "Unmatched ')'"
  | PErr e => SyntaxError e
  | PForeign => Foreign
  end.

End Pattern.

(* ================================================================== *)
(** * Numbers read from text *)
(* ================================================================== *)

(** The numbers the parser produces: an exact rational or one of the
    special values.  Rounding to the nearest double is not represented,
    except that a magnitude beyond the range of doubles is an infinity and
    one below it is zero. *)
Module NumberQ.

Import JsString RegExp.
Local Open Scope string_scope.

Inductive number : Type :=
  | Fin (q : Q)
  | PosInf
  | NegInf
  | NaN.

Definition isNaN (x : number) : bool :=
  match x with NaN => true | _ => false end.

(** The least magnitude that rounds to an infinity, and the greatest that
    rounds to zero. *)
Definition overflow_threshold : Q := inject_Z (2 ^ 1024 - 2 ^ 970).
Definition underflow_threshold : Q := 1 # (2 ^ 1075).

Definition in_range (q : Q) : number :=
  if Qle_bool overflow_threshold (Qabs q) then
    (if Qle_bool 0 q then PosInf else NegInf)
  else if Qle_bool (Qabs q) underflow_threshold then Fin 0
  else Fin q.

Definition is_zeroQ (q : Q) : bool := Qeq_bool q 0.

Definition mul (x y : number) : number :=
  match x, y with
  | NaN, _ | _, NaN => NaN
  | Fin a, Fin b => in_range (a * b)
  | Fin a, PosInf | PosInf, Fin a =>
      if is_zeroQ a then NaN else if Qle_bool 0 a then PosInf else NegInf
  | Fin a, NegInf | NegInf, Fin a =>
      if is_zeroQ a then NaN else if Qle_bool 0 a then NegInf else PosInf
  | PosInf, PosInf | NegInf, NegInf => PosInf
  | PosInf, NegInf | NegInf, PosInf => NaN
  end.

Definition neg (x : number) : number :=
  match x with
  | Fin q => Fin (- q)
  | PosInf => NegInf
  | NegInf => PosInf
  | NaN => NaN
  end.

(** [x > 0], [x >= 0], [x <= 0], [x < 0] *)
Definition gt0 (x : number) : bool :=
  match x with
  | Fin q => negb (Qle_bool q 0)
  | PosInf => true
  | _ => false
  end.

Definition ge0 (x : number) : bool :=
  match x with
  | Fin q => Qle_bool 0 q
  | PosInf => true
  | _ => false
  end.

Definition le0 (x : number) : bool :=
  match x with
  | Fin q => Qle_bool q 0
  | NegInf => true
  | _ => false
  end.

Definition lt0 (x : number) : bool :=
  match x with
  | Fin q => negb (Qle_bool 0 q)
  | NegInf => true
  | _ => false
  end.

(** ** [parseFloat] *)

Fixpoint trimStart (s : string) : string :=
  match s with
  | String c s' => if is_space c then trimStart s' else s
  | EmptyString => s
  end.

Fixpoint rev_string (s acc : string) : string :=
  match s with
  | String c s' => rev_string s' (String c acc)
  | EmptyString => acc
  end.

(** [String.prototype.trim] *)
Definition trim (s : string) : string :=
  rev_string (trimStart (rev_string (trimStart s) "")) "".

(** A run of digits: its value appended to [acc], how many, and the rest. *)
Fixpoint read_digits (s : string) (acc : Z) (count : nat) : Z * nat * string :=
  match s with
  | String c s' =>
      if is_digit c
      then read_digits s' (10 * acc + Z.of_nat (code c - 48))%Z (S count)
      else (acc, count, s)
  | EmptyString => (acc, count, s)
  end.

(** [e], an optional sign and at least one digit; zero when there is no
    well-formed exponent part. *)
Definition read_exponent (s : string) : Z :=
  match s with
  | String c s' =>
      if Ascii.eqb c "e" || Ascii.eqb c "E" then
        let '(negative, s'') :=
          match s' with
          | String "-" t => (true, t)
          | String "+" t => (false, t)
          | _ => (false, s')
          end in
        match read_digits s'' 0 0 with
        | (_, O, _) => 0%Z
        | (e, S _, _) => if negative : bool then (- e)%Z else e
        end
      else 0%Z
  | EmptyString => 0%Z
  end.

(** [mantissa * 10 ^ exponent] *)
Definition scale10 (mantissa exponent : Z) : Q :=
  if (0 <=? exponent)%Z then inject_Z (mantissa * 10 ^ exponent)
  else mantissa # Z.to_pos (10 ^ (- exponent)).

(** The longest prefix that is a StrUnsignedDecimalLiteral. *)
Definition read_unsigned (s : string) : number :=
  if startsWith s "Infinity" then PosInf
  else
    let '(int, ni, s1) := read_digits s 0 0 in
    let '(mantissa, nf, s2) :=
      match s1 with
      | String "." t => read_digits t int 0
      | _ => (int, O, s1)
      end in
    match (ni + nf)%nat with
    | O => NaN
    | S _ => in_range (scale10 mantissa (read_exponent s2 - Z.of_nat nf))
    end.

Definition parseFloat (s : string) : number :=
  match trimStart s with
  | String "-" t => neg (read_unsigned t)
  | String "+" t => read_unsigned t
  | t => read_unsigned t
  end.

End NumberQ.

(* ================================================================== *)
(** * sec/parser.ts: Form4Parser *)
(* ================================================================== *)

Module Parser.

Import JsString RegExp Pattern NumberQ.
Local Open Scope string_scope.

Inductive JsError : Type :=
  | RegExpSyntaxError (message : string)
  | TypeError (message : string).

Inductive Result (A : Type) : Type :=
  | Ok (a : A)
  | Throw (e : JsError).

Arguments Ok {A} a.
Arguments Throw {A} e.

Definition bind {A B : Type} (m : Result A) (f : A -> Result B) : Result B :=
  match m with
  | Ok a => f a
  | Throw e => Throw e
  end.

Notation "x <- m ;; k" := (bind m (fun x => k))
  (at level 61, m at next level, right associativity).

Record IssuerInfo : Type := {
  cik : string;
  ticker : option string;
  companyName : string
}.

Record InsiderInfo : Type := {
  name : string;
  title : option string;
  isDirector : bool;
  isOfficer : bool;
  isTenPercentOwner : bool;
  isOther : bool
}.

Record TransactionInfo : Type := {
  transactionDate : string;
  transactionCode : string;
  shares : number;
  pricePerShare : number;
  transactionValue : number;
  postTransactionShares : number;
  isDirectOwnership : bool;
  is10b51 : bool
}.

Record Form4Data : Type := {
  accessionNumber : string;
  filingDate : string;
  issuer : IssuerInfo;
  insider : InsiderInfo;
  transactions : list TransactionInfo
}.

(** The double quote, which patterns mention. *)
Definition dq : string := String (ascii_of_nat 34) EmptyString.

(** A regular expression literal of the source. *)
Definition literal (pattern : string) : Regex :=
  match compile pattern with
  | Parsed r => r
  | _ => Empty
  end.

(** [x || ""] and [x || undefined] on a [string | null]. *)
Definition or_empty (x : option string) : string :=
  match x with Some s => s | None => "" end.

Definition or_undefined (x : option string) : option string :=
  if truthy x then x else None.

(** [x === s] on a [string | null]. *)
Definition is_string (x : option string) (s : string) : bool :=
  match x with Some t => String.eqb t s | None => false end.

(** What the host engine does with a pattern this development gives no
    meaning to: it rejects the pattern, or finds no match, or finds one,
    whose first group captured something or did not take part. *)
Inductive HostOutcome : Type :=
  | host_throws (message : string)
  | host_null
  | host_match (group1 : option string).

(** [cik.replace(/^0+/, "")] *)
Definition strip_leading_zeros (s : string) : string :=
  match exec false (literal "^0+") s with
  | Some res => take (index res) s ++ drop (lastIndex res) s
  | None => s
  end.

Section Host.

Variable host : string -> string -> HostOutcome.

(** [xml.match(new RegExp(pattern, "i"))], reduced to [match[1]]:
    [Ok None] for [null]. *)
Definition match_group1 (pattern xml : string) : Result (option (option string)) :=
  match compile pattern with
  | Parsed r =>
      Ok (match exec true r xml with
          | Some res => Some (capture 1 (groups res))
          | None => None
          end)
  | SyntaxError e => Throw (RegExpSyntaxError e)
  | Foreign =>
      match host pattern xml with
      | host_throws e => Throw (RegExpSyntaxError e)
      | host_null => Ok None
      | host_match g => Ok (Some g)
      end
  end.

(** [match[1].trim()] and the like: a method call on [undefined] throws. *)
Definition defined (g : option string) : Result string :=
  match g with
  | Some s => Ok s
  | None => Throw (TypeError "Cannot read properties of undefined")
  end.

Definition extractText (xml tagName : string) : Result (option string) :=
  m <- match_group1
         ("<" ++ tagName ++ "[^>]*>\s*<value>([\s\S]*?)<\/value>\s*</" ++ tagName ++ ">")
         xml ;;
  match m with
  | Some g => s <- defined g ;; Ok (Some (trim s))
  | None =>
      m' <- match_group1
              ("<" ++ tagName ++ "[^>]*>([\s\S]*?)</" ++ tagName ++ ">") xml ;;
      match m' with
      | Some g => s <- defined g ;; Ok (Some (trim s))
      | None => Ok None
      end
  end.

Definition extractAttribute (xml attrName : string) : Result (option string) :=
  m <- match_group1
         (attrName ++ "=[" ++ dq ++ "']([^" ++ dq ++ "']+)[" ++ dq ++ "']") xml ;;
  match m with
  | Some g => s <- defined g ;; Ok (Some s)
  | None => Ok None
  end.

Definition check10b51InFootnotes (xml : string) (footnoteId : option string)
    : Result bool :=
  match footnoteId with
  | None | Some EmptyString => Ok false
  | Some id =>
      m <- match_group1
             ("<footnote[^>]*id=[" ++ dq ++ "']" ++ id ++ "[" ++ dq
              ++ "'][^>]*>([\s\S]*?)<\/footnote>") xml ;;
      match m with
      | None => Ok false
      | Some g =>
          s <- defined g ;;
          let footnoteText := toLowerCase s in
          Ok (includes footnoteText "10b5-1" || includes footnoteText "10b5")
      end
  end.

Definition parseTransactionElement (txXml : string) : Result (option TransactionInfo) :=
  transactionCode <- extractText txXml "transactionCode" ;;
  if negb (truthy transactionCode)
     || (negb (is_string transactionCode Types.TRANSACTION_CODE_BUY)
         && negb (is_string transactionCode Types.TRANSACTION_CODE_SELL))
  then Ok None
  else
    transactionDate <- extractText txXml "transactionDate" ;;
    if negb (truthy transactionDate) then Ok None
    else
      sharesStr <- extractText txXml "transactionShares" ;;
      priceStr <- extractText txXml "transactionPricePerShare" ;;
      if negb (truthy sharesStr) || negb (truthy priceStr) then Ok None
      else
        let shares := parseFloat (or_empty sharesStr) in
        let price := parseFloat (or_empty priceStr) in
        if isNaN shares || isNaN price then Ok None
        else
          postSharesStr <- extractText txXml "sharesOwnedFollowingTransaction" ;;
          let postShares :=
            if truthy postSharesStr then parseFloat (or_empty postSharesStr)
            else Fin 0 in
          ownershipCode <- extractText txXml "directOrIndirectOwnership" ;;
          let isDirectOwnership := is_string ownershipCode "D" in
          footnoteId <- extractAttribute txXml "footnoteId" ;;
          is10b51 <- check10b51InFootnotes txXml footnoteId ;;
          Ok (Some {| transactionDate := or_empty transactionDate;
                      transactionCode := or_empty transactionCode;
                      shares := shares;
                      pricePerShare := price;
                      transactionValue := mul shares price;
                      postTransactionShares := postShares;
                      isDirectOwnership := isDirectOwnership;
                      is10b51 := is10b51 |}).

(** The loop [for (const match of txMatches)] over the captured blocks. *)
Fixpoint parse_each (blocks : list MatchResult) : Result (list TransactionInfo) :=
  match blocks with
  | [] => Ok []
  | m :: rest =>
      txXml <- defined (capture 1 (groups m)) ;;
      transaction <- parseTransactionElement txXml ;;
      transactions <- parse_each rest ;;
      Ok (match transaction with
          | Some t => t :: transactions
          | None => transactions
          end)
  end.

(** [extractNonDerivativeTransactions] and [extractDerivativeTransactions],
    which differ in the two tag names. *)
Definition extractTable (table transaction xml : string) : Result (list TransactionInfo) :=
  let tableMatch :=
    exec true (literal ("<" ++ table ++ ">([\s\S]*?)<\/" ++ table ++ ">")) xml in
  match tableMatch with
  | None => Ok []
  | Some res =>
      tableXml <- defined (capture 1 (groups res)) ;;
      let txRegex :=
        literal ("<" ++ transaction ++ ">([\s\S]*?)<\/" ++ transaction ++ ">") in
      parse_each (matchAll true txRegex tableXml)
  end.

Definition extractNonDerivativeTransactions (xml : string) : Result (list TransactionInfo) :=
  extractTable "nonDerivativeTable" "nonDerivativeTransaction" xml.

Definition extractDerivativeTransactions (xml : string) : Result (list TransactionInfo) :=
  extractTable "derivativeTable" "derivativeTransaction" xml.

Definition parseTransactions (xml : string) : Result (list TransactionInfo) :=
  nonDerivTransactions <- extractNonDerivativeTransactions xml ;;
  derivTransactions <- extractDerivativeTransactions xml ;;
  Ok (nonDerivTransactions ++ derivTransactions)%list.

Definition parseIssuer (xml : string) : Result IssuerInfo :=
  cik_ <- extractText xml "issuerCik" ;;
  companyName_ <- extractText xml "issuerName" ;;
  ticker_ <- extractText xml "issuerTradingSymbol" ;;
  Ok {| cik := strip_leading_zeros (or_empty cik_);
        companyName := or_empty companyName_;
        ticker := or_undefined ticker_ |}.

Definition parseInsider (xml : string) : Result InsiderInfo :=
  name_ <- extractText xml "rptOwnerName" ;;
  title_ <- extractText xml "officerTitle" ;;
  isDirector_ <- extractText xml "isDirector" ;;
  isOfficer_ <- extractText xml "isOfficer" ;;
  isTenPercentOwner_ <- extractText xml "isTenPercentOwner" ;;
  isOther_ <- extractText xml "isOther" ;;
  Ok {| name := or_empty name_;
        title := or_undefined title_;
        isDirector := is_string isDirector_ "1";
        isOfficer := is_string isOfficer_ "1";
        isTenPercentOwner := is_string isTenPercentOwner_ "1";
        isOther := is_string isOther_ "1" |}.

Definition parse (xmlText accessionNumber_ filingDate_ : string) : Result Form4Data :=
  issuer_ <- parseIssuer xmlText ;;
  insider_ <- parseInsider xmlText ;;
  transactions_ <- parseTransactions xmlText ;;
  Ok {| accessionNumber := accessionNumber_;
        filingDate := filingDate_;
        issuer := issuer_;
        insider := insider_;
        transactions := transactions_ |}.

End Host.

End Parser.

(* ================================================================== *)
(** * scoring/rules.ts: priorities; calculator.ts: holdings change *)
(* ================================================================== *)

Module Rules.

Import JsNumber.
Local Open Scope R_scope.

Inductive AlertPriority : Type := HIGH | MEDIUM | LOW.

Definition getAlertPriority (signalScore : number) : AlertPriority :=
  let magnitude := Math_abs signalScore in
  if ge magnitude (Fin 5) then HIGH
  else if ge magnitude (Fin 2.5) then MEDIUM
  else LOW.

(** [isSignificantHoldingsChange] of calculator.ts *)
Definition isSignificantHoldingsChange (deltaPercent : number) : bool :=
  ge (Math_abs deltaPercent) (Fin 10).

(** [Number(s)] of a stored [decimal(_, 2)], such as a signal score. *)
Definition Number2 (z : Z) : number := Fin (IZR z / 100).

End Rules.

(* ================================================================== *)
(** * The other queries and mutations of sql/queries/insiders *)
(* ================================================================== *)

Module Queries.

Import Store.
Local Open Scope string_scope.

(** [getIssuerByCik]; of several rows [LIMIT 1] returns one, here the one
    stored first. *)
Definition getIssuerByCik (d : DB) (c : string) : option Issuer :=
  find (fun r => String.eqb (cik r) c) (issuers d).

Definition has_ticker (t : string) (r : Issuer) : bool :=
  match ticker r with
  | Some x => String.eqb x t
  | None => false
  end.

Definition getIssuerByTicker (d : DB) (t : string) : option Issuer :=
  find (has_ticker t) (issuers d).

Definition getInsiderByNameAndIssuer (d : DB) (n : string) (iss : uuid) : option Insider :=
  find (fun r => String.eqb (name r) n && Nat.eqb (insider_issuerId r) iss) (insiders d).

(** The [set] clause of [batchUpsertTransactions]: the transaction code of
    the first element of the batch, for every conflicting row. *)
Definition recode (old : InsertTransaction) (code : string) : InsertTransaction :=
  {| filingAccession := filingAccession old;
     insiderId := insiderId old;
     issuerId := issuerId old;
     transactionDate := transactionDate old;
     transactionCode := code;
     shares := shares old;
     price := price old;
     transactionValue := transactionValue old;
     postTransactionShares := postTransactionShares old;
     isDirectOwnership := isDirectOwnership old;
     is10b51 := is10b51 old;
     signalScore := signalScore old |}.

Fixpoint recode_conflict (data : InsertTransaction) (code : string)
    (rows : list Transaction) : option (Transaction * list Transaction) :=
  match rows with
  | [] => None
  | r :: rest =>
      if key_eqb (row_key r) (key_of data) then
        let r' := {| id := id r; fields := recode (fields r) code |} in
        Some (r', r' :: rest)
      else
        match recode_conflict data code rest with
        | Some (x, rest') => Some (x, r :: rest')
        | None => None
        end
  end.

(** One proposed row of the multi-row insert. *)
Definition batch_step (code : string) (st : list Transaction * DB)
    (data : InsertTransaction) : list Transaction * DB :=
  let '(returned, d) := st in
  match recode_conflict data code (transactions d) with
  | Some (r, rows') => ((returned ++ [r])%list, set_transactions d rows' (next_uuid d))
  | None =>
      let r := {| id := next_uuid d; fields := data |} in
      ((returned ++ [r])%list, set_transactions d (transactions d ++ [r])%list (S (next_uuid d)))
  end.

Fixpoint distinct_keys (data : list InsertTransaction) : bool :=
  match data with
  | [] => true
  | x :: rest =>
      negb (existsb (fun y => key_eqb (key_of x) (key_of y)) rest)
      && distinct_keys rest
  end.

(** [batchUpsertTransactions]: nothing is sent for an empty batch; a
    statement that proposes one key twice is rejected by the database
    ([None]: the call throws and nothing is written). *)
Definition batchUpsertTransactions (d : DB) (data : list InsertTransaction)
    : option (list Transaction * DB) :=
  match data with
  | [] => Some ([], d)
  | first :: _ =>
      if distinct_keys data
      then Some (fold_left (batch_step (transactionCode first)) data ([], d))
      else None
  end.

End Queries.

(* ================================================================== *)
(** * SEC links: the padded CIK *)
(* ================================================================== *)

Module Edgar.

Local Open Scope string_scope.

Fixpoint zeros (n : nat) : string :=
  match n with
  | O => EmptyString
  | S n' => String "0" (zeros n')
  end.

(** [s.padStart(n, "0")] *)
Definition padStart0 (n : nat) (s : string) : string :=
  zeros (n - String.length s) ++ s.

(** [cik.padStart(10, "0")], in [formatUrgentAlert] and [fetchForm4XML]. *)
Definition cikPadded (cik : string) : string := padStart0 10 cik.

End Edgar.
(* ================================================================== *)
(** * Facts about strings, titles and numbers *)
(* ================================================================== *)

Section StringFacts.

Import JsString Types.
Local Open Scope string_scope.

Lemma startsWith_spec (s p : string) :
  startsWith s p = true <-> exists post, s = p ++ post.
Proof.
  revert s; induction p as [|a p IH]; intros s.
  - split; [intros _; now exists s | intros _; now destruct s].
  - destruct s as [|b s]; cbn [startsWith].
    + split; [discriminate | intros [post H]; discriminate].
    + rewrite andb_true_iff, Ascii.eqb_eq, IH. split.
      * intros [-> [post ->]]. now exists post.
      * intros [post H]. injection H as -> ->. split; [reflexivity | now exists post].
Qed.

Lemma includes_spec (s sub : string) :
  includes s sub = true <-> occurs_in sub s.
Proof.
  unfold occurs_in. induction s as [|c s IH].
  - cbn [includes]. rewrite orb_false_r, startsWith_spec. split.
    + intros [post H]. exists EmptyString, post. exact H.
    + intros [pre [post H]]. destruct pre; simpl in H.
      * now exists post.
      * discriminate.
  - cbn [includes]. rewrite orb_true_iff, startsWith_spec, IH. split.
    + intros [[post H] | [pre [post H]]].
      * exists EmptyString, post. exact H.
      * exists (String c pre), post. simpl. now rewrite H.
    + intros [pre [post H]]. destruct pre as [|d pre]; simpl in H.
      * left. now exists post.
      * right. injection H as _ H. now exists pre, post.
Qed.

(** ** Containment with the case of letters set aside *)

(** [a] and [b] are one character, or the small and the capital form of
    one of the letters a to z. *)
Definition same_letter (a b : ascii) : Prop :=
  a = b \/
  ((97 <= nat_of_ascii a <= 122)%nat /\ nat_of_ascii a = (nat_of_ascii b + 32)%nat) \/
  ((97 <= nat_of_ascii b <= 122)%nat /\ nat_of_ascii b = (nat_of_ascii a + 32)%nat).

Fixpoint same_text (s t : string) : Prop :=
  match s, t with
  | EmptyString, EmptyString => True
  | String a s', String b t' => same_letter a b /\ same_text s' t'
  | _, _ => False
  end.

(** [sub] occurs in [s] when the case of letters is set aside. *)
Definition occurs_ignoring_case (sub s : string) : Prop :=
  exists pre mid post, s = pre ++ mid ++ post /\ same_text mid sub.

Lemma nat_of_ascii_inj (a b : ascii) : nat_of_ascii a = nat_of_ascii b -> a = b.
Proof.
  intros H. rewrite <- (ascii_nat_embedding a), <- (ascii_nat_embedding b).
  now rewrite H.
Qed.

Lemma upper_char_code (c : ascii) :
  nat_of_ascii (upper_char c) =
  if is_lower c then (nat_of_ascii c - 32)%nat else nat_of_ascii c.
Proof.
  unfold upper_char. destruct (is_lower c); [|reflexivity].
  apply nat_ascii_embedding. pose proof (nat_ascii_bounded c). lia.
Qed.

Lemma is_lower_spec (c : ascii) :
  is_lower c = true <-> (97 <= nat_of_ascii c <= 122)%nat.
Proof.
  unfold is_lower. rewrite andb_true_iff, !Nat.leb_le. reflexivity.
Qed.

Lemma upper_char_same (a b : ascii) :
  upper_char a = upper_char b <-> same_letter a b.
Proof.
  unfold same_letter. split.
  - intros H. apply (f_equal nat_of_ascii) in H. rewrite !upper_char_code in H.
    destruct (is_lower a) eqn:Ea, (is_lower b) eqn:Eb.
    + apply is_lower_spec in Ea. apply is_lower_spec in Eb.
      left. apply nat_of_ascii_inj. lia.
    + apply is_lower_spec in Ea. right. left. split; [exact Ea | lia].
    + apply is_lower_spec in Eb. right. right. split; [exact Eb | lia].
    + left. now apply nat_of_ascii_inj.
  - intros [->|[[Ha Hab]|[Hb Hba]]]; [reflexivity| |];
      apply nat_of_ascii_inj; rewrite !upper_char_code.
    + assert (Ea : is_lower a = true) by now apply is_lower_spec.
      assert (Eb : is_lower b = false).
      { apply not_true_is_false. intros E. apply is_lower_spec in E. lia. }
      rewrite Ea, Eb. lia.
    + assert (Eb : is_lower b = true) by now apply is_lower_spec.
      assert (Ea : is_lower a = false).
      { apply not_true_is_false. intros E. apply is_lower_spec in E. lia. }
      rewrite Ea, Eb. lia.
Qed.

Lemma toUpperCase_same (s t : string) :
  toUpperCase s = toUpperCase t <-> same_text s t.
Proof.
  revert t. induction s as [|a s IH]; intros [|b t]; cbn [toUpperCase same_text].
  - tauto.
  - split; [discriminate | contradiction].
  - split; [discriminate | contradiction].
  - rewrite <- IH, <- upper_char_same. split.
    + intros H. injection H as H1 H2. auto.
    + intros [-> ->]. reflexivity.
Qed.

Lemma toUpperCase_app (s t : string) :
  toUpperCase (s ++ t) = toUpperCase s ++ toUpperCase t.
Proof.
  induction s as [|a s IH]; [reflexivity|]. cbn [append toUpperCase]. now rewrite IH.
Qed.

Lemma toUpperCase_split (s p r : string) :
  toUpperCase s = p ++ r ->
  exists s1 s2, s = s1 ++ s2 /\ toUpperCase s1 = p /\ toUpperCase s2 = r.
Proof.
  revert s. induction p as [|c p IH]; intros s H.
  - exists EmptyString, s. auto.
  - destruct s as [|a s]; [discriminate|]. cbn [toUpperCase append] in H.
    injection H as Hc Hrest. destruct (IH s Hrest) as (s1 & s2 & -> & H1 & H2).
    exists (String a s1), s2. cbn [append toUpperCase]. rewrite Hc, H1. auto.
Qed.

Lemma occurs_ignoring_case_spec (sub s : string) :
  occurs_in (toUpperCase sub) (toUpperCase s) <-> occurs_ignoring_case sub s.
Proof.
  unfold occurs_in, occurs_ignoring_case. split.
  - intros (p & q & H).
    destruct (toUpperCase_split s _ _ H) as (pre & rest & -> & Hp & Hrest).
    destruct (toUpperCase_split rest _ _ Hrest) as (mid & post & -> & Hm & Hq).
    exists pre, mid, post. split; [reflexivity | now apply toUpperCase_same].
  - intros (pre & mid & post & -> & Hsame).
    exists (toUpperCase pre), (toUpperCase post).
    rewrite !toUpperCase_app. apply toUpperCase_same in Hsame. now rewrite Hsame.
Qed.

(** [isExecutiveRole] is true exactly of the titles in which a listed
    title occurs, the case of letters set aside. *)
Lemma isExecutiveRole_spec (title : option string) :
  isExecutiveRole title = true <->
  exists t e, title = Some t /\ In e EXECUTIVE_TITLES /\ occurs_ignoring_case e t.
Proof.
  unfold isExecutiveRole.
  destruct title as [[|c t]|].
  - cbn [truthy negb]. split; [discriminate|].
    intros (t & e & Ht & Hin & (pre & mid & post & H & Hsame)).
    injection Ht as <-.
    destruct pre; [|discriminate]. destruct mid; [|discriminate].
    destruct e; [|contradiction].
    simpl in Hin. repeat (destruct Hin as [Hin|Hin]; [discriminate|]). contradiction.
  - cbn [truthy negb]. rewrite existsb_exists. split.
    + intros [e [Hin H]]. apply includes_spec in H.
      exists (String c t), e. split; [reflexivity|]. split; [exact Hin|].
      now apply occurs_ignoring_case_spec.
    + intros (t' & e & Ht & Hin & H). injection Ht as <-.
      exists e. split; [exact Hin|]. apply includes_spec.
      now apply occurs_ignoring_case_spec.
  - split; [discriminate|]. intros (t & e & Ht & _). discriminate.
Qed.

End StringFacts.

Section NumberFacts.

Import JsNumber.
Local Open Scope R_scope.

Lemma nearest_hundredth_of_hundredths (n : Z) :
  nearest_hundredth (IZR n / 100) = n.
Proof.
  unfold nearest_hundredth. symmetry. apply Int_part_spec. lra.
Qed.

Lemma round2_of_hundredths (n : Z) :
  Rabs (IZR n / 100) < 1e21 -> round2 (IZR n / 100) = IZR n / 100.
Proof.
  intros Hr. unfold round2.
  destruct (Rle_dec 1e21 (Rabs (IZR n / 100))) as [Hbig|_]; [lra|].
  destruct (Rlt_dec (IZR n / 100) 0) as [Hneg|Hpos].
  - replace (- (IZR n / 100)) with (IZR (- n) / 100) by (rewrite opp_IZR; lra).
    rewrite nearest_hundredth_of_hundredths, opp_IZR. lra.
  - now rewrite nearest_hundredth_of_hundredths.
Qed.

End NumberFacts.

(* ================================================================== *)
(** * Facts about doubles *)
(* ================================================================== *)

Section DoubleFacts.

Import PrimFloat SpecFloat Binary64.

(** The exact value of a finite double; [0] for the others. *)
Definition exact_value (x : float) : Q :=
  match FloatOps.Prim2SF x with
  | S754_finite s m e =>
      let q := if (0 <=? e)%Z then inject_Z (Z.pos m * 2 ^ e)
               else Z.pos m # Z.to_pos (2 ^ (- e)) in
      if s then (- q)%Q else q
  | _ => 0%Q
  end.

Lemma nearest_hundredth_nonneg (x : spec_float) : (0 <= nearest_hundredth x)%Z.
Proof.
  destruct x as [s|s| |s m e]; cbn [nearest_hundredth]; try lia.
  destruct (0 <=? e)%Z eqn:E.
  - apply Z.leb_le in E. assert (0 < 2 ^ e)%Z by (apply Z.pow_pos_nonneg; lia). nia.
  - apply Z.leb_gt in E.
    assert (0 < 2 ^ (- e))%Z by (apply Z.pow_pos_nonneg; lia).
    assert (0 < 2 ^ (1 - e))%Z by (apply Z.pow_pos_nonneg; lia).
    apply Z.div_pos; lia.
Qed.

(** The hundredths chosen are within half a hundredth of the value. *)
Lemma nearest_hundredth_close (m : positive) (e : Z) :
  let q := if (0 <=? e)%Z then inject_Z (Z.pos m * 2 ^ e)
           else Z.pos m # Z.to_pos (2 ^ (- e)) in
  (Qabs ((nearest_hundredth (S754_finite false m e) # 100) - q) <= 1 # 200)%Q.
Proof.
  cbv zeta. cbn [nearest_hundredth]. destruct (0 <=? e)%Z eqn:E.
  - unfold Qle, Qabs, Qminus, Qplus, Qopp, inject_Z. cbn [Qnum Qden].
    replace (100 * Z.pos m * 2 ^ e * 1 + - (Z.pos m * 2 ^ e) * 100)%Z with 0%Z by ring.
    cbn. lia.
  - apply Z.leb_gt in E.
    assert (Hp : (0 < 2 ^ (- e))%Z) by (apply Z.pow_pos_nonneg; lia).
    assert (Hp2 : (2 ^ (1 - e) = 2 * 2 ^ (- e))%Z).
    { replace (1 - e)%Z with (Z.succ (- e)) by lia. apply Z.pow_succ_r. lia. }
    rewrite Hp2.
    set (P := (2 ^ (- e))%Z) in *.
    set (n := ((200 * Z.pos m + P) / (2 * P))%Z).
    assert (Hdiv : (2 * P * n <= 200 * Z.pos m + P < 2 * P * (n + 1))%Z).
    { unfold n. split.
      - apply Z.mul_div_le. lia.
      - apply Z.mul_succ_div_gt. lia. }
    unfold Qle, Qabs, Qminus, Qplus, Qopp. cbn [Qnum Qden].
    rewrite Z2Pos.id by exact Hp.
    rewrite Pos2Z.inj_mul, Z2Pos.id by exact Hp.
    change (Z.pos 100) with 100%Z. change (Z.pos 200) with 200%Z.
    assert (Hnp : (2 * (n * P) <= 200 * Z.pos m + P < 2 * (n * P) + 2 * P)%Z)
      by (split; [rewrite Z.mul_comm with (n := n); lia
                 | rewrite Z.mul_comm with (n := n); lia]).
    clear Hdiv. generalize dependent (n * P)%Z. intros np Hnp.
    lia.
Qed.

Lemma toFixed2_rounds (x : float) :
  is_nan x || is_infinity x = false ->
  (1e21 <=? abs x)%float = false ->
  exists n : Z,
    (0 <= n)%Z /\
    toFixed2 x = (if (x <? 0)%float then (- of_hundredths n)%float
                  else of_hundredths n) /\
    (Qabs ((n # 100) - exact_value (abs x)) <= 1 # 200)%Q.
Proof.
  intros Hfin Hsmall. unfold toFixed2. rewrite Hfin, Hsmall.
  exists (nearest_hundredth (FloatOps.Prim2SF (abs x))).
  split; [apply nearest_hundredth_nonneg|]. split; [reflexivity|].
  unfold exact_value. rewrite FloatAxioms.abs_spec.
  destruct (FloatOps.Prim2SF x) as [s|s| |s m e]; cbn [SFabs nearest_hundredth];
    try (vm_compute; discriminate).
  apply nearest_hundredth_close.
Qed.


End DoubleFacts.
(* ================================================================== *)
(** * Facts about the daily query *)
(* ================================================================== *)

Section QueryFacts.

Import Store.
Local Open Scope Z_scope.

(** The order of [numeric] on two stored values: ['NaN'] is above every
    number and level with itself. *)
Definition numeric_le (a b : decimal) : Prop :=
  match a, b with
  | Dec x, Dec y => x <= y
  | _, DecNaN => True
  | DecNaN, Dec _ => False
  end.

(** Rows listed by signal score, greatest first. *)
Fixpoint by_score_desc (rows : list Transaction) : Prop :=
  match rows with
  | [] => True
  | r :: rest =>
      (forall x, In x rest ->
         numeric_le (signalScore (fields x)) (signalScore (fields r)))
      /\ by_score_desc rest
  end.

Lemma decimal_ltb_lt (a b : decimal) :
  decimal_ltb a b = true -> numeric_le a b.
Proof.
  destruct a as [x|], b as [y|]; cbn [decimal_ltb numeric_le];
    try discriminate; try trivial.
  intros H. apply Z.ltb_lt in H. lia.
Qed.

Lemma decimal_ltb_ge (a b : decimal) :
  decimal_ltb a b = false -> numeric_le b a.
Proof.
  destruct a as [x|], b as [y|]; cbn [decimal_ltb numeric_le];
    try discriminate; try trivial.
  intros H. apply Z.ltb_ge in H. exact H.
Qed.

Lemma numeric_le_trans (a b c : decimal) :
  numeric_le a b -> numeric_le b c -> numeric_le a c.
Proof.
  destruct a, b, c; cbn [numeric_le]; try tauto. lia.
Qed.

Lemma insert_by_score_perm (r : Transaction) (rows : list Transaction) :
  Permutation (r :: rows) (insert_by_score r rows).
Proof.
  induction rows as [|x rows IH]; cbn [insert_by_score].
  - apply Permutation_refl.
  - destruct (decimal_ltb (signalScore (fields r)) (signalScore (fields x))).
    + eapply perm_trans; [apply perm_swap|]. now apply perm_skip.
    + apply Permutation_refl.
Qed.

Lemma order_by_score_desc_perm (rows : list Transaction) :
  Permutation rows (order_by_score_desc rows).
Proof.
  induction rows as [|r rows IH]; cbn [order_by_score_desc fold_right].
  - apply perm_nil.
  - eapply perm_trans; [|apply insert_by_score_perm]. now apply perm_skip.
Qed.

Lemma insert_by_score_sorted (r : Transaction) (rows : list Transaction) :
  by_score_desc rows -> by_score_desc (insert_by_score r rows).
Proof.
  induction rows as [|x rows IH]; cbn [insert_by_score by_score_desc]; intros H.
  - split; [intros x [] | exact I].
  - destruct H as [Hx Hrows].
    destruct (decimal_ltb (signalScore (fields r)) (signalScore (fields x))) eqn:E.
    + cbn [by_score_desc]. split; [|now apply IH].
      intros y Hy.
      apply (Permutation_in _ (Permutation_sym (insert_by_score_perm r rows))) in Hy.
      destruct Hy as [<-|Hy]; [now apply decimal_ltb_lt | now apply Hx].
    + cbn [by_score_desc]. apply decimal_ltb_ge in E.
      split; [|split; assumption].
      intros y [<-|Hy]; [exact E|].
      exact (numeric_le_trans _ _ _ (Hx y Hy) E).
Qed.

Lemma order_by_score_desc_sorted (rows : list Transaction) :
  by_score_desc (order_by_score_desc rows).
Proof.
  induction rows as [|r rows IH]; cbn [order_by_score_desc fold_right];
    [exact I | now apply insert_by_score_sorted].
Qed.

Lemma order_by_score_desc_In (r : Transaction) (rows : list Transaction) :
  In r (order_by_score_desc rows) <-> In r rows.
Proof.
  split; intros H.
  - exact (Permutation_in _ (Permutation_sym (order_by_score_desc_perm rows)) H).
  - exact (Permutation_in _ (order_by_score_desc_perm rows) H).
Qed.

(** The rows the daily query returns are the rows of the day. *)
Lemma getDailyTransactionsByDate_In (d : DB) (day : date) (r : Transaction) :
  In r (getDailyTransactionsByDate d day) <->
  In r (transactions d) /\ transactionDate (fields r) = day.
Proof.
  unfold getDailyTransactionsByDate.
  rewrite order_by_score_desc_In, filter_In, Z.eqb_eq. reflexivity.
Qed.

End QueryFacts.

(* ================================================================== *)
(** * The matcher never runs out of fuel *)
(* ================================================================== *)

Section MatcherFacts.

Import RegExp.
Local Open Scope nat_scope.

(** A state of a match over an input of [N] code units. *)
Definition consistent (N : nat) (x : MatchState) : Prop :=
  endIndex x + String.length (rest x) = N.

(** Two continuations that agree on the states a match can reach from [x]. *)
Definition agree_from (N : nat) (x : MatchState) (c1 c2 : Continuation) : Prop :=
  forall y, consistent N y -> endIndex x <= endIndex y -> c1 y = c2 y.

Definition respects (m : MatchState -> Continuation -> option MatchState) : Prop :=
  forall N x c1 c2, consistent N x -> agree_from N x c1 c2 -> m x c1 = m x c2.

Lemma consistent_advance (N : nat) (x : MatchState) (ch : ascii) (s' : string) :
  consistent N x -> rest x = String ch s' ->
  consistent N (advance x s') /\ endIndex x <= endIndex (advance x s').
Proof.
  unfold consistent, advance. intros H E. rewrite E in H. simpl in *. lia.
Qed.

Lemma agree_from_later (N : nat) (x y : MatchState) (c1 c2 : Continuation) :
  agree_from N x c1 c2 -> endIndex x <= endIndex y -> agree_from N y c1 c2.
Proof. intros H Hxy z Hz Hyz. apply H; [exact Hz | lia]. Qed.

Lemma repeat_loop_respects m1 (inner : list nat) (greedy : bool) :
  respects m1 ->
  forall fuel min max N x c1 c2,
    consistent N x -> agree_from N x c1 c2 ->
    repeat_loop m1 inner greedy c1 fuel min max x
    = repeat_loop m1 inner greedy c2 fuel min max x.
Proof.
  intros Hm1. induction fuel as [|fuel IH]; intros min max N x c1 c2 Hx Hc.
  - simpl. destruct max as [[|k]|]; [apply Hc; [exact Hx | lia] | reflexivity | reflexivity].
  - assert (Hcx : c1 x = c2 x) by (apply Hc; [exact Hx | lia]).
    assert (Hd : m1 (clear_captures inner x)
                   (fun y => if (min =? 0) && (endIndex y =? endIndex x) then None
                             else repeat_loop m1 inner greedy c1 fuel (pred min)
                                              (option_map pred max) y)
                 = m1 (clear_captures inner x)
                   (fun y => if (min =? 0) && (endIndex y =? endIndex x) then None
                             else repeat_loop m1 inner greedy c2 fuel (pred min)
                                              (option_map pred max) y)).
    { apply (Hm1 N (clear_captures inner x)); [exact Hx|]. intros y Hy Hle.
      cbn [clear_captures endIndex] in Hle.
      destruct ((min =? 0) && (endIndex y =? endIndex x)); [reflexivity|].
      apply (IH _ _ N); [exact Hy | eapply agree_from_later; eassumption]. }
    cbn [repeat_loop]. rewrite Hd, Hcx.
    destruct max as [[|k]|]; reflexivity.
Qed.

Lemma matcher_respects (ignoreCase : bool) (r : Regex) : respects (matcher ignoreCase r).
Proof.
  induction r as [| a | | negated items | r1 IH1 r2 IH2 | r1 IH1 r2 IH2
                  | r1 IH1 min max greedy | index r1 IH1 | |];
    intros N x c1 c2 Hx Hc; cbn [matcher].
  - apply Hc; [exact Hx | lia].
  - destruct (rest x) as [|ch s'] eqn:E; [reflexivity|].
    destruct (consistent_advance Hx E) as [Ha Hle].
    destruct (char_eq ignoreCase a ch); [now apply Hc | reflexivity].
  - destruct (rest x) as [|ch s'] eqn:E; [reflexivity|].
    destruct (consistent_advance Hx E) as [Ha Hle].
    destruct (is_line_terminator ch); [reflexivity | now apply Hc].
  - destruct (rest x) as [|ch s'] eqn:E; [reflexivity|].
    destruct (consistent_advance Hx E) as [Ha Hle].
    destruct (xorb negated (class_mem ignoreCase items ch)); [now apply Hc | reflexivity].
  - apply (IH1 N); [exact Hx|]. intros y Hy Hle.
    apply (IH2 N); [exact Hy | eapply agree_from_later; eassumption].
  - rewrite (IH1 N x c1 c2 Hx Hc), (IH2 N x c1 c2 Hx Hc). reflexivity.
  - eapply repeat_loop_respects; eassumption.
  - apply (IH1 N); [exact Hx|]. intros y Hy Hle.
    apply Hc; [exact Hy | exact Hle].
  - destruct (endIndex x =? 0); [apply Hc; [exact Hx | lia] | reflexivity].
  - destruct (rest x); [apply Hc; [exact Hx | lia] | reflexivity].
Qed.

(** More fuel than the bound changes nothing. *)
Lemma repeat_loop_fuel m1 (inner : list nat) (greedy : bool) (c : Continuation) :
  respects m1 ->
  forall f1 f2 min max N x,
    consistent N x ->
    min + String.length (rest x) < f1 -> min + String.length (rest x) < f2 ->
    repeat_loop m1 inner greedy c f1 min max x
    = repeat_loop m1 inner greedy c f2 min max x.
Proof.
  intros Hm1. induction f1 as [|f1 IH]; intros f2 min max N x Hx H1 H2; [lia|].
  destruct f2 as [|f2]; [lia|].
  assert (Hd : m1 (clear_captures inner x)
                 (fun y => if (min =? 0) && (endIndex y =? endIndex x) then None
                           else repeat_loop m1 inner greedy c f1 (pred min)
                                            (option_map pred max) y)
               = m1 (clear_captures inner x)
                 (fun y => if (min =? 0) && (endIndex y =? endIndex x) then None
                           else repeat_loop m1 inner greedy c f2 (pred min)
                                            (option_map pred max) y)).
  { apply (Hm1 N (clear_captures inner x)); [exact Hx|]. intros y Hy Hle.
      cbn [clear_captures endIndex] in Hle.
    destruct ((min =? 0) && (endIndex y =? endIndex x)) eqn:E; [reflexivity|].
    unfold consistent in Hx, Hy.
    apply andb_false_iff in E.
    assert (Hlt : pred min + String.length (rest y) < f1 /\
                  pred min + String.length (rest y) < f2).
    { destruct E as [E|E]; [apply Nat.eqb_neq in E | apply Nat.eqb_neq in E]; lia. }
    apply (IH f2 _ _ N); [exact Hy | apply Hlt | apply Hlt]. }
  cbn [repeat_loop]. rewrite Hd. reflexivity.
Qed.

(** The fuel [matcher] gives a quantifier is enough: any greater amount
    gives the same result. *)
Lemma matcher_repeat_fuel (ignoreCase : bool) (r1 : Regex) (min : nat)
    (max : option nat) (greedy : bool) (x : MatchState) (c : Continuation) (extra : nat) :
  repeat_loop (matcher ignoreCase r1) (groups_of r1) greedy c
              (S (min + String.length (rest x)) + extra) min max x
  = matcher ignoreCase (Repeat r1 min max greedy) x c.
Proof.
  cbn [matcher].
  eapply repeat_loop_fuel;
    [apply matcher_respects | reflexivity | lia | lia].
Qed.

(** A successful match ends where a continuation was entered, at or after
    the start. *)
Definition forward (m : MatchState -> Continuation -> option MatchState) : Prop :=
  forall N x c z, consistent N x -> m x c = Some z ->
    exists y, consistent N y /\ endIndex x <= endIndex y /\ c y = Some z.

Lemma repeat_loop_forward m1 (inner : list nat) (greedy : bool) :
  forward m1 ->
  forall fuel min max N x c z,
    consistent N x ->
    repeat_loop m1 inner greedy c fuel min max x = Some z ->
    exists y, consistent N y /\ endIndex x <= endIndex y /\ c y = Some z.
Proof.
  intros Hm1. induction fuel as [|fuel IH]; intros min max N x c z Hx H.
  - simpl in H. destruct max as [[|k]|]; [|discriminate|discriminate].
    exists x. auto.
  - assert (Hstep : forall d,
               d = (fun y => if (min =? 0) && (endIndex y =? endIndex x) then None
                             else repeat_loop m1 inner greedy c fuel (pred min)
                                              (option_map pred max) y) ->
               m1 (clear_captures inner x) d = Some z ->
               exists y, consistent N y /\ endIndex x <= endIndex y /\ c y = Some z).
    { intros d -> Hm.
      destruct (Hm1 N (clear_captures inner x) _ _ Hx Hm) as (y & Hy & Hle & Hd).
      cbn [clear_captures endIndex] in Hle.
      destruct ((min =? 0) && (endIndex y =? endIndex x)); [discriminate|].
      destruct (IH _ _ N _ _ _ Hy Hd) as (y' & Hy' & Hle' & Hc).
      exists y'. split; [exact Hy'|]. split; [lia | exact Hc]. }
    cbn [repeat_loop] in H.
    assert (Hhere : c x = Some z ->
               exists y, consistent N y /\ endIndex x <= endIndex y /\ c y = Some z)
      by (intros Hc; exists x; auto).
    destruct max as [[|k]|].
    + now apply Hhere.
    + destruct (negb (min =? 0)); [now apply (Hstep _ eq_refl)|].
      destruct greedy.
      * destruct (m1 _ _) as [z'|] eqn:Em; [|now apply Hhere].
        injection H as <-. now apply (Hstep _ eq_refl).
      * destruct (c x) as [z'|] eqn:Ec; [now apply Hhere | now apply (Hstep _ eq_refl)].
    + destruct (negb (min =? 0)); [now apply (Hstep _ eq_refl)|].
      destruct greedy.
      * destruct (m1 _ _) as [z'|] eqn:Em; [|now apply Hhere].
        injection H as <-. now apply (Hstep _ eq_refl).
      * destruct (c x) as [z'|] eqn:Ec; [now apply Hhere | now apply (Hstep _ eq_refl)].
Qed.

Lemma matcher_forward (ignoreCase : bool) (r : Regex) : forward (matcher ignoreCase r).
Proof.
  induction r as [| a | | negated items | r1 IH1 r2 IH2 | r1 IH1 r2 IH2
                  | r1 IH1 min max greedy | index r1 IH1 | |];
    intros N x c z Hx H; cbn [matcher] in H.
  - exists x. auto.
  - destruct (rest x) as [|ch s'] eqn:E; [discriminate|].
    destruct (consistent_advance Hx E) as [Ha Hle].
    destruct (char_eq ignoreCase a ch); [|discriminate]. eauto.
  - destruct (rest x) as [|ch s'] eqn:E; [discriminate|].
    destruct (consistent_advance Hx E) as [Ha Hle].
    destruct (is_line_terminator ch); [discriminate|]. eauto.
  - destruct (rest x) as [|ch s'] eqn:E; [discriminate|].
    destruct (consistent_advance Hx E) as [Ha Hle].
    destruct (xorb negated (class_mem ignoreCase items ch)); [|discriminate]. eauto.
  - destruct (IH1 N _ _ _ Hx H) as (y & Hy & Hle & H2).
    destruct (IH2 N _ _ _ Hy H2) as (y' & Hy' & Hle' & Hc).
    exists y'. split; [exact Hy'|]. split; [lia | exact Hc].
  - destruct (matcher ignoreCase r1 x c) as [z'|] eqn:E1.
    + injection H as <-. now apply (IH1 N).
    + now apply (IH2 N).
  - eapply repeat_loop_forward; eassumption.
  - destruct (IH1 N _ _ _ Hx H) as (y & Hy & Hle & Hc).
    exists (set_capture index x y). split; [exact Hy|]. split; [exact Hle | exact Hc].
  - destruct (endIndex x =? 0); [|discriminate]. exists x. auto.
  - destruct (rest x); [|discriminate]. exists x. auto.
Qed.

(** Where a search reports a match. *)
Lemma exec_from_bounds (ignoreCase : bool) (r : Regex) (s : string) (from : nat)
    (res : MatchResult) :
  exec_from ignoreCase r from s = Some res ->
  from <= index res /\ index res <= lastIndex res
  /\ lastIndex res <= from + String.length s.
Proof.
  assert (Hstart : forall from s y,
             matcher ignoreCase r {| endIndex := from; rest := s; captures := [] |}
                     (fun y => Some y) = Some y ->
             from <= endIndex y <= from + String.length s).
  { intros from' s' y E.
    assert (Hcons : consistent (from' + String.length s')
                      {| endIndex := from'; rest := s'; captures := [] |})
      by reflexivity.
    destruct (@matcher_forward ignoreCase r _ _ _ _ Hcons E) as (y' & Hy' & Hle & Hc).
    injection Hc as <-. unfold consistent in Hy'. cbn [endIndex] in Hle. lia. }
  revert from. induction s as [|ch s IH]; intros from H; cbn [exec_from] in H.
  - destruct (matcher _ _ _ _) as [y|] eqn:E; [|discriminate].
    injection H as <-. cbn [index lastIndex]. apply Hstart in E. lia.
  - destruct (matcher _ _ _ _) as [y|] eqn:E.
    + injection H as <-. cbn [index lastIndex]. apply Hstart in E. lia.
    + apply IH in H. simpl. lia.
Qed.

Lemma length_drop (n : nat) (s : string) :
  String.length (drop n s) = String.length s - n.
Proof.
  revert s. induction n as [|n IH]; intros s; [simpl; lia|].
  destruct s as [|c s]; simpl; [reflexivity | apply IH].
Qed.

(** [matchAll] is given enough fuel: any greater amount finds the same
    matches. *)
Lemma matchAll_from_fuel (ignoreCase : bool) (r : Regex) :
  forall f1 f2 from s,
    String.length s < f1 -> String.length s < f2 ->
    matchAll_from f1 ignoreCase r from s = matchAll_from f2 ignoreCase r from s.
Proof.
  induction f1 as [|f1 IH]; intros f2 from s H1 H2; [lia|].
  destruct f2 as [|f2]; [lia|]. cbn [matchAll_from].
  destruct (exec_from ignoreCase r from s) as [res|] eqn:E; [|reflexivity].
  apply exec_from_bounds in E. f_equal.
  set (next := if lastIndex res =? index res then S (lastIndex res) else lastIndex res).
  assert (Hnext : from < next).
  { subst next. destruct (Nat.eqb_spec (lastIndex res) (index res)); lia. }
  destruct (String.length s <? next - from) eqn:Eend; [reflexivity|].
  apply Nat.ltb_ge in Eend.
  apply IH; rewrite length_drop; lia.
Qed.

Lemma matchAll_fuel (ignoreCase : bool) (r : Regex) (s : string) (extra : nat) :
  matchAll_from (S (String.length s) + extra) ignoreCase r 0 s
  = matchAll ignoreCase r s.
Proof. unfold matchAll. apply matchAll_from_fuel; lia. Qed.

End MatcherFacts.
(* ================================================================== *)
(** * Properties of the urgent-alert decision *)
(* ================================================================== *)

Section ScoringClaims.

Import JsString Types JsNumber Scoring.
Local Open Scope string_scope.
Local Open Scope R_scope.

(** C7.  The urgent-alert decision is true exactly when [|s| >= 5.0] or
    [v >= 250000], either alone being enough; a [NaN] operand makes its own
    comparison false.  (4.9, 240000) is not urgent and (0.5, 250000) is. *)
Theorem C7_urgent_alert_decision :
  (forall s v : R,
      shouldTriggerUrgentAlert (Fin s) (Fin v) = true
      <-> (Rabs s >= 5.0 \/ v >= 250000))
  /\ (forall s v : number,
        shouldTriggerUrgentAlert s v = true
        <-> (ge (Math_abs s) (Fin URGENT_ALERT_SCORE_THRESHOLD) = true
             \/ ge v (Fin URGENT_ALERT_VALUE_THRESHOLD) = true))
  /\ (forall (s : R) (v : number),
        Rabs s >= 5.0 -> shouldTriggerUrgentAlert (Fin s) v = true)
  /\ (forall (s : number) (v : R),
        v >= 250000 -> shouldTriggerUrgentAlert s (Fin v) = true)
  /\ shouldTriggerUrgentAlert (Fin 4.9) (Fin 240000) = false
  /\ shouldTriggerUrgentAlert (Fin 0.5) (Fin 250000) = true.
Proof.
  assert (Hfin : forall s v : R,
             shouldTriggerUrgentAlert (Fin s) (Fin v) = true
             <-> (Rabs s >= 5.0 \/ v >= 250000)).
  { intros s v. unfold shouldTriggerUrgentAlert. cbn [Math_abs ge].
    rewrite orb_true_iff. split.
    - intros [H|H]; [left|right]; destruct Rle_dec in H; try discriminate H; lra.
    - intros [H|H]; [left|right]; destruct Rle_dec; try reflexivity; lra. }
  split; [exact Hfin|].
  split; [intros s v; unfold shouldTriggerUrgentAlert; apply orb_true_iff|].
  split.
  { intros s v Hs. unfold shouldTriggerUrgentAlert. cbn [Math_abs ge].
    destruct (Rle_dec 5 (Rabs s)) as [H1|H1]; [reflexivity | lra]. }
  split.
  { intros s v Hv. unfold shouldTriggerUrgentAlert. apply orb_true_iff. right.
    cbn [ge]. destruct (Rle_dec 250000 v); [reflexivity | lra]. }
  split.
  - apply not_true_is_false. intros H. apply Hfin in H.
    unfold Rabs in H. destruct Rcase_abs; lra.
  - apply Hfin. right. lra.
Qed.

(** C7 at concrete inputs: the score alone, and the value alone. *)
Lemma C7_urgent_alert_decision_witness :
  shouldTriggerUrgentAlert (Fin (-6)) NaN = true
  /\ shouldTriggerUrgentAlert NaN (Fin 300000) = true.
Proof.
  destruct C7_urgent_alert_decision as (_ & _ & Hs & Hv & _).
  split.
  - apply Hs. unfold Rabs. destruct Rcase_abs; lra.
  - apply Hv. lra.
Defined.

End ScoringClaims.

(* ================================================================== *)
(** * Properties of the scorer, in doubles *)
(* ================================================================== *)

Section ScorerClaims.

Import JsString Types PrimFloat SpecFloat Binary64.
Local Open Scope string_scope.

#[local] Set Warnings "-inexact-float".

(** [y] is [x] rounded to two decimal places the way [toFixed(2)] and
    [Number] do it: some count [n] of hundredths is within half a hundredth
    of the magnitude of [x], and [y] is the double nearest to [n / 100],
    with the sign of [x]. *)
Definition rounded_2dp (x y : float) : Prop :=
  exists n : Z,
    (0 <= n)%Z /\
    (Qabs ((n # 100) - exact_value (abs x)) <= 1 # 200)%Q /\
    y = if (x <? 0)%float then (- of_hundredths n)%float else of_hundredths n.


Lemma toFixed2_large (x : float) :
  is_nan x || is_infinity x = true \/ (1e21 <=? abs x)%float = true ->
  toFixed2 x = x.
Proof.
  unfold toFixed2. intros [H|H].
  - now rewrite H.
  - rewrite H. now destruct (is_nan x || is_infinity x).
Qed.



(** ** A host *)

(** A [Math.log10] a host may have: the values ECMA-262 fixes, the whole
    number at a power of ten, and elsewhere the logarithm summed from its
    series, [log10 x = (e ln 2 + 2 atanh ((m - 1) / (m + 1))) / ln 10] for
    [x = m * 2^e]. *)
Fixpoint atanh_series (terms : nat) (power square divisor : float) : float :=
  match terms with
  | O => 0%float
  | S k => (power / divisor + atanh_series k (power * square) square (divisor + 2))%float
  end.

Fixpoint power_of_ten (candidates : nat) (p k x : float) : option float :=
  match candidates with
  | O => None
  | S n => if (x =? p)%float then Some k
           else power_of_ten n (p * 10)%float (k + 1)%float x
  end.

Definition sample_log10 (x : float) : float :=
  if is_nan x || (x <? 0)%float then nan
  else if is_zero x then neg_infinity
  else if (x =? infinity)%float then infinity
  else
    match power_of_ten 23 1%float 0%float x with
    | Some k => k
    | None =>
        let (m, e) := FloatOps.Z.frexp x in
        let z := ((m - 1) / (m + 1))%float in
        let exponent :=
          FloatOps.SF2Prim (binary_normalize FloatOps.prec FloatOps.emax e 0 false) in
        ((exponent * 0x1.62e42fefa39efp-1 + 2 * atanh_series 30 z (z * z) 1)
         / 0x1.26bb1bbb55516p+1)%float
    end.



(** C10.  Executive-role detection is containment of one of the ten listed
    titles in the title, the case of letters set aside: 'Vice President',
    in any case of its letters, contains 'President', so it is detected and
    the role multiplier of the score is 1.5; a title containing none of the
    listed ones, such as 'Director', gets 1. *)
Theorem C10_executive_role_is_substring_match :
  EXECUTIVE_TITLES =
    [ "CEO"; "Chief Executive Officer"; "CFO"; "Chief Financial Officer";
      "Chairman"; "Chairwoman"; "Chair"; "President"; "COO";
      "Chief Operating Officer" ]
  /\ (forall title : option string,
        isExecutiveRole title = true <->
        exists t e, title = Some t /\ In e EXECUTIVE_TITLES /\
                    occurs_ignoring_case e t)
  /\ occurs_ignoring_case "President" "Vice President"
  /\ isExecutiveRole (Some "Vice President") = true
  /\ isExecutiveRole (Some "vice president") = true
  /\ isExecutiveRole (Some "VICE PRESIDENT") = true
  /\ isExecutiveRole (Some "Director") = false
  /\ (forall (Math_log10 : float -> float) (input : ScoreInput),
        (exists t e, insiderTitle input = Some t /\ In e EXECUTIVE_TITLES /\
                     occurs_ignoring_case e t) ->
        roleMultiplier (breakdown (calculateSignalScore Math_log10 input)) = 1.5%float
        /\ score (calculateSignalScore Math_log10 input)
           = toFixed2
               ((baseScore (breakdown (calculateSignalScore Math_log10 input))
                 + firstActivityBonus (breakdown (calculateSignalScore Math_log10 input))
                 + clusterBonus (breakdown (calculateSignalScore Math_log10 input)))
                * Math_max 1%float (Math_log10 (transactionValue input / 10000)%float)
                * 1.5)%float)
  /\ (forall (Math_log10 : float -> float) (input : ScoreInput),
        (forall t e, insiderTitle input = Some t -> In e EXECUTIVE_TITLES ->
                     ~ occurs_ignoring_case e t) ->
        roleMultiplier (breakdown (calculateSignalScore Math_log10 input)) = 1%float)
  /\ (forall (Math_log10 : float -> float) (input : ScoreInput),
        insiderTitle input = Some "Vice President" ->
        roleMultiplier (breakdown (calculateSignalScore Math_log10 input)) = 1.5%float)
  /\ (forall (Math_log10 : float -> float) (input : ScoreInput),
        insiderTitle input = Some "Director" ->
        roleMultiplier (breakdown (calculateSignalScore Math_log10 input)) = 1%float).
Proof.
  split; [reflexivity|].
  split; [exact isExecutiveRole_spec|].
  split; [exists "Vice ", "President", ""; split; [reflexivity|];
          apply toUpperCase_same; reflexivity|].
  split; [reflexivity|]. split; [reflexivity|]. split; [reflexivity|].
  split; [reflexivity|].
  split; [|split; [|split]].
  - intros Math_log10 input Hex. apply isExecutiveRole_spec in Hex.
    unfold calculateSignalScore. cbn [breakdown roleMultiplier score baseScore
                                      firstActivityBonus clusterBonus].
    rewrite Hex. split; reflexivity.
  - intros Math_log10 input Hnone.
    unfold calculateSignalScore. cbn [breakdown roleMultiplier].
    destruct (isExecutiveRole (insiderTitle input)) eqn:E; [|reflexivity].
    apply isExecutiveRole_spec in E. destruct E as (t & e & Ht & Hin & Hocc).
    exfalso. exact (Hnone t e Ht Hin Hocc).
  - intros Math_log10 input Ht. unfold calculateSignalScore.
    cbn [breakdown roleMultiplier]. now rewrite Ht.
  - intros Math_log10 input Ht. unfold calculateSignalScore.
    cbn [breakdown roleMultiplier]. now rewrite Ht.
Qed.

(** C10 at a title in small letters and at a title with no listed one:
    'chief financial officer' gets 1.5 and 'General Counsel' gets 1. *)
Lemma C10_executive_role_is_substring_match_witness :
  roleMultiplier (breakdown (calculateSignalScore sample_log10
    {| transactionCode := "P"; transactionValue := 100000%float;
       insiderTitle := Some "chief financial officer";
       isFirstActivityIn180Days := None;
       additionalInsidersInCluster := None |})) = 1.5%float
  /\ roleMultiplier (breakdown (calculateSignalScore sample_log10
    {| transactionCode := "P"; transactionValue := 100000%float;
       insiderTitle := Some "General Counsel";
       isFirstActivityIn180Days := None;
       additionalInsidersInCluster := None |})) = 1%float.
Proof.
  destruct C10_executive_role_is_substring_match
    as (_ & Hspec & _ & _ & _ & _ & _ & Hexec & Hnone & _).
  split.
  - apply Hexec. cbn [insiderTitle].
    exists "chief financial officer", "Chief Financial Officer".
    split; [reflexivity|]. split; [simpl; tauto|].
    exists "", "chief financial officer", "". split; [reflexivity|].
    apply toUpperCase_same. reflexivity.
  - apply Hnone. cbn [insiderTitle]. intros t e Ht Hin Hocc.
    assert (E : isExecutiveRole (Some "General Counsel") = true).
    { apply Hspec. exists t, e. auto. }
    vm_compute in E. discriminate E.
Defined.

End ScorerClaims.
(* ================================================================== *)
(** * Properties of the daily digest *)
(* ================================================================== *)

Section DigestClaims.

Import Store Digest.
Local Open Scope string_scope.
Local Open Scope Z_scope.

(** ** Ranking, read off the stored scores *)

(** Every signal score of the list is a number. *)
Definition numeric_scores (l : list JoinedTransaction) : Prop :=
  forall t, In t l -> exists z : Z, signalScore (fields (tx t)) = Dec z.

(** [a] and [b] carry numbers as scores, and the absolute score of [a] is
    at least that of [b]. *)
Definition outranks (a b : JoinedTransaction) : Prop :=
  exists x y : Z,
    signalScore (fields (tx a)) = Dec x /\
    signalScore (fields (tx b)) = Dec y /\
    Z.abs y <= Z.abs x.

(** A list ranked by absolute score, greatest first. *)
Fixpoint ranked_by_abs_score (l : list JoinedTransaction) : Prop :=
  match l with
  | [] => True
  | x :: l' => (forall y, In y l' -> outranks x y) /\ ranked_by_abs_score l'
  end.

Lemma insert_desc_perm (x : JoinedTransaction) (l : list JoinedTransaction) :
  Permutation (x :: l) (insert_desc x l).
Proof.
  induction l as [|y l IH]; simpl.
  - apply Permutation_refl.
  - destruct (exceeds (abs_score y) (abs_score x)).
    + eapply perm_trans; [apply perm_swap|].
      now apply perm_skip.
    + apply Permutation_refl.
Qed.

Lemma sort_desc_perm (l : list JoinedTransaction) :
  Permutation l (sort_desc l).
Proof.
  induction l as [|x l IH]; simpl.
  - apply perm_nil.
  - eapply perm_trans; [|apply insert_desc_perm].
    now apply perm_skip.
Qed.

Lemma exceeds_abs_score (a b : JoinedTransaction) (x y : Z) :
  signalScore (fields (tx a)) = Dec x ->
  signalScore (fields (tx b)) = Dec y ->
  exceeds (abs_score b) (abs_score a) = (Z.abs x <? Z.abs y).
Proof.
  intros Ha Hb. unfold abs_score, score_of. now rewrite Ha, Hb.
Qed.

Lemma insert_desc_ranked (x : JoinedTransaction) (l : list JoinedTransaction) :
  numeric_scores (x :: l) ->
  ranked_by_abs_score l -> ranked_by_abs_score (insert_desc x l).
Proof.
  induction l as [|y l IH]; simpl; intros Hnum Hs.
  - split; [intros y []| exact I].
  - destruct Hs as [Hy Hl].
    destruct (Hnum x (or_introl eq_refl)) as [zx Hx].
    destruct (Hnum y (or_intror (or_introl eq_refl))) as [zy Hzy].
    rewrite (exceeds_abs_score x y Hx Hzy).
    destruct (Z.abs zx <? Z.abs zy) eqn:E.
    + apply Z.ltb_lt in E. split.
      * intros z Hz.
        apply (Permutation_in z (Permutation_sym (insert_desc_perm x l))) in Hz.
        destruct Hz as [<-|Hz]; [|now apply Hy].
        exists zy, zx. split; [exact Hzy|]. split; [exact Hx | lia].
      * apply IH; [|exact Hl].
        intros t [<-|Ht]; [now exists zx|]. apply Hnum. right. now right.
    + apply Z.ltb_ge in E. split; [|split; assumption].
      intros z [<-|Hz].
      * exists zx, zy. split; [exact Hx|]. split; [exact Hzy | exact E].
      * destruct (Hy z Hz) as (a & b & Ha & Hb & Hab).
        assert (a = zy) by congruence. subst a.
        exists zx, b. split; [exact Hx|]. split; [exact Hb | lia].
Qed.

Lemma sort_desc_ranked (l : list JoinedTransaction) :
  numeric_scores l -> ranked_by_abs_score (sort_desc l).
Proof.
  induction l as [|x l IH]; simpl; intros Hnum; [exact I|].
  apply insert_desc_ranked.
  - intros t [<-|Ht]; [apply Hnum; now left|].
    apply Hnum. right.
    exact (Permutation_in t (Permutation_sym (sort_desc_perm l)) Ht).
  - apply IH. intros t Ht. apply Hnum. now right.
Qed.

Lemma sort_desc_length (l : list JoinedTransaction) :
  length (sort_desc l) = length l.
Proof. symmetry. apply Permutation_length, sort_desc_perm. Qed.

Lemma ranked_split (l1 l2 : list JoinedTransaction) :
  ranked_by_abs_score (l1 ++ l2) ->
  forall x y, In x l1 -> In y l2 -> outranks x y.
Proof.
  induction l1 as [|a l1 IH]; simpl; intros Hs x y Hx Hy; [contradiction|].
  destruct Hs as [Ha Hs]. destruct Hx as [<-|Hx].
  - apply Ha. apply in_or_app. now right.
  - now apply (IH Hs x y).
Qed.

Lemma firstn_all_short (A : Type) (n : nat) (l : list A) :
  (length l <= n)%nat -> firstn n l = l.
Proof. intros H. now apply firstn_all2. Qed.

Lemma all_ticker_blocks_contains (m : list (string * list JoinedTransaction))
    (bs : list Block) (ticker : string) (txs : list JoinedTransaction) :
  all_ticker_blocks m = Some bs -> In (ticker, txs) m ->
  exists b pre post,
    ticker_blocks ticker txs = Some b /\ bs = (pre ++ b ++ post)%list.
Proof.
  revert bs. induction m as [|[t0 txs0] m IH]; intros bs Hall Hin; [contradiction|].
  simpl in Hall.
  destruct (ticker_blocks t0 txs0) as [b0|] eqn:E0; [|discriminate].
  destruct (all_ticker_blocks m) as [bs0|] eqn:E1; [|discriminate].
  injection Hall as <-. destruct Hin as [Heq|Hin].
  - injection Heq as <- <-. exists b0, [], bs0. auto.
  - destruct (IH bs0 eq_refl Hin) as (b & pre & post & Hb & ->).
    exists b, (b0 ++ pre)%list, post. split; [exact Hb|].
    now rewrite <- app_assoc.
Qed.

Lemma insert_ticker_perm x (l : list (string * list JoinedTransaction)) :
  Permutation (x :: l) (insert_ticker x l).
Proof.
  induction l as [|y l IH]; simpl.
  - apply Permutation_refl.
  - destruct (exceeds (max_abs_score (snd y)) (max_abs_score (snd x))).
    + eapply perm_trans; [apply perm_swap|]. now apply perm_skip.
    + apply Permutation_refl.
Qed.

Lemma sortedTickers_perm (m : list (string * list JoinedTransaction)) :
  Permutation m (sortedTickers m).
Proof.
  induction m as [|x m IH]; simpl.
  - apply perm_nil.
  - eapply perm_trans; [|apply insert_ticker_perm]. now apply perm_skip.
Qed.

(** C8, as amended.  In the digest each ticker group lists at most three
    of its transactions, each line carrying the insider's name and the
    score of its transaction: a group of [n > 3] shows exactly 3 of them
    followed by a note counting the [n - 3] left out ('...and 2 more' for
    five), and a group of [n <= 3] shows all of them and no note.  When
    every score of the group is a number, the transactions are listed by
    absolute score, greatest first, so that no transaction left out has a
    greater absolute score than one shown. *)
Theorem C8_digest_top_three :
  forall (d : date) (m : list (string * list JoinedTransaction))
         (msg : SlackMessage) (ticker : string) (txs : list JoinedTransaction),
    formatDailyDigest d m = Some msg ->
    In (ticker, txs) m ->
    exists (ranked : list JoinedTransaction) (head : Block)
           (lines : list DetailLine) (note pre post : list Block),
      blocks msg = (pre ++ (head :: context_lines lines :: note ++ [divider]) ++ post)%list
      /\ Permutation txs ranked
      /\ map line_name lines = map (fun t => name (insider t)) (firstn 3 ranked)
      /\ map line_score lines
         = map (fun t => signalScore (fields (tx t))) (firstn 3 ranked)
      /\ (numeric_scores txs ->
            ranked_by_abs_score ranked /\
            forall shown omitted,
              In shown (firstn 3 ranked) -> In omitted (skipn 3 ranked) ->
              outranks shown omitted)
      /\ ((3 < length txs)%nat ->
            length lines = 3%nat /\
            note = [context_text ("_...and " ++ show_nat (length txs - 3)
                                   ++ " more transactions_")])
      /\ ((length txs <= 3)%nat ->
            length lines = length txs /\ firstn 3 ranked = ranked /\ note = [])
      /\ (length txs = 5%nat ->
            note = [context_text "_...and 2 more transactions_"]).
Proof.
  intros d m msg ticker txs Hfmt Hin.
  unfold formatDailyDigest in Hfmt.
  destruct (all_ticker_blocks (sortedTickers m)) as [bs|] eqn:Hall; [|discriminate].
  injection Hfmt as <-. cbn [blocks].
  assert (Hin' : In (ticker, txs) (sortedTickers m)).
  { eapply Permutation_in; [apply sortedTickers_perm | exact Hin]. }
  destruct (all_ticker_blocks_contains _ _ _ Hall Hin')
    as (b & pre & post & Hb & ->).
  unfold ticker_blocks in Hb.
  destruct (display_name ticker txs) as [display|]; [|discriminate].
  injection Hb as <-.
  exists (sort_desc txs),
         (ticker_section display (count_code "P" txs) (count_code "S" txs)
                         (sum_value txs)),
         (map insiderLine (topInsiders txs)),
         (if (3 <? length txs)%nat then [more_note (length txs)] else []),
         ([header "Daily Insider Trading Digest";
           summary (fold_left (fun sum e => (sum + length (snd e))%nat) m 0%nat)
                   (length m);
           divider] ++ pre)%list,
         post.
  split; [now rewrite <- app_assoc|].
  split; [apply sort_desc_perm|].
  split; [unfold topInsiders; rewrite map_map; reflexivity|].
  split; [unfold topInsiders; rewrite map_map; reflexivity|].
  split.
  { intros Hnum. split; [now apply sort_desc_ranked|].
    intros shown omitted Hs Ho.
    apply (ranked_split (firstn 3 (sort_desc txs)) (skipn 3 (sort_desc txs)));
      [rewrite firstn_skipn; now apply sort_desc_ranked | exact Hs | exact Ho]. }
  split; [|split].
  - intros Hn. apply Nat.ltb_lt in Hn as Hb. rewrite Hb. split; [|reflexivity].
    unfold topInsiders. rewrite length_map, length_firstn, sort_desc_length. lia.
  - intros Hn. assert (Hb : (3 <? length txs)%nat = false) by (apply Nat.ltb_ge; lia).
    rewrite Hb.
    assert (Hall3 : firstn 3 (sort_desc txs) = sort_desc txs)
      by (apply firstn_all_short; now rewrite sort_desc_length).
    split; [|split; [exact Hall3 | reflexivity]].
    unfold topInsiders. now rewrite length_map, Hall3, sort_desc_length.
  - intros ->. reflexivity.
Qed.

Definition sample_insider (i : nat) : Insider :=
  {| insider_id := i; insider_issuerId := 100%nat;
     name := "Insider"; title := Some "Executive" |}.

Definition sample_issuer : Issuer :=
  {| issuer_id := 100%nat; cik := "320193"; ticker := Some "AAPL";
     companyName := "Apple Inc." |}.

(** A purchase of 1000 shares at 100.00 with signal score [s]. *)
Definition sample_tx (i : nat) (s : decimal) : JoinedTransaction :=
  {| tx := {| id := i;
              fields := {| filingAccession := "0000-24-000001";
                           insiderId := i; issuerId := 100%nat;
                           transactionDate := 19737%Z;
                           transactionCode := "P";
                           shares := Dec 10000000; price := Dec 1000000;
                           transactionValue := Dec 10000000;
                           postTransactionShares := Dec 100000000;
                           isDirectOwnership := true; is10b51 := false;
                           signalScore := s |} |};
     issuer := sample_issuer;
     insider := sample_insider i |}.

Definition five_transactions : list JoinedTransaction :=
  [ sample_tx 0 (Dec 100); sample_tx 1 (Dec (-200)); sample_tx 2 (Dec 300);
    sample_tx 3 (Dec (-400)); sample_tx 4 (Dec 500) ].

Lemma five_transactions_numeric : numeric_scores five_transactions.
Proof.
  intros t Ht. simpl in Ht.
  repeat (destruct Ht as [<-|Ht]; [eexists; reflexivity|]). contradiction.
Qed.

(** C8 at the five-transaction group of the formatter's own test: three
    lines, those of the three top-ranked transactions, and the note. *)
Lemma C8_digest_top_three_witness :
  exists (msg : SlackMessage) (ranked : list JoinedTransaction) (head : Block)
         (lines : list DetailLine) (pre post : list Block),
    formatDailyDigest 19737%Z [("AAPL", five_transactions)] = Some msg
    /\ blocks msg =
       (pre ++ (head :: context_lines lines
                :: [context_text "_...and 2 more transactions_"] ++ [divider])
        ++ post)%list
    /\ length lines = 3%nat
    /\ Permutation five_transactions ranked
    /\ ranked_by_abs_score ranked
    /\ map line_score lines
       = map (fun t => signalScore (fields (tx t))) (firstn 3 ranked).
Proof.
  destruct (formatDailyDigest 19737%Z [("AAPL", five_transactions)]) as [msg|] eqn:E;
    [|discriminate E].
  destruct (C8_digest_top_three _ _ _ _ E (or_introl eq_refl))
    as (ranked & head & lines & note & pre & post & Hblocks & Hperm & _ & Hscores
        & Hrank & Hmore & _ & Hfive).
  exists msg, ranked, head, lines, pre, post.
  split; [reflexivity|]. split; [|split; [|split; [|split]]].
  - rewrite Hblocks, (Hfive eq_refl). reflexivity.
  - apply Hmore. simpl. lia.
  - exact Hperm.
  - exact (proj1 (Hrank five_transactions_numeric)).
  - exact Hscores.
Defined.

(** A group with a score that is not a number: selling at a negative value
    is scored [NaN], and the column stores it. *)
Definition unranked_group : list JoinedTransaction :=
  [ sample_tx 0 (Dec 100); sample_tx 1 DecNaN; sample_tx 2 (Dec 500) ].

(** C8 as stated fails: the digest of [unranked_group] lists the score
    1.00 before the score 5.00, and no arrangement of the group is ranked
    by absolute score. *)
Lemma C8_not_ranked_with_a_NaN_score :
  (exists msg head pre post,
      formatDailyDigest 19737%Z [("AAPL", unranked_group)] = Some msg /\
      blocks msg =
        (pre ++ (head :: context_lines (map insiderLine unranked_group)
                 :: [] ++ [divider]) ++ post)%list /\
      map line_score (map insiderLine unranked_group)
        = [Dec 100; DecNaN; Dec 500])
  /\ (forall ranked, Permutation unranked_group ranked ->
                     ~ ranked_by_abs_score ranked).
Proof.
  split.
  - eexists. eexists. exists [header "Daily Insider Trading Digest";
                              summary 3 1; divider], [].
    split; [vm_compute; reflexivity|]. split; reflexivity.
  - intros ranked Hperm Hranked.
    assert (Hin : In (sample_tx 1 DecNaN) ranked).
    { eapply Permutation_in; [exact Hperm|]. right. now left. }
    assert (Hother : In (sample_tx 0 (Dec 100)) ranked).
    { eapply Permutation_in; [exact Hperm|]. now left. }
    clear Hperm.
    induction ranked as [|x l IH]; [contradiction|].
    destruct Hranked as [Hx Hl].
    destruct Hin as [->|Hin].
    + destruct Hother as [Ho|Ho]; [discriminate Ho|].
      destruct (Hx _ Ho) as (a & b & Ha & _). discriminate Ha.
    + destruct (Hx _ Hin) as (a & b & _ & Hb & _). discriminate Hb.
Qed.

End DigestClaims.

(* ================================================================== *)
(** * Properties of urgent alerting *)
(* ================================================================== *)

Section AlertClaims.

Import JsNumber Store Pipeline.
Local Open Scope string_scope.

Variable webhookUrl : string.
Variable slack : nat -> SlackMessageResponse.
Variable numeric : nat -> number -> option decimal.

(** At most one urgent alert per transaction. *)
Definition one_urgent_each (w : World) : Prop :=
  forall t : uuid, (count_alerts t urgent (db w) <= 1)%nat.

(** A computation keeps a property of the world, however it ends. *)
Definition keeps {A : Type} (P : World -> Prop) (m : M A) : Prop :=
  forall w, P w -> P (world_of (m w)).

Lemma keeps_ret (A : Type) (P : World -> Prop) (a : A) : keeps P (ret a).
Proof. intros w H. exact H. Qed.

Lemma keeps_throw (A : Type) (P : World -> Prop) (e : string) : keeps P (@throw A e).
Proof. intros w H. exact H. Qed.

Lemma keeps_bind (A B : Type) (P : World -> Prop) (m : M A) (f : A -> M B) :
  keeps P m -> (forall a, keeps P (f a)) -> keeps P (bind m f).
Proof.
  intros Hm Hf w H. unfold bind. specialize (Hm w H).
  destruct (m w) as [a w'|e w']; simpl in *; [now apply Hf | exact Hm].
Qed.

Lemma keeps_try_catch (A : Type) (P : World -> Prop) (m : M A) (h : string -> M A) :
  keeps P m -> (forall e, keeps P (h e)) -> keeps P (try_catch m h).
Proof.
  intros Hm Hh w H. unfold try_catch. specialize (Hm w H).
  destruct (m w) as [a w'|e w']; simpl in *; [exact Hm | now apply Hh].
Qed.

Lemma keeps_query (A : Type) (P : World -> Prop) (f : DB -> A) : keeps P (query f).
Proof. intros w H. exact H. Qed.

Lemma keeps_for_each (A : Type) (P : World -> Prop) (body : A -> M unit) (xs : list A) :
  (forall x, keeps P (body x)) -> keeps P (for_each body xs).
Proof.
  intros Hb. induction xs as [|x xs IH]; simpl.
  - apply keeps_ret.
  - apply keeps_bind; [apply Hb | intros _; exact IH].
Qed.

(** A write that leaves the alert table alone keeps the invariant. *)
Lemma keeps_mutate_other (A : Type) (f : DB -> A * DB) :
  (forall d, slackAlerts (snd (f d)) = slackAlerts d) ->
  keeps one_urgent_each (mutate f).
Proof.
  intros Hf w H t. unfold mutate. specialize (Hf (db w)).
  destruct (f (db w)) as [a d]. simpl in *.
  unfold count_alerts in *. rewrite Hf. apply H.
Qed.

Lemma upsertTransaction_alerts (d : DB) (data : InsertTransaction) :
  slackAlerts (snd (upsertTransaction d data)) = slackAlerts d.
Proof.
  unfold upsertTransaction.
  destruct (update_conflict data (transactions d)) as [[r rows]|]; reflexivity.
Qed.

Lemma upsertIssuer_alerts (d : DB) c t n :
  slackAlerts (snd (upsertIssuer d c t n)) = slackAlerts d.
Proof.
  unfold upsertIssuer.
  destruct (update_issuer c t n (issuers d)) as [[r rows]|]; reflexivity.
Qed.

Lemma upsertInsider_alerts (d : DB) i n t :
  slackAlerts (snd (upsertInsider d i n t)) = slackAlerts d.
Proof.
  unfold upsertInsider.
  destruct (update_insider i n t (insiders d)) as [[r rows]|]; reflexivity.
Qed.

Lemma count_alerts_record (d : DB) (data : InsertSlackAlert) (t : uuid) (ty : AlertType) :
  count_alerts t ty (snd (recordSlackAlert d data)) =
  (count_alerts t ty d
   + if Nat.eqb (transactionId data) t && AlertType_eqb (alertType data) ty
     then 1 else 0)%nat.
Proof.
  unfold count_alerts, recordSlackAlert. simpl.
  rewrite filter_app, length_app. simpl.
  unfold is_alert_for at 2. simpl.
  destruct (Nat.eqb (transactionId data) t && AlertType_eqb (alertType data) ty);
    reflexivity.
Qed.

Lemma no_alert_count_zero (d : DB) (t : uuid) (ty : AlertType) :
  hasSlackAlertForTransaction d t ty = false -> count_alerts t ty d = 0%nat.
Proof.
  unfold hasSlackAlertForTransaction, count_alerts.
  induction (slackAlerts d) as [|a l IH]; simpl; [reflexivity|].
  destruct (is_alert_for t ty a); simpl; [discriminate | exact IH].
Qed.

Lemma keeps_postMessage (P : DB -> Prop) (message : SlackMessage) :
  keeps (fun w => P (db w)) (postMessage webhookUrl slack message).
Proof.
  intros w H. unfold postMessage.
  destruct (negb (JsString.truthy (Some webhookUrl))); exact H.
Qed.

Lemma keeps_postUrgentAlert (transaction : Transaction) (form4Data : Form4Data)
    (insider : uuid) :
  keeps one_urgent_each (postUrgentAlert webhookUrl slack transaction form4Data insider).
Proof.
  intros w H. unfold postUrgentAlert, bind, query.
  destruct (hasSlackAlertForTransaction (db w) (id transaction) urgent) eqn:Has;
    [exact H|].
  unfold postMessage.
  destruct (negb (JsString.truthy (Some webhookUrl))); [exact H|].
  destruct (ok (slack (length (outbox w)))); [|exact H].
  unfold mutate. cbn [db].
  match goal with
  | |- context [recordSlackAlert ?d ?data] =>
      pose proof (count_alerts_record d data) as Hc;
      destruct (recordSlackAlert d data) as [a d'] eqn:E
  end.
  cbn [world_of ret db snd] in *. intros t. rewrite Hc. cbn [transactionId alertType].
  destruct (Nat.eqb_spec (id transaction) t) as [<-|Hne]; cbn [andb AlertType_eqb].
  - rewrite (no_alert_count_zero _ _ _ Has). lia.
  - rewrite Nat.add_0_r. apply H.
Qed.

Lemma keeps_to_decimal (P : World -> Prop) (s : nat) (x : number) :
  keeps P (to_decimal numeric s x).
Proof.
  unfold to_decimal. destruct (numeric s x); [apply keeps_ret | apply keeps_throw].
Qed.

Lemma keeps_processTransaction (form4Data : Form4Data) (txInfo : TransactionInfo)
    (issuer insider : uuid) :
  keeps one_urgent_each
        (processTransaction webhookUrl slack numeric form4Data txInfo issuer insider).
Proof.
  unfold processTransaction.
  apply keeps_bind; [apply keeps_query | intros input].
  repeat (apply keeps_bind; [apply keeps_to_decimal | intros ?]).
  apply keeps_bind.
  - apply keeps_mutate_other. intros d. apply upsertTransaction_alerts.
  - intros transaction.
    destruct (Scoring.shouldTriggerUrgentAlert _ _);
      [apply keeps_postUrgentAlert | apply keeps_ret].
Qed.

Lemma keeps_processSingleFiling (f : Filing) :
  keeps one_urgent_each (processSingleFiling webhookUrl slack numeric f).
Proof.
  unfold processSingleFiling. destruct (fetched f) as [e|form4Data].
  - apply keeps_throw.
  - apply keeps_bind.
    { apply keeps_mutate_other. intros d. apply upsertIssuer_alerts. }
    intros issuer. apply keeps_bind.
    { apply keeps_mutate_other. intros d. apply upsertInsider_alerts. }
    intros ins. apply keeps_for_each. intros txInfo.
    apply keeps_processTransaction.
Qed.

Lemma keeps_process (feed : string + list Filing) :
  keeps one_urgent_each (process webhookUrl slack numeric feed).
Proof.
  unfold process. destruct feed as [e|filings]; [apply keeps_ret|].
  generalize {| filingsProcessed := 0; transactionsCreated := 0;
                transactionsUpdated := 0; urgentAlertsPosted := 0; errors := [] |}.
  induction filings as [|f rest IH]; intros stats; simpl.
  - apply keeps_ret.
  - apply keeps_bind; [|intros stats'; apply IH].
    apply keeps_try_catch; [|intros e; apply keeps_ret].
    apply keeps_bind; [apply keeps_processSingleFiling | intros _; apply keeps_ret].
Qed.

Lemma keeps_record_digest_alert (response : SlackMessageResponse)
    (t : Digest.JoinedTransaction) :
  keeps one_urgent_each (record_digest_alert response t).
Proof.
  unfold record_digest_alert.
  apply keeps_try_catch; [|intros e; apply keeps_ret].
  apply keeps_bind; [|intros _; apply keeps_ret].
  intros w H u. unfold mutate.
  match goal with
  | |- context [recordSlackAlert ?d ?data] =>
      pose proof (count_alerts_record d data u urgent) as Hc;
      destruct (recordSlackAlert d data) as [a d'] eqn:E
  end.
  cbn [world_of db snd alertType AlertType_eqb] in *.
  rewrite Hc, andb_false_r, Nat.add_0_r. apply H.
Qed.

Lemma keeps_generateDigest (day : date) :
  keeps one_urgent_each (generateDigest webhookUrl slack day).
Proof.
  unfold generateDigest.
  apply keeps_bind; [apply keeps_query | intros transactions].
  destruct transactions as [|t0 rest]; [apply keeps_ret|].
  apply keeps_try_catch; [|intros e; apply keeps_ret].
  destruct (Digest.formatDailyDigest day _) as [message|]; [|apply keeps_throw].
  apply keeps_bind.
  { apply (keeps_postMessage (fun d => forall t, (count_alerts t urgent d <= 1)%nat)). }
  intros response. destruct (ok response); [|apply keeps_ret].
  apply keeps_bind; [|intros _; apply keeps_ret].
  apply keeps_for_each. intros t. apply keeps_record_digest_alert.
Qed.

Lemma reachable_one_urgent_each (w : World) :
  reachable webhookUrl slack numeric w -> one_urgent_each w.
Proof.
  induction 1 as [|w w' Hreach IH Hrun].
  - intros t. apply Nat.le_0_l.
  - destruct Hrun as [feed w|day w].
    + now apply keeps_process.
    + now apply keeps_generateDigest.
Qed.

End AlertClaims.

(* ================================================================== *)
(** * Properties of the transaction upsert *)
(* ================================================================== *)

Section UpsertClaims.

Import Store.
Local Open Scope string_scope.

Lemma decimal_eqb_eq (a b : decimal) : decimal_eqb a b = true <-> a = b.
Proof.
  destruct a as [x|], b as [y|]; cbn [decimal_eqb].
  - rewrite Z.eqb_eq. split; [intros -> | intros H; injection H]; auto.
  - split; discriminate.
  - split; discriminate.
  - split; reflexivity.
Qed.

Lemma key_eqb_eq (k1 k2 : dedupe_key) : key_eqb k1 k2 = true <-> k1 = k2.
Proof.
  destruct k1 as [[[[f1 i1] d1] s1] p1], k2 as [[[[f2 i2] d2] s2] p2].
  unfold key_eqb.
  rewrite !andb_true_iff, String.eqb_eq, Nat.eqb_eq, Z.eqb_eq, !decimal_eqb_eq.
  split.
  - intros [[[[-> ->] ->] ->] ->]. reflexivity.
  - intros H. injection H as -> -> -> -> ->. auto.
Qed.

Lemma key_eqb_refl (k : dedupe_key) : key_eqb k k = true.
Proof. now apply key_eqb_eq. Qed.

Lemma key_eqb_neq (k1 k2 : dedupe_key) : key_eqb k1 k2 = false <-> k1 <> k2.
Proof.
  rewrite <- key_eqb_eq. destruct (key_eqb k1 k2); split; congruence.
Qed.

Lemma key_of_refresh (old new : InsertTransaction) :
  key_of (refresh old new) = key_of old.
Proof. reflexivity. Qed.

(** The six columns of the [set] clause. *)
Definition refreshed_columns (d : InsertTransaction)
    : string * decimal * decimal * bool * bool * decimal :=
  (transactionCode d, transactionValue d, postTransactionShares d,
   isDirectOwnership d, is10b51 d, signalScore d).

(** A conflict rewrites exactly one row, in place. *)
Lemma update_conflict_some (data : InsertTransaction) (rows rows' : list Transaction)
    (r' : Transaction) :
  update_conflict data rows = Some (r', rows') ->
  exists pre old post,
    rows = (pre ++ old :: post)%list /\ rows' = (pre ++ r' :: post)%list
    /\ r' = {| id := id old; fields := refresh (fields old) data |}
    /\ row_key old = key_of data
    /\ (forall x, In x pre -> row_key x <> key_of data).
Proof.
  revert rows' r'. induction rows as [|r rest IH]; intros rows' r' H; [discriminate|].
  cbn [update_conflict] in H. destruct (key_eqb (row_key r) (key_of data)) eqn:E.
  - injection H as <- <-. exists [], r, rest.
    split; [reflexivity|]. split; [reflexivity|]. split; [reflexivity|].
    split; [now apply key_eqb_eq | intros x []].
  - destruct (update_conflict data rest) as [[x rest']|] eqn:E'; [|discriminate].
    injection H as <- <-.
    destruct (IH _ _ eq_refl) as (pre & old & post & -> & -> & Hx & Hk & Hpre).
    exists (r :: pre), old, post.
    split; [reflexivity|]. split; [reflexivity|].
    split; [exact Hx|]. split; [exact Hk|].
    intros y [<-|Hy]; [now apply key_eqb_neq | now apply Hpre].
Qed.

Lemma count_key_app (k : dedupe_key) (l1 l2 : list Transaction) :
  count_key k (l1 ++ l2) = (count_key k l1 + count_key k l2)%nat.
Proof. unfold count_key. now rewrite filter_app, length_app. Qed.

Lemma count_key_cons (k : dedupe_key) (r : Transaction) (l : list Transaction) :
  count_key k (r :: l) =
  ((if key_eqb (row_key r) k then 1 else 0) + count_key k l)%nat.
Proof. unfold count_key. cbn [filter]. now destruct (key_eqb (row_key r) k). Qed.

Lemma update_conflict_none (data : InsertTransaction) (rows : list Transaction) :
  update_conflict data rows = None ->
  count_key (key_of data) rows = 0%nat.
Proof.
  induction rows as [|r rest IH]; intros H; [reflexivity|].
  cbn [update_conflict] in H. rewrite count_key_cons.
  destruct (key_eqb (row_key r) (key_of data)); [discriminate|].
  destruct (update_conflict data rest) as [[x rest']|]; [discriminate|].
  now apply IH.
Qed.

(** What an upsert does to the table. *)
Lemma upsert_rows (d : DB) (data : InsertTransaction) :
  let r := fst (upsertTransaction d data) in
  let rows' := transactions (snd (upsertTransaction d data)) in
  In r rows' /\ row_key r = key_of data
  /\ refreshed_columns (fields r) = refreshed_columns data
  /\ (forall k, count_key k rows' =
                if key_eqb (key_of data) k
                then Nat.max 1 (count_key k (transactions d))
                else count_key k (transactions d))
  /\ (length rows' =
      if (0 <? count_key (key_of data) (transactions d))%nat
      then length (transactions d) else S (length (transactions d)))
  /\ (forall x, row_key x <> key_of data ->
                (In x rows' <-> In x (transactions d))).
Proof.
  unfold upsertTransaction.
  destruct (update_conflict data (transactions d)) as [[r rows']|] eqn:E.
  - apply update_conflict_some in E.
    destruct E as (pre & old & post & Hrows & -> & Hr & Hk & Hpre).
    cbn [fst snd transactions set_transactions]. rewrite Hrows.
    assert (Hkr : row_key r = key_of data).
    { rewrite Hr. unfold row_key. cbn [fields]. now rewrite key_of_refresh. }
    split; [apply in_or_app; right; now left|].
    split; [exact Hkr|].
    split; [rewrite Hr; reflexivity|].
    split; [|split].
    + intros k. rewrite !count_key_app, !count_key_cons, Hkr, Hk.
      destruct (key_eqb (key_of data) k); lia.
    + rewrite count_key_app, count_key_cons, Hk, key_eqb_refl.
      replace (0 <? _)%nat with true by (symmetry; apply Nat.ltb_lt; lia).
      rewrite !length_app. reflexivity.
    + intros x Hx. rewrite !in_app_iff. simpl.
      split; (intros [H|[H|H]]; [now left | subst x; contradiction | now right; right]).
  - apply update_conflict_none in E.
    cbn [fst snd transactions set_transactions].
    split; [apply in_or_app; right; now left|].
    split; [reflexivity|].
    split; [reflexivity|].
    split; [|split].
    + intros k. rewrite count_key_app, count_key_cons.
      unfold row_key. cbn [fields].
      destruct (key_eqb (key_of data) k) eqn:Ek.
      * apply key_eqb_eq in Ek. subst k. rewrite E. reflexivity.
      * unfold count_key at 2. simpl. lia.
    + rewrite E. simpl. rewrite length_app. simpl. lia.
    + intros x Hx. rewrite in_app_iff. simpl. split.
      * intros [H|[H|[]]]; [exact H|]. subst x. now contradiction Hx.
      * intros H. now left.
Qed.

Lemma upsert_dedupe_ok (d : DB) (data : InsertTransaction) :
  dedupe_ok (transactions d) ->
  dedupe_ok (transactions (snd (upsertTransaction d data))).
Proof.
  intros Hd k. destruct (upsert_rows d data) as (_ & _ & _ & Hc & _).
  rewrite Hc. specialize (Hd k). destruct (key_eqb (key_of data) k); lia.
Qed.


(** Rows of one key in a table that satisfies the constraint are one row. *)
Lemma dedupe_ok_unique (rows : list Transaction) (r1 r2 : Transaction) :
  dedupe_ok rows -> In r1 rows -> In r2 rows -> row_key r1 = row_key r2 -> r1 = r2.
Proof.
  intros Hd H1 H2 Hk.
  apply in_split in H1. destruct H1 as (pre & post & ->).
  specialize (Hd (row_key r1)).
  rewrite count_key_app, count_key_cons, key_eqb_refl in Hd.
  apply in_app_or in H2. destruct H2 as [H2|[H2|H2]]; [|exact H2|].
  - apply in_split in H2. destruct H2 as (a & b & ->).
    rewrite count_key_app, count_key_cons, <- Hk, key_eqb_refl in Hd. lia.
  - apply in_split in H2. destruct H2 as (a & b & ->).
    rewrite count_key_app, count_key_cons, <- Hk, key_eqb_refl in Hd. lia.
Qed.








End UpsertClaims.

Section StoreClaims.

Import JsNumber Store Pipeline.
Local Open Scope string_scope.



(** A transaction of 100 shares at 50.00 on 2024-04-01, after which 9900
    shares are held, with the code and the score a pass gives it. *)
Definition sample_insert (code : string) (score : decimal) : InsertTransaction :=
  {| filingAccession := "0001234567-24-000006"; insiderId := 1%nat;
     issuerId := 0%nat; transactionDate := 19814%Z; transactionCode := code;
     shares := 1000000%Z; price := 500000%Z; transactionValue := 500000%Z;
     postTransactionShares := 99000000%Z; isDirectOwnership := true;
     is10b51 := false; signalScore := score |}.



(** ** The most recent transaction on or before a date *)

Lemma latest_none (rows : list Transaction) : latest rows = None -> rows = [].
Proof.
  destruct rows as [|r rest]; [reflexivity|]. simpl.
  destruct (latest rest) as [m|]; [|discriminate].
  destruct (_ <? _)%Z; discriminate.
Qed.

Lemma latest_some (rows : list Transaction) (m : Transaction) :
  latest rows = Some m ->
  In m rows /\
  forall r, In r rows -> (transactionDate (fields r) <= transactionDate (fields m))%Z.
Proof.
  revert m. induction rows as [|r rest IH]; intros m H; [discriminate|].
  simpl in H. destruct (latest rest) as [m0|] eqn:E.
  - destruct (IH m0 eq_refl) as [Hin Hmax].
    destruct (transactionDate (fields r) <? transactionDate (fields m0))%Z eqn:Hlt;
      injection H as <-.
    + apply Z.ltb_lt in Hlt. split; [now right|].
      intros x [<-|Hx]; [lia | now apply Hmax].
    + apply Z.ltb_ge in Hlt. split; [now left|].
      intros x [<-|Hx]; [lia|]. specialize (Hmax x Hx). lia.
  - injection H as <-. apply latest_none in E. subst rest.
    split; [now left|]. intros x [<-|[]]. lia.
Qed.

Lemma getInsiderPreviousTransaction_allowed (d : DB) (insider : uuid) (beforeDate : date) :
  previous_transaction_result d insider beforeDate
    (getInsiderPreviousTransaction d insider beforeDate).
Proof.
  unfold getInsiderPreviousTransaction, previous_transaction_result.
  destruct (latest (filter (on_or_before insider beforeDate) (transactions d)))
    as [m|] eqn:E.
  - apply latest_some in E. destruct E as [Hin Hmax].
    apply filter_In in Hin. destruct Hin as [Hin Hm].
    split; [exact Hin|]. split; [exact Hm|].
    intros r' Hr' Hok. apply Hmax. apply filter_In. auto.
  - apply latest_none in E. intros r' Hr'.
    destruct (on_or_before insider beforeDate r') eqn:Hok; [|reflexivity].
    assert (Hin : In r' (filter (on_or_before insider beforeDate) (transactions d)))
      by (apply filter_In; auto).
    rewrite E in Hin. contradiction.
Qed.

(** [checkFirstActivity] is true exactly when the insider has no recorded
    transaction dated from 180 days before the event up to the event date,
    both ends included. *)
Lemma checkFirstActivity_window (d : DB) (insider : uuid) (day : date) :
  checkFirstActivity d insider day = true <->
  forall r, In r (transactions d) -> insiderId (fields r) = insider ->
            ~ (day - 180 <= transactionDate (fields r) <= day)%Z.
Proof.
  unfold checkFirstActivity, getInsiderLastTransactionDate, Scoring.FIRST_ACTIVITY_DAYS.
  destruct (latest (filter (on_or_before insider day) (transactions d))) as [m|] eqn:E;
    cbn [option_map].
  - apply latest_some in E. destruct E as [Hin Hmax].
    apply filter_In in Hin. destruct Hin as [Hin Hm].
    unfold on_or_before in Hm. apply andb_true_iff in Hm. destruct Hm as [Hi Hle].
    apply Nat.eqb_eq in Hi. apply Z.leb_le in Hle.
    rewrite Z.ltb_lt. split.
    + intros Hlt r Hr Hri Hwin.
      assert (Hf : In r (filter (on_or_before insider day) (transactions d))).
      { apply filter_In. split; [exact Hr|]. unfold on_or_before.
        apply andb_true_iff. split; [now apply Nat.eqb_eq | apply Z.leb_le; lia]. }
      specialize (Hmax r Hf). lia.
    + intros Hnone.
      destruct (Z_lt_le_dec (transactionDate (fields m)) (day - 180)) as [Hlt|Hge];
        [exact Hlt|].
      exfalso. apply (Hnone m Hin Hi). lia.
  - apply latest_none in E. split; [|reflexivity].
    intros _ r Hr Hri Hwin.
    assert (Hf : In r (filter (on_or_before insider day) (transactions d))).
    { apply filter_In. split; [exact Hr|]. unfold on_or_before.
      apply andb_true_iff. split; [now apply Nat.eqb_eq | apply Z.leb_le; lia]. }
    rewrite E in Hf. contradiction.
Qed.

Lemma round2_zero : round2 0 = 0%R.
Proof.
  replace 0%R with (IZR 0 / 100)%R by lra.
  apply round2_of_hundredths. unfold Rabs. destruct Rcase_abs; lra.
Qed.

Lemma calculateHoldingsDelta_same (r : R) :
  Scoring.calculateHoldingsDelta (Fin r) (Fin r) = Fin 0.
Proof.
  unfold Scoring.calculateHoldingsDelta, is_zero.
  destruct (Req_dec_T r 0) as [Hz|Hnz]; [reflexivity|].
  cbn [sub div]. destruct (Req_dec_T r 0) as [Hz|_]; [contradiction|].
  cbn [mul toFixed2]. f_equal.
  replace ((r - r) / r * 100)%R with 0%R by (field; exact Hnz).
  apply round2_zero.
Qed.

End StoreClaims.

(* ================================================================== *)
(** * Properties of the processor *)
(* ================================================================== *)

Section PipelineClaims.

Import JsNumber Store Pipeline.
Local Open Scope string_scope.

Lemma row_key_components (t : Transaction) (data : InsertTransaction) :
  row_key t = key_of data ->
  insiderId (fields t) = insiderId data
  /\ transactionDate (fields t) = transactionDate data.
Proof.
  unfold row_key, key_of. intros H. injection H as _ Hi Hd _ _. auto.
Qed.

Lemma upserted_row_is_on_or_before (d : DB) (data : InsertTransaction) :
  let t := fst (upsertTransaction d data) in
  In t (transactions (snd (upsertTransaction d data)))
  /\ on_or_before (insiderId data) (transactionDate (fields t)) t = true
  /\ transactionDate (fields t) = transactionDate data.
Proof.
  cbv zeta. destruct (upsert_rows d data) as (Hin & Hk & _).
  apply row_key_components in Hk. destruct Hk as [Hi Hd].
  split; [exact Hin|]. split; [|exact Hd].
  unfold on_or_before. apply andb_true_iff.
  split; [now apply Nat.eqb_eq | apply Z.leb_le; lia].
Qed.

(** C4.  In every state reachable by runs of the processor and of the
    digest job, one after the other, each transaction has at most one
    urgent alert.  [postUrgentAlert] first looks for an urgent alert of the
    transaction: when there is one it returns with nothing posted and
    nothing written; otherwise it posts, and only a reply with [ok] set
    makes it write one urgent alert for the transaction; without a webhook
    or on a reply that is not [ok] the store is left as it was. *)
Theorem C4_at_most_one_urgent_alert :
  forall (webhookUrl : string) (slack : nat -> SlackMessageResponse)
         (numeric : nat -> number -> option decimal),
    (forall w, reachable webhookUrl slack numeric w ->
               forall t, (count_alerts t urgent (db w) <= 1)%nat)
    /\ (forall w transaction form4Data insider,
          hasSlackAlertForTransaction (db w) (id transaction) urgent = true ->
          postUrgentAlert webhookUrl slack transaction form4Data insider w
          = Returned tt w)
    /\ (forall w transaction form4Data insider,
          hasSlackAlertForTransaction (db w) (id transaction) urgent = false ->
          JsString.truthy (Some webhookUrl) = true ->
          ok (slack (length (outbox w))) = true ->
          exists w' message a,
            postUrgentAlert webhookUrl slack transaction form4Data insider w
            = Returned tt w'
            /\ outbox w' = (outbox w ++ [message])%list
            /\ slackAlerts (db w') = (slackAlerts (db w) ++ [a])%list
            /\ transactionId (alert a) = id transaction
            /\ alertType (alert a) = urgent
            /\ count_alerts (id transaction) urgent (db w') = 1%nat)
    /\ (forall w transaction form4Data insider,
          hasSlackAlertForTransaction (db w) (id transaction) urgent = false ->
          JsString.truthy (Some webhookUrl) = false
          \/ ok (slack (length (outbox w))) = false ->
          db (world_of (postUrgentAlert webhookUrl slack transaction form4Data insider w))
          = db w).
Proof.
  intros webhookUrl slack numeric.
  split; [intros w Hw; exact (reachable_one_urgent_each Hw)|].
  split; [|split].
  - intros w transaction form4Data insider Has.
    unfold postUrgentAlert, bind, query. now rewrite Has.
  - intros w transaction form4Data insider Has Hurl Hok.
    unfold postUrgentAlert, bind, query, postMessage, mutate.
    rewrite Has, Hurl. cbn [negb]. rewrite Hok. cbn [db recordSlackAlert ret].
    eexists. eexists. eexists.
    split; [reflexivity|]. cbn [outbox db slackAlerts set_slackAlerts alert
                                transactionId alertType].
    split; [reflexivity|]. split; [reflexivity|].
    split; [reflexivity|]. split; [reflexivity|].
    unfold count_alerts. cbn [db slackAlerts set_slackAlerts].
    rewrite filter_app, length_app.
    fold (count_alerts (id transaction) urgent (db w)).
    rewrite (no_alert_count_zero _ _ _ Has). cbn [filter].
    unfold is_alert_for. cbn [alert transactionId alertType AlertType_eqb].
    now rewrite Nat.eqb_refl.
  - intros w transaction form4Data insider Has Hfail.
    unfold postUrgentAlert, bind, query, postMessage.
    rewrite Has.
    destruct (JsString.truthy (Some webhookUrl)); cbn [negb]; [|reflexivity].
    destruct Hfail as [Hfail|Hfail]; [discriminate Hfail|].
    rewrite Hfail. reflexivity.
Qed.

(** The sale of 100 shares at 50.00 on 2024-04-01 that [sample_insert]
    stores, as the parser hands it over. *)
Definition sample_transaction : TransactionInfo :=
  {| tx_transactionDate := 19814%Z; tx_transactionCode := "S";
     tx_shares := Fin 100; tx_pricePerShare := Fin 50;
     tx_transactionValue := Fin 5000;
     tx_postTransactionShares := Fin 9900;
     tx_isDirectOwnership := true; tx_is10b51 := false |}.

Definition sample_form : Form4Data :=
  {| accessionNumber := "0001234567-24-000006";
     form_issuer := {| info_cik := "12345"; info_ticker := None;
                       info_companyName := "Test Company" |};
     form_insider := {| info_name := "Unnamed Insider"; info_title := None |};
     form_transactions := [sample_transaction] |}.

Definition sample_feed : string + list Filing :=
  inr [ {| filing_accession := "0001234567-24-000006"; fetched := inr sample_form |} ].

Definition always_ok (n : nat) : SlackMessageResponse :=
  {| ok := true; ts := Some "2024-04-02T00:00:00.000Z"; error := None |}.

(** The date of the insider's most recent recorded transaction among those
    dated on or before [day], read off the table; [None] when there is
    none. *)
Definition most_recent_date (d : DB) (insider : uuid) (day : date)
    (last : option date) : Prop :=
  match last with
  | Some m =>
      (exists r, In r (transactions d) /\ insiderId (fields r) = insider /\
                 transactionDate (fields r) = m /\ (m <= day)%Z) /\
      (forall r, In r (transactions d) -> insiderId (fields r) = insider ->
                 (transactionDate (fields r) <= day)%Z ->
                 (transactionDate (fields r) <= m)%Z)
  | None =>
      forall r, In r (transactions d) -> insiderId (fields r) = insider ->
                ~ (transactionDate (fields r) <= day)%Z
  end.

(** C5.  On a host that computes dates in UTC, the first-activity flag
    handed to the scorer is [checkFirstActivity], and it is true exactly
    when no recorded transaction of the insider is dated in the 180 days up
    to the event date, that is from [day - 180] to [day], both included;
    put through the most recent transaction: exactly when the insider has
    no transaction dated on or before the event date, or the most recent
    such one is dated before [day - 180].  A transaction recorded inside
    that window makes the flag false. *)
Theorem C5_first_activity_iff_nothing_in_the_window :
  forall (d : DB) (insider : uuid) (day : date),
    (checkFirstActivity d insider day = true <->
       forall r, In r (transactions d) -> insiderId (fields r) = insider ->
                 ~ (day - 180 <= transactionDate (fields r) <= day)%Z)
    /\ (forall last : option date,
          most_recent_date d insider day last ->
          (checkFirstActivity d insider day = true <->
           match last with
           | None => True
           | Some m => (m < day - 180)%Z
           end))
    /\ (forall r, In r (transactions d) -> insiderId (fields r) = insider ->
          (day - 180 <= transactionDate (fields r) <= day)%Z ->
          checkFirstActivity d insider day = false)
    /\ (forall form4Data txInfo issuer,
          tx_transactionDate txInfo = day ->
          Scoring.isFirstActivityIn180Days
            (scoreInput d form4Data txInfo issuer insider)
          = Some (checkFirstActivity d insider day)).
Proof.
  intros d insider day.
  pose proof (checkFirstActivity_window d insider day) as Hwin.
  split; [exact Hwin|]. split; [|split].
  - intros last Hlast. rewrite Hwin. destruct last as [m|]; cbn [most_recent_date] in Hlast.
    + destruct Hlast as [(r & Hr & Hi & Hm & Hle) Hmax]. split.
      * intros Hnone.
        destruct (Z_lt_le_dec m (day - 180)) as [Hlt|Hge]; [exact Hlt|].
        exfalso. apply (Hnone r Hr Hi). lia.
      * intros Hlt x Hx Hxi Hin. specialize (Hmax x Hx Hxi). lia.
    + split; [trivial|]. intros _ r Hr Hi Hin. apply (Hlast r Hr Hi). lia.
  - intros r Hr Hi Hin. apply not_true_is_false. intros Htrue.
    exact (proj1 Hwin Htrue r Hr Hi Hin).
  - intros form4Data txInfo issuer <-. reflexivity.
Qed.

(** C5 on a store holding one sale of the insider, dated 2024-04-01: the
    flag is false for an event 180 days later and true for one 181 days
    later. *)
Lemma C5_first_activity_iff_nothing_in_the_window_witness :
  let d := snd (upsertTransaction empty_db (sample_insert "S" (Dec (-100)))) in
  checkFirstActivity d 1%nat (19814 + 180)%Z = false
  /\ checkFirstActivity d 1%nat (19814 + 181)%Z = true.
Proof.
  cbv zeta. split.
  - apply (proj1 (proj2 (proj2
             (C5_first_activity_iff_nothing_in_the_window
                (snd (upsertTransaction empty_db (sample_insert "S" (Dec (-100)))))
                1%nat (19814 + 180)%Z)))
             (fst (upsertTransaction empty_db (sample_insert "S" (Dec (-100)))))).
    + left. reflexivity.
    + reflexivity.
    + cbn. lia.
  - apply (proj1 (C5_first_activity_iff_nothing_in_the_window
                    (snd (upsertTransaction empty_db (sample_insert "S" (Dec (-100)))))
                    1%nat (19814 + 181)%Z)).
    intros r [<-|[]] _. cbn. lia.
Defined.

(** A sale by the same insider ten days earlier, after which 10000 shares
    were held. *)
Definition earlier_insert : InsertTransaction :=
  {| filingAccession := "0001234567-24-000005"; insiderId := 1%nat;
     issuerId := 0%nat; transactionDate := 19804%Z; transactionCode := "S";
     shares := 1000000%Z; price := 500000%Z; transactionValue := 500000%Z;
     postTransactionShares := 100000000%Z; isDirectOwnership := true;
     is10b51 := false; signalScore := (-100)%Z |}.

Lemma calculateHoldingsDelta_earlier :
  Scoring.calculateHoldingsDelta (Number4 100000000%Z) (Number4 99000000%Z) = Fin (-1).
Proof.
  unfold Scoring.calculateHoldingsDelta, Number4, is_zero.
  destruct (Req_dec_T (IZR 100000000 / 10000) 0) as [Hz|Hnz]; [exfalso; lra|].
  cbn [sub div]. destruct (Req_dec_T (IZR 100000000 / 10000) 0) as [Hz|_]; [contradiction|].
  cbn [mul toFixed2]. f_equal.
  replace ((IZR 99000000 / 10000 - IZR 100000000 / 10000)
           / (IZR 100000000 / 10000) * 100)%R with (IZR (-100) / 100)%R by lra.
  rewrite round2_of_hundredths; [lra|].
  unfold Rabs. destruct Rcase_abs; lra.
Qed.

Lemma zero_delta_not_shown transaction issuer insider :
  shows_holdings_delta (UrgentAlert transaction issuer insider (Some (Fin 0))) = false.
Proof.
  unfold shows_holdings_delta, is_zero.
  destruct (Req_dec_T 0 0) as [_|H]; [reflexivity | contradiction].
Qed.

(** C6.  The lookup behind the holdings delta runs after the current
    transaction has been upserted and keeps rows dated on or before its
    date, the current row among them: whatever row the database returns is
    dated on the current transaction's own date, never before it, and a
    delta is always computed.  With an earlier transaction of the insider
    on file (10000 shares held after it, 9900 after the current one) the
    row found is still the current record itself, so the delta handed to
    the formatter is 0 and is not shown, where the earlier row gives -1. *)
Theorem C6_holdings_delta_uses_the_current_record :
  (forall (d : DB) (data : InsertTransaction) (res : option Transaction),
      let t := fst (upsertTransaction d data) in
      let d' := snd (upsertTransaction d data) in
      previous_transaction_result d' (insiderId data) (transactionDate (fields t)) res ->
      exists p, res = Some p
                /\ transactionDate (fields p) = transactionDate (fields t))
  /\ (forall (d : DB) (data : InsertTransaction),
        let t := fst (upsertTransaction d data) in
        let d' := snd (upsertTransaction d data) in
        exists p x,
          getInsiderPreviousTransaction d' (insiderId data) (transactionDate (fields t))
          = Some p
          /\ transactionDate (fields p) = transactionDate (fields t)
          /\ holdingsDelta d' (insiderId data) t = Some x)
  /\ (let data := sample_insert "P" 200%Z in
      let d := snd (upsertTransaction empty_db earlier_insert) in
      let earlier := fst (upsertTransaction empty_db earlier_insert) in
      let t := fst (upsertTransaction d data) in
      let d' := snd (upsertTransaction d data) in
      In earlier (transactions d')
      /\ insiderId (fields earlier) = insiderId data
      /\ (transactionDate (fields earlier) < transactionDate (fields t))%Z
      /\ getInsiderPreviousTransaction d' (insiderId data) (transactionDate (fields t))
         = Some t
      /\ holdingsDelta d' (insiderId data) t = Some (Fin 0)
      /\ (forall issuer insider,
            shows_holdings_delta
              (UrgentAlert t issuer insider (holdingsDelta d' (insiderId data) t))
            = false)
      /\ Scoring.calculateHoldingsDelta
           (Number4 (postTransactionShares (fields earlier)))
           (Number4 (postTransactionShares (fields t))) = Fin (-1)).
Proof.
  assert (Hgen : forall (d : DB) (data : InsertTransaction) (res : option Transaction),
             previous_transaction_result (snd (upsertTransaction d data)) (insiderId data)
               (transactionDate (fields (fst (upsertTransaction d data)))) res ->
             exists p, res = Some p
                       /\ transactionDate (fields p)
                          = transactionDate (fields (fst (upsertTransaction d data)))).
  { intros d data res Hres.
    destruct (upserted_row_is_on_or_before d data) as (Hin & Hok & Hdate).
    destruct res as [p|]; simpl in Hres.
    - exists p. split; [reflexivity|].
      destruct Hres as (Hp & Hpok & Hmax).
      specialize (Hmax _ Hin Hok).
      unfold on_or_before in Hpok. apply andb_true_iff in Hpok.
      destruct Hpok as [_ Hle]. apply Z.leb_le in Hle. lia.
    - rewrite (Hres _ Hin) in Hok. discriminate Hok. }
  split; [exact Hgen|]. split.
  - intros d data. cbv zeta.
    destruct (Hgen d data _ (getInsiderPreviousTransaction_allowed _ _ _))
      as (p & Hp & Hdate).
    exists p. unfold holdingsDelta. rewrite Hp.
    eexists. split; [reflexivity|]. split; [exact Hdate | reflexivity].
  - cbv zeta.
    set (d := snd (upsertTransaction empty_db earlier_insert)).
    set (t := fst (upsertTransaction d (sample_insert "P" 200%Z))).
    set (d' := snd (upsertTransaction d (sample_insert "P" 200%Z))).
    assert (Hprev : getInsiderPreviousTransaction d' (insiderId (sample_insert "P" 200%Z))
                      (transactionDate (fields t)) = Some t) by reflexivity.
    assert (Hdelta : holdingsDelta d' (insiderId (sample_insert "P" 200%Z)) t
                     = Some (Fin 0)).
    { unfold holdingsDelta. rewrite Hprev. apply f_equal.
      apply calculateHoldingsDelta_same. }
    split; [left; reflexivity|]. split; [reflexivity|]. split; [reflexivity|].
    split; [exact Hprev|]. split; [exact Hdelta|]. split.
    + intros issuer insider. rewrite Hdelta. apply zero_delta_not_shown.
    + exact calculateHoldingsDelta_earlier.
Qed.

End PipelineClaims.

(* ================================================================== *)
(** * Properties of the Form 4 parser *)
(* ================================================================== *)

Section ParserClaims.

Import JsString RegExp Pattern NumberQ Parser.
Local Open Scope string_scope.

(** What [parseTransactionElement] guarantees of a transaction it builds. *)
Definition well_read (t : TransactionInfo) : Prop :=
  isNaN (shares t) = false
  /\ isNaN (pricePerShare t) = false
  /\ (transactionCode t = "P" \/ transactionCode t = "S")
  /\ transactionDate t <> ""
  /\ transactionValue t = mul (shares t) (pricePerShare t).

Lemma is_string_or_empty (x : option string) (s : string) :
  is_string x s = true -> or_empty x = s.
Proof.
  destruct x as [t|]; simpl; [|discriminate]. now rewrite String.eqb_eq.
Qed.

Lemma truthy_or_empty (x : option string) :
  truthy x = true -> or_empty x <> "".
Proof. destruct x as [[|c s]|]; simpl; congruence. Qed.

Lemma parseTransactionElement_well_read host (txXml : string) (t : TransactionInfo) :
  parseTransactionElement host txXml = Ok (Some t) -> well_read t.
Proof.
  unfold parseTransactionElement, bind.
  destruct (extractText host txXml "transactionCode") as [code|e]; [|discriminate].
  destruct (negb (truthy code) || _) eqn:Ecode; [discriminate|].
  destruct (extractText host txXml "transactionDate") as [date|e]; [|discriminate].
  destruct (negb (truthy date)) eqn:Edate; [discriminate|].
  destruct (extractText host txXml "transactionShares") as [sharesStr|e]; [|discriminate].
  destruct (extractText host txXml "transactionPricePerShare") as [priceStr|e];
    [|discriminate].
  destruct (negb (truthy sharesStr) || negb (truthy priceStr)); [discriminate|].
  destruct (isNaN (parseFloat (or_empty sharesStr))
            || isNaN (parseFloat (or_empty priceStr))) eqn:Enan; [discriminate|].
  destruct (extractText host txXml "sharesOwnedFollowingTransaction") as [post|e];
    [|discriminate].
  destruct (extractText host txXml "directOrIndirectOwnership") as [own|e];
    [|discriminate].
  destruct (extractAttribute host txXml "footnoteId") as [fid|e]; [|discriminate].
  destruct (check10b51InFootnotes host txXml fid) as [plan|e]; [|discriminate].
  intros H. injection H as <-.
  apply orb_false_iff in Enan. destruct Enan as [Hs Hp].
  apply orb_false_iff in Ecode. destruct Ecode as [_ Hcode].
  apply andb_false_iff in Hcode.
  apply negb_false_iff in Edate.
  unfold well_read. cbn [shares pricePerShare transactionCode transactionDate
                         transactionValue].
  split; [exact Hs|]. split; [exact Hp|]. split.
  - destruct Hcode as [H|H]; apply negb_false_iff in H;
      apply is_string_or_empty in H; [now left | now right].
  - split; [now apply truthy_or_empty | reflexivity].
Qed.

Lemma parse_each_well_read host (blocks : list MatchResult) (l : list TransactionInfo) :
  parse_each host blocks = Ok l -> Forall well_read l.
Proof.
  revert l. induction blocks as [|m rest IH]; intros l H.
  - injection H as <-. constructor.
  - cbn [parse_each] in H. unfold bind in H.
    destruct (defined (capture 1 (groups m))) as [txXml|e]; [|discriminate].
    destruct (parseTransactionElement host txXml) as [[t|]|e] eqn:Et; [| |discriminate].
    + destruct (parse_each host rest) as [l'|e]; [|discriminate].
      injection H as <-. constructor.
      * now apply (parseTransactionElement_well_read host txXml).
      * now apply IH.
    + destruct (parse_each host rest) as [l'|e]; [|discriminate].
      injection H as <-. now apply IH.
Qed.

Lemma extractTable_well_read host (table transaction xml : string)
    (l : list TransactionInfo) :
  extractTable host table transaction xml = Ok l -> Forall well_read l.
Proof.
  unfold extractTable, bind.
  destruct (exec true _ xml) as [res|]; [|intros H; injection H as <-; constructor].
  destruct (defined (capture 1 (groups res))) as [tableXml|e]; [|discriminate].
  apply parse_each_well_read.
Qed.

Lemma parse_well_read host (xml acc date : string) (data : Form4Data) :
  parse host xml acc date = Ok data -> Forall well_read (transactions data).
Proof.
  unfold parse, parseTransactions, bind.
  destruct (parseIssuer host xml) as [iss|e]; [|discriminate].
  destruct (parseInsider host xml) as [ins|e]; [|discriminate].
  destruct (extractNonDerivativeTransactions host xml) as [l1|e] eqn:E1; [|discriminate].
  destruct (extractDerivativeTransactions host xml) as [l2|e] eqn:E2; [|discriminate].
  intros H. injection H as <-. cbn [transactions].
  apply Forall_app. split.
  - exact (extractTable_well_read _ _ _ _ E1).
  - exact (extractTable_well_read _ _ _ _ E2).
Qed.

(** A sale whose footnote reference is the label [1)]. *)
Definition footnote_label_document : string :=
"<ownershipDocument>
  <issuer><issuerCik>0000012345</issuerCik><issuerName>Test Company</issuerName></issuer>
  <reportingOwner><rptOwnerName>Jane Doe</rptOwnerName></reportingOwner>
  <nonDerivativeTable>
    <nonDerivativeTransaction>
      <transactionDate><value>2024-03-01</value></transactionDate>
      <transactionCoding footnoteId='1)'><transactionCode>S</transactionCode></transactionCoding>
      <transactionShares><value>100</value></transactionShares>
      <transactionPricePerShare><value>50.00</value></transactionPricePerShare>
    </nonDerivativeTransaction>
  </nonDerivativeTable>
  <footnotes><footnote id='1)'>Sold under a Rule 10b5-1 plan.</footnote></footnotes>
</ownershipDocument>".

(** C3.  [parse] does throw: the footnote lookup builds its pattern around
    the [footnoteId] text of the document, and for the label [1)] the
    pattern has an unmatched parenthesis, [new RegExp] raises a
    SyntaxError, and nothing between there and the caller of [parse]
    catches it. *)
Theorem C3_parse_throws_on_footnote_metacharacters :
  forall host : string -> string -> HostOutcome,
    extractAttribute host footnote_label_document "footnoteId" = Ok (Some "1)")
    /\ check10b51InFootnotes host footnote_label_document (Some "1)")
       = Throw (RegExpSyntaxError "Unmatched ')'")
    /\ parse host footnote_label_document "0001234567-24-000004" "2024-03-02"
       = Throw (RegExpSyntaxError "Unmatched ')'").
Proof.
  intros host. split; [|split]; vm_compute; reflexivity.
Qed.

(** A document that reports a sale of -5 shares at -0.01. *)
Definition negative_amounts_document : string :=
"<ownershipDocument>
  <issuer><issuerCik>0000012345</issuerCik><issuerName>Test Company</issuerName></issuer>
  <reportingOwner><rptOwnerName>Jane Doe</rptOwnerName></reportingOwner>
  <nonDerivativeTable>
    <nonDerivativeTransaction>
      <transactionDate><value>2024-03-01</value></transactionDate>
      <transactionCoding><transactionCode>S</transactionCode></transactionCoding>
      <transactionShares><value>-5</value></transactionShares>
      <transactionPricePerShare><value>-0.01</value></transactionPricePerShare>
    </nonDerivativeTransaction>
  </nonDerivativeTable>
</ownershipDocument>".

Definition no_host (pattern xml : string) : HostOutcome := host_null.

(** C9 fails as stated: the parser emits the transaction of
    [negative_amounts_document], whose shares are [-5 <= 0] and whose price
    is [-0.01 < 0]. *)
Lemma C9_negative_amounts_are_emitted :
  exists (data : Form4Data) (t : TransactionInfo),
    parse no_host negative_amounts_document "0001234567-24-000004" "2024-03-02"
    = Ok data
    /\ transactions data = [t]
    /\ shares t = Fin (-5)
    /\ le0 (shares t) = true /\ gt0 (shares t) = false
    /\ lt0 (pricePerShare t) = true /\ ge0 (pricePerShare t) = false.
Proof.
  eexists. eexists. split; [vm_compute; reflexivity|].
  cbn [transactions]. split; [reflexivity|].
  cbn [shares pricePerShare]. repeat split; reflexivity.
Qed.

(** C9, amended.  Every transaction that [parse] emits has a number of
    shares and a price that are numbers, not NaN, a code that is 'P' or
    'S', a date that is not empty, and a value that is the product of
    shares and price; the sign of shares and price is not checked. *)
Theorem C9_emitted_transactions_are_numeric :
  forall (host : string -> string -> HostOutcome)
         (xml accession date : string) (data : Form4Data),
    parse host xml accession date = Ok data ->
    forall t, In t (transactions data) ->
      isNaN (shares t) = false
      /\ isNaN (pricePerShare t) = false
      /\ (transactionCode t = "P" \/ transactionCode t = "S")
      /\ transactionDate t <> ""
      /\ transactionValue t = mul (shares t) (pricePerShare t).
Proof.
  intros host xml accession date data Hparse t Hin.
  pose proof (parse_well_read _ _ _ _ Hparse) as Hall.
  rewrite Forall_forall in Hall. exact (Hall t Hin).
Qed.

(** C9 amended, at the document of negative amounts. *)
Lemma C9_emitted_transactions_are_numeric_witness :
  exists (data : Form4Data) (t : TransactionInfo),
    parse no_host negative_amounts_document "0001234567-24-000004" "2024-03-02"
    = Ok data
    /\ In t (transactions data)
    /\ isNaN (shares t) = false
    /\ isNaN (pricePerShare t) = false
    /\ transactionValue t = mul (shares t) (pricePerShare t).
Proof.
  destruct (parse no_host negative_amounts_document "0001234567-24-000004"
                  "2024-03-02") as [data|e] eqn:E; [|vm_compute in E; discriminate E].
  destruct (transactions data) as [|t l] eqn:Et.
  - exfalso. vm_compute in E. injection E as <-. discriminate Et.
  - exists data, t.
    destruct (C9_emitted_transactions_are_numeric no_host _ _ _ E t) as (H1 & H2 & _ & _ & H5).
    + rewrite Et. now left.
    + split; [reflexivity|]. split; [rewrite Et; now left|]. auto.
Defined.

End ParserClaims.

(* ================================================================== *)
(** * Further properties: scoring rules *)
(* ================================================================== *)

Section ScoringFacts.

Import JsNumber Scoring Rules.
Local Open Scope string_scope.
Local Open Scope R_scope.

Lemma Rabs_hundredths_ge (z k : Z) :
  (0 <= k)%Z -> (IZR k / 100 <= Rabs (IZR z / 100) <-> (k <= Z.abs z)%Z).
Proof.
  intros Hk. unfold Rabs. destruct Rcase_abs as [Hneg|Hpos].
  - assert (Hz : (z < 0)%Z) by (apply lt_IZR; lra).
    rewrite Z.abs_neq by lia. split; intros H.
    + apply le_IZR. rewrite opp_IZR. lra.
    + apply IZR_le in H. rewrite opp_IZR in H. lra.
  - assert (Hz : (0 <= z)%Z) by (apply le_IZR; lra).
    rewrite Z.abs_eq by lia. split; intros H.
    + apply le_IZR. lra.
    + apply IZR_le in H. lra.
Qed.

(** X2. The thresholds of rules.ts, of [shouldTriggerUrgentAlert] and of
    [getScoreEmoji] agree: an alert is urgent exactly when the priority of
    its score is HIGH or its value reaches 250000, and on a stored score the
    rocket and the red circle mark HIGH, the two charts MEDIUM, the check
    mark and the warning LOW. *)
Theorem X2_priority_bands_agree :
  (forall s v : number,
     shouldTriggerUrgentAlert s v =
     match getAlertPriority s with
     | HIGH => true
     | _ => ge v (Fin 250000)
     end) /\
  (forall z : Z,
     match getAlertPriority (Number2 z) with
     | HIGH => Digest.getScoreEmoji (Store.Dec z) = Digest.rocket \/
               Digest.getScoreEmoji (Store.Dec z) = Digest.red_circle
     | MEDIUM => Digest.getScoreEmoji (Store.Dec z) = Digest.chart_up \/
                 Digest.getScoreEmoji (Store.Dec z) = Digest.chart_down
     | LOW => Digest.getScoreEmoji (Store.Dec z) = Digest.check_mark \/
              Digest.getScoreEmoji (Store.Dec z) = Digest.warning
     end).
Proof.
  split.
  - intros s v. unfold shouldTriggerUrgentAlert, getAlertPriority.
    destruct (ge (Math_abs s) (Fin 5)); [reflexivity|].
    destruct (ge (Math_abs s) (Fin 2.5)); reflexivity.
  - intros z. unfold getAlertPriority, Number2, Math_abs, ge, Digest.getScoreEmoji.
    pose proof (@Rabs_hundredths_ge z 500) as H5.
    pose proof (@Rabs_hundredths_ge z 250) as H25.
    destruct (Rle_dec 5 (Rabs (IZR z / 100))) as [Hhigh|Hhigh].
    + assert (500 <= Z.abs z)%Z by (apply H5; [lia | lra]).
      destruct (Z.leb_spec 500 z); [now left|].
      destruct (Z.leb_spec 250 z); [lia|].
      destruct (Z.ltb_spec 0 z); [lia|].
      destruct (Z.ltb_spec (-250) z); [lia|].
      destruct (Z.ltb_spec (-500) z); [lia | now right].
    + assert (~ (500 <= Z.abs z)%Z).
      { intros H. apply Hhigh. apply H5 in H; [lra | lia]. }
      destruct (Rle_dec 2.5 (Rabs (IZR z / 100))) as [Hmed|Hmed].
      * assert (250 <= Z.abs z)%Z by (apply H25; [lia | lra]).
        destruct (Z.leb_spec 500 z); [lia|].
        destruct (Z.leb_spec 250 z); [now left|].
        destruct (Z.ltb_spec 0 z); [lia|].
        destruct (Z.ltb_spec (-250) z); [lia|].
        destruct (Z.ltb_spec (-500) z); [now right | lia].
      * assert (~ (250 <= Z.abs z)%Z).
        { intros H'. apply Hmed. apply H25 in H'; [lra | lia]. }
        destruct (Z.leb_spec 500 z); [lia|].
        destruct (Z.leb_spec 250 z); [lia|].
        destruct (Z.ltb_spec 0 z); [now left|].
        destruct (Z.ltb_spec (-250) z); [now right | lia].
Qed.

End ScoringFacts.

(* ================================================================== *)
(** * Further properties: the scorer in doubles *)
(* ================================================================== *)

Section DoubleScoringFacts.

Import JsString Types PrimFloat SpecFloat Binary64.
Local Open Scope string_scope.








(** X1.  [calculateHoldingsDelta] is 0 when nothing was held before,
    whichever zero that is, and is then never significant.  Otherwise it
    is the percentage change computed in doubles and rounded to two
    decimal places by [toFixed(2)]; it is not always finite: from 1e-300
    to 1e300 the change is [Infinity]. *)
Theorem X1_holdings_delta_is_a_rounded_percentage :
  forall p q : float,
    ((p =? 0)%float = true ->
     calculateHoldingsDelta p q = 0%float /\
     isSignificantHoldingsChange (calculateHoldingsDelta p q) = false)
    /\ ((p =? 0)%float = false ->
        let d := ((q - p) / p * 100)%float in
        calculateHoldingsDelta p q = toFixed2 d /\
        (is_nan d || is_infinity d = false -> (1e21 <=? abs d)%float = false ->
         rounded_2dp d (calculateHoldingsDelta p q)) /\
        (is_nan d || is_infinity d = true \/ (1e21 <=? abs d)%float = true ->
         calculateHoldingsDelta p q = d))
    /\ calculateHoldingsDelta 0x1.56e1fc2f8f359p-997%float 0x1.7e43c8800759cp+996%float
       = infinity.
Proof.
  intros p q. unfold calculateHoldingsDelta. split; [|split].
  - intros ->. split; reflexivity.
  - intros ->. cbv zeta. split; [reflexivity|]. split.
    + intros Hfin Hsmall.
      destruct (toFixed2_rounds Hfin Hsmall) as (n & Hn & Hy & Hclose).
      exists n. auto.
    + apply toFixed2_large.
  - reflexivity.
Qed.

(** X1 at holdings going from 10000 to 9900 shares: the change is -1. *)
Lemma X1_holdings_delta_is_a_rounded_percentage_witness :
  calculateHoldingsDelta 10000%float 9900%float = (-1)%float.
Proof.
  destruct (X1_holdings_delta_is_a_rounded_percentage 10000%float 9900%float)
    as (_ & Hd & _).
  destruct (Hd eq_refl) as (-> & _). reflexivity.
Defined.

End DoubleScoringFacts.

(* ================================================================== *)
(** * Further properties: the store *)
(* ================================================================== *)

Section StoreFacts.

Import Store Queries Pipeline.
Local Open Scope string_scope.

(** ** Issuers *)

Lemma update_issuer_find (c : string) (t : option string) (n : string)
    (rows : list Issuer) :
  match update_issuer c t n rows with
  | Some (r, rows') =>
      find (fun x => String.eqb (cik x) c) rows' = Some r /\
      cik r = c /\ ticker r = t /\ companyName r = n /\
      (exists old, find (fun x => String.eqb (cik x) c) rows = Some old /\
                   issuer_id r = issuer_id old) /\
      length rows' = length rows /\
      (forall c', c' <> c ->
         find (fun x => String.eqb (cik x) c') rows' =
         find (fun x => String.eqb (cik x) c') rows)
  | None => find (fun x => String.eqb (cik x) c) rows = None
  end.
Proof.
  induction rows as [|r rest IH]; [reflexivity|].
  cbn [update_issuer]. destruct (String.eqb (cik r) c) eqn:E.
  - apply String.eqb_eq in E. subst c.
    cbn [find cik]. rewrite String.eqb_refl.
    split; [reflexivity|]. split; [reflexivity|]. split; [reflexivity|].
    split; [reflexivity|]. split; [exists r; split; reflexivity|].
    split; [reflexivity|].
    intros c' Hc'.
    assert (H : String.eqb (cik r) c' = false)
      by (apply String.eqb_neq; congruence).
    now rewrite H.
  - destruct (update_issuer c t n rest) as [[x rest']|].
    + destruct IH as (Hf & Hc & Ht & Hn & (old & Hold & Hid) & Hlen & Hother).
      cbn [find]. rewrite E.
      split; [exact Hf|]. split; [exact Hc|]. split; [exact Ht|].
      split; [exact Hn|]. split; [exists old; split; assumption|].
      split; [simpl; now rewrite Hlen|].
      intros c' Hc'. destruct (String.eqb (cik r) c'); [reflexivity|].
      now apply Hother.
    + cbn [find]. rewrite E. exact IH.
Qed.

Lemma find_app_none (A : Type) (f : A -> bool) (l1 l2 : list A) :
  find f l1 = None -> find f (l1 ++ l2) = find f l2.
Proof.
  induction l1 as [|a l1 IH]; [reflexivity|]. simpl.
  destruct (f a); [discriminate | exact IH].
Qed.

Lemma find_app_last (A : Type) (f : A -> bool) (l : list A) (a : A) :
  f a = false -> find f (l ++ [a]) = find f l.
Proof.
  intros Ha. induction l as [|b l IH]; simpl.
  - now rewrite Ha.
  - destruct (f b); [reflexivity | exact IH].
Qed.

(** X3. [upsertIssuer] and [getIssuerByCik] round-trip: after an upsert the
    CIK looks up the returned row, which carries the given ticker and name;
    an issuer already stored under the CIK keeps its id and no row is
    added, otherwise one row with a fresh id is added; lookups of other
    CIKs are not affected, and [getIssuerByTicker] finds an issuer of the
    given ticker. *)
Theorem X3_issuer_upsert_round_trip :
  forall (d : DB) (c : string) (t : option string) (n : string),
    getIssuerByCik (snd (upsertIssuer d c t n)) c = Some (fst (upsertIssuer d c t n)) /\
    cik (fst (upsertIssuer d c t n)) = c /\
    ticker (fst (upsertIssuer d c t n)) = t /\
    companyName (fst (upsertIssuer d c t n)) = n /\
    (forall c', c' <> c ->
       getIssuerByCik (snd (upsertIssuer d c t n)) c' = getIssuerByCik d c') /\
    (forall tk, t = Some tk ->
       exists r, getIssuerByTicker (snd (upsertIssuer d c t n)) tk = Some r /\
                 ticker r = Some tk) /\
    match getIssuerByCik d c with
    | Some old =>
        issuer_id (fst (upsertIssuer d c t n)) = issuer_id old /\
        length (issuers (snd (upsertIssuer d c t n))) = length (issuers d)
    | None =>
        issuer_id (fst (upsertIssuer d c t n)) = next_uuid d /\
        length (issuers (snd (upsertIssuer d c t n))) = S (length (issuers d))
    end.
Proof.
  intros d c t n.
  assert (Hticker : forall rows r tk,
            In r rows -> ticker r = Some tk ->
            exists r', find (has_ticker tk) rows = Some r' /\ ticker r' = Some tk).
  { intros rows r tk Hin Ht.
    destruct (find (has_ticker tk) rows) as [r'|] eqn:E.
    - exists r'. split; [reflexivity|]. apply find_some in E. destruct E as [_ E].
      unfold has_ticker in E. destruct (ticker r') as [x|]; [|discriminate].
      apply String.eqb_eq in E. now subst x.
    - exfalso. pose proof (find_none _ _ E r Hin) as H.
      unfold has_ticker in H. rewrite Ht, String.eqb_refl in H. discriminate. }
  unfold getIssuerByCik, getIssuerByTicker, upsertIssuer.
  pose proof (update_issuer_find c t n (issuers d)) as H.
  destruct (update_issuer c t n (issuers d)) as [[r rows']|].
  - destruct H as (Hf & Hc & Ht & Hn & (old & Hold & Hid) & Hlen & Hother).
    cbn [fst snd issuers set_issuers]. rewrite Hold.
    split; [exact Hf|]. split; [exact Hc|]. split; [exact Ht|].
    split; [exact Hn|]. split; [exact Hother|].
    split; [|split; [exact Hid | exact Hlen]].
    intros tk Htk. apply (Hticker rows' r tk).
    + apply find_some in Hf. apply Hf.
    + congruence.
  - cbn [fst snd issuers set_issuers cik ticker companyName issuer_id]. rewrite H.
    split.
    { rewrite find_app_none by exact H. cbn [find cik].
      now rewrite String.eqb_refl. }
    split; [reflexivity|]. split; [reflexivity|]. split; [reflexivity|].
    split.
    { intros c' Hc'. apply find_app_last. cbn [cik].
      apply String.eqb_neq. congruence. }
    split.
    { intros tk Htk.
      apply (Hticker _ {| issuer_id := next_uuid d; cik := c; ticker := t;
                          companyName := n |} tk);
        [apply in_or_app; right; now left | exact Htk]. }
    split; [reflexivity|]. rewrite length_app. simpl. lia.
Qed.

(** ** Insiders *)

Definition same_insider (n : string) (iss : uuid) (x : Insider) : bool :=
  String.eqb (name x) n && Nat.eqb (insider_issuerId x) iss.

Lemma same_insider_other (n n' : string) (iss iss' : uuid) (x : Insider) :
  (n', iss') <> (n, iss) -> same_insider n iss x = true ->
  same_insider n' iss' x = false.
Proof.
  unfold same_insider. intros Hne H.
  apply andb_true_iff in H. destruct H as [Hn Hi].
  apply String.eqb_eq in Hn. apply Nat.eqb_eq in Hi.
  apply andb_false_iff.
  destruct (String.eqb_spec (name x) n') as [En|En]; [|now left].
  right. apply Nat.eqb_neq. congruence.
Qed.

Lemma update_insider_find (iss : uuid) (n : string) (t : option string)
    (rows : list Insider) :
  match update_insider iss n t rows with
  | Some (r, rows') =>
      find (same_insider n iss) rows' = Some r /\
      name r = n /\ insider_issuerId r = iss /\ title r = t /\
      (exists old, find (same_insider n iss) rows = Some old /\
                   insider_id r = insider_id old) /\
      length rows' = length rows /\
      (forall n' iss', (n', iss') <> (n, iss) ->
         find (same_insider n' iss') rows' = find (same_insider n' iss') rows)
  | None => find (same_insider n iss) rows = None
  end.
Proof.
  induction rows as [|r rest IH]; [reflexivity|].
  cbn [update_insider].
  change (String.eqb (name r) n && Nat.eqb (insider_issuerId r) iss)
    with (same_insider n iss r).
  destruct (same_insider n iss r) eqn:E.
  - assert (E' := E). unfold same_insider in E'.
    apply andb_true_iff in E'. destruct E' as [En Ei].
    apply String.eqb_eq in En. apply Nat.eqb_eq in Ei.
    assert (E2 : forall t', same_insider n iss
                  {| insider_id := insider_id r;
                     insider_issuerId := insider_issuerId r;
                     name := name r; title := t' |} = true) by (intros t'; exact E).
    cbn [find]. rewrite E, E2. cbn [name insider_issuerId title insider_id].
    split; [reflexivity|]. split; [exact En|]. split; [exact Ei|].
    split; [reflexivity|].
    split; [exists r; split; reflexivity|].
    split; [reflexivity|].
    intros n' iss' Hne.
    rewrite (same_insider_other r Hne E).
    now rewrite (same_insider_other _ Hne (E2 t)).
  - destruct (update_insider iss n t rest) as [[x rest']|].
    + destruct IH as (Hf & Hn & Hi & Ht & (old & Hold & Hid) & Hlen & Hother).
      cbn [find]. rewrite E.
      split; [exact Hf|]. split; [exact Hn|]. split; [exact Hi|].
      split; [exact Ht|]. split; [exists old; split; assumption|].
      split; [simpl; now rewrite Hlen|].
      intros n' iss' Hne. destruct (same_insider n' iss' r); [reflexivity|].
      now apply Hother.
    + cbn [find]. rewrite E. exact IH.
Qed.

(** X4. An insider is identified by name within one issuer: after
    [upsertInsider] the pair of name and issuer looks up the returned row
    with the given title, under the id of the row already stored for the
    pair or else a fresh one, and the lookup of every other pair, the same
    name under another issuer included, is not affected. *)
Theorem X4_insider_identity_is_scoped_by_issuer :
  forall (d : DB) (iss : uuid) (n : string) (t : option string),
    getInsiderByNameAndIssuer (snd (upsertInsider d iss n t)) n iss =
      Some (fst (upsertInsider d iss n t)) /\
    name (fst (upsertInsider d iss n t)) = n /\
    insider_issuerId (fst (upsertInsider d iss n t)) = iss /\
    title (fst (upsertInsider d iss n t)) = t /\
    (forall n' iss', (n', iss') <> (n, iss) ->
       getInsiderByNameAndIssuer (snd (upsertInsider d iss n t)) n' iss' =
       getInsiderByNameAndIssuer d n' iss') /\
    match getInsiderByNameAndIssuer d n iss with
    | Some old =>
        insider_id (fst (upsertInsider d iss n t)) = insider_id old /\
        length (insiders (snd (upsertInsider d iss n t))) = length (insiders d)
    | None =>
        insider_id (fst (upsertInsider d iss n t)) = next_uuid d /\
        length (insiders (snd (upsertInsider d iss n t))) = S (length (insiders d))
    end.
Proof.
  intros d iss n t. unfold getInsiderByNameAndIssuer, upsertInsider.
  pose proof (update_insider_find iss n t (insiders d)) as H.
  fold (same_insider n iss).
  destruct (update_insider iss n t (insiders d)) as [[r rows']|].
  - destruct H as (Hf & Hn & Hi & Ht & (old & Hold & Hid) & Hlen & Hother).
    cbn [fst snd insiders set_insiders]. rewrite Hold.
    split; [exact Hf|]. split; [exact Hn|]. split; [exact Hi|].
    split; [exact Ht|]. split; [exact Hother|]. split; [exact Hid | exact Hlen].
  - cbn [fst snd insiders set_insiders name title insider_issuerId insider_id].
    rewrite H. split.
    { rewrite find_app_none by exact H. cbn [find]. unfold same_insider.
      cbn [name insider_issuerId]. now rewrite String.eqb_refl, Nat.eqb_refl. }
    split; [reflexivity|]. split; [reflexivity|]. split; [reflexivity|].
    split.
    { intros n' iss' Hne.
      apply (@find_app_last _ (same_insider n' iss')).
      apply (same_insider_other _ Hne). unfold same_insider.
      cbn [name insider_issuerId]. now rewrite String.eqb_refl, Nat.eqb_refl. }
    split; [reflexivity|]. rewrite length_app. simpl. lia.
Qed.

(** ** Alert records *)

(** X5. [recordSlackAlert] and [hasSlackAlertForTransaction] round-trip:
    after an alert is recorded the check answers true for its transaction
    and its type, and as before for every other transaction or type, so an
    urgent alert does not count as a digest alert; upserting a transaction
    does not change any answer. *)
Theorem X5_alert_record_round_trip :
  forall (d : DB) (data : InsertSlackAlert) (t : uuid) (ty : AlertType)
         (row : InsertTransaction),
    hasSlackAlertForTransaction (snd (recordSlackAlert d data)) t ty =
      (hasSlackAlertForTransaction d t ty
       || (Nat.eqb (transactionId data) t && AlertType_eqb (alertType data) ty)) /\
    hasSlackAlertForTransaction (snd (upsertTransaction d row)) t ty =
      hasSlackAlertForTransaction d t ty.
Proof.
  intros d data t ty row. split.
  - unfold hasSlackAlertForTransaction, recordSlackAlert.
    cbn [snd slackAlerts set_slackAlerts].
    rewrite existsb_app. cbn [existsb]. unfold is_alert_for at 2.
    cbn [alert]. now rewrite orb_false_r.
  - unfold hasSlackAlertForTransaction. now rewrite upsertTransaction_alerts.
Qed.

(** ** The cluster of an issuer *)

(** X6. [getClusterBonus] counts the distinct insiders, other than the one
    given, with a stored transaction of the issuer dated within seven days
    of the date, both ends included. *)
Theorem X6_cluster_bonus_counts_other_insiders :
  forall (d : DB) (issuer insider : uuid) (day : date),
    exists others : list uuid,
      NoDup others /\
      length others = getClusterBonus d issuer insider day /\
      forall i : uuid,
        In i others <->
        (i <> insider /\
         exists r, In r (transactions d) /\
                   issuerId (fields r) = issuer /\ insiderId (fields r) = i /\
                   (day - 7 <= transactionDate (fields r) <= day + 7)%Z).
Proof.
  intros d issuer insider day.
  unfold getClusterBonus, getDistinctInsiderCountInCluster,
    Scoring.CLUSTER_DETECTION_DAYS.
  match goal with
  | |- context [nodup Nat.eq_dec ?l] => exists (nodup Nat.eq_dec l)
  end.
  split; [apply NoDup_nodup|]. split; [reflexivity|].
  intros i. rewrite nodup_In, in_map_iff. split.
  - intros (r & Hi & Hr). apply filter_In in Hr. destruct Hr as [Hr Hc].
    unfold in_cluster in Hc.
    apply andb_true_iff in Hc. destruct Hc as [Hc Hex].
    apply andb_true_iff in Hc. destruct Hc as [Hc Hend].
    apply andb_true_iff in Hc. destruct Hc as [Hiss Hstart].
    apply Nat.eqb_eq in Hiss. apply Z.leb_le in Hstart, Hend.
    apply negb_true_iff, Nat.eqb_neq in Hex.
    split; [congruence|]. exists r. repeat split; assumption.
  - intros (Hne & r & Hr & Hiss & Hi & Hlo & Hhi). exists r.
    split; [exact Hi|]. apply filter_In. split; [exact Hr|].
    unfold in_cluster. rewrite Hiss, Hi, Nat.eqb_refl.
    replace (day - 7 <=? transactionDate (fields r))%Z with true
      by (symmetry; now apply Z.leb_le).
    replace (transactionDate (fields r) <=? day + 7)%Z with true
      by (symmetry; now apply Z.leb_le).
    cbn [andb]. apply negb_true_iff. now apply Nat.eqb_neq.
Qed.

Lemma update_conflict_cluster (data : InsertTransaction) (rows rows' : list Transaction)
    (r : Transaction) (f : Transaction -> bool) :
  (forall old, f {| id := id old; fields := refresh (fields old) data |} = f old) ->
  update_conflict data rows = Some (r, rows') ->
  map (fun x => insiderId (fields x)) (filter f rows') =
  map (fun x => insiderId (fields x)) (filter f rows).
Proof.
  intros Hf H. apply update_conflict_some in H.
  destruct H as (pre & old & post & -> & -> & -> & _ & _).
  rewrite !filter_app, !map_app. f_equal. cbn [filter]. rewrite Hf.
  destruct (f old); reflexivity.
Qed.

(** X7. Storing a transaction of an insider never changes the cluster
    bonus of that insider, for any issuer and date: the score computed
    just before the transaction is written is the score its stored row
    would get. *)
Theorem X7_own_transaction_never_counts :
  forall (d : DB) (data : InsertTransaction) (issuer : uuid) (day : date),
    getClusterBonus (snd (upsertTransaction d data)) issuer (insiderId data) day =
    getClusterBonus d issuer (insiderId data) day.
Proof.
  intros d data issuer day.
  unfold getClusterBonus, getDistinctInsiderCountInCluster. do 3 f_equal.
  unfold upsertTransaction.
  destruct (update_conflict data (transactions d)) as [[r rows']|] eqn:E.
  - cbn [snd transactions set_transactions].
    eapply update_conflict_cluster; [|exact E]. intros old. reflexivity.
  - cbn [snd transactions set_transactions].
    rewrite filter_app. cbn [filter]. unfold in_cluster at 2. cbn [fields insiderId].
    rewrite Nat.eqb_refl. cbn [negb]. rewrite andb_false_r.
    now rewrite app_nil_r.
Qed.

End StoreFacts.

(* ================================================================== *)
(** * Further properties: the batch upsert *)
(* ================================================================== *)

Section BatchFacts.

Import Store Queries.
Local Open Scope string_scope.

(** [data[0].transactionCode] *)
Definition first_code (data : list InsertTransaction) : string :=
  match data with
  | [] => ""
  | first :: _ => transactionCode first
  end.

(** A stored row after a conflict in a batch: only the code has changed. *)
Definition recoded (old : Transaction) (code : string) : Transaction :=
  {| id := id old; fields := recode (fields old) code |}.

Definition proposed (data : list InsertTransaction) (old : Transaction) : bool :=
  existsb (fun x => key_eqb (row_key old) (key_of x)) data.

Lemma recode_conflict_some (data : InsertTransaction) (code : string)
    (rows rows' : list Transaction) (r' : Transaction) :
  recode_conflict data code rows = Some (r', rows') ->
  exists pre old post,
    rows = (pre ++ old :: post)%list /\ rows' = (pre ++ r' :: post)%list
    /\ r' = recoded old code
    /\ row_key old = key_of data
    /\ (forall x, In x pre -> row_key x <> key_of data).
Proof.
  revert rows' r'. induction rows as [|r rest IH]; intros rows' r' H; [discriminate|].
  cbn [recode_conflict] in H. destruct (key_eqb (row_key r) (key_of data)) eqn:E.
  - injection H as <- <-. exists [], r, rest.
    split; [reflexivity|]. split; [reflexivity|]. split; [reflexivity|].
    split; [now apply key_eqb_eq | intros x []].
  - destruct (recode_conflict data code rest) as [[x rest']|] eqn:E'; [|discriminate].
    injection H as <- <-.
    destruct (IH _ _ eq_refl) as (pre & old & post & -> & -> & Hx & Hk & Hpre).
    exists (r :: pre), old, post.
    split; [reflexivity|]. split; [reflexivity|].
    split; [exact Hx|]. split; [exact Hk|].
    intros y [<-|Hy]; [now apply key_eqb_neq | now apply Hpre].
Qed.

Lemma recode_conflict_none (data : InsertTransaction) (code : string)
    (rows : list Transaction) :
  recode_conflict data code rows = None ->
  count_key (key_of data) rows = 0%nat.
Proof.
  induction rows as [|r rest IH]; intros H; [reflexivity|].
  cbn [recode_conflict] in H. rewrite count_key_cons.
  destruct (key_eqb (row_key r) (key_of data)); [discriminate|].
  destruct (recode_conflict data code rest) as [[x rest']|]; [discriminate|].
  now apply IH.
Qed.

Lemma count_key_zero (k : dedupe_key) (rows : list Transaction) (r : Transaction) :
  count_key k rows = 0%nat -> In r rows -> row_key r <> k.
Proof.
  intros Hc Hin Hk. apply in_split in Hin. destruct Hin as (pre & post & ->).
  rewrite count_key_app, count_key_cons, Hk, key_eqb_refl in Hc. lia.
Qed.

(** One proposed row. *)
Lemma batch_step_spec (code : string) (returned : list Transaction) (d : DB)
    (x : InsertTransaction) :
  dedupe_ok (transactions d) ->
  exists r d1,
    batch_step code (returned, d) x = ((returned ++ [r])%list, d1) /\
    row_key r = key_of x /\
    In r (transactions d1) /\
    dedupe_ok (transactions d1) /\
    (forall y, row_key y <> key_of x -> In y (transactions d) -> In y (transactions d1)) /\
    (forall old, In old (transactions d) -> row_key old = key_of x ->
                 In (recoded old code) (transactions d1)).
Proof.
  intros Hd. unfold batch_step.
  destruct (recode_conflict x code (transactions d)) as [[r rows']|] eqn:E.
  - apply recode_conflict_some in E.
    destruct E as (pre & old & post & Hrows & -> & -> & Hk & Hpre).
    eexists. eexists. split; [reflexivity|].
    cbn [transactions set_transactions].
    split; [exact Hk|].
    split; [apply in_or_app; right; now left|].
    split.
    { intros k. specialize (Hd k). rewrite Hrows in Hd.
      rewrite count_key_app, count_key_cons in *. exact Hd. }
    split.
    { intros y Hy Hin. rewrite Hrows in Hin. apply in_app_or in Hin.
      apply in_or_app. destruct Hin as [Hin|[<-|Hin]];
        [now left | contradiction | right; now right]. }
    intros old' Hin Hk'.
    assert (old' = old) as ->.
    { apply (@dedupe_ok_unique _ _ _ Hd Hin); [|congruence].
      rewrite Hrows. apply in_or_app. right. now left. }
    apply in_or_app. right. now left.
  - apply recode_conflict_none in E.
    eexists. eexists. split; [reflexivity|].
    cbn [transactions set_transactions].
    split; [reflexivity|].
    split; [apply in_or_app; right; now left|].
    split.
    { intros k. rewrite count_key_app, count_key_cons.
      unfold row_key at 1. cbn [fields].
      destruct (key_eqb (key_of x) k) eqn:Ek.
      - apply key_eqb_eq in Ek. subst k. rewrite E. reflexivity.
      - specialize (Hd k). unfold count_key at 2. simpl. lia. }
    split.
    { intros y _ Hin. apply in_or_app. now left. }
    intros old Hin Hk. exfalso. exact (@count_key_zero _ _ _ E Hin Hk).
Qed.

Lemma batch_fold (code : string) (data : list InsertTransaction) :
  forall (returned : list Transaction) (d : DB),
    dedupe_ok (transactions d) -> distinct_keys data = true ->
    exists rs d',
      fold_left (batch_step code) data (returned, d) = ((returned ++ rs)%list, d') /\
      dedupe_ok (transactions d') /\
      map row_key rs = map key_of data /\
      (forall old, In old (transactions d) ->
         if proposed data old
         then In (recoded old code) (transactions d')
         else In old (transactions d')) /\
      (forall r, In r rs -> In r (transactions d')).
Proof.
  induction data as [|x rest IH]; intros returned d Hd Hdist.
  - exists [], d. cbn [fold_left]. rewrite app_nil_r.
    split; [reflexivity|]. split; [exact Hd|]. split; [reflexivity|].
    split; [intros old H; exact H | intros r []].
  - cbn [distinct_keys] in Hdist. apply andb_true_iff in Hdist.
    destruct Hdist as [Hx Hrest]. apply negb_true_iff in Hx.
    destruct (@batch_step_spec code returned d x Hd)
      as (r & d1 & Hstep & Hkr & Hin & Hd1 & Hother & Hsame).
    destruct (IH (returned ++ [r])%list d1 Hd1 Hrest)
      as (rs & d' & Hfold & Hd' & Hkeys & Hold & Hret).
    exists (r :: rs), d'. cbn [fold_left]. rewrite Hstep, Hfold, <- app_assoc.
    split; [reflexivity|]. split; [exact Hd'|].
    split; [cbn [map]; now rewrite Hkr, Hkeys|].
    assert (Hfree : forall y, row_key y = key_of x -> proposed rest y = false).
    { intros y Hy. unfold proposed. rewrite Hy.
      destruct (existsb (fun x0 => key_eqb (key_of x) (key_of x0)) rest) eqn:E;
        [congruence | reflexivity]. }
    split.
    + intros old Hino. unfold proposed. cbn [existsb]. fold (proposed rest old).
      destruct (key_eqb (row_key old) (key_of x)) eqn:E; cbn [orb].
      * apply key_eqb_eq in E.
        pose proof (Hold _ (Hsame old Hino E)) as H.
        rewrite (Hfree (recoded old code)) in H by exact E. exact H.
      * apply key_eqb_neq in E. exact (Hold _ (Hother old E Hino)).
    + intros y [<-|Hy]; [|now apply Hret].
      pose proof (Hold _ Hin) as H. now rewrite (Hfree r Hkr) in H.
Qed.

(** X8. [batchUpsertTransactions] on an empty batch returns no row and
    writes nothing.  Otherwise, in a table that satisfies the unique
    constraint, a batch that is accepted returns one row per element, in
    order and all of them stored, and keeps the constraint; a stored row
    whose key is proposed keeps its id and every column but the
    transaction code, which becomes the code of the first element of the
    batch; the other stored rows stay as they are. *)
Theorem X8_batch_upsert_rewrites_only_the_code :
  forall (d : DB) (data : list InsertTransaction),
    dedupe_ok (transactions d) ->
    batchUpsertTransactions d [] = Some ([], d) /\
    match batchUpsertTransactions d data with
    | None => distinct_keys data = false
    | Some (rs, d') =>
        dedupe_ok (transactions d') /\
        map row_key rs = map key_of data /\
        (forall r, In r rs -> In r (transactions d')) /\
        (forall old, In old (transactions d) ->
           if proposed data old
           then In (recoded old (first_code data)) (transactions d')
           else In old (transactions d'))
    end.
Proof.
  intros d data Hd. split; [reflexivity|].
  unfold batchUpsertTransactions. destruct data as [|first rest].
  - split; [exact Hd|]. split; [reflexivity|].
    split; [intros r [] | intros old H; exact H].
  - destruct (distinct_keys (first :: rest)) eqn:Hdist; [|reflexivity].
    destruct (@batch_fold (transactionCode first) (first :: rest) [] d Hd Hdist)
      as (rs & d' & Hfold & Hd' & Hkeys & Hold & Hret).
    rewrite Hfold. cbn [app first_code].
    split; [exact Hd'|]. split; [exact Hkeys|]. split; [exact Hret | exact Hold].
Qed.

Definition batch_first : InsertTransaction :=
  {| filingAccession := "0001"; insiderId := 1%nat; issuerId := 0%nat;
     transactionDate := 19814%Z; transactionCode := "S";
     shares := 10000%Z; price := 1000000%Z; transactionValue := 100000%Z;
     postTransactionShares := 0%Z; isDirectOwnership := true; is10b51 := false;
     signalScore := (-100)%Z |}.

Definition batch_second : InsertTransaction :=
  {| filingAccession := "0002"; insiderId := 1%nat; issuerId := 0%nat;
     transactionDate := 19814%Z; transactionCode := "P";
     shares := 10000%Z; price := 1000000%Z; transactionValue := 900000%Z;
     postTransactionShares := 0%Z; isDirectOwnership := true; is10b51 := false;
     signalScore := 250%Z |}.

(** The row stored for [batch_second] was a sale scored -1.00; a batch led
    by a sale leaves it a sale scored -1.00 though it proposes a purchase
    scored 2.50. *)
Definition batch_stored : DB :=
  snd (upsertTransaction empty_db
         {| filingAccession := "0002"; insiderId := 1%nat; issuerId := 0%nat;
            transactionDate := 19814%Z; transactionCode := "S";
            shares := 10000%Z; price := 1000000%Z; transactionValue := 100000%Z;
            postTransactionShares := 0%Z; isDirectOwnership := true;
            is10b51 := false; signalScore := (-100)%Z |}).

Lemma X8_batch_upsert_rewrites_only_the_code_witness :
  exists rs d',
    batchUpsertTransactions batch_stored [batch_first; batch_second] = Some (rs, d') /\
    map (fun r => (transactionCode (fields r), signalScore (fields r)))
        (transactions d') = [("S", Dec (-100)); ("S", Dec (-100))] /\
    dedupe_ok (transactions d').
Proof.
  assert (Hd : dedupe_ok (transactions batch_stored))
    by (apply upsert_dedupe_ok; intros k; apply Nat.le_0_l).
  pose proof (X8_batch_upsert_rewrites_only_the_code
                batch_stored [batch_first; batch_second] Hd) as [_ H].
  destruct (batchUpsertTransactions batch_stored [batch_first; batch_second])
    as [[rs d']|] eqn:E; [|discriminate H].
  exists rs, d'. split; [reflexivity|].
  vm_compute in E. injection E as <- <-.
  split; [reflexivity | exact (proj1 H)].
Defined.

End BatchFacts.

(* ================================================================== *)
(** * Further properties: the two jobs *)
(* ================================================================== *)

Section PipelineFacts.

Import JsNumber Store Pipeline.
Local Open Scope string_scope.

Variable webhookUrl : string.
Variable slack : nat -> SlackMessageResponse.
Variable numeric : nat -> number -> option decimal.

(** ** Every run is a sequence of five effects *)

Section Closed.

Variable P : World -> Prop.

Hypothesis P_upsertIssuer : forall w c t n,
  P w -> P {| db := snd (upsertIssuer (db w) c t n); outbox := outbox w |}.
Hypothesis P_upsertInsider : forall w i n t,
  P w -> P {| db := snd (upsertInsider (db w) i n t); outbox := outbox w |}.
Hypothesis P_upsertTransaction : forall w data,
  P w -> P {| db := snd (upsertTransaction (db w) data); outbox := outbox w |}.
Hypothesis P_recordSlackAlert : forall w data,
  P w -> P {| db := snd (recordSlackAlert (db w) data); outbox := outbox w |}.
Hypothesis P_post : forall w m,
  P w -> P {| db := db w; outbox := (outbox w ++ [m])%list |}.

Lemma closed_postMessage (message : SlackMessage) :
  keeps P (postMessage webhookUrl slack message).
Proof.
  intros w H. unfold postMessage.
  destruct (negb (JsString.truthy (Some webhookUrl))); [exact H|].
  cbn [world_of]. now apply P_post.
Qed.

Lemma closed_record (data : InsertSlackAlert) :
  keeps P (mutate (fun d => recordSlackAlert d data)).
Proof.
  intros w H. unfold mutate.
  pose proof (P_recordSlackAlert data H) as H'.
  destruct (recordSlackAlert (db w) data) as [? ?]. exact H'.
Qed.

Lemma closed_postUrgentAlert (transaction : Transaction) (form4Data : Form4Data)
    (insider : uuid) :
  keeps P (postUrgentAlert webhookUrl slack transaction form4Data insider).
Proof.
  unfold postUrgentAlert.
  apply keeps_bind; [apply keeps_query | intros already].
  destruct already; [apply keeps_ret|].
  apply keeps_bind; [apply keeps_query | intros delta].
  apply keeps_bind; [apply closed_postMessage | intros response].
  destruct (ok response); [|apply keeps_ret].
  apply keeps_bind; [apply closed_record | intros _; apply keeps_ret].
Qed.

Lemma closed_processTransaction (form4Data : Form4Data) (txInfo : TransactionInfo)
    (issuer insider : uuid) :
  keeps P (processTransaction webhookUrl slack numeric form4Data txInfo issuer insider).
Proof.
  unfold processTransaction.
  apply keeps_bind; [apply keeps_query | intros input].
  repeat (apply keeps_bind; [apply keeps_to_decimal | intros ?]).
  apply keeps_bind.
  - intros w H. unfold mutate.
    match goal with
    | |- context [upsertTransaction (db w) ?data] =>
        pose proof (P_upsertTransaction data H) as H';
        destruct (upsertTransaction (db w) data) as [? ?]
    end.
    exact H'.
  - intros transaction.
    destruct (Scoring.shouldTriggerUrgentAlert _ _);
      [apply closed_postUrgentAlert | apply keeps_ret].
Qed.

Lemma closed_processSingleFiling (f : Filing) :
  keeps P (processSingleFiling webhookUrl slack numeric f).
Proof.
  unfold processSingleFiling. destruct (fetched f) as [e|form4Data].
  - apply keeps_throw.
  - apply keeps_bind.
    { intros w H. unfold mutate.
      match goal with
      | |- context [upsertIssuer (db w) ?c ?t ?n] =>
          pose proof (P_upsertIssuer c t n H) as H';
          destruct (upsertIssuer (db w) c t n) as [? ?]
      end.
      exact H'. }
    intros issuer. apply keeps_bind.
    { intros w H. unfold mutate.
      match goal with
      | |- context [upsertInsider (db w) ?i ?n ?t] =>
          pose proof (P_upsertInsider i n t H) as H';
          destruct (upsertInsider (db w) i n t) as [? ?]
      end.
      exact H'. }
    intros ins. apply keeps_for_each. intros txInfo.
    apply closed_processTransaction.
Qed.

Lemma closed_process_filings (filings : list Filing) (stats : ProcessorStats) :
  keeps P (process_filings webhookUrl slack numeric filings stats).
Proof.
  revert stats. induction filings as [|f rest IH]; intros stats; simpl.
  - apply keeps_ret.
  - apply keeps_bind; [|intros stats'; apply IH].
    apply keeps_try_catch; [|intros e; apply keeps_ret].
    apply keeps_bind; [apply closed_processSingleFiling | intros _; apply keeps_ret].
Qed.

Lemma closed_process (feed : string + list Filing) :
  keeps P (process webhookUrl slack numeric feed).
Proof.
  unfold process. destruct feed as [e|filings];
    [apply keeps_ret | apply closed_process_filings].
Qed.

Lemma closed_generateDigest (day : date) :
  keeps P (generateDigest webhookUrl slack day).
Proof.
  unfold generateDigest.
  apply keeps_bind; [apply keeps_query | intros transactions].
  destruct transactions as [|t0 rest]; [apply keeps_ret|].
  apply keeps_try_catch; [|intros e; apply keeps_ret].
  destruct (Digest.formatDailyDigest day _) as [message|]; [|apply keeps_throw].
  apply keeps_bind; [apply closed_postMessage | intros response].
  destruct (ok response); [|apply keeps_ret].
  apply keeps_bind; [|intros _; apply keeps_ret].
  apply keeps_for_each. intros t. unfold record_digest_alert.
  apply keeps_try_catch; [|intros e; apply keeps_ret].
  apply keeps_bind; [apply closed_record | intros _; apply keeps_ret].
Qed.

Lemma closed_run (w w' : World) :
  run webhookUrl slack numeric w w' -> P w -> P w'.
Proof.
  intros [feed w0|day w0] H.
  - now apply closed_process.
  - now apply closed_generateDigest.
Qed.

End Closed.

(** ** What [process] reports *)

Lemma process_filings_accounts (filings : list Filing) :
  forall (stats : ProcessorStats) (w : World),
    exists stats' w' failed,
      process_filings webhookUrl slack numeric filings stats w = Returned stats' w' /\
      errors stats' = (errors stats ++ failed)%list /\
      (filingsProcessed stats' + length failed =
       filingsProcessed stats + length filings)%nat /\
      transactionsCreated stats' = transactionsCreated stats /\
      transactionsUpdated stats' = transactionsUpdated stats /\
      urgentAlertsPosted stats' = urgentAlertsPosted stats /\
      incl (map fst failed) (map filing_accession filings).
Proof.
  induction filings as [|f rest IH]; intros stats w.
  - exists stats, w, []. cbn [process_filings ret]. rewrite app_nil_r.
    split; [reflexivity|]. split; [reflexivity|]. split; [cbn; lia|].
    split; [reflexivity|]. split; [reflexivity|]. split; [reflexivity|].
    intros x [].
  - cbn [process_filings]. unfold bind at 1. unfold try_catch. unfold bind at 1.
    destruct (processSingleFiling webhookUrl slack numeric f w) as [u w1|e w1].
    + cbn [ret].
      destruct (IH (count_filing stats) w1)
        as (stats' & w' & failed & Hrun & Herr & Hcount & Hc & Hu & Hp & Hincl).
      exists stats', w', failed. split; [exact Hrun|].
      cbn [count_filing errors filingsProcessed transactionsCreated
           transactionsUpdated urgentAlertsPosted] in *.
      split; [exact Herr|]. split; [cbn [length]; lia|].
      split; [exact Hc|]. split; [exact Hu|]. split; [exact Hp|].
      intros x Hx. right. now apply Hincl.
    + cbn [ret].
      destruct (IH (push_error stats (filing_accession f) e) w1)
        as (stats' & w' & failed & Hrun & Herr & Hcount & Hc & Hu & Hp & Hincl).
      exists stats', w', ((filing_accession f, e) :: failed). split; [exact Hrun|].
      cbn [push_error errors filingsProcessed transactionsCreated
           transactionsUpdated urgentAlertsPosted] in *.
      split; [rewrite Herr, <- app_assoc; reflexivity|].
      split; [cbn [length]; lia|].
      split; [exact Hc|]. split; [exact Hu|]. split; [exact Hp|].
      intros x [<-|Hx]; [now left | right; now apply Hincl].
Qed.

(** X9. [process] never throws and accounts for every filing of the feed:
    each one is either counted as processed or listed, under its accession
    number, among the errors.  When the feed itself cannot be fetched the
    store and the outbox are left as they were and the one error is filed
    under FETCH_FILINGS.  The counters of created and updated transactions
    and of urgent alerts posted are always reported as zero. *)
Theorem X9_process_accounts_for_every_filing :
  forall (feed : string + list Filing) (w : World),
    exists stats w',
      process webhookUrl slack numeric feed w = Returned stats w' /\
      transactionsCreated stats = 0%nat /\
      transactionsUpdated stats = 0%nat /\
      urgentAlertsPosted stats = 0%nat /\
      match feed with
      | inl e =>
          w' = w /\ filingsProcessed stats = 0%nat /\
          errors stats = [("FETCH_FILINGS", e)]
      | inr filings =>
          (filingsProcessed stats + length (errors stats))%nat = length filings /\
          incl (map fst (errors stats)) (map filing_accession filings)
      end.
Proof.
  intros [e|filings] w; unfold process.
  - eexists. eexists. split; [reflexivity|].
    repeat (split; [reflexivity|]). reflexivity.
  - match goal with
    | |- context [process_filings _ _ _ _ ?s w] =>
        destruct (process_filings_accounts filings s w)
          as (stats' & w' & failed & Hrun & Herr & Hcount & Hc & Hu & Hp & Hincl)
    end.
    exists stats', w'. split; [exact Hrun|].
    cbn [errors filingsProcessed transactionsCreated transactionsUpdated
         urgentAlertsPosted app] in *.
    split; [exact Hc|]. split; [exact Hu|]. split; [exact Hp|].
    rewrite Herr. split; [lia | exact Hincl].
Qed.

(** ** What the jobs never undo *)

(** Nothing stored has been deleted or re-identified, and the alerts and
    the messages have only been added to. *)
Definition extends (w w' : World) : Prop :=
  (forall i, In i (issuers (db w)) ->
     exists i', In i' (issuers (db w')) /\
                issuer_id i' = issuer_id i /\ cik i' = cik i) /\
  (forall i, In i (insiders (db w)) ->
     exists i', In i' (insiders (db w')) /\ insider_id i' = insider_id i /\
                name i' = name i /\ insider_issuerId i' = insider_issuerId i) /\
  (forall r, In r (transactions (db w)) ->
     exists r', In r' (transactions (db w')) /\ id r' = id r /\
                row_key r' = row_key r /\
                issuerId (fields r') = issuerId (fields r)) /\
  (exists l, slackAlerts (db w') = (slackAlerts (db w) ++ l)%list) /\
  (exists l, outbox w' = (outbox w ++ l)%list).

Lemma extends_refl (w : World) : extends w w.
Proof.
  split; [intros i H; exists i; auto|].
  split; [intros i H; exists i; auto|].
  split; [intros r H; exists r; auto|].
  split; exists []; now rewrite app_nil_r.
Qed.

Lemma extends_trans (w1 w2 w3 : World) : extends w1 w2 -> extends w2 w3 -> extends w1 w3.
Proof.
  intros (A1 & B1 & C1 & (l1 & D1) & (m1 & E1)) (A2 & B2 & C2 & (l2 & D2) & (m2 & E2)).
  split; [|split; [|split; [|split]]].
  - intros i H. destruct (A1 i H) as (i' & H' & Hid & Hc).
    destruct (A2 i' H') as (i'' & H'' & Hid' & Hc').
    exists i''. split; [exact H''|]. split; congruence.
  - intros i H. destruct (B1 i H) as (i' & H' & Hid & Hn & Hi).
    destruct (B2 i' H') as (i'' & H'' & Hid' & Hn' & Hi').
    exists i''. split; [exact H''|]. repeat split; congruence.
  - intros r H. destruct (C1 r H) as (r' & H' & Hid & Hk & Hi).
    destruct (C2 r' H') as (r'' & H'' & Hid' & Hk' & Hi').
    exists r''. split; [exact H''|]. repeat split; congruence.
  - exists (l1 ++ l2)%list. now rewrite D2, D1, app_assoc.
  - exists (m1 ++ m2)%list. now rewrite E2, E1, app_assoc.
Qed.

Lemma update_issuer_keeps (c : string) (t : option string) (n : string)
    (rows rows' : list Issuer) (r : Issuer) :
  update_issuer c t n rows = Some (r, rows') ->
  forall i, In i rows ->
    exists i', In i' rows' /\ issuer_id i' = issuer_id i /\ cik i' = cik i.
Proof.
  revert rows' r. induction rows as [|x rest IH]; intros rows' r H i Hi; [destruct Hi|].
  cbn [update_issuer] in H. destruct (String.eqb (cik x) c).
  - injection H as <- <-. destruct Hi as [<-|Hi].
    + eexists. split; [now left|]. split; reflexivity.
    + exists i. split; [now right|]. split; reflexivity.
  - destruct (update_issuer c t n rest) as [[y rest']|]; [|discriminate].
    injection H as <- <-. destruct Hi as [<-|Hi].
    + eexists. split; [now left|]. split; reflexivity.
    + destruct (IH _ _ eq_refl i Hi) as (i' & Hin & Hid & Hc).
      exists i'. split; [now right|]. split; assumption.
Qed.

Lemma update_insider_keeps (iss : uuid) (n : string) (t : option string)
    (rows rows' : list Insider) (r : Insider) :
  update_insider iss n t rows = Some (r, rows') ->
  forall i, In i rows ->
    exists i', In i' rows' /\ insider_id i' = insider_id i /\
               name i' = name i /\ insider_issuerId i' = insider_issuerId i.
Proof.
  revert rows' r. induction rows as [|x rest IH]; intros rows' r H i Hi; [destruct Hi|].
  cbn [update_insider] in H.
  destruct (String.eqb (name x) n && Nat.eqb (insider_issuerId x) iss).
  - injection H as <- <-. destruct Hi as [<-|Hi].
    + eexists. split; [now left|]. repeat split; reflexivity.
    + exists i. split; [now right|]. repeat split; reflexivity.
  - destruct (update_insider iss n t rest) as [[y rest']|]; [|discriminate].
    injection H as <- <-. destruct Hi as [<-|Hi].
    + eexists. split; [now left|]. repeat split; reflexivity.
    + destruct (IH _ _ eq_refl i Hi) as (i' & Hin & Hid & Hn & Hiss).
      exists i'. split; [now right|]. repeat split; assumption.
Qed.

Lemma upsertTransaction_keeps (d : DB) (data : InsertTransaction) :
  forall r, In r (transactions d) ->
    exists r', In r' (transactions (snd (upsertTransaction d data))) /\
               id r' = id r /\ row_key r' = row_key r /\
               issuerId (fields r') = issuerId (fields r).
Proof.
  intros r Hr. unfold upsertTransaction.
  destruct (update_conflict data (transactions d)) as [[x rows']|] eqn:E.
  - apply update_conflict_some in E.
    destruct E as (pre & old & post & Hrows & -> & -> & Hk & Hpre).
    cbn [snd transactions set_transactions].
    rewrite Hrows in Hr. apply in_app_or in Hr. destruct Hr as [Hr|[<-|Hr]].
    + exists r. split; [apply in_or_app; now left|]. repeat split; reflexivity.
    + eexists. split; [apply in_or_app; right; now left|]. repeat split; reflexivity.
    + exists r. split; [apply in_or_app; right; now right|]. repeat split; reflexivity.
  - cbn [snd transactions set_transactions].
    exists r. split; [apply in_or_app; now left|]. repeat split; reflexivity.
Qed.

Lemma extends_upsertIssuer (w : World) c t n :
  extends w {| db := snd (upsertIssuer (db w) c t n); outbox := outbox w |}.
Proof.
  unfold upsertIssuer.
  destruct (update_issuer c t n (issuers (db w))) as [[r rows']|] eqn:E;
    cbn [snd db outbox].
  - split; [exact (update_issuer_keeps _ _ _ _ E)|].
    split; [intros i H; exists i; auto|].
    split; [intros r0 H; exists r0; auto|].
    split; exists []; now rewrite app_nil_r.
  - split.
    { intros i H. exists i. split; [apply in_or_app; now left | auto]. }
    split; [intros i H; exists i; auto|].
    split; [intros r0 H; exists r0; auto|].
    split; exists []; now rewrite app_nil_r.
Qed.

Lemma extends_upsertInsider (w : World) i n t :
  extends w {| db := snd (upsertInsider (db w) i n t); outbox := outbox w |}.
Proof.
  unfold upsertInsider.
  destruct (update_insider i n t (insiders (db w))) as [[r rows']|] eqn:E;
    cbn [snd db outbox].
  - split; [intros x H; exists x; auto|].
    split; [exact (update_insider_keeps _ _ _ _ E)|].
    split; [intros r0 H; exists r0; auto|].
    split; exists []; now rewrite app_nil_r.
  - split; [intros x H; exists x; auto|].
    split.
    { intros x H. exists x. split; [apply in_or_app; now left | auto]. }
    split; [intros r0 H; exists r0; auto|].
    split; exists []; now rewrite app_nil_r.
Qed.

Lemma upsertTransaction_tables (d : DB) (data : InsertTransaction) :
  issuers (snd (upsertTransaction d data)) = issuers d /\
  insiders (snd (upsertTransaction d data)) = insiders d /\
  slackAlerts (snd (upsertTransaction d data)) = slackAlerts d.
Proof.
  unfold upsertTransaction.
  destruct (update_conflict data (transactions d)) as [[r rows']|];
    repeat split; reflexivity.
Qed.

Lemma extends_upsertTransaction (w : World) data :
  extends w {| db := snd (upsertTransaction (db w) data); outbox := outbox w |}.
Proof.
  destruct (upsertTransaction_tables (db w) data) as (Hi & Hn & Ha).
  unfold extends. cbn [db outbox]. rewrite Hi, Hn, Ha.
  split; [intros x H; exists x; auto|].
  split; [intros x H; exists x; auto|].
  split; [apply upsertTransaction_keeps|].
  split; exists []; now rewrite app_nil_r.
Qed.

Lemma extends_recordSlackAlert (w : World) data :
  extends w {| db := snd (recordSlackAlert (db w) data); outbox := outbox w |}.
Proof.
  unfold extends, recordSlackAlert. cbn [snd db outbox issuers insiders transactions
                                         slackAlerts set_slackAlerts].
  split; [intros x H; exists x; auto|].
  split; [intros x H; exists x; auto|].
  split; [intros x H; exists x; auto|].
  split; [eexists; reflexivity | exists []; now rewrite app_nil_r].
Qed.

Lemma extends_post (w : World) (m : SlackMessage) :
  extends w {| db := db w; outbox := (outbox w ++ [m])%list |}.
Proof.
  unfold extends. cbn [db outbox].
  split; [intros x H; exists x; auto|].
  split; [intros x H; exists x; auto|].
  split; [intros x H; exists x; auto|].
  split; [exists []; now rewrite app_nil_r | eexists; reflexivity].
Qed.

(** X10. Neither job ever deletes or re-identifies what is stored: after
    [process] or [generateDigest], however it ends, every issuer is still
    stored under its id and CIK, every insider under its id, name and
    issuer, every transaction under its id, dedupe key and issuer, and the
    alert records and the messages handed to Slack are those of before
    with new ones appended. *)
Theorem X10_jobs_only_add :
  (forall (feed : string + list Filing) (w : World),
     extends w (world_of (process webhookUrl slack numeric feed w))) /\
  (forall (day : date) (w : World),
     extends w (world_of (generateDigest webhookUrl slack day w))).
Proof.
  assert (H : forall w0 w w', run webhookUrl slack numeric w w' ->
                              extends w0 w -> extends w0 w').
  { intros w0 w w' Hrun. apply (@closed_run (extends w0)); [| | | | |exact Hrun].
    - intros x c t n Hx. exact (extends_trans Hx (extends_upsertIssuer x c t n)).
    - intros x i n t Hx. exact (extends_trans Hx (extends_upsertInsider x i n t)).
    - intros x data Hx. exact (extends_trans Hx (extends_upsertTransaction x data)).
    - intros x data Hx. exact (extends_trans Hx (extends_recordSlackAlert x data)).
    - intros x m Hx. exact (extends_trans Hx (extends_post x m)). }
  split.
  - intros feed w. apply (H w w); [apply run_process | apply extends_refl].
  - intros day w. apply (H w w); [apply run_digest | apply extends_refl].
Qed.

(** X11. The unique constraint of the transactions table holds in every
    state the two jobs can reach from the empty store, whatever the feeds,
    the days and the replies of Slack. *)
Theorem X11_reachable_states_keep_the_dedupe_constraint :
  forall w : World,
    reachable webhookUrl slack numeric w -> dedupe_ok (transactions (db w)).
Proof.
  induction 1 as [|w w' Hreach IH Hrun].
  - intros k. apply Nat.le_0_l.
  - revert IH. apply (@closed_run (fun x => dedupe_ok (transactions (db x))));
      [| | | | |exact Hrun]; cbn [db].
    + intros x c t n Hx. unfold upsertIssuer.
      destruct (update_issuer c t n (issuers (db x))) as [[r rows']|]; exact Hx.
    + intros x i n t Hx. unfold upsertInsider.
      destruct (update_insider i n t (insiders (db x))) as [[r rows']|]; exact Hx.
    + intros x data Hx. now apply upsert_dedupe_ok.
    + intros x data Hx. exact Hx.
    + intros x m Hx. exact Hx.
Qed.

End PipelineFacts.

(* ================================================================== *)
(** * Further properties: the daily digest *)
(* ================================================================== *)

Section DigestFacts.

Import Store Digest Pipeline.
Local Open Scope string_scope.

(** [tx.issuer.ticker || tx.issuer.companyName] *)
Definition ticker_key (t : JoinedTransaction) : string :=
  match ticker (issuer t) with
  | Some (String c s) => String c s
  | _ => companyName (issuer t)
  end.

Definition with_key (k : string) (t : JoinedTransaction) : bool :=
  String.eqb (ticker_key t) k.

Definition grouped_by (seen : list JoinedTransaction)
    (m : list (string * list JoinedTransaction)) : Prop :=
  NoDup (map fst m) /\
  (forall k g, In (k, g) m -> g <> [] /\ g = filter (with_key k) seen) /\
  (forall t, In t seen -> In (ticker_key t) (map fst m)).

Lemma group_insert_keys (k : string) (t : JoinedTransaction)
    (m : list (string * list JoinedTransaction)) :
  (In k (map fst m) /\ map fst (group_insert k t m) = map fst m) \/
  (~ In k (map fst m) /\ map fst (group_insert k t m) = (map fst m ++ [k])%list).
Proof.
  induction m as [|[k0 g0] m IH]; cbn [group_insert map fst].
  - right. split; [intros [] | reflexivity].
  - destruct (String.eqb_spec k0 k) as [->|Hne].
    + left. split; [now left | reflexivity].
    + destruct IH as [[Hin Heq]|[Hnin Heq]].
      * left. split; [now right|]. cbn [map fst]. now rewrite Heq.
      * right. split; [intros [H|H]; contradiction|]. cbn [map fst app].
        now rewrite Heq.
Qed.

Lemma group_insert_in (k : string) (t : JoinedTransaction)
    (m : list (string * list JoinedTransaction)) (k' : string)
    (g' : list JoinedTransaction) :
  NoDup (map fst m) ->
  In (k', g') (group_insert k t m) ->
  (k' <> k /\ In (k', g') m) \/
  (k' = k /\ exists g, In (k, g) m /\ g' = (g ++ [t])%list) \/
  (k' = k /\ ~ In k (map fst m) /\ g' = [t]).
Proof.
  induction m as [|[k0 g0] m IH]; cbn [group_insert map fst]; intros Hnd H.
  - destruct H as [H|[]]. injection H as <- <-.
    right. right. split; [reflexivity|]. split; [intros [] | reflexivity].
  - apply NoDup_cons_iff in Hnd. destruct Hnd as [Hk0 Hnd].
    destruct (String.eqb_spec k0 k) as [->|Hne].
    + destruct H as [H|H].
      * injection H as <- <-. right. left. split; [reflexivity|].
        exists g0. split; [now left | reflexivity].
      * left. split; [|now right].
        intros ->. apply Hk0. apply in_map_iff. now exists (k, g').
    + destruct H as [H|H].
      * injection H as <- <-. left. split; [exact Hne | now left].
      * destruct (IH Hnd H) as [[Hk Hin]|[[Hk (g & Hin & Hg)]|[Hk [Hnin Hg]]]].
        -- left. split; [exact Hk | now right].
        -- right. left. split; [exact Hk|]. exists g. split; [now right | exact Hg].
        -- right. right. split; [exact Hk|]. split; [|exact Hg].
           intros [E|E]; [now apply Hne | contradiction].
Qed.

Lemma filter_none (A : Type) (f : A -> bool) (l : list A) :
  (forall a, In a l -> f a = false) -> filter f l = [].
Proof.
  induction l as [|a l IH]; intros H; [reflexivity|]. cbn [filter].
  rewrite (H a) by now left. apply IH. intros b Hb. apply H. now right.
Qed.

Lemma grouped_by_insert (seen : list JoinedTransaction)
    (m : list (string * list JoinedTransaction)) (t : JoinedTransaction) :
  grouped_by seen m ->
  grouped_by (seen ++ [t]) (group_insert (ticker_key t) t m).
Proof.
  intros (Hnd & Hgroups & Hcover).
  destruct (group_insert_keys (ticker_key t) t m) as [[Hin Hkeys]|[Hnin Hkeys]].
  - split; [now rewrite Hkeys|]. split.
    + intros k g Hg. apply group_insert_in in Hg; [|exact Hnd].
      destruct Hg as [[Hk Hg]|[[-> (g0 & Hg0 & ->)]|[_ [Hnin _]]]];
        [| |contradiction].
      * destruct (Hgroups k g Hg) as [Hne Heq]. split; [exact Hne|].
        rewrite filter_app. cbn [filter]. unfold with_key at 2.
        replace (String.eqb (ticker_key t) k) with false
          by (symmetry; apply String.eqb_neq; congruence).
        now rewrite app_nil_r.
      * destruct (Hgroups _ g0 Hg0) as [Hne Heq].
        split; [intros E; now apply app_eq_nil in E as [_ E']|].
        rewrite filter_app. cbn [filter]. unfold with_key at 2.
        rewrite String.eqb_refl. now rewrite <- Heq.
    + intros x Hx. rewrite Hkeys. apply in_app_or in Hx.
      destruct Hx as [Hx|[<-|[]]]; [now apply Hcover | exact Hin].
  - split.
    { rewrite Hkeys. apply NoDup_app; [exact Hnd | repeat constructor; intros [] |].
      intros x Hx [<-|[]]. contradiction. }
    split.
    + intros k g Hg. apply group_insert_in in Hg; [|exact Hnd].
      destruct Hg as [[Hk Hg]|[[-> (g0 & Hg0 & ->)]|[-> [_ ->]]]].
      * destruct (Hgroups k g Hg) as [Hne Heq]. split; [exact Hne|].
        rewrite filter_app. cbn [filter]. unfold with_key at 2.
        replace (String.eqb (ticker_key t) k) with false
          by (symmetry; apply String.eqb_neq; congruence).
        now rewrite app_nil_r.
      * exfalso. apply Hnin. apply in_map_iff. now exists (ticker_key t, g0).
      * split; [discriminate|].
        rewrite filter_app. cbn [filter]. unfold with_key at 2.
        rewrite String.eqb_refl. rewrite filter_none; [reflexivity|].
        intros a Ha. apply String.eqb_neq. intros E. apply Hnin.
        rewrite <- E. now apply Hcover.
    + intros x Hx. rewrite Hkeys. apply in_or_app. apply in_app_or in Hx.
      destruct Hx as [Hx|[<-|[]]]; [left; now apply Hcover | right; now left].
Qed.

Lemma groupByTicker_step (t : JoinedTransaction)
    (m : list (string * list JoinedTransaction)) :
  (let key := match ticker (issuer t) with
              | Some (String c s) => String c s
              | _ => companyName (issuer t)
              end in
   group_insert key t m) = group_insert (ticker_key t) t m.
Proof. reflexivity. Qed.

Lemma grouped_by_fold (txs : list JoinedTransaction) :
  forall seen m,
    grouped_by seen m ->
    grouped_by (seen ++ txs)
      (fold_left
         (fun grouped t =>
            let key := match ticker (issuer t) with
                       | Some (String c s) => String c s
                       | _ => companyName (issuer t)
                       end in
            group_insert key t grouped)
         txs m).
Proof.
  induction txs as [|t txs IH]; intros seen m H; cbn [fold_left].
  - now rewrite app_nil_r.
  - replace (seen ++ t :: txs)%list with ((seen ++ [t]) ++ txs)%list
      by (rewrite <- app_assoc; reflexivity).
    apply IH. rewrite groupByTicker_step. now apply grouped_by_insert.
Qed.

Lemma groupByTicker_grouped (txs : list JoinedTransaction) :
  grouped_by txs (groupByTicker txs).
Proof.
  apply (@grouped_by_fold txs [] []).
  split; [constructor|]. split; [intros k g [] | intros t []].
Qed.

(** X12. [groupByTicker] partitions the transactions of the day by ticker,
    or by company name where the issuer has no ticker or an empty one:
    the keys are distinct, every transaction has its key among them, and
    the group of a key holds exactly the transactions of that key, in the
    order given, so no group is empty. *)
Theorem X12_groupByTicker_partitions :
  forall txs : list JoinedTransaction,
    NoDup (map fst (groupByTicker txs)) /\
    (forall t, In t txs -> In (ticker_key t) (map fst (groupByTicker txs))) /\
    (forall k g, In (k, g) (groupByTicker txs) ->
                 g <> [] /\ g = filter (fun t => String.eqb (ticker_key t) k) txs).
Proof.
  intros txs. destruct (groupByTicker_grouped txs) as (Hnd & Hgroups & Hcover).
  split; [exact Hnd|]. split; [exact Hcover | exact Hgroups].
Qed.

(** ** Ranking and failure of the formatter *)

(** [z] is the greatest absolute score of the group [g], read off the
    stored scores: every score of [g] is a number of absolute value at most
    [z], and one of them has it. *)
Definition top_score (g : list JoinedTransaction) (z : Z) : Prop :=
  (forall t, In t g ->
     exists s : Z, signalScore (fields (tx t)) = Dec s /\ (Z.abs s <= z)%Z) /\
  (exists t s, In t g /\ signalScore (fields (tx t)) = Dec s /\ Z.abs s = z).

(** The groups are listed by top score, greatest first. *)
Fixpoint ranked_desc (l : list (string * list JoinedTransaction)) : Prop :=
  match l with
  | [] => True
  | x :: rest =>
      (forall y zx zy, In y rest -> top_score (snd x) zx -> top_score (snd y) zy ->
                       (zy <= zx)%Z)
      /\ ranked_desc rest
  end.

Definition all_numeric (m : list (string * list JoinedTransaction)) : Prop :=
  forall k g, In (k, g) m -> numeric_scores g.

(** The greatest absolute score of a group of numbers, [-1] for none. *)
Definition peak (g : list JoinedTransaction) : Z :=
  fold_right (fun t m =>
                Z.max (match signalScore (fields (tx t)) with
                       | Dec s => Z.abs s
                       | DecNaN => 0
                       end) m)
             (-1)%Z g.

Lemma max_abs_score_numeric (g : list JoinedTransaction) :
  numeric_scores g -> max_abs_score g = Dec (peak g).
Proof.
  induction g as [|t g IH]; intros Hnum; [reflexivity|].
  cbn [max_abs_score peak fold_right].
  fold (max_abs_score g). fold (peak g).
  rewrite IH by (intros x Hx; apply Hnum; now right).
  destruct (Hnum t (or_introl eq_refl)) as [s Hs].
  unfold abs_score, score_of. now rewrite Hs.
Qed.

Lemma top_score_peak (g : list JoinedTransaction) (z : Z) :
  top_score g z -> peak g = z.
Proof.
  intros [Hall (t & s & Hin & Hs & Habs)].
  assert (Hle : (peak g <= z)%Z).
  { assert (Hz : (-1 <= z)%Z) by lia.
    clear t s Hin Hs Habs. induction g as [|x g IH]; [exact Hz|].
    cbn [peak fold_right]. fold (peak g).
    destruct (Hall x (or_introl eq_refl)) as (sx & Hsx & Hx). rewrite Hsx.
    assert (peak g <= z)%Z by (apply IH; intros y Hy; apply Hall; now right).
    lia. }
  assert (Hge : (z <= peak g)%Z).
  { clear Hall Hle. induction g as [|x g IH]; [contradiction|].
    cbn [peak fold_right]. fold (peak g). destruct Hin as [->|Hin].
    - rewrite Hs. lia.
    - specialize (IH Hin). lia. }
  lia.
Qed.

Fixpoint peaks_desc (l : list (string * list JoinedTransaction)) : Prop :=
  match l with
  | [] => True
  | x :: rest =>
      (forall y, In y rest -> (peak (snd y) <= peak (snd x))%Z) /\ peaks_desc rest
  end.

Lemma insert_ticker_peaks x (l : list (string * list JoinedTransaction)) :
  all_numeric (x :: l) -> peaks_desc l -> peaks_desc (insert_ticker x l).
Proof.
  induction l as [|y l IH]; cbn [insert_ticker peaks_desc]; intros Hnum H.
  - split; [intros z [] | exact I].
  - destruct H as [Hy Hl].
    rewrite (@max_abs_score_numeric (snd x))
      by (apply (Hnum (fst x)); left; now destruct x).
    rewrite (@max_abs_score_numeric (snd y))
      by (apply (Hnum (fst y)); right; left; now destruct y).
    cbn [exceeds].
    destruct (peak (snd x) <? peak (snd y))%Z eqn:E.
    + cbn [peaks_desc]. apply Z.ltb_lt in E. split.
      * intros z Hz.
        apply (Permutation_in _ (Permutation_sym (insert_ticker_perm x l))) in Hz.
        destruct Hz as [<-|Hz]; [lia | now apply Hy].
      * apply IH; [|exact Hl].
        intros k g [Hx|Hin]; [apply (Hnum k); now left|].
        apply (Hnum k). right. now right.
    + cbn [peaks_desc]. apply Z.ltb_ge in E. split; [|split; assumption].
      intros z [<-|Hz]; [exact E|]. specialize (Hy z Hz). lia.
Qed.

Lemma sortedTickers_peaks (m : list (string * list JoinedTransaction)) :
  all_numeric m -> peaks_desc (sortedTickers m).
Proof.
  induction m as [|x m IH]; cbn [sortedTickers fold_right]; intros Hnum;
    [exact I|].
  apply insert_ticker_peaks.
  - intros k g [Hx|Hin]; [apply (Hnum k); now left|].
    apply (Hnum k). right.
    exact (Permutation_in _ (Permutation_sym (sortedTickers_perm m)) Hin).
  - apply IH. intros k g Hin. apply (Hnum k). now right.
Qed.

Lemma peaks_desc_ranked (l : list (string * list JoinedTransaction)) :
  peaks_desc l -> ranked_desc l.
Proof.
  induction l as [|x l IH]; cbn [peaks_desc ranked_desc]; [trivial|].
  intros [Hx Hl]. split; [|now apply IH].
  intros y zx zy Hy Hzx Hzy.
  rewrite <- (top_score_peak Hzx), <- (top_score_peak Hzy). now apply Hx.
Qed.

Lemma ticker_blocks_none (k : string) (g : list JoinedTransaction) :
  ticker_blocks k g = None <-> (k, g) = ("", []).
Proof.
  unfold ticker_blocks, display_name. destruct k as [|c k].
  - destruct g as [|t g]; split; intros H; try reflexivity; discriminate.
  - split; intros H; discriminate.
Qed.

Lemma all_ticker_blocks_none (m : list (string * list JoinedTransaction)) :
  all_ticker_blocks m = None <-> In ("", []) m.
Proof.
  induction m as [|[k g] m IH]; cbn [all_ticker_blocks].
  - split; [discriminate | intros []].
  - destruct (ticker_blocks k g) as [b|] eqn:E.
    + destruct (all_ticker_blocks m) as [bs|].
      * split; [discriminate|]. intros [H|H].
        -- apply ticker_blocks_none in H. congruence.
        -- apply IH in H. discriminate.
      * split; [intros _; right; now apply IH | reflexivity].
    + apply ticker_blocks_none in E. split; [intros _; now left | reflexivity].
Qed.

Lemma total_fold (m : list (string * list JoinedTransaction)) (a : nat) :
  fold_left (fun sum e => (sum + length (snd e))%nat) m a =
  (a + length (concat (map snd m)))%nat.
Proof.
  revert a. induction m as [|x m IH]; intros a; cbn [fold_left map concat].
  - now rewrite Nat.add_0_r.
  - rewrite IH, length_app. lia.
Qed.

Lemma formatDailyDigest_none (day : date) (m : list (string * list JoinedTransaction)) :
  formatDailyDigest day m = None <-> In ("", []) m.
Proof.
  unfold formatDailyDigest.
  destruct (all_ticker_blocks (sortedTickers m)) as [bs|] eqn:E.
  - split; [discriminate|]. intros H. exfalso.
    assert (Hin : In ("", []) (sortedTickers m))
      by (apply (Permutation_in _ (sortedTickers_perm m)); exact H).
    apply all_ticker_blocks_none in Hin. congruence.
  - split; [|reflexivity]. intros _.
    apply all_ticker_blocks_none in E.
    exact (Permutation_in _ (Permutation_sym (sortedTickers_perm m)) E).
Qed.

(** X13. [formatDailyDigest] fails, with a TypeError, exactly when the map
    has an empty group under the empty key.  Otherwise the message opens
    with the header, the summary and a divider, the summary counting all
    transactions of all groups and the groups, and then lists every group
    once; when every stored score is a number, a group comes before every
    group whose greatest absolute score is smaller. *)
Theorem X13_digest_ranks_the_groups :
  forall (day : date) (m : list (string * list JoinedTransaction)),
    (formatDailyDigest day m = None <-> In ("", []) m) /\
    (forall msg, formatDailyDigest day m = Some msg ->
       exists ranked bs,
         Permutation m ranked /\
         (all_numeric m -> ranked_desc ranked) /\
         all_ticker_blocks ranked = Some bs /\
         blocks msg =
           ([ header "Daily Insider Trading Digest";
              summary (length (concat (map snd m))) (length m);
              divider ] ++ bs)%list /\
         fallback_total msg = length (concat (map snd m)) /\
         fallback_tickers msg = length m).
Proof.
  intros day m. split; [apply formatDailyDigest_none|].
  unfold formatDailyDigest. rewrite total_fold. cbn [Nat.add].
  intros msg H.
  destruct (all_ticker_blocks (sortedTickers m)) as [bs|] eqn:E; [|discriminate].
  injection H as <-. exists (sortedTickers m), bs.
  split; [apply sortedTickers_perm|].
  split; [intros Hnum; now apply peaks_desc_ranked, sortedTickers_peaks|].
  split; [exact E|]. cbn [blocks fallback_total fallback_tickers].
  split; [reflexivity|]. split; reflexivity.
Qed.

Lemma groupByTicker_formats (day : date) (txs : list JoinedTransaction) :
  exists msg, formatDailyDigest day (groupByTicker txs) = Some msg.
Proof.
  destruct (formatDailyDigest day (groupByTicker txs)) as [msg|] eqn:E;
    [now exists msg|].
  apply formatDailyDigest_none in E.
  destruct (groupByTicker_grouped txs) as (_ & H & _).
  destruct (H _ _ E) as [Hne _]. now contradiction Hne.
Qed.

End DigestFacts.

(* ================================================================== *)
(** * Further properties: digests and alert records *)
(* ================================================================== *)

Section JobFacts.

Import JsNumber Store Pipeline.
Local Open Scope string_scope.

Variable webhookUrl : string.
Variable slack : nat -> SlackMessageResponse.
Variable numeric : nat -> number -> option decimal.

(** The digest alert written for a transaction of the day. *)
Definition digest_alert (response : SlackMessageResponse)
    (t : Digest.JoinedTransaction) : InsertSlackAlert :=
  {| transactionId := id (Digest.tx t);
     alert_issuerId := issuerId (fields (Digest.tx t));
     alertType := digest;
     slackMessageTs := ts response;
     slackThreadTs := ts response |}.

Lemma record_all (response : SlackMessageResponse)
    (txs : list Digest.JoinedTransaction) :
  forall w : World,
    exists w' added,
      for_each (record_digest_alert response) txs w = Returned tt w' /\
      outbox w' = outbox w /\
      issuers (db w') = issuers (db w) /\
      insiders (db w') = insiders (db w) /\
      transactions (db w') = transactions (db w) /\
      slackAlerts (db w') = (slackAlerts (db w) ++ added)%list /\
      map alert added = map (digest_alert response) txs.
Proof.
  induction txs as [|t txs IH]; intros w.
  - exists w, []. cbn [for_each ret map]. rewrite app_nil_r.
    repeat (split; [reflexivity|]). reflexivity.
  - cbn [for_each]. unfold bind at 1. unfold record_digest_alert at 1.
    unfold try_catch, bind, mutate.
    cbn [recordSlackAlert ret].
    match goal with
    | |- context [for_each _ txs ?w1] =>
        destruct (IH w1) as (w' & added & Hrun & Hout & Hi & Hn & Ht & Ha & Hmap)
    end.
    rewrite Hrun. cbn [db outbox issuers insiders transactions slackAlerts
                       set_slackAlerts] in *.
    eexists. eexists. split; [reflexivity|].
    split; [exact Hout|]. split; [exact Hi|]. split; [exact Hn|].
    split; [exact Ht|]. split; [rewrite Ha, <- app_assoc; reflexivity|].
    cbn [map app alert]. now rewrite Hmap.
Qed.

Lemma generateDigest_spec (day : date) (w : World) :
  exists stats w',
    generateDigest webhookUrl slack day w = Returned stats w' /\
    digest_date stats = day /\
    issuers (db w') = issuers (db w) /\
    insiders (db w') = insiders (db w) /\
    transactions (db w') = transactions (db w) /\
    match joined (db w) (getDailyTransactionsByDate (db w) day) with
    | [] =>
        w' = w /\ transactionsProcessed stats = 0%nat /\
        tickersIncluded stats = 0%nat /\
        digestPosted stats = false /\ digest_error stats = None
    | t0 :: rest =>
        transactionsProcessed stats = length (t0 :: rest) /\
        tickersIncluded stats = length (groupByTicker (t0 :: rest)) /\
        if JsString.truthy (Some webhookUrl) then
          exists message,
            Digest.formatDailyDigest day (groupByTicker (t0 :: rest)) = Some message /\
            outbox w' = (outbox w ++ [DailyDigest message])%list /\
            digestPosted stats = ok (slack (length (outbox w))) /\
            if ok (slack (length (outbox w))) then
              exists added,
                slackAlerts (db w') = (slackAlerts (db w) ++ added)%list /\
                map alert added =
                  map (digest_alert (slack (length (outbox w)))) (t0 :: rest)
            else
              slackAlerts (db w') = slackAlerts (db w) /\
              digest_error stats = error (slack (length (outbox w)))
        else
          w' = w /\ digestPosted stats = false /\
          digest_error stats = Some "SLACK_WEBHOOK_URL not configured"
    end.
Proof.
  unfold generateDigest, bind at 1, query.
  destruct (joined (db w) (getDailyTransactionsByDate (db w) day)) as [|t0 rest].
  - eexists. eexists. split; [reflexivity|]. cbn.
    repeat (split; [reflexivity|]). reflexivity.
  - destruct (groupByTicker_formats day (t0 :: rest)) as [message Hmsg].
    rewrite Hmsg. unfold try_catch, bind at 1, postMessage.
    destruct (JsString.truthy (Some webhookUrl)); cbn [negb].
    + destruct (ok (slack (length (outbox w)))) eqn:Hok.
      * unfold bind.
        match goal with
        | |- context [for_each ?b ?l ?w1] =>
            destruct (record_all (slack (length (outbox w))) l w1)
              as (w' & added & Hrun & Hout & Hi & Hn & Ht & Ha & Hmap)
        end.
        rewrite Hrun. cbn [ret db outbox] in *.
        eexists. eexists. split; [reflexivity|].
        cbn [digest_date transactionsProcessed tickersIncluded digestPosted
             digest_error].
        split; [reflexivity|]. split; [exact Hi|]. split; [exact Hn|].
        split; [exact Ht|]. split; [reflexivity|]. split; [reflexivity|].
        exists message. split; [reflexivity|]. split; [exact Hout|].
        split; [reflexivity|]. exists added. split; [exact Ha | exact Hmap].
      * cbn [ret]. eexists. eexists. split; [reflexivity|].
        cbn [digest_date transactionsProcessed tickersIncluded digestPosted
             digest_error db outbox].
        repeat (split; [reflexivity|]).
        exists message. repeat (split; [reflexivity|]). split; reflexivity.
    + cbn [ret]. eexists. eexists. split; [reflexivity|].
      cbn [digest_date transactionsProcessed tickersIncluded digestPosted
           digest_error].
      repeat (split; [reflexivity|]). split; reflexivity.
Qed.

Lemma count_added (u : uuid) (ty : AlertType) (added : list SlackAlert)
    (data : list InsertSlackAlert) :
  map alert added = data ->
  length (filter (is_alert_for u ty) added) =
  length (filter (fun x => Nat.eqb (transactionId x) u
                           && AlertType_eqb (alertType x) ty) data).
Proof.
  intros <-. induction added as [|a added IH]; [reflexivity|].
  cbn [map filter]. unfold is_alert_for at 1.
  destruct (Nat.eqb (transactionId (alert a)) u
            && AlertType_eqb (alertType (alert a)) ty); cbn [length]; now rewrite IH.
Qed.

Lemma count_digest_alerts (response : SlackMessageResponse) (u : uuid)
    (txs : list Digest.JoinedTransaction) :
  length (filter (fun x => Nat.eqb (transactionId x) u
                           && AlertType_eqb (alertType x) digest)
                 (map (digest_alert response) txs))
  = length (filter (fun t => Nat.eqb (id (Digest.tx t)) u) txs) /\
  length (filter (fun x => Nat.eqb (transactionId x) u
                           && AlertType_eqb (alertType x) urgent)
                 (map (digest_alert response) txs)) = 0%nat.
Proof.
  induction txs as [|t txs [IH1 IH2]]; [split; reflexivity|].
  cbn [map filter digest_alert transactionId alertType AlertType_eqb].
  rewrite andb_true_r, andb_false_r. split; [|exact IH2].
  destruct (Nat.eqb (id (Digest.tx t)) u); cbn [length]; now rewrite IH1.
Qed.

Lemma joined_in (d : DB) (rows : list Transaction) (j : Digest.JoinedTransaction) :
  In j (joined d rows) -> In (Digest.tx j) rows.
Proof.
  induction rows as [|r rows IH]; cbn [joined]; [intros []|].
  destruct (join d r) as [x|] eqn:E.
  - intros [<-|H]; [|right; now apply IH].
    left. unfold join in E.
    destruct (find _ (issuers d)); [|discriminate].
    destruct (find _ (insiders d)); [|discriminate].
    injection E as <-. reflexivity.
  - intros H. right. now apply IH.
Qed.

(** The join keeps the order of the rows. *)
Lemma joined_by_score (d : DB) (rows : list Transaction) :
  by_score_desc rows -> by_score_desc (map Digest.tx (joined d rows)).
Proof.
  induction rows as [|r rows IH]; cbn [joined by_score_desc]; [trivial|].
  intros [Hr Hrows]. destruct (join d r) as [x|] eqn:E; [|now apply IH].
  assert (Hx : Digest.tx x = r).
  { unfold join in E.
    destruct (find _ (issuers d)); [|discriminate].
    destruct (find _ (insiders d)); [|discriminate].
    injection E as <-. reflexivity. }
  cbn [map by_score_desc]. rewrite Hx. split; [|now apply IH].
  intros y Hy. apply in_map_iff in Hy. destruct Hy as (j & <- & Hj).
  apply Hr. exact (@joined_in d rows j Hj).
Qed.

(** X14. [generateDigest] never throws and never touches the issuers, the
    insiders or the transactions.  The transactions it reads are stored
    rows of the day, listed by signal score, greatest first.  With none it
    posts and writes nothing and reports zeros.  Otherwise it reports the
    number of transactions and of ticker groups; without a webhook nothing
    is posted or written; with one, the digest of the grouped transactions
    is posted, and exactly when Slack answers [ok] the digest is reported
    as posted and one digest alert per transaction read is appended, in
    the order read, whether or not the day has been digested before: the
    digest alerts of each transaction grow in number by its rows of the
    day, and the urgent alerts stay as they are. *)
Theorem X14_generateDigest_outcomes :
  forall (day : date) (w : World),
    exists stats w',
      generateDigest webhookUrl slack day w = Returned stats w' /\
      digest_date stats = day /\
      issuers (db w') = issuers (db w) /\
      insiders (db w') = insiders (db w) /\
      transactions (db w') = transactions (db w) /\
      (forall t, In t (joined (db w) (getDailyTransactionsByDate (db w) day)) ->
         In (Digest.tx t) (transactions (db w)) /\
         transactionDate (fields (Digest.tx t)) = day) /\
      by_score_desc
        (map Digest.tx (joined (db w) (getDailyTransactionsByDate (db w) day))) /\
      match joined (db w) (getDailyTransactionsByDate (db w) day) with
      | [] =>
          w' = w /\ transactionsProcessed stats = 0%nat /\
          tickersIncluded stats = 0%nat /\
          digestPosted stats = false /\ digest_error stats = None
      | t0 :: rest =>
          transactionsProcessed stats = length (t0 :: rest) /\
          tickersIncluded stats = length (groupByTicker (t0 :: rest)) /\
          if JsString.truthy (Some webhookUrl) then
            exists message,
              Digest.formatDailyDigest day (groupByTicker (t0 :: rest)) = Some message /\
              outbox w' = (outbox w ++ [DailyDigest message])%list /\
              digestPosted stats = ok (slack (length (outbox w))) /\
              if ok (slack (length (outbox w))) then
                exists added,
                  slackAlerts (db w') = (slackAlerts (db w) ++ added)%list /\
                  map alert added =
                    map (digest_alert (slack (length (outbox w)))) (t0 :: rest) /\
                  (forall u,
                     count_alerts u digest (db w') =
                     (count_alerts u digest (db w)
                      + length (filter (fun t => Nat.eqb (id (Digest.tx t)) u)
                                       (t0 :: rest)))%nat) /\
                  (forall u,
                     count_alerts u urgent (db w') = count_alerts u urgent (db w))
              else
                slackAlerts (db w') = slackAlerts (db w) /\
                digest_error stats = error (slack (length (outbox w)))
          else
            w' = w /\ digestPosted stats = false /\
            digest_error stats = Some "SLACK_WEBHOOK_URL not configured"
      end.
Proof.
  intros day w.
  destruct (generateDigest_spec day w)
    as (stats & w' & Hrun & Hday & Hi & Hn & Ht & Hcase).
  exists stats, w'. split; [exact Hrun|]. split; [exact Hday|].
  split; [exact Hi|]. split; [exact Hn|]. split; [exact Ht|].
  split.
  { intros t Hin. apply joined_in in Hin.
    now apply getDailyTransactionsByDate_In in Hin. }
  split; [apply (@joined_by_score (db w)), order_by_score_desc_sorted|].
  destruct (joined (db w) (getDailyTransactionsByDate (db w) day)) as [|t0 rest];
    [exact Hcase|].
  destruct Hcase as (Hp & Hk & Hcase). split; [exact Hp|]. split; [exact Hk|].
  destruct (JsString.truthy (Some webhookUrl)); [|exact Hcase].
  destruct Hcase as (message & Hm & Hout & Hposted & Hcase).
  exists message. split; [exact Hm|]. split; [exact Hout|]. split; [exact Hposted|].
  destruct (ok (slack (length (outbox w)))); [|exact Hcase].
  destruct Hcase as (added & Ha & Hmap). exists added.
  split; [exact Ha|]. split; [exact Hmap|].
  split; intros u; unfold count_alerts; rewrite Ha, filter_app, length_app;
    rewrite (@count_added u _ added _ Hmap);
    destruct (count_digest_alerts (slack (length (outbox w))) u (t0 :: rest))
      as [Hd Hu].
  - now rewrite Hd.
  - rewrite Hu. lia.
Qed.

(** ** Alert records and what backs them *)

(** The transaction of an alert record is stored, and a message stands
    behind the record: for an urgent alert a message about that
    transaction, for a digest alert a digest. *)
Definition backed (w : World) (a : SlackAlert) : Prop :=
  (exists r, In r (transactions (db w)) /\ id r = transactionId (alert a)) /\
  match alertType (alert a) with
  | urgent =>
      exists t i n h,
        In (UrgentAlert t i n h) (outbox w) /\ id t = transactionId (alert a)
  | digest => exists m, In (DailyDigest m) (outbox w)
  end.

Definition alerts_backed (w : World) : Prop :=
  forall a, In a (slackAlerts (db w)) -> backed w a.

Lemma backed_extends (w w' : World) (a : SlackAlert) :
  extends w w' -> backed w a -> backed w' a.
Proof.
  intros (_ & _ & Htx & _ & (l & Hout)) [(r & Hr & Hid) Hmsg]. split.
  - destruct (Htx r Hr) as (r' & Hr' & Hid' & _). exists r'. split; congruence.
  - destruct (alertType (alert a)).
    + destruct Hmsg as (t & i & n & h & Hin & Ht). exists t, i, n, h.
      split; [rewrite Hout; apply in_or_app; now left | exact Ht].
    + destruct Hmsg as (m & Hin). exists m. rewrite Hout. apply in_or_app. now left.
Qed.

Lemma alerts_backed_extends (w w' : World) :
  extends w w' -> slackAlerts (db w') = slackAlerts (db w) ->
  alerts_backed w -> alerts_backed w'.
Proof.
  intros Hext Hsame H a Ha. rewrite Hsame in Ha.
  exact (backed_extends Hext (H a Ha)).
Qed.

Lemma backed_postUrgentAlert (transaction : Transaction) (form4Data : Form4Data)
    (insider : uuid) (w : World) :
  alerts_backed w -> In transaction (transactions (db w)) ->
  alerts_backed
    (world_of (postUrgentAlert webhookUrl slack transaction form4Data insider w)).
Proof.
  intros H Hin. unfold postUrgentAlert, bind, query.
  destruct (hasSlackAlertForTransaction (db w) (id transaction) urgent); [exact H|].
  unfold postMessage.
  destruct (negb (JsString.truthy (Some webhookUrl))); [exact H|].
  match goal with
  | |- context [UrgentAlert transaction ?i ?n ?h] => set (message := UrgentAlert transaction i n h)
  end.
  assert (H1 : alerts_backed {| db := db w; outbox := (outbox w ++ [message])%list |}).
  { apply (alerts_backed_extends (extends_post w message)); [reflexivity | exact H]. }
  destruct (ok (slack (length (outbox w)))); [|exact H1].
  unfold mutate. cbn [db recordSlackAlert ret world_of outbox].
  intros a Ha. cbn [db slackAlerts set_slackAlerts] in Ha.
  apply in_app_or in Ha. destruct Ha as [Ha|[<-|[]]].
  - specialize (H1 a Ha). destruct H1 as [Hst Hmsg]. split; [exact Hst | exact Hmsg].
  - split; cbn [alert transactionId alertType db transactions set_slackAlerts outbox].
    + exists transaction. split; [exact Hin | reflexivity].
    + subst message. do 4 eexists.
      split; [apply in_or_app; right; now left | reflexivity].
Qed.

Lemma backed_processTransaction (form4Data : Form4Data) (txInfo : TransactionInfo)
    (issuer insider : uuid) :
  keeps alerts_backed
        (processTransaction webhookUrl slack numeric form4Data txInfo issuer insider).
Proof.
  unfold processTransaction.
  apply keeps_bind; [apply keeps_query | intros input].
  repeat (apply keeps_bind; [apply keeps_to_decimal | intros ?]).
  intros w H. unfold bind at 1, mutate.
  match goal with
  | |- context [upsertTransaction (db w) ?data] =>
      pose proof (extends_upsertTransaction w data) as Hext;
      pose proof (upsertTransaction_tables (db w) data) as (_ & _ & Hsame);
      pose proof (upsert_rows (db w) data) as (Hin & _);
      destruct (upsertTransaction (db w) data) as [transaction d']
  end.
  cbn [fst snd] in *.
  assert (H1 : alerts_backed {| db := d'; outbox := outbox w |})
    by (apply (alerts_backed_extends Hext); [exact Hsame | exact H]).
  destruct (Scoring.shouldTriggerUrgentAlert _ _); [|exact H1].
  apply backed_postUrgentAlert; [exact H1 | exact Hin].
Qed.

Lemma backed_process (feed : string + list Filing) :
  keeps alerts_backed (process webhookUrl slack numeric feed).
Proof.
  unfold process. destruct feed as [e|filings]; [apply keeps_ret|].
  generalize {| filingsProcessed := 0; transactionsCreated := 0;
                transactionsUpdated := 0; urgentAlertsPosted := 0; errors := [] |}.
  induction filings as [|f rest IH]; intros stats; simpl.
  - apply keeps_ret.
  - apply keeps_bind; [|intros stats'; apply IH].
    apply keeps_try_catch; [|intros e; apply keeps_ret].
    apply keeps_bind; [|intros _; apply keeps_ret].
    unfold processSingleFiling. destruct (fetched f) as [e|form4Data].
    + apply keeps_throw.
    + apply keeps_bind.
      { intros w H. unfold mutate.
        match goal with
        | |- context [upsertIssuer (db w) ?c ?t ?n] =>
            pose proof (extends_upsertIssuer w c t n) as Hext;
            pose proof (upsertIssuer_alerts (db w) c t n) as Hsame;
            destruct (upsertIssuer (db w) c t n) as [? ?]
        end.
        exact (alerts_backed_extends Hext Hsame H). }
      intros issuer. apply keeps_bind.
      { intros w H. unfold mutate.
        match goal with
        | |- context [upsertInsider (db w) ?i ?n ?t] =>
            pose proof (extends_upsertInsider w i n t) as Hext;
            pose proof (upsertInsider_alerts (db w) i n t) as Hsame;
            destruct (upsertInsider (db w) i n t) as [? ?]
        end.
        exact (alerts_backed_extends Hext Hsame H). }
      intros ins. apply keeps_for_each. intros txInfo.
      apply backed_processTransaction.
Qed.

Lemma backed_generateDigest (day : date) :
  keeps alerts_backed (generateDigest webhookUrl slack day).
Proof.
  intros w H.
  destruct (generateDigest_spec day w) as (stats & w' & Hrun & _ & _ & _ & Htx & Hcase).
  rewrite Hrun. cbn [world_of].
  destruct (joined (db w) (getDailyTransactionsByDate (db w) day)) as [|t0 rest] eqn:Ej.
  - destruct Hcase as [-> _]. exact H.
  - destruct Hcase as (_ & _ & Hcase).
    destruct (JsString.truthy (Some webhookUrl)); [|destruct Hcase as [-> _]; exact H].
    destruct Hcase as (message & _ & Hout & _ & Hcase).
    assert (Hold : forall a, backed w a -> backed w' a).
    { intros a [(r & Hr & Hid) Hmsg]. split.
      - exists r. split; [now rewrite Htx | exact Hid].
      - destruct (alertType (alert a)).
        + destruct Hmsg as (t & i & n & h & Hin & Ht). exists t, i, n, h.
          split; [rewrite Hout; apply in_or_app; now left | exact Ht].
        + destruct Hmsg as (m & Hin). exists m. rewrite Hout.
          apply in_or_app. now left. }
    destruct (ok (slack (length (outbox w)))).
    + destruct Hcase as (added & Ha & Hmap). intros a Hin. rewrite Ha in Hin.
      apply in_app_or in Hin. destruct Hin as [Hin|Hin]; [exact (Hold a (H a Hin))|].
      assert (Hal : In (alert a) (map alert added)) by now apply in_map.
      rewrite Hmap in Hal. apply in_map_iff in Hal. destruct Hal as (j & Hj & Hjin).
      rewrite <- Ej in Hjin. apply joined_in in Hjin.
      apply getDailyTransactionsByDate_In in Hjin.
      split.
      * exists (Digest.tx j). rewrite Htx, <- Hj. split; [apply Hjin | reflexivity].
      * rewrite <- Hj. cbn [digest_alert alertType]. exists message.
        rewrite Hout. apply in_or_app. right. now left.
    + destruct Hcase as [Ha _]. intros a Hin. rewrite Ha in Hin.
      exact (Hold a (H a Hin)).
Qed.

(** X15. In every state the two jobs can reach from the empty store, each
    alert record refers to a stored transaction and is backed by a message
    handed to Slack: an urgent alert by an urgent message about that same
    transaction, a digest alert by a digest. *)
Theorem X15_alert_records_are_backed :
  forall w : World,
    reachable webhookUrl slack numeric w ->
    forall a, In a (slackAlerts (db w)) ->
      (exists r, In r (transactions (db w)) /\ id r = transactionId (alert a)) /\
      match alertType (alert a) with
      | urgent =>
          exists t i n h,
            In (UrgentAlert t i n h) (outbox w) /\ id t = transactionId (alert a)
      | digest => exists m, In (DailyDigest m) (outbox w)
      end.
Proof.
  intros w Hw. change (alerts_backed w).
  induction Hw as [|w w' Hreach IH Hrun].
  - intros a [].
  - destruct Hrun as [feed w|day w].
    + now apply backed_process.
    + now apply backed_generateDigest.
Qed.

(** ** What one transaction can make the processor say *)


End JobFacts.

(** X11 after one run over the sample feed. *)
Lemma X11_reachable_states_keep_the_dedupe_constraint_witness :
  Store.dedupe_ok
    (Store.transactions
       (Pipeline.db
          (Pipeline.world_of
             (Pipeline.process "https://hooks.example" always_ok
                (fun _ _ => Some (Store.Dec 0)) sample_feed
                {| Pipeline.db := Store.empty_db; Pipeline.outbox := [] |})))).
Proof.
  apply (@X11_reachable_states_keep_the_dedupe_constraint
           "https://hooks.example" always_ok (fun _ _ => Some (Store.Dec 0))).
  eapply Pipeline.reachable_run; [apply Pipeline.reachable_start|].
  apply Pipeline.run_process.
Defined.

(** A sale worth 300000, urgent whatever its score. *)
Definition large_sale : Pipeline.TransactionInfo :=
  {| Pipeline.tx_transactionDate := 19814%Z; Pipeline.tx_transactionCode := "S";
     Pipeline.tx_shares := JsNumber.Fin 6000;
     Pipeline.tx_pricePerShare := JsNumber.Fin 50;
     Pipeline.tx_transactionValue := JsNumber.Fin 300000;
     Pipeline.tx_postTransactionShares := JsNumber.Fin 4000;
     Pipeline.tx_isDirectOwnership := true; Pipeline.tx_is10b51 := false |}.

Definition large_feed : string + list Pipeline.Filing :=
  inr [ {| Pipeline.filing_accession := "0001234567-24-000007";
           Pipeline.fetched :=
             inr {| Pipeline.accessionNumber := "0001234567-24-000007";
                    Pipeline.form_issuer := Pipeline.form_issuer sample_form;
                    Pipeline.form_insider := Pipeline.form_insider sample_form;
                    Pipeline.form_transactions := [large_sale] |} |} ].

Lemma large_value_is_urgent (s : JsNumber.number) :
  Scoring.shouldTriggerUrgentAlert s (JsNumber.Fin 300000) = true.
Proof.
  unfold Scoring.shouldTriggerUrgentAlert. apply orb_true_iff. right.
  unfold JsNumber.ge. destruct (Rle_dec 250000 300000) as [H|H];
    [reflexivity | exfalso; apply H; lra].
Qed.

Lemma large_feed_alert :
  exists a,
    Store.slackAlerts
      (Pipeline.db
         (Pipeline.world_of
            (Pipeline.process "https://hooks.example" always_ok
               (fun _ _ => Some (Store.Dec 0)) large_feed
               {| Pipeline.db := Store.empty_db; Pipeline.outbox := [] |}))) = [a].
Proof.
  unfold Pipeline.process, large_feed, Pipeline.process_filings.
  unfold Pipeline.bind at 1. unfold Pipeline.try_catch. unfold Pipeline.bind at 1.
  unfold Pipeline.processSingleFiling. cbn [Pipeline.fetched].
  unfold Pipeline.bind at 1. unfold Pipeline.mutate at 1. cbn [Pipeline.db].
  cbn -[Pipeline.processTransaction].
  unfold Pipeline.processTransaction. unfold Pipeline.bind at 1, Pipeline.query.
  unfold Pipeline.to_decimal, Pipeline.bind, Pipeline.ret, Pipeline.mutate.
  cbn [Pipeline.db Pipeline.tx_transactionValue large_sale].
  rewrite large_value_is_urgent.
  eexists. vm_compute. reflexivity.
Qed.

(** The feed of the large sale processed twice: the first run posts the
    urgent alert of transaction 2 and records it, the second finds the
    record and posts nothing. *)
Lemma large_feed_twice :
  Store.hasSlackAlertForTransaction
    (Pipeline.db
       (Pipeline.world_of
          (Pipeline.process "https://hooks.example" always_ok
             (fun _ _ => Some (Store.Dec 0)) large_feed
             {| Pipeline.db := Store.empty_db; Pipeline.outbox := [] |})))
    2%nat Store.urgent = true /\
  length
    (Pipeline.outbox
       (Pipeline.world_of
          (Pipeline.process "https://hooks.example" always_ok
             (fun _ _ => Some (Store.Dec 0)) large_feed
             {| Pipeline.db := Store.empty_db; Pipeline.outbox := [] |}))) = 1%nat /\
  Store.count_alerts 2%nat Store.urgent
    (Pipeline.db
       (Pipeline.world_of
          (Pipeline.process "https://hooks.example" always_ok
             (fun _ _ => Some (Store.Dec 0)) large_feed
             (Pipeline.world_of
                (Pipeline.process "https://hooks.example" always_ok
                   (fun _ _ => Some (Store.Dec 0)) large_feed
                   {| Pipeline.db := Store.empty_db; Pipeline.outbox := [] |})))))
  = 1%nat /\
  length
    (Pipeline.outbox
       (Pipeline.world_of
          (Pipeline.process "https://hooks.example" always_ok
             (fun _ _ => Some (Store.Dec 0)) large_feed
             (Pipeline.world_of
                (Pipeline.process "https://hooks.example" always_ok
                   (fun _ _ => Some (Store.Dec 0)) large_feed
                   {| Pipeline.db := Store.empty_db; Pipeline.outbox := [] |})))))
  = 1%nat.
Proof.
  cbv -[Scoring.shouldTriggerUrgentAlert Scoring.calculateSignalScore
        Scoring.calculateHoldingsDelta IZR INR Rdiv].
  rewrite !large_value_is_urgent.
  cbv -[Scoring.shouldTriggerUrgentAlert Scoring.calculateSignalScore
        Scoring.calculateHoldingsDelta IZR INR Rdiv].
  rewrite ?large_value_is_urgent.
  cbv -[Scoring.shouldTriggerUrgentAlert Scoring.calculateSignalScore
        Scoring.calculateHoldingsDelta IZR INR Rdiv].
  repeat split.
Qed.

(** C4 on the feed of the large sale processed twice.  After the first run
    transaction 2 has its urgent alert and one message has been posted, so
    [postUrgentAlert] returns at once for it; after the second run it still
    has exactly one urgent alert and no second message has been posted. *)
Lemma C4_at_most_one_urgent_alert_witness :
  let numeric := fun (_ : nat) (_ : JsNumber.number) => Some (Store.Dec 0) in
  let start := {| Pipeline.db := Store.empty_db; Pipeline.outbox := [] |} in
  let w1 := Pipeline.world_of
              (Pipeline.process "https://hooks.example" always_ok numeric
                 large_feed start) in
  let w2 := Pipeline.world_of
              (Pipeline.process "https://hooks.example" always_ok numeric
                 large_feed w1) in
  Store.hasSlackAlertForTransaction (Pipeline.db w1) 2%nat Store.urgent = true
  /\ length (Pipeline.outbox w1) = 1%nat
  /\ (forall transaction form4Data insider,
        Store.id transaction = 2%nat ->
        Pipeline.postUrgentAlert "https://hooks.example" always_ok
          transaction form4Data insider w1 = Pipeline.Returned tt w1)
  /\ Store.count_alerts 2%nat Store.urgent (Pipeline.db w2) = 1%nat
  /\ length (Pipeline.outbox w2) = 1%nat.
Proof.
  cbv zeta. destruct large_feed_twice as (Hhas & Hout1 & Hcount & Hout2).
  pose proof (C4_at_most_one_urgent_alert "https://hooks.example" always_ok
                (fun _ _ => Some (Store.Dec 0))) as (Hmost & Hskip & _).
  split; [exact Hhas|]. split; [exact Hout1|]. split; [|split; [|exact Hout2]].
  - intros transaction form4Data insider Hid. apply Hskip.
    rewrite Hid. exact Hhas.
  - apply Nat.le_antisymm; [|rewrite Hcount; apply le_n].
    apply Hmost.
    eapply Pipeline.reachable_run; [|apply Pipeline.run_process].
    eapply Pipeline.reachable_run; [|apply Pipeline.run_process].
    apply Pipeline.reachable_start.
Defined.

(** X15 after the large sale has been processed: its urgent alert is on
    record, for a stored transaction and behind a posted message. *)
Lemma X15_alert_records_are_backed_witness :
  exists a,
    In a (Store.slackAlerts
            (Pipeline.db
               (Pipeline.world_of
                  (Pipeline.process "https://hooks.example" always_ok
                     (fun _ _ => Some (Store.Dec 0)) large_feed
                     {| Pipeline.db := Store.empty_db; Pipeline.outbox := [] |})))) /\
    exists r,
      In r (Store.transactions
              (Pipeline.db
                 (Pipeline.world_of
                    (Pipeline.process "https://hooks.example" always_ok
                       (fun _ _ => Some (Store.Dec 0)) large_feed
                       {| Pipeline.db := Store.empty_db; Pipeline.outbox := [] |})))) /\
      Store.id r = Store.transactionId (Store.alert a).
Proof.
  destruct large_feed_alert as [a Ha]. exists a.
  assert (Hin : In a (Store.slackAlerts
            (Pipeline.db
               (Pipeline.world_of
                  (Pipeline.process "https://hooks.example" always_ok
                     (fun _ _ => Some (Store.Dec 0)) large_feed
                     {| Pipeline.db := Store.empty_db; Pipeline.outbox := [] |})))))
    by (rewrite Ha; now left).
  split; [exact Hin|].
  apply (@X15_alert_records_are_backed
           "https://hooks.example" always_ok (fun _ _ => Some (Store.Dec 0)) _
           (Pipeline.reachable_run (Pipeline.reachable_start _ _ _)
              (Pipeline.run_process _ _ _ large_feed _)) a Hin).
Defined.

(* ================================================================== *)
(** * Further properties: the CIK, stripped and padded *)
(* ================================================================== *)

Section CikFacts.

Import RegExp Pattern Parser Edgar.
Local Open Scope string_scope.
Local Open Scope nat_scope.

Fixpoint leading_zeros (s : string) : nat :=
  match s with
  | String c s' => if Ascii.eqb "0" c then S (leading_zeros s') else 0
  | EmptyString => 0
  end.

Lemma zeros_loop (m1 : MatchState -> Continuation -> option MatchState)
    (c : Continuation) :
  (forall x k, m1 x k = match rest x with
                        | String ch s' =>
                            if Ascii.eqb "0" ch then k (advance x s') else None
                        | EmptyString => None
                        end) ->
  (forall y, c y = Some y) ->
  forall (s : string) (fuel idx : nat),
    String.length s < fuel ->
    repeat_loop m1 [] true c fuel 0 None
                {| endIndex := idx; rest := s; captures := [] |}
    = Some {| endIndex := idx + leading_zeros s;
              rest := drop (leading_zeros s) s; captures := [] |}.
Proof.
  intros Hm1 Hc. induction s as [|ch s IH]; intros fuel idx Hfuel;
    (destruct fuel as [|fuel]; [simpl in Hfuel; lia|]).
  - cbn [repeat_loop Nat.eqb negb andb]. rewrite Hm1.
    unfold clear_captures. cbn [rest captures filter leading_zeros drop].
    rewrite Hc, Nat.add_0_r. reflexivity.
  - cbn [repeat_loop Nat.eqb negb andb]. rewrite Hm1.
    unfold clear_captures, advance.
    cbn [rest captures filter leading_zeros endIndex].
    destruct (Ascii.eqb "0" ch).
    + cbn [drop].
      replace (S idx =? idx) with false by (symmetry; apply Nat.eqb_neq; lia).
      cbn [pred option_map]. rewrite IH by (simpl in Hfuel; lia).
      now rewrite Nat.add_succ_r.
    + cbn [drop]. rewrite Hc, Nat.add_0_r. reflexivity.
Qed.

Lemma zeros_loop1 (m1 : MatchState -> Continuation -> option MatchState)
    (c : Continuation) :
  (forall x k, m1 x k = match rest x with
                        | String ch s' =>
                            if Ascii.eqb "0" ch then k (advance x s') else None
                        | EmptyString => None
                        end) ->
  (forall y, c y = Some y) ->
  forall (s : string) (fuel idx : nat),
    String.length s <= fuel ->
    repeat_loop m1 [] true c (S fuel) 1 None
                {| endIndex := idx; rest := s; captures := [] |}
    = if 0 <? leading_zeros s
      then Some {| endIndex := idx + leading_zeros s;
                   rest := drop (leading_zeros s) s; captures := [] |}
      else None.
Proof.
  intros Hm1 Hc s fuel idx Hfuel.
  cbn [repeat_loop Nat.eqb negb andb]. rewrite Hm1.
  unfold clear_captures, advance. cbn [rest captures filter endIndex].
  destruct s as [|ch s]; [reflexivity|]. cbn [leading_zeros].
  destruct (Ascii.eqb "0" ch); [|reflexivity].
  cbn [pred option_map Nat.ltb Nat.leb drop].
  rewrite (@zeros_loop m1 c Hm1 Hc) by (simpl in Hfuel; lia).
  now rewrite Nat.add_succ_r.
Qed.

Lemma matcher_zeros (s : string) (idx : nat) :
  matcher false (Seq (Repeat (Char "0") 1 None true) Empty)
          {| endIndex := idx; rest := s; captures := [] |} (fun y => Some y)
  = if 0 <? leading_zeros s
    then Some {| endIndex := idx + leading_zeros s;
                 rest := drop (leading_zeros s) s; captures := [] |}
    else None.
Proof.
  change (matcher false (Seq (Repeat (Char "0") 1 None true) Empty)
            {| endIndex := idx; rest := s; captures := [] |} (fun y => Some y))
    with (repeat_loop (matcher false (Char "0")) [] true (fun y => Some y)
            (S (1 + String.length s)) 1 None
            {| endIndex := idx; rest := s; captures := [] |}).
  apply zeros_loop1; [intros x k; reflexivity | intros y; reflexivity | lia].
Qed.

Lemma exec_from_unfold (ignoreCase : bool) (r : Regex) (from : nat) (s : string) :
  exec_from ignoreCase r from s =
  match matcher ignoreCase r {| endIndex := from; rest := s; captures := [] |}
                (fun y => Some y) with
  | Some y => Some {| index := from; lastIndex := endIndex y; groups := captures y |}
  | None =>
      match s with
      | EmptyString => None
      | String _ s' => exec_from ignoreCase r (S from) s'
      end
  end.
Proof. destruct s; reflexivity. Qed.

Lemma exec_from_bol (r : Regex) (s : string) (from : nat) :
  exec_from false (Seq Bol r) (S from) s = None.
Proof.
  revert from. induction s as [|ch s IH]; intros from;
    cbn [exec_from matcher endIndex Nat.eqb].
  - reflexivity.
  - apply IH.
Qed.

Lemma strip_leading_zeros_drop (s : string) :
  strip_leading_zeros s = drop (leading_zeros s) s.
Proof.
  unfold strip_leading_zeros, exec.
  change (literal "^0+") with (Seq Bol (Seq (Repeat (Char "0") 1 None true) Empty)).
  rewrite exec_from_unfold.
  change (matcher false (Seq Bol (Seq (Repeat (Char "0") 1 None true) Empty))
            {| endIndex := 0; rest := s; captures := [] |} (fun y => Some y))
    with (matcher false (Seq (Repeat (Char "0") 1 None true) Empty)
            {| endIndex := 0; rest := s; captures := [] |} (fun y => Some y)).
  rewrite matcher_zeros.
  destruct (leading_zeros s) as [|k] eqn:E; cbn [Nat.ltb Nat.leb].
  - destruct s as [|ch s]; [reflexivity|]. now rewrite exec_from_bol.
  - cbn [index lastIndex endIndex Nat.add]. destruct s; reflexivity.
Qed.

Lemma drop_zeros (s : string) :
  s = zeros (leading_zeros s) ++ drop (leading_zeros s) s.
Proof.
  induction s as [|ch s IH]; [reflexivity|]. cbn [leading_zeros].
  destruct (Ascii.eqb_spec "0"%char ch) as [<-|Hne]; [|reflexivity].
  cbn [zeros drop append]. now rewrite <- IH.
Qed.

Lemma drop_leading_zeros_head (s t : string) :
  drop (leading_zeros s) s <> String "0" t.
Proof.
  induction s as [|ch s IH]; [discriminate|]. cbn [leading_zeros].
  destruct (Ascii.eqb_spec "0"%char ch) as [<-|Hne]; cbn [drop]; [exact IH|].
  intros H. injection H as H _. congruence.
Qed.

Lemma length_append (s t : string) :
  String.length (s ++ t) = String.length s + String.length t.
Proof. induction s as [|c s IH]; simpl; [reflexivity | now rewrite IH]. Qed.

Lemma append_assoc (s t u : string) : (s ++ t) ++ u = s ++ t ++ u.
Proof. induction s as [|c s IH]; simpl; [reflexivity | now rewrite IH]. Qed.

Lemma zeros_add (a b : nat) : zeros (a + b) = zeros a ++ zeros b.
Proof. induction a as [|a IH]; simpl; [reflexivity | now rewrite IH]. Qed.

Lemma length_zeros (n : nat) : String.length (zeros n) = n.
Proof. induction n as [|n IH]; simpl; [reflexivity | now rewrite IH]. Qed.

(** X17. [parseIssuer] stores the CIK without its leading zeros and the
    links to SEC pad it back: what is stripped is a run of zeros, all of
    them, so that a CIK of zeros only becomes the empty string, and for a
    CIK of at most ten characters padding the stripped form to ten gives
    what padding the original gives; a ten-digit CIK is recovered. *)
Theorem X17_cik_strip_and_pad :
  forall s : string,
    (exists k, s = zeros k ++ strip_leading_zeros s) /\
    (forall t, strip_leading_zeros s <> String "0" t) /\
    (String.length s <= 10 -> cikPadded (strip_leading_zeros s) = cikPadded s) /\
    (String.length s = 10 -> cikPadded (strip_leading_zeros s) = s).
Proof.
  intros s. rewrite strip_leading_zeros_drop.
  split; [exists (leading_zeros s); apply drop_zeros|].
  split; [intros t; apply drop_leading_zeros_head|].
  assert (Hpad : String.length s <= 10 ->
                 cikPadded (drop (leading_zeros s) s) = cikPadded s).
  { intros Hlen. unfold cikPadded, padStart0.
    pose proof (drop_zeros s) as Hs.
    set (k := leading_zeros s) in *. set (t := drop k s) in *.
    assert (Hl : String.length s = k + String.length t)
      by (rewrite Hs at 1; now rewrite length_append, length_zeros).
    rewrite Hs at 2. rewrite <- append_assoc, <- zeros_add.
    f_equal. f_equal. lia. }
  split; [exact Hpad|].
  intros Hlen. rewrite Hpad by lia. unfold cikPadded, padStart0.
  rewrite Hlen. reflexivity.
Qed.

End CikFacts.

(* ================================================================== *)
(** * Further properties: what the parser can throw *)
(* ================================================================== *)

Section GroupFacts.

Import RegExp.
Local Open Scope nat_scope.

(** ** States a match hands to its continuation *)

Section Reach.

Variable R : MatchState -> MatchState -> Prop.
Variable allowed : nat -> bool.

Hypothesis R_refl : forall x, R x x.
Hypothesis R_trans : forall x y z, R x y -> R y z -> R x z.
Hypothesis R_advance :
  forall x ch s', rest x = String ch s' -> R x (advance x s').
Hypothesis R_set : forall j x y, allowed j = true -> R x y -> R x (set_capture j x y).
Hypothesis R_clear : forall inner x,
  forallb allowed inner = true -> R x (clear_captures inner x).

Definition reaches (m : MatchState -> Continuation -> option MatchState) : Prop :=
  forall x c z, m x c = Some z -> exists y, R x y /\ c y = Some z.

Lemma repeat_loop_reaches m1 (inner : list nat) (greedy : bool) :
  forallb allowed inner = true -> reaches m1 ->
  forall fuel min max x c z,
    repeat_loop m1 inner greedy c fuel min max x = Some z ->
    exists y, R x y /\ c y = Some z.
Proof.
  intros Hinner Hm1. induction fuel as [|fuel IH]; intros min max x c z H.
  - simpl in H. destruct max as [[|k]|]; [|discriminate|discriminate].
    exists x. auto.
  - assert (Hstep : forall d,
               d = (fun y => if (min =? 0) && (endIndex y =? endIndex x) then None
                             else repeat_loop m1 inner greedy c fuel (pred min)
                                              (option_map pred max) y) ->
               m1 (clear_captures inner x) d = Some z ->
               exists y, R x y /\ c y = Some z).
    { intros d -> Hm. destruct (Hm1 _ _ _ Hm) as (y & Hy & Hd).
      destruct ((min =? 0) && (endIndex y =? endIndex x)); [discriminate|].
      destruct (IH _ _ _ _ _ Hd) as (y' & Hy' & Hc).
      exists y'. split; [|exact Hc].
      eapply R_trans; [apply (R_clear _ x Hinner)|].
      eapply R_trans; eassumption. }
    cbn [repeat_loop] in H.
    assert (Hhere : c x = Some z -> exists y, R x y /\ c y = Some z)
      by (intros Hc; exists x; auto).
    destruct max as [[|k]|].
    + now apply Hhere.
    + destruct (negb (min =? 0)); [now apply (Hstep _ eq_refl)|].
      destruct greedy.
      * destruct (m1 _ _) as [z'|] eqn:Em; [|now apply Hhere].
        injection H as <-. now apply (Hstep _ eq_refl).
      * destruct (c x) as [z'|] eqn:Ec; [now apply Hhere | now apply (Hstep _ eq_refl)].
    + destruct (negb (min =? 0)); [now apply (Hstep _ eq_refl)|].
      destruct greedy.
      * destruct (m1 _ _) as [z'|] eqn:Em; [|now apply Hhere].
        injection H as <-. now apply (Hstep _ eq_refl).
      * destruct (c x) as [z'|] eqn:Ec; [now apply Hhere | now apply (Hstep _ eq_refl)].
Qed.

Lemma matcher_reaches (ignoreCase : bool) (r : Regex) :
  forallb allowed (groups_of r) = true -> reaches (matcher ignoreCase r).
Proof.
  induction r as [| a | | negated items | r1 IH1 r2 IH2 | r1 IH1 r2 IH2
                  | r1 IH1 min max greedy | index r1 IH1 | |];
    intros Hall x c z H; cbn [matcher] in H; cbn [groups_of] in Hall.
  - exists x. auto.
  - destruct (rest x) as [|ch s'] eqn:Er; [discriminate|].
    destruct (char_eq ignoreCase a ch); [|discriminate]. eauto.
  - destruct (rest x) as [|ch s'] eqn:Er; [discriminate|].
    destruct (is_line_terminator ch); [discriminate|]. eauto.
  - destruct (rest x) as [|ch s'] eqn:Er; [discriminate|].
    destruct (xorb negated (class_mem ignoreCase items ch)); [|discriminate]. eauto.
  - rewrite forallb_app in Hall. apply andb_true_iff in Hall. destruct Hall as [H1 H2].
    destruct (IH1 H1 _ _ _ H) as (y & Hy & Hr2).
    destruct (IH2 H2 _ _ _ Hr2) as (y' & Hy' & Hc).
    exists y'. split; [eapply R_trans; eassumption | exact Hc].
  - rewrite forallb_app in Hall. apply andb_true_iff in Hall. destruct Hall as [H1 H2].
    destruct (matcher ignoreCase r1 x c) as [z'|] eqn:E1.
    + injection H as <-. now apply (IH1 H1).
    + now apply (IH2 H2).
  - eapply repeat_loop_reaches; [exact Hall | exact (IH1 Hall) | exact H].
  - cbn [forallb] in Hall. apply andb_true_iff in Hall. destruct Hall as [Hj H1].
    destruct (IH1 H1 _ _ _ H) as (y & Hy & Hc).
    exists (set_capture index x y). split; [now apply R_set | exact Hc].
  - destruct (endIndex x =? 0); [|discriminate]. exists x. auto.
  - destruct (rest x); [|discriminate]. exists x. auto.
Qed.

End Reach.

(** A successful match has entered its continuation. *)
Lemma matcher_called (ignoreCase : bool) (r : Regex) (x : MatchState)
    (c : Continuation) (z : MatchState) :
  matcher ignoreCase r x c = Some z -> exists y, c y = Some z.
Proof.
  intros H.
  destruct (@matcher_reaches (fun _ _ => True) (fun _ => true)
              (fun _ => I) (fun _ _ _ _ _ => I) (fun _ _ _ _ => I)
              (fun _ _ _ _ _ => I) (fun _ _ _ => I) ignoreCase r
              (proj2 (forallb_forall _ _) (fun _ _ => eq_refl)) x c z H)
    as (y & _ & Hc).
  now exists y.
Qed.

(** ** Captures a pattern leaves alone, and captures it always makes *)

Definition mentions (i : nat) (r : Regex) : bool :=
  existsb (Nat.eqb i) (groups_of r).

Fixpoint sets (i : nat) (r : Regex) : bool :=
  match r with
  | Group j r1 => (j =? i) || sets i r1
  | Seq r1 r2 => (sets i r1 && negb (mentions i r2)) || sets i r2
  | Alt r1 r2 => sets i r1 && sets i r2
  | _ => false
  end.

Lemma capture_filter (i : nat) (f : nat * string -> bool) (caps : list (nat * string)) :
  (forall s, f (i, s) = true) ->
  capture i (filter f caps) = capture i caps.
Proof.
  intros Hf. induction caps as [|[j s] caps IH]; [reflexivity|].
  cbn [filter capture]. destruct (Nat.eqb_spec j i) as [->|Hne].
  - rewrite Hf. cbn [capture]. now rewrite Nat.eqb_refl.
  - destruct (f (j, s)); [|exact IH]. cbn [capture].
    replace (j =? i) with false by (symmetry; now apply Nat.eqb_neq). exact IH.
Qed.

Lemma not_mentioned (i : nat) (l : list nat) :
  existsb (Nat.eqb i) l = false -> forallb (fun j => negb (j =? i)) l = true.
Proof.
  induction l as [|j l IH]; [reflexivity|]. cbn [existsb forallb].
  intros H. apply orb_false_iff in H. destruct H as [Hj Hl].
  rewrite (Nat.eqb_sym j i), Hj. now apply IH.
Qed.

Lemma matcher_leaves (i : nat) (ignoreCase : bool) (r : Regex) (x : MatchState)
    (c : Continuation) (z : MatchState) :
  mentions i r = false ->
  matcher ignoreCase r x c = Some z ->
  exists y, capture i (captures y) = capture i (captures x) /\ c y = Some z.
Proof.
  intros Hm H.
  apply (@matcher_reaches
           (fun x y => capture i (captures y) = capture i (captures x))
           (fun j => negb (j =? i))) with (ignoreCase := ignoreCase) (r := r).
  - reflexivity.
  - intros a b d Hab Hbd. congruence.
  - reflexivity.
  - intros j a b Hj Hab. cbn [set_capture captures capture].
    apply negb_true_iff in Hj. rewrite Hj.
    rewrite capture_filter; [exact Hab|].
    intros s. cbn [fst]. rewrite Nat.eqb_sym. now rewrite Hj.
  - intros inner a Hinner. cbn [clear_captures captures].
    apply capture_filter. intros s. cbn [fst]. apply negb_true_iff.
    destruct (existsb (Nat.eqb i) inner) eqn:E; [|reflexivity].
    apply existsb_exists in E. destruct E as (j & Hj & Hij).
    apply Nat.eqb_eq in Hij. subst j.
    rewrite forallb_forall in Hinner. specialize (Hinner i Hj).
    now rewrite Nat.eqb_refl in Hinner.
  - now apply not_mentioned.
  - exact H.
Qed.

Lemma matcher_sets (i : nat) (ignoreCase : bool) (r : Regex) :
  sets i r = true ->
  forall x c z,
    matcher ignoreCase r x c = Some z ->
    exists y, capture i (captures y) <> None /\ c y = Some z.
Proof.
  induction r as [| a | | negated items | r1 IH1 r2 IH2 | r1 IH1 r2 IH2
                  | r1 IH1 min max greedy | index r1 IH1 | |];
    intros Hs x c z H; cbn [sets] in Hs; try discriminate; cbn [matcher] in H.
  - apply orb_true_iff in Hs. destruct Hs as [Hs|Hs].
    + apply andb_true_iff in Hs. destruct Hs as [H1 H2].
      apply negb_true_iff in H2.
      destruct (IH1 H1 _ _ _ H) as (y & Hy & Hr2).
      destruct (@matcher_leaves i ignoreCase r2 y c z H2 Hr2) as (y' & Hy' & Hc).
      exists y'. split; [congruence | exact Hc].
    + destruct (@matcher_called ignoreCase r1 x _ z H) as (y & Hr2).
      now apply (IH2 Hs) in Hr2.
  - apply andb_true_iff in Hs. destruct Hs as [H1 H2].
    destruct (matcher ignoreCase r1 x c) as [z'|] eqn:E1.
    + injection H as <-. now apply (IH1 H1) in E1.
    + now apply (IH2 H2) in H.
  - destruct (Nat.eqb_spec index i) as [->|Hne].
    + destruct (@matcher_called ignoreCase r1 x _ z H) as (y & Hc).
      exists (set_capture i x y). split; [|exact Hc].
      cbn [set_capture captures capture]. now rewrite Nat.eqb_refl.
    + cbn [orb] in Hs. destruct (IH1 Hs _ _ _ H) as (y & Hy & Hc).
      exists (set_capture index x y). split; [|exact Hc].
      cbn [set_capture captures capture].
      replace (index =? i) with false by (symmetry; now apply Nat.eqb_neq).
      rewrite capture_filter; [exact Hy|].
      intros s. cbn [fst]. apply negb_true_iff. apply Nat.eqb_neq. congruence.
Qed.

Lemma exec_from_sets (i : nat) (ignoreCase : bool) (r : Regex) (s : string)
    (from : nat) (res : MatchResult) :
  sets i r = true ->
  exec_from ignoreCase r from s = Some res ->
  exists g, capture i (groups res) = Some g.
Proof.
  intros Hs. revert from. induction s as [|ch s IH]; intros from H;
    cbn [exec_from] in H.
  - destruct (matcher _ _ _ _) as [y|] eqn:E; [|discriminate].
    injection H as <-. cbn [groups].
    destruct (@matcher_sets i ignoreCase r Hs _ _ _ E) as (y' & Hy' & Hc). injection Hc as <-.
    destruct (capture i (captures y')) as [g|]; [now exists g | contradiction].
  - destruct (matcher _ _ _ _) as [y|] eqn:E.
    + injection H as <-. cbn [groups].
      destruct (@matcher_sets i ignoreCase r Hs _ _ _ E) as (y' & Hy' & Hc). injection Hc as <-.
      destruct (capture i (captures y')) as [g|]; [now exists g | contradiction].
    + now apply IH in H.
Qed.

Lemma matchAll_from_sets (i : nat) (ignoreCase : bool) (r : Regex) :
  sets i r = true ->
  forall fuel from s res,
    In res (matchAll_from fuel ignoreCase r from s) ->
    exists g, capture i (groups res) = Some g.
Proof.
  intros Hs. induction fuel as [|fuel IH]; intros from s res H; [destruct H|].
  cbn [matchAll_from] in H.
  destruct (exec_from ignoreCase r from s) as [res0|] eqn:E; [|destruct H].
  destruct H as [<-|H]; [exact (@exec_from_sets i ignoreCase r s from res0 Hs E)|].
  match type of H with
  | In _ (if ?b then _ else _) => destruct b; [destruct H | now apply IH in H]
  end.
Qed.

End GroupFacts.

Section SubjectFacts.

Import JsString RegExp.
Local Open Scope string_scope.
Local Open Scope nat_scope.

(** ** Captured text is text of the subject *)

Lemma take_drop (n : nat) (s : string) : s = take n s ++ drop n s.
Proof.
  revert s. induction n as [|n IH]; intros s; [reflexivity|].
  destruct s as [|ch s]; [reflexivity|]. cbn [take drop append]. now rewrite <- IH.
Qed.

Lemma append_assoc3 (a b c : string) : (a ++ b) ++ c = a ++ b ++ c.
Proof. induction a as [|ch a IH]; [reflexivity|]. cbn [append]. now rewrite IH. Qed.

Lemma occurs_in_trans (a b c : string) :
  occurs_in a b -> occurs_in b c -> occurs_in a c.
Proof.
  intros (p1 & q1 & ->) (p2 & q2 & ->).
  exists (p2 ++ p1), (q1 ++ q2). now rewrite !append_assoc3.
Qed.

Lemma occurs_in_suffix (g pre s : string) :
  occurs_in g s -> occurs_in g (pre ++ s).
Proof.
  intros (p & q & ->). exists (pre ++ p), q. now rewrite append_assoc3.
Qed.

(** The state is at a position of the subject [s0], and what it has
    captured is text of [s0]. *)
Definition inside (s0 : string) (x : MatchState) : Prop :=
  (exists pre, s0 = pre ++ rest x) /\
  forall i g, In (i, g) (captures x) -> occurs_in g s0.

Lemma matcher_inside (s0 : string) (ignoreCase : bool) (r : Regex)
    (x : MatchState) (c : Continuation) (z : MatchState) :
  inside s0 x ->
  matcher ignoreCase r x c = Some z ->
  exists y, inside s0 y /\ c y = Some z.
Proof.
  intros Hx H.
  destruct (@matcher_reaches (fun a b => inside s0 a -> inside s0 b) (fun _ => true))
    with (ignoreCase := ignoreCase) (r := r) (x := x) (c := c) (z := z)
    as (y & Hy & Hc).
  - auto.
  - auto.
  - intros a ch s' Hr [(pre & Hpre) Hcaps]. split; [|exact Hcaps].
    exists (pre ++ String ch EmptyString). cbn [advance rest].
    rewrite append_assoc3. cbn [append]. now rewrite <- Hr.
  - intros j a b _ Hab Ha. destruct (Hab Ha) as [Hb Hcaps].
    split; [exact Hb|]. cbn [set_capture captures].
    intros i g [Hg|Hg].
    + injection Hg as _ <-. destruct Ha as [(pre & ->) _].
      apply occurs_in_suffix.
      exists EmptyString, (drop (endIndex b - endIndex a) (rest a)).
      cbn [append]. apply take_drop.
    + apply filter_In in Hg. now apply (Hcaps i).
  - intros inner a _ [Ha Hcaps]. split; [exact Ha|].
    cbn [clear_captures captures]. intros i g Hg.
    apply filter_In in Hg. now apply (Hcaps i).
  - apply forallb_forall. reflexivity.
  - exact H.
  - exists y. split; [now apply Hy | exact Hc].
Qed.

Lemma capture_In (i : nat) (caps : list (nat * string)) (g : string) :
  capture i caps = Some g -> In (i, g) caps.
Proof.
  induction caps as [|[j s] caps IH]; [discriminate|]. cbn [capture].
  destruct (Nat.eqb_spec j i) as [->|Hne].
  - intros H. injection H as <-. now left.
  - intros H. right. now apply IH.
Qed.

Lemma exec_from_inside (s0 : string) (ignoreCase : bool) (r : Regex) :
  forall (s : string) (from : nat) (res : MatchResult) (i : nat) (g : string),
    (exists pre, s0 = pre ++ s) ->
    exec_from ignoreCase r from s = Some res ->
    capture i (groups res) = Some g -> occurs_in g s0.
Proof.
  assert (Hhere : forall s from y,
             (exists pre, s0 = pre ++ s) ->
             matcher ignoreCase r {| endIndex := from; rest := s; captures := [] |}
                     (fun y => Some y) = Some y ->
             forall i g, capture i (captures y) = Some g -> occurs_in g s0).
  { intros s from y Hs E i g Hg.
    assert (Hin : inside s0 {| endIndex := from; rest := s; captures := [] |})
      by (split; [exact Hs | intros j h []]).
    destruct (@matcher_inside s0 ignoreCase r _ _ _ Hin E)
      as (y' & [_ Hcaps] & Hy').
    injection Hy' as <-. apply (Hcaps i). now apply capture_In. }
  induction s as [|ch s IH]; intros from res i g Hs H Hg; cbn [exec_from] in H.
  - destruct (matcher _ _ _ _) as [y|] eqn:E; [|discriminate].
    injection H as <-. exact (Hhere _ _ _ Hs E i g Hg).
  - destruct (matcher _ _ _ _) as [y|] eqn:E.
    + injection H as <-. exact (Hhere _ _ _ Hs E i g Hg).
    + apply (IH (S from) res i g); [|exact H | exact Hg].
      destruct Hs as (pre & ->). exists (pre ++ String ch EmptyString).
      now rewrite append_assoc3.
Qed.

Lemma matchAll_from_inside (s0 : string) (ignoreCase : bool) (r : Regex) :
  forall (fuel from : nat) (s : string) (m : MatchResult) (i : nat) (g : string),
    (exists pre, s0 = pre ++ s) ->
    In m (matchAll_from fuel ignoreCase r from s) ->
    capture i (groups m) = Some g -> occurs_in g s0.
Proof.
  induction fuel as [|fuel IH]; intros from s m i g Hs H Hg; [destruct H|].
  cbn [matchAll_from] in H.
  destruct (exec_from ignoreCase r from s) as [res|] eqn:E; [|destruct H].
  destruct H as [<-|H]; [exact (@exec_from_inside s0 ignoreCase r s from res i g Hs E Hg)|].
  match type of H with
  | In _ (if ?b then _ else _) => destruct b; [destruct H|]
  end.
  apply (IH _ _ m i g) in H; [exact H | | exact Hg].
  destruct Hs as (pre & ->).
  match goal with
  | |- exists _, _ = _ ++ drop ?n s => exists (pre ++ take n s)
  end.
  rewrite append_assoc3. now rewrite <- take_drop.
Qed.

End SubjectFacts.

Section ParserTotality.

Import JsString RegExp Pattern NumberQ Parser.
Local Open Scope string_scope.

Variable host : string -> string -> HostOutcome.

(** The pattern is one this development reads, and each of its matches
    captures the first group. *)
Definition captures1 (pattern : string) : bool :=
  match compile pattern with
  | Parsed r => sets 1 r
  | _ => false
  end.

Lemma match_group1_captures (pattern xml : string) :
  captures1 pattern = true ->
  match_group1 host pattern xml = Ok None \/
  exists s, match_group1 host pattern xml = Ok (Some (Some s)).
Proof.
  unfold captures1, match_group1. intros H.
  destruct (compile pattern) as [r| |]; try discriminate.
  destruct (exec true r xml) as [res|] eqn:E; [|now left].
  right. destruct (@exec_from_sets 1 true r xml 0 res H E) as [g Hg].
  exists g. now rewrite Hg.
Qed.

Definition total_tag (tag : string) : bool :=
  captures1 ("<" ++ tag ++ "[^>]*>\s*<value>([\s\S]*?)<\/value>\s*</" ++ tag ++ ">")
  && captures1 ("<" ++ tag ++ "[^>]*>([\s\S]*?)</" ++ tag ++ ">").

Lemma extractText_total (tag xml : string) :
  total_tag tag = true -> exists o, extractText host xml tag = Ok o.
Proof.
  unfold total_tag, extractText. intros H. apply andb_true_iff in H.
  destruct H as [H1 H2].
  destruct (match_group1_captures _ xml H1) as [E|[s E]]; rewrite E; cbn [bind defined].
  - destruct (match_group1_captures _ xml H2) as [E'|[s E']]; rewrite E';
      cbn [bind defined]; eauto.
  - eauto.
Qed.

Lemma extractAttribute_total (xml : string) :
  exists o, extractAttribute host xml "footnoteId" = Ok o.
Proof.
  unfold extractAttribute.
  match goal with
  | |- context [match_group1 host ?p xml] =>
      destruct (@match_group1_captures p xml ltac:(vm_compute; reflexivity))
        as [E|[s E]]
  end; rewrite E; cbn [bind defined]; eauto.
Qed.

Tactic Notation "read_tag" constr(tag) constr(xml) ident(o) ident(E) :=
  destruct (@extractText_total tag xml ltac:(vm_compute; reflexivity)) as [o E];
  rewrite E; cbn [bind].

Lemma parseIssuer_total (xml : string) : exists i, parseIssuer host xml = Ok i.
Proof.
  unfold parseIssuer.
  read_tag "issuerCik" xml o1 E1. read_tag "issuerName" xml o2 E2.
  read_tag "issuerTradingSymbol" xml o3 E3. eauto.
Qed.

Lemma parseInsider_total (xml : string) : exists i, parseInsider host xml = Ok i.
Proof.
  unfold parseInsider.
  read_tag "rptOwnerName" xml o1 E1. read_tag "officerTitle" xml o2 E2.
  read_tag "isDirector" xml o3 E3. read_tag "isOfficer" xml o4 E4.
  read_tag "isTenPercentOwner" xml o5 E5. read_tag "isOther" xml o6 E6. eauto.
Qed.

Lemma extractAttribute_inside (xml id : string) :
  extractAttribute host xml "footnoteId" = Ok (Some id) -> occurs_in id xml.
Proof.
  unfold extractAttribute, match_group1.
  match goal with
  | |- context [compile ?p] =>
      destruct (compile p) as [r| |] eqn:Ec;
        [|vm_compute in Ec; discriminate Ec ..]
  end.
  cbn [bind]. destruct (exec true r xml) as [res|] eqn:E; [|discriminate].
  destruct (capture 1 (groups res)) as [g|] eqn:Eg; cbn [defined bind];
    [|discriminate].
  intros H. injection H as <-.
  eapply exec_from_inside; [|exact E | exact Eg]. now exists "".
Qed.

Lemma parseTransactionElement_throws (txXml : string) (e : JsError) :
  parseTransactionElement host txXml = Throw e ->
  exists id,
    extractAttribute host txXml "footnoteId" = Ok (Some id) /\
    occurs_in id txXml /\
    check10b51InFootnotes host txXml (Some id) = Throw e.
Proof.
  unfold parseTransactionElement.
  read_tag "transactionCode" txXml o1 E1.
  destruct (negb (truthy o1) || _); [discriminate|].
  read_tag "transactionDate" txXml o2 E2.
  destruct (negb (truthy o2)); [discriminate|].
  read_tag "transactionShares" txXml o3 E3.
  read_tag "transactionPricePerShare" txXml o4 E4.
  destruct (negb (truthy o3) || negb (truthy o4)); [discriminate|].
  destruct (isNaN _ || isNaN _); [discriminate|].
  read_tag "sharesOwnedFollowingTransaction" txXml o5 E5.
  read_tag "directOrIndirectOwnership" txXml o6 E6.
  destruct (extractAttribute_total txXml) as [fid Ef]. rewrite Ef. cbn [bind].
  destruct (check10b51InFootnotes host txXml fid) as [b|e'] eqn:Ec; cbn [bind];
    [discriminate|].
  intros H. injection H as <-.
  destruct fid as [id|]; [|discriminate Ec].
  exists id. split; [reflexivity|].
  split; [now apply extractAttribute_inside | exact Ec].
Qed.

Lemma parse_each_throws (blocks : list MatchResult) (e : JsError) :
  (forall m, In m blocks -> exists g, capture 1 (groups m) = Some g) ->
  parse_each host blocks = Throw e ->
  exists m txXml id,
    In m blocks /\ capture 1 (groups m) = Some txXml /\
    extractAttribute host txXml "footnoteId" = Ok (Some id) /\
    occurs_in id txXml /\
    check10b51InFootnotes host txXml (Some id) = Throw e.
Proof.
  induction blocks as [|m rest IH]; intros Hcap H; [discriminate|].
  cbn [parse_each] in H.
  destruct (Hcap m (or_introl eq_refl)) as [g Hg]. rewrite Hg in H.
  cbn [defined bind] in H.
  destruct (parseTransactionElement host g) as [t|e'] eqn:Et; cbn [bind] in H.
  - destruct (parse_each host rest) as [ts|e'] eqn:Er; cbn [bind] in H;
      [discriminate|].
    injection H as <-.
    destruct IH as (m' & txXml & id & Hin & Hrest);
      [intros m' Hm'; apply Hcap; now right | reflexivity |].
    exists m', txXml, id. split; [now right | exact Hrest].
  - injection H as <-.
    destruct (parseTransactionElement_throws _ Et) as (id & Hid).
    exists m, g, id. split; [now left|]. split; [exact Hg | exact Hid].
Qed.

Lemma extractTable_throws (table transaction xml : string) (e : JsError) :
  sets 1 (literal ("<" ++ table ++ ">([\s\S]*?)<\/" ++ table ++ ">")) = true ->
  sets 1 (literal ("<" ++ transaction ++ ">([\s\S]*?)<\/" ++ transaction ++ ">")) = true ->
  extractTable host table transaction xml = Throw e ->
  exists res tableXml m txXml id,
    exec true (literal ("<" ++ table ++ ">([\s\S]*?)<\/" ++ table ++ ">")) xml
      = Some res /\
    capture 1 (groups res) = Some tableXml /\
    In m (matchAll true
            (literal ("<" ++ transaction ++ ">([\s\S]*?)<\/" ++ transaction ++ ">"))
            tableXml) /\
    capture 1 (groups m) = Some txXml /\
    occurs_in txXml xml /\
    extractAttribute host txXml "footnoteId" = Ok (Some id) /\
    occurs_in id txXml /\
    check10b51InFootnotes host txXml (Some id) = Throw e.
Proof.
  intros Htable Htx. unfold extractTable.
  destruct (exec true _ xml) as [res|] eqn:E; [|discriminate].
  destruct (@exec_from_sets 1 true _ xml 0 res Htable E) as [g Hg].
  rewrite Hg. cbn [defined bind]. intros H.
  apply parse_each_throws in H;
    [|intros m Hm; exact (@matchAll_from_sets 1 true _ Htx _ _ _ m Hm)].
  destruct H as (m & txXml & id & Hm & Hcap & Hattr & Hid & Hthrow).
  exists res, g, m, txXml, id.
  split; [reflexivity|]. split; [exact Hg|]. split; [exact Hm|].
  split; [exact Hcap|]. split; [|split; [exact Hattr|split; [exact Hid | exact Hthrow]]].
  apply (@occurs_in_trans txXml g xml).
  - unfold matchAll in Hm.
    eapply matchAll_from_inside; [|exact Hm | exact Hcap]. now exists "".
  - eapply exec_from_inside; [|exact E | exact Hg]. now exists "".
Qed.

(** X18. Of what [parse] does, only the footnote lookup can throw:
    [parseIssuer] and [parseInsider] return on every document, and when
    [parse] throws, the exception is the one [check10b51InFootnotes] throws
    for a transaction block of the document and the footnote id read off
    it: the block is text of the document, captured by the transaction
    pattern inside the text the table pattern captured, and the id is text
    of the block, the value of its first [footnoteId] attribute. *)
Theorem X18_parse_throws_only_in_the_footnote_lookup :
  forall (xml accession date : string),
    (exists i, parseIssuer host xml = Ok i) /\
    (exists i, parseInsider host xml = Ok i) /\
    (forall e, parse host xml accession date = Throw e ->
       exists table transaction res tableXml m txXml id,
         ((table, transaction) = ("nonDerivativeTable", "nonDerivativeTransaction") \/
          (table, transaction) = ("derivativeTable", "derivativeTransaction")) /\
         exec true (literal ("<" ++ table ++ ">([\s\S]*?)<\/" ++ table ++ ">")) xml
           = Some res /\
         capture 1 (groups res) = Some tableXml /\
         In m (matchAll true
                 (literal ("<" ++ transaction ++ ">([\s\S]*?)<\/"
                           ++ transaction ++ ">"))
                 tableXml) /\
         capture 1 (groups m) = Some txXml /\
         occurs_in txXml xml /\
         extractAttribute host txXml "footnoteId" = Ok (Some id) /\
         occurs_in id txXml /\
         check10b51InFootnotes host txXml (Some id) = Throw e).
Proof.
  intros xml accession date.
  split; [apply parseIssuer_total|]. split; [apply parseInsider_total|].
  intros e. unfold parse.
  destruct (parseIssuer_total xml) as [i Ei]. rewrite Ei. cbn [bind].
  destruct (parseInsider_total xml) as [j Ej]. rewrite Ej. cbn [bind].
  unfold parseTransactions, extractNonDerivativeTransactions,
    extractDerivativeTransactions.
  destruct (extractTable host "nonDerivativeTable" "nonDerivativeTransaction" xml)
    as [l1|e1] eqn:E1; cbn [bind].
  - destruct (extractTable host "derivativeTable" "derivativeTransaction" xml)
      as [l2|e2] eqn:E2; cbn [bind]; [discriminate|].
    intros H. injection H as <-.
    exists "derivativeTable", "derivativeTransaction".
    destruct (@extractTable_throws "derivativeTable" "derivativeTransaction" xml e2)
      as (res & tableXml & m & txXml & id & H);
      [vm_compute; reflexivity | vm_compute; reflexivity | exact E2 |].
    exists res, tableXml, m, txXml, id. split; [now right | exact H].
  - intros H. injection H as <-.
    exists "nonDerivativeTable", "nonDerivativeTransaction".
    destruct (@extractTable_throws "nonDerivativeTable" "nonDerivativeTransaction"
                xml e1)
      as (res & tableXml & m & txXml & id & H);
      [vm_compute; reflexivity | vm_compute; reflexivity | exact E1 |].
    exists res, tableXml, m, txXml, id. split; [now left | exact H].
Qed.

End ParserTotality.

(* ================================================================== *)
(** * Further properties: footnote ids that are safe to look up *)
(* ================================================================== *)

Section FootnoteFacts.

Import JsString RegExp Pattern NumberQ Parser.
Local Open Scope string_scope.
Local Open Scope nat_scope.

(** Characters that stand for themselves in a pattern. *)
Definition ordinary (c : ascii) : bool :=
  match c with
  | "|" | ")" | "^" | "$" | "." | "*" | "+" | "?" | "{" | "\" | "[" | "(" => false
  | _ => true
  end%char.

Lemma ordinary_alternative (c : ascii) (s : string) (fuel n : nat) :
  ordinary c = true -> parse_quantifier s = QNone ->
  parse_alternative (S (S fuel)) (String c s) n =
  match parse_alternative (S fuel) s n with
  | POk r rest n' => POk (Seq (Char c) r) rest n'
  | other => other
  end.
Proof.
  intros Hc Hq.
  destruct c as [[] [] [] [] [] [] [] []]; try discriminate Hc;
    cbn [parse_alternative parse_atom]; rewrite Hq; reflexivity.
Qed.

Lemma class_any_but_gt (s : string) (fuel n : nat) :
  parse_alternative (S (S fuel)) ("[^>]*" ++ String "i" s) n =
  match parse_alternative (S fuel) (String "i" s) n with
  | POk r rest n' =>
      POk (Seq (Repeat (Class true [item_char ">"]) 0 None true) r) rest n'
  | other => other
  end.
Proof. reflexivity. Qed.

Lemma class_quote (tail : string) (fuel n : nat) :
  parse_quantifier tail = QNone ->
  parse_alternative (S (S fuel)) ("[" ++ dq ++ "']" ++ tail) n =
  match parse_alternative (S fuel) tail n with
  | POk r rest n' =>
      POk (Seq (Class false [item_char (ascii_of_nat 34); item_char "'"]) r) rest n'
  | other => other
  end.
Proof.
  intros Hq.
  change (parse_alternative (S (S fuel)) ("[" ++ dq ++ "']" ++ tail) n)
    with (match quantify (Class false [item_char (ascii_of_nat 34); item_char "'"])
                         (parse_quantifier tail) tail with
          | inr e => PErr e
          | inl (term, s2) =>
              match parse_alternative (S fuel) s2 n with
              | POk r rest n' => POk (Seq term r) rest n'
              | other => other
              end
          end).
  rewrite Hq. reflexivity.
Qed.

Fixpoint alphanumeric (s : string) : bool :=
  match s with
  | EmptyString => true
  | String c s' => (is_letter c || is_digit c) && alphanumeric s'
  end.

Fixpoint chars (s : string) (r : Regex) : Regex :=
  match s with
  | EmptyString => r
  | String c s' => Seq (Char c) (chars s' r)
  end.

Lemma alnum_ordinary (c : ascii) :
  is_letter c || is_digit c = true -> ordinary c = true.
Proof. destruct c as [[] [] [] [] [] [] [] []]; intros H; try discriminate H; reflexivity. Qed.

Lemma alnum_quantifier (c : ascii) (s : string) :
  is_letter c || is_digit c = true -> parse_quantifier (String c s) = QNone.
Proof. destruct c as [[] [] [] [] [] [] [] []]; intros H; try discriminate H; reflexivity. Qed.

Lemma alphanumeric_alternative (id : string) :
  alphanumeric id = true ->
  forall (rest : string) (fuel n : nat),
    parse_quantifier rest = QNone ->
    parse_alternative (S (String.length id + fuel)) (id ++ rest) n =
    match parse_alternative (S fuel) rest n with
    | POk r rest' n' => POk (chars id r) rest' n'
    | other => other
    end.
Proof.
  induction id as [|c id IH]; intros Hid rest fuel n Hq.
  - cbn [String.length Nat.add append chars].
    destruct (parse_alternative (S fuel) rest n); reflexivity.
  - cbn [alphanumeric] in Hid. apply andb_true_iff in Hid. destruct Hid as [Hc Hid].
    cbn [String.length append chars Nat.add].
    rewrite ordinary_alternative.
    + rewrite (IH Hid rest fuel n Hq).
      destruct (parse_alternative (S fuel) rest n); reflexivity.
    + now apply alnum_ordinary.
    + destruct id as [|c' id']; [exact Hq|].
      cbn [alphanumeric] in Hid. apply andb_true_iff in Hid.
      now apply alnum_quantifier.
Qed.

Definition footnote_suffix : Regex :=
  Seq (Class false [item_char (ascii_of_nat 34); item_char "'"])
    (Seq (Repeat (Class true [item_char ">"]) 0 None true)
       (Seq (Char ">")
          (Seq (Group 1
                  (Seq (Repeat (Class false [item_space false; item_space true])
                               0 None false) Empty))
             (chars "</footnote>" Empty)))).

Definition footnote_regex (id : string) : Regex :=
  chars "<footnote"
    (Seq (Repeat (Class true [item_char ">"]) 0 None true)
       (chars "id="
          (Seq (Class false [item_char (ascii_of_nat 34); item_char "'"])
             (chars id footnote_suffix)))).

Lemma footnote_suffix_parse (x : nat) :
  parse_alternative (S (40 + x)) ("[" ++ dq ++ "'][^>]*>([\s\S]*?)<\/footnote>") 0
  = POk footnote_suffix "" 1.
Proof. vm_compute. reflexivity. Qed.

Lemma disjunction_of_alternative (fuel : nat) (s : string) (n n' : nat) (r : Regex) :
  parse_alternative fuel s n = POk r "" n' ->
  parse_disjunction (S fuel) s n = POk r "" n'.
Proof. intros H. cbn [parse_disjunction]. now rewrite H. Qed.

Lemma footnote_pattern_parses (id : string) (x : nat) :
  alphanumeric id = true ->
  parse_alternative (15 + (String.length id + (40 + x)))
    ("<footnote[^>]*id=[" ++ dq ++ "']" ++ id ++ "[" ++ dq
     ++ "'][^>]*>([\s\S]*?)<\/footnote>") 0
  = POk (footnote_regex id) "" 1.
Proof.
  intros Hid.
  set (suffix := "[" ++ dq ++ "'][^>]*>([\s\S]*?)<\/footnote>").
  assert (Hq : parse_quantifier (id ++ suffix) = QNone).
  { destruct id as [|c id']; [reflexivity|].
    cbn [alphanumeric] in Hid. apply andb_true_iff in Hid.
    now apply alnum_quantifier. }
  set (tail_fuel := String.length id + (40 + x)). cbn [Nat.add].
  change ("<footnote[^>]*id=[" ++ dq ++ "']" ++ id ++ suffix)
    with (String "<" (String "f" (String "o" (String "o" (String "t" (String "n"
           (String "o" (String "t" (String "e"
             ("[^>]*" ++ String "i" (String "d" (String "="
                ("[" ++ dq ++ "']" ++ (id ++ suffix))))))))))))))%string.
  do 9 (rewrite ordinary_alternative by reflexivity).
  rewrite class_any_but_gt.
  do 3 (rewrite ordinary_alternative by reflexivity).
  rewrite (class_quote _ _ _ Hq).
  subst tail_fuel.
  rewrite (alphanumeric_alternative id Hid suffix (40 + x) 0 eq_refl).
  subst suffix. rewrite (footnote_suffix_parse x). reflexivity.
Qed.

Lemma footnote_pattern_compiles (id : string) :
  alphanumeric id = true ->
  compile ("<footnote[^>]*id=[" ++ dq ++ "']" ++ id ++ "[" ++ dq
           ++ "'][^>]*>([\s\S]*?)<\/footnote>") = Parsed (footnote_regex id).
Proof.
  intros Hid. unfold compile.
  set (suffix := "[" ++ dq ++ "'][^>]*>([\s\S]*?)<\/footnote>").
  assert (Hlen : 4 * String.length ("<footnote[^>]*id=[" ++ dq ++ "']" ++ id ++ suffix) + 8
                 = S (15 + (String.length id + (40 + (3 * String.length id + 164))))).
  { change ("<footnote[^>]*id=[" ++ dq ++ "']" ++ id ++ suffix)
      with (("<footnote[^>]*id=[" ++ dq ++ "']") ++ id ++ suffix).
    rewrite !length_append. subst suffix. cbn [String.length dq append]. lia. }
  rewrite Hlen.
  rewrite (@disjunction_of_alternative _ _ _ _ _ (@footnote_pattern_parses id _ Hid)).
  reflexivity.
Qed.

Lemma sets_chars (i : nat) (s : string) (r : Regex) :
  sets i (chars s r) = sets i r.
Proof. induction s as [|c s IH]; [reflexivity|]. cbn [chars sets]. exact IH. Qed.

Lemma footnote_regex_sets (id : string) : sets 1 (footnote_regex id) = true.
Proof.
  unfold footnote_regex. rewrite sets_chars. cbn [sets andb orb].
  rewrite sets_chars. cbn [sets andb orb]. rewrite sets_chars. reflexivity.
Qed.

(** X19. The footnote lookup cannot throw for a footnote id made of
    letters and digits only, whatever the document and whatever the host
    engine would do with other patterns: an id such as F1 is read as the
    text it is, and the lookup returns whether its footnote mentions
    10b5. *)
Theorem X19_alphanumeric_footnote_ids_never_throw :
  forall (host : string -> string -> HostOutcome) (xml id : string),
    alphanumeric id = true ->
    exists b, check10b51InFootnotes host xml (Some id) = Ok b.
Proof.
  intros host xml id Hid. unfold check10b51InFootnotes.
  destruct id as [|c id']; [now exists false|].
  set (id := String c id') in *.
  match goal with
  | |- context [match_group1 host ?p xml] =>
      assert (Hp : captures1 p = true)
  end.
  { unfold captures1. rewrite (footnote_pattern_compiles id Hid).
    apply footnote_regex_sets. }
  destruct (match_group1_captures host _ xml Hp) as [E|[s E]]; rewrite E;
    cbn [bind defined]; eauto.
Qed.

End FootnoteFacts.

Lemma X19_alphanumeric_footnote_ids_never_throw_witness :
  exists b,
    Parser.check10b51InFootnotes no_host
      "<footnote id='F1'>Sale under a Rule 10b5-1 plan.</footnote>"%string
      (Some "F1"%string)
    = Parser.Ok b.
Proof.
  apply (@X19_alphanumeric_footnote_ids_never_throw no_host _ "F1"%string).
  reflexivity.
Defined.

(* ================================================================== *)
(** * Further properties: text that is not markup *)
(* ================================================================== *)

Section MarkupFacts.

Import JsString RegExp Pattern NumberQ Parser.
Local Open Scope string_scope.

Variable host : string -> string -> HostOutcome.

Lemma char_eq_lt (ch : ascii) : char_eq true "<" ch = Ascii.eqb "<" ch.
Proof. destruct ch as [[] [] [] [] [] [] [] []]; reflexivity. Qed.

Lemma exec_from_no_lt (r : Regex) (s : string) (from : nat) :
  includes s "<" = false ->
  exec_from true (Seq (Char "<") r) from s = None.
Proof.
  revert from. induction s as [|ch s IH]; intros from H;
    cbn [exec_from matcher rest]; [reflexivity|].
  cbn [includes startsWith] in H. apply orb_false_iff in H. destruct H as [Hc Hs].
  replace (startsWith s "") with true in Hc by (destruct s; reflexivity).
  rewrite andb_true_r in Hc. rewrite char_eq_lt, Hc. now apply IH.
Qed.

(** The pattern is one this development reads, and opens with [<]. *)
Definition opens_with_lt (pattern : string) : bool :=
  match compile pattern with
  | Parsed (Seq (Char c) _) => Ascii.eqb c "<"
  | _ => false
  end.

Lemma match_group1_no_lt (pattern xml : string) :
  opens_with_lt pattern = true -> includes xml "<" = false ->
  match_group1 host pattern xml = Ok None.
Proof.
  unfold opens_with_lt, match_group1. intros Hp Hx.
  destruct (compile pattern) as [r| |]; try discriminate.
  destruct r as [| | | | r1 r2 | | | | |]; try discriminate.
  destruct r1 as [| c | | | | | | | |]; try discriminate.
  apply Ascii.eqb_eq in Hp. subst c.
  unfold exec. now rewrite exec_from_no_lt.
Qed.

Definition markup_tag (tag : string) : bool :=
  opens_with_lt ("<" ++ tag ++ "[^>]*>\s*<value>([\s\S]*?)<\/value>\s*</" ++ tag ++ ">")
  && opens_with_lt ("<" ++ tag ++ "[^>]*>([\s\S]*?)</" ++ tag ++ ">").

Lemma extractText_no_lt (tag xml : string) :
  markup_tag tag = true -> includes xml "<" = false ->
  extractText host xml tag = Ok None.
Proof.
  unfold markup_tag, extractText. intros H Hx. apply andb_true_iff in H.
  destruct H as [H1 H2].
  rewrite (@match_group1_no_lt _ xml H1 Hx). cbn [bind].
  rewrite (@match_group1_no_lt _ xml H2 Hx). reflexivity.
Qed.

Lemma extractTable_no_lt (table transaction xml : string) :
  opens_with_lt ("<" ++ table ++ ">([\s\S]*?)<\/" ++ table ++ ">") = true ->
  includes xml "<" = false ->
  extractTable host table transaction xml = Ok [].
Proof.
  unfold opens_with_lt, extractTable, literal. intros Hp Hx.
  destruct (compile _) as [r| |]; try discriminate.
  destruct r as [| | | | r1 r2 | | | | |]; try discriminate.
  destruct r1 as [| c | | | | | | | |]; try discriminate.
  apply Ascii.eqb_eq in Hp. subst c.
  unfold exec. now rewrite exec_from_no_lt.
Qed.

(** X20. [parse] rejects nothing: a text with no [<] in it, the empty
    text included, is parsed without an exception into a filing with an
    empty CIK and company name, no ticker, an unnamed insider with no
    title and no role, and no transactions. *)
Theorem X20_text_without_markup_parses_to_an_empty_filing :
  forall (xml accession date : string),
    includes xml "<" = false ->
    parse host xml accession date =
    Ok {| accessionNumber := accession;
          filingDate := date;
          issuer := {| cik := ""; ticker := None; companyName := "" |};
          insider := {| name := ""; title := None; isDirector := false;
                        isOfficer := false; isTenPercentOwner := false;
                        isOther := false |};
          transactions := [] |}.
Proof.
  intros xml accession date Hx.
  unfold parse, parseIssuer, parseInsider, parseTransactions,
    extractNonDerivativeTransactions, extractDerivativeTransactions.
  repeat (rewrite extractText_no_lt; [cbn [bind] | vm_compute; reflexivity | exact Hx]).
  repeat (rewrite extractTable_no_lt; [cbn [bind] | vm_compute; reflexivity | exact Hx]).
  reflexivity.
Qed.

End MarkupFacts.

Lemma X20_text_without_markup_parses_to_an_empty_filing_witness :
  Parser.parse no_host "Service Unavailable"%string "0001234567-24-000001"%string
               "2024-04-01"%string =
  Parser.Ok
    {| Parser.accessionNumber := "0001234567-24-000001"%string;
       Parser.filingDate := "2024-04-01"%string;
       Parser.issuer := {| Parser.cik := ""%string; Parser.ticker := None;
                           Parser.companyName := ""%string |};
       Parser.insider := {| Parser.name := ""%string; Parser.title := None;
                            Parser.isDirector := false; Parser.isOfficer := false;
                            Parser.isTenPercentOwner := false;
                            Parser.isOther := false |};
       Parser.transactions := [] |}.
Proof.
  apply (@X20_text_without_markup_parses_to_an_empty_filing no_host).
  reflexivity.
Defined.

(* ================================================================== *)
(** * Further properties: references between the tables *)
(* ================================================================== *)

Section IntegrityFacts.

Import JsNumber Store Pipeline.
Local Open Scope string_scope.

Variable webhookUrl : string.
Variable slack : nat -> SlackMessageResponse.
Variable numeric : nat -> number -> option decimal.

Definition issuer_stored (d : DB) (i : uuid) : Prop :=
  exists x, In x (issuers d) /\ issuer_id x = i.

Definition insider_stored (d : DB) (i : uuid) : Prop :=
  exists x, In x (insiders d) /\ insider_id x = i.

(** The issuer and the insider of every transaction are stored. *)
Definition references_ok (d : DB) : Prop :=
  forall r, In r (transactions d) ->
    issuer_stored d (issuerId (fields r)) /\ insider_stored d (insiderId (fields r)).

(** What a filing is processed under: its issuer and its insider. *)
Definition filing_ok (issuer insider : uuid) (w : World) : Prop :=
  references_ok (db w) /\ issuer_stored (db w) issuer /\ insider_stored (db w) insider.

Lemma upsertTransaction_sources (d : DB) (data : InsertTransaction) :
  forall r', In r' (transactions (snd (upsertTransaction d data))) ->
    (exists r, In r (transactions d) /\
               issuerId (fields r') = issuerId (fields r) /\
               insiderId (fields r') = insiderId (fields r)) \/
    (issuerId (fields r') = issuerId data /\ insiderId (fields r') = insiderId data).
Proof.
  intros r' Hr'. unfold upsertTransaction in Hr'.
  destruct (update_conflict data (transactions d)) as [[x rows']|] eqn:E.
  - apply update_conflict_some in E.
    destruct E as (pre & old & post & Hrows & -> & -> & Hk & Hpre).
    cbn [snd transactions set_transactions] in Hr'. left.
    apply in_app_or in Hr'. destruct Hr' as [Hr'|[<-|Hr']].
    + exists r'. rewrite Hrows. split; [apply in_or_app; now left | split; reflexivity].
    + exists old. rewrite Hrows.
      split; [apply in_or_app; right; now left | split; reflexivity].
    + exists r'. rewrite Hrows.
      split; [apply in_or_app; right; now right | split; reflexivity].
  - cbn [snd transactions set_transactions] in Hr'.
    apply in_app_or in Hr'. destruct Hr' as [Hr'|[<-|[]]].
    + left. exists r'. split; [exact Hr' | split; reflexivity].
    + right. split; reflexivity.
Qed.

Lemma filing_ok_record issuer insider (w : World) (data : InsertSlackAlert) :
  filing_ok issuer insider w ->
  filing_ok issuer insider
    {| db := snd (recordSlackAlert (db w) data); outbox := outbox w |}.
Proof. intros H. exact H. Qed.

Lemma filing_ok_post issuer insider (w : World) (m : SlackMessage) :
  filing_ok issuer insider w ->
  filing_ok issuer insider {| db := db w; outbox := (outbox w ++ [m])%list |}.
Proof. intros H. exact H. Qed.

Lemma filing_ok_processTransaction (form4Data : Form4Data) (txInfo : TransactionInfo)
    (issuer insider : uuid) :
  keeps (filing_ok issuer insider)
        (processTransaction webhookUrl slack numeric form4Data txInfo issuer insider).
Proof.
  unfold processTransaction.
  apply keeps_bind; [apply keeps_query | intros input].
  repeat (apply keeps_bind; [apply keeps_to_decimal | intros ?]).
  apply keeps_bind.
  - intros w (Href & Hiss & Hins). unfold mutate.
    match goal with
    | |- context [upsertTransaction (db w) ?data] =>
        pose proof (upsertTransaction_tables (db w) data) as (Hi & Hn & _);
        pose proof (upsertTransaction_sources (db w) data) as Hsrc;
        destruct (upsertTransaction (db w) data) as [transaction d']
    end.
    cbn [fst snd world_of db] in *.
    assert (Hiss' : issuer_stored d' issuer)
      by (unfold issuer_stored; now rewrite Hi).
    assert (Hins' : insider_stored d' insider)
      by (unfold insider_stored; now rewrite Hn).
    split; [|split; assumption].
    intros r' Hr'. cbn [db world_of] in *.
    unfold issuer_stored, insider_stored. rewrite Hi, Hn.
    destruct (Hsrc r' Hr') as [(r & Hr & Ei & En)|[Ei En]].
    + rewrite Ei, En. now apply Href.
    + rewrite Ei, En. cbn [issuerId insiderId]. split; assumption.
  - intros transaction.
    destruct (Scoring.shouldTriggerUrgentAlert _ _); [|apply keeps_ret].
    apply closed_postUrgentAlert.
    + intros w data. apply filing_ok_record.
    + intros w m. apply filing_ok_post.
Qed.

Lemma references_ok_upsertIssuer (d : DB) c t n :
  references_ok d ->
  references_ok (snd (upsertIssuer d c t n)) /\
  issuer_stored (snd (upsertIssuer d c t n)) (issuer_id (fst (upsertIssuer d c t n))).
Proof.
  intros Href.
  pose proof (extends_upsertIssuer {| db := d; outbox := [] |} c t n)
    as (Hiss & _ & _ & _ & _).
  cbn [db] in Hiss.
  assert (Hstored : issuer_stored (snd (upsertIssuer d c t n))
                      (issuer_id (fst (upsertIssuer d c t n)))).
  { unfold upsertIssuer.
    pose proof (update_issuer_find c t n (issuers d)) as H.
    destruct (update_issuer c t n (issuers d)) as [[r rows']|];
      cbn [fst snd issuers set_issuers].
    - destruct H as (Hf & _). apply find_some in Hf.
      exists r. split; [apply Hf | reflexivity].
    - eexists. split; [apply in_or_app; right; now left | reflexivity]. }
  split; [|exact Hstored].
  assert (Htx : transactions (snd (upsertIssuer d c t n)) = transactions d
                /\ insiders (snd (upsertIssuer d c t n)) = insiders d).
  { unfold upsertIssuer.
    destruct (update_issuer c t n (issuers d)) as [[r rows']|]; split; reflexivity. }
  destruct Htx as [Htx Hn].
  intros r Hr. rewrite Htx in Hr. destruct (Href r Hr) as [(x & Hx & Hid) Hins].
  split.
  - destruct (Hiss x Hx) as (x' & Hx' & Hid' & _). exists x'. split; congruence.
  - unfold insider_stored. now rewrite Hn.
Qed.

Lemma references_ok_upsertInsider (d : DB) iss i n t :
  references_ok d -> issuer_stored d iss ->
  references_ok (snd (upsertInsider d i n t)) /\
  issuer_stored (snd (upsertInsider d i n t)) iss /\
  insider_stored (snd (upsertInsider d i n t)) (insider_id (fst (upsertInsider d i n t))).
Proof.
  intros Href Hiss0.
  pose proof (extends_upsertInsider {| db := d; outbox := [] |} i n t)
    as (_ & Hins & _ & _ & _).
  cbn [db] in Hins.
  assert (Hstored : insider_stored (snd (upsertInsider d i n t))
                      (insider_id (fst (upsertInsider d i n t)))).
  { unfold upsertInsider.
    pose proof (update_insider_find i n t (insiders d)) as H.
    destruct (update_insider i n t (insiders d)) as [[r rows']|];
      cbn [fst snd insiders set_insiders].
    - destruct H as (Hf & _). apply find_some in Hf.
      exists r. split; [apply Hf | reflexivity].
    - eexists. split; [apply in_or_app; right; now left | reflexivity]. }
  assert (Htx : transactions (snd (upsertInsider d i n t)) = transactions d
                /\ issuers (snd (upsertInsider d i n t)) = issuers d).
  { unfold upsertInsider.
    destruct (update_insider i n t (insiders d)) as [[r rows']|]; split; reflexivity. }
  destruct Htx as [Htx Hi].
  split; [|split; [unfold issuer_stored; now rewrite Hi | exact Hstored]].
  intros r Hr. rewrite Htx in Hr. destruct (Href r Hr) as [Hissr (x & Hx & Hid)].
  split.
  - unfold issuer_stored. now rewrite Hi.
  - destruct (Hins x Hx) as (x' & Hx' & Hid' & _). exists x'. split; congruence.
Qed.

Lemma references_ok_processSingleFiling (f : Filing) :
  keeps (fun w => references_ok (db w))
        (processSingleFiling webhookUrl slack numeric f).
Proof.
  unfold processSingleFiling. destruct (fetched f) as [e|form4Data];
    [apply keeps_throw|].
  intros w Href. unfold bind at 1, mutate.
  match goal with
  | |- context [upsertIssuer (db w) ?c ?t ?n] =>
      destruct (references_ok_upsertIssuer c t n Href) as [Href1 Hiss];
      destruct (upsertIssuer (db w) c t n) as [issuer d1]
  end.
  cbn [fst snd] in *. unfold bind at 1, mutate. cbn [db].
  match goal with
  | |- context [upsertInsider d1 ?i ?n ?t] =>
      destruct (references_ok_upsertInsider i n t Href1 Hiss) as (Href2 & Hiss2 & Hins);
      destruct (upsertInsider d1 i n t) as [insider d2]
  end.
  cbn [fst snd] in *.
  assert (H : filing_ok (issuer_id issuer) (insider_id insider)
                {| db := d2; outbox := outbox w |})
    by (split; [exact Href2 | split; assumption]).
  match goal with
  | |- references_ok (db (world_of (for_each ?body ?xs ?w0))) =>
      assert (Hk : keeps (filing_ok (issuer_id issuer) (insider_id insider))
                         (for_each body xs))
        by (apply keeps_for_each; intros txInfo; apply filing_ok_processTransaction);
      exact (proj1 (Hk w0 H))
  end.
Qed.

Lemma references_ok_process (feed : string + list Filing) :
  keeps (fun w => references_ok (db w)) (process webhookUrl slack numeric feed).
Proof.
  unfold process. destruct feed as [e|filings]; [apply keeps_ret|].
  generalize {| filingsProcessed := 0; transactionsCreated := 0;
                transactionsUpdated := 0; urgentAlertsPosted := 0; errors := [] |}.
  induction filings as [|f rest IH]; intros stats; simpl.
  - apply keeps_ret.
  - apply keeps_bind; [|intros stats'; apply IH].
    apply keeps_try_catch; [|intros e; apply keeps_ret].
    apply keeps_bind; [apply references_ok_processSingleFiling|].
    intros _; apply keeps_ret.
Qed.

Lemma references_ok_generateDigest (day : date) :
  keeps (fun w => references_ok (db w)) (generateDigest webhookUrl slack day).
Proof.
  intros w H.
  destruct (generateDigest_spec webhookUrl slack day w)
    as (stats & w' & Hrun & _ & Hi & Hn & Ht & _).
  rewrite Hrun. cbn [world_of]. intros r Hr. rewrite Ht in Hr.
  unfold issuer_stored, insider_stored. rewrite Hi, Hn. now apply H.
Qed.

Lemma reachable_references_ok (w : World) :
  reachable webhookUrl slack numeric w -> references_ok (db w).
Proof.
  induction 1 as [|w w' Hreach IH Hrun].
  - intros r [].
  - destruct Hrun as [feed w|day w].
    + now apply references_ok_process.
    + now apply references_ok_generateDigest.
Qed.

Lemma joined_all (d : DB) (rows : list Transaction) :
  (forall r, In r rows ->
     issuer_stored d (issuerId (fields r)) /\ insider_stored d (insiderId (fields r))) ->
  map Digest.tx (joined d rows) = rows.
Proof.
  induction rows as [|r rows IH]; intros H; [reflexivity|]. cbn [joined].
  destruct (H r (or_introl eq_refl)) as [(x & Hx & Hxid) (y & Hy & Hyid)].
  unfold join.
  destruct (find (fun i => Nat.eqb (issuer_id i) (issuerId (fields r))) (issuers d))
    as [iss|] eqn:Ei.
  - destruct (find (fun i => Nat.eqb (insider_id i) (insiderId (fields r)))
                   (insiders d)) as [ins|] eqn:En.
    + cbn [map Digest.tx]. f_equal. apply IH. intros r' Hr'. apply H. now right.
    + exfalso. pose proof (find_none _ _ En y Hy) as Hf. cbn beta in Hf.
      rewrite Hyid, Nat.eqb_refl in Hf. discriminate.
  - exfalso. pose proof (find_none _ _ Ei x Hx) as Hf. cbn beta in Hf.
    rewrite Hxid, Nat.eqb_refl in Hf. discriminate.
Qed.

(** X22. In every state the two jobs can reach from the empty store the
    issuer and the insider of each transaction are stored, so the joins of
    the digest drop nothing: the transactions a digest is made of are all
    the transactions of its day, each once, listed by signal score,
    greatest first. *)
Theorem X22_digest_leaves_out_no_transaction :
  forall w : World,
    reachable webhookUrl slack numeric w ->
    (forall r, In r (transactions (db w)) ->
       (exists x, In x (issuers (db w)) /\ issuer_id x = issuerId (fields r)) /\
       (exists x, In x (insiders (db w)) /\ insider_id x = insiderId (fields r))) /\
    (forall day,
       Permutation
         (map Digest.tx (joined (db w) (getDailyTransactionsByDate (db w) day)))
         (filter (fun r => Z.eqb (transactionDate (fields r)) day)
                 (transactions (db w))) /\
       by_score_desc
         (map Digest.tx (joined (db w) (getDailyTransactionsByDate (db w) day)))).
Proof.
  intros w Hw. pose proof (reachable_references_ok Hw) as Href.
  split; [exact Href|].
  intros day.
  assert (E : map Digest.tx (joined (db w) (getDailyTransactionsByDate (db w) day))
              = getDailyTransactionsByDate (db w) day).
  { apply joined_all. intros r Hr.
    apply getDailyTransactionsByDate_In in Hr. apply Href. apply Hr. }
  rewrite E. unfold getDailyTransactionsByDate. split.
  - apply Permutation_sym, order_by_score_desc_perm.
  - apply order_by_score_desc_sorted.
Qed.

(** ** What is stored is a purchase or a sale *)

Definition codes_ok (w : World) : Prop :=
  forall r, In r (transactions (db w)) ->
    transactionCode (fields r) = Types.TRANSACTION_CODE_BUY \/
    transactionCode (fields r) = Types.TRANSACTION_CODE_SELL.

Lemma upsertTransaction_codes (d : DB) (data : InsertTransaction) :
  forall r', In r' (transactions (snd (upsertTransaction d data))) ->
    In r' (transactions d) \/
    transactionCode (fields r') = transactionCode data.
Proof.
  intros r' Hr'. unfold upsertTransaction in Hr'.
  destruct (update_conflict data (transactions d)) as [[x rows']|] eqn:E.
  - apply update_conflict_some in E.
    destruct E as (pre & old & post & Hrows & -> & -> & Hk & Hpre).
    cbn [snd transactions set_transactions] in Hr'. rewrite Hrows.
    apply in_app_or in Hr'. destruct Hr' as [Hr'|[<-|Hr']].
    + left. apply in_or_app. now left.
    + right. reflexivity.
    + left. apply in_or_app. right. now right.
  - cbn [snd transactions set_transactions] in Hr'.
    apply in_app_or in Hr'. destruct Hr' as [Hr'|[<-|[]]];
      [now left | right; reflexivity].
Qed.

Lemma keeps_for_each_in (A : Type) (P : World -> Prop) (body : A -> M unit)
    (xs : list A) :
  (forall x, In x xs -> keeps P (body x)) -> keeps P (for_each body xs).
Proof.
  induction xs as [|x xs IH]; intros Hb; simpl.
  - apply keeps_ret.
  - apply keeps_bind; [apply Hb; now left | intros _; apply IH].
    intros y Hy. apply Hb. now right.
Qed.

Lemma codes_ok_processTransaction (form4Data : Form4Data) (txInfo : TransactionInfo)
    (issuer insider : uuid) :
  is_buy_or_sell txInfo = true ->
  keeps codes_ok
        (processTransaction webhookUrl slack numeric form4Data txInfo issuer insider).
Proof.
  intros Hcode. unfold processTransaction.
  apply keeps_bind; [apply keeps_query | intros input].
  repeat (apply keeps_bind; [apply keeps_to_decimal | intros ?]).
  apply keeps_bind.
  - intros w H. unfold mutate.
    match goal with
    | |- context [upsertTransaction (db w) ?data] =>
        pose proof (upsertTransaction_codes (db w) data) as Hsrc;
        destruct (upsertTransaction (db w) data) as [transaction d']
    end.
    cbn [snd world_of] in *. intros r' Hr'. cbn [db] in Hr'.
    destruct (Hsrc r' Hr') as [Hold|Hnew]; [now apply H|].
    rewrite Hnew. cbn [transactionCode].
    unfold is_buy_or_sell in Hcode. apply orb_true_iff in Hcode.
    destruct Hcode as [Hc|Hc]; apply String.eqb_eq in Hc; auto.
  - intros transaction.
    destruct (Scoring.shouldTriggerUrgentAlert _ _); [|apply keeps_ret].
    apply closed_postUrgentAlert.
    + intros w data H. exact H.
    + intros w m H. exact H.
Qed.

Lemma codes_ok_process (feed : string + list Filing) :
  keeps codes_ok (process webhookUrl slack numeric feed).
Proof.
  unfold process. destruct feed as [e|filings]; [apply keeps_ret|].
  generalize {| filingsProcessed := 0; transactionsCreated := 0;
                transactionsUpdated := 0; urgentAlertsPosted := 0; errors := [] |}.
  induction filings as [|f rest IH]; intros stats; simpl.
  - apply keeps_ret.
  - apply keeps_bind; [|intros stats'; apply IH].
    apply keeps_try_catch; [|intros e; apply keeps_ret].
    apply keeps_bind; [|intros _; apply keeps_ret].
    unfold processSingleFiling. destruct (fetched f) as [e|form4Data];
      [apply keeps_throw|].
    apply keeps_bind.
    { intros w H. unfold mutate, upsertIssuer.
      destruct (update_issuer _ _ _ (issuers (db w))) as [[r rows']|]; exact H. }
    intros issuer. apply keeps_bind.
    { intros w H. unfold mutate, upsertInsider.
      destruct (update_insider _ _ _ (insiders (db w))) as [[r rows']|]; exact H. }
    intros insider. apply keeps_for_each_in. intros txInfo Hin.
    apply filter_In in Hin. now apply codes_ok_processTransaction.
Qed.

Lemma codes_ok_generateDigest (day : date) :
  keeps codes_ok (generateDigest webhookUrl slack day).
Proof.
  intros w H.
  destruct (generateDigest_spec webhookUrl slack day w)
    as (stats & w' & Hrun & _ & _ & _ & Ht & _).
  rewrite Hrun. cbn [world_of]. intros r Hr. rewrite Ht in Hr. now apply H.
Qed.

Lemma reachable_codes_ok (w : World) :
  reachable webhookUrl slack numeric w -> codes_ok w.
Proof.
  induction 1 as [|w w' Hreach IH Hrun].
  - intros r [].
  - destruct Hrun as [feed w|day w].
    + now apply codes_ok_process.
    + now apply codes_ok_generateDigest.
Qed.

Lemma count_codes (txs : list Digest.JoinedTransaction) :
  (forall t, In t txs ->
     transactionCode (fields (Digest.tx t)) = "P" \/
     transactionCode (fields (Digest.tx t)) = "S") ->
  (Digest.count_code "P" txs + Digest.count_code "S" txs)%nat = length txs.
Proof.
  unfold Digest.count_code. induction txs as [|t txs IH]; intros H; [reflexivity|].
  assert (IH' := IH (fun x Hx => H x (or_intror Hx))).
  cbn [filter length].
  destruct (H t (or_introl eq_refl)) as [E|E]; rewrite E; cbn [String.eqb Ascii.eqb
    Bool.eqb length]; lia.
Qed.

(** X23. Only purchases and sales are ever stored: in every state the two
    jobs can reach from the empty store each transaction has code P or S,
    so in a digest the purchases and the sales of the day add up to its
    transactions. *)
Theorem X23_only_purchases_and_sales_are_stored :
  forall w : World,
    reachable webhookUrl slack numeric w ->
    (forall r, In r (transactions (db w)) ->
       transactionCode (fields r) = "P" \/ transactionCode (fields r) = "S") /\
    (forall day,
       (Digest.count_code "P" (joined (db w) (getDailyTransactionsByDate (db w) day))
        + Digest.count_code "S" (joined (db w) (getDailyTransactionsByDate (db w) day)))%nat
       = length (joined (db w) (getDailyTransactionsByDate (db w) day))).
Proof.
  intros w Hw. pose proof (reachable_codes_ok Hw) as Hcodes.
  split; [exact Hcodes|].
  intros day. apply count_codes. intros t Ht.
  apply joined_in in Ht. apply getDailyTransactionsByDate_In in Ht.
  apply Hcodes. apply Ht.
Qed.

End IntegrityFacts.

(** X22 after the large sale has been processed: the digest of its day is
    made of one transaction. *)
Lemma X22_digest_leaves_out_no_transaction_witness :
  length
    (map Digest.tx
       (Pipeline.joined
          (Pipeline.db
             (Pipeline.world_of
                (Pipeline.process "https://hooks.example" always_ok
                   (fun _ _ => Some (Store.Dec 0)) large_feed
                   {| Pipeline.db := Store.empty_db; Pipeline.outbox := [] |})))
          (Store.getDailyTransactionsByDate
             (Pipeline.db
                (Pipeline.world_of
                   (Pipeline.process "https://hooks.example" always_ok
                      (fun _ _ => Some (Store.Dec 0)) large_feed
                      {| Pipeline.db := Store.empty_db; Pipeline.outbox := [] |})))
             19814%Z)))
  = length
      (filter (fun r => Z.eqb (Store.transactionDate (Store.fields r)) 19814%Z)
         (Store.transactions
            (Pipeline.db
               (Pipeline.world_of
                  (Pipeline.process "https://hooks.example" always_ok
                     (fun _ _ => Some (Store.Dec 0)) large_feed
                     {| Pipeline.db := Store.empty_db; Pipeline.outbox := [] |}))))).
Proof.
  apply Permutation_length.
  apply (@X22_digest_leaves_out_no_transaction
           "https://hooks.example" always_ok (fun _ _ => Some (Store.Dec 0)) _
           (Pipeline.reachable_run (Pipeline.reachable_start _ _ _)
              (Pipeline.run_process _ _ _ large_feed _))).
Defined.

Lemma large_feed_rows :
  exists r,
    Store.transactions
      (Pipeline.db
         (Pipeline.world_of
            (Pipeline.process "https://hooks.example" always_ok
               (fun _ _ => Some (Store.Dec 0)) large_feed
               {| Pipeline.db := Store.empty_db; Pipeline.outbox := [] |}))) = [r].
Proof.
  unfold Pipeline.process, large_feed, Pipeline.process_filings.
  unfold Pipeline.bind at 1. unfold Pipeline.try_catch. unfold Pipeline.bind at 1.
  unfold Pipeline.processSingleFiling. cbn [Pipeline.fetched].
  unfold Pipeline.bind at 1. unfold Pipeline.mutate at 1. cbn [Pipeline.db].
  cbn -[Pipeline.processTransaction].
  unfold Pipeline.processTransaction. unfold Pipeline.bind at 1, Pipeline.query.
  unfold Pipeline.to_decimal, Pipeline.bind, Pipeline.ret, Pipeline.mutate.
  cbn [Pipeline.db Pipeline.tx_transactionValue large_sale].
  rewrite large_value_is_urgent.
  eexists. vm_compute. reflexivity.
Qed.

(** X23 after the large sale has been processed: the one row stored is a
    purchase or a sale. *)
Lemma X23_only_purchases_and_sales_are_stored_witness :
  exists r,
    In r (Store.transactions
            (Pipeline.db
               (Pipeline.world_of
                  (Pipeline.process "https://hooks.example" always_ok
                     (fun _ _ => Some (Store.Dec 0)) large_feed
                     {| Pipeline.db := Store.empty_db; Pipeline.outbox := [] |})))) /\
    (Store.transactionCode (Store.fields r) = "P"%string \/
     Store.transactionCode (Store.fields r) = "S"%string).
Proof.
  destruct large_feed_rows as [r Hr]. exists r.
  assert (Hin : In r (Store.transactions
            (Pipeline.db
               (Pipeline.world_of
                  (Pipeline.process "https://hooks.example" always_ok
                     (fun _ _ => Some (Store.Dec 0)) large_feed
                     {| Pipeline.db := Store.empty_db; Pipeline.outbox := [] |})))))
    by (rewrite Hr; now left).
  split; [exact Hin|].
  exact (proj1 (@X23_only_purchases_and_sales_are_stored
                  "https://hooks.example" always_ok (fun _ _ => Some (Store.Dec 0)) _
                  (Pipeline.reachable_run (Pipeline.reachable_start _ _ _)
                     (Pipeline.run_process _ _ _ large_feed _))) r Hin).
Defined.
(* ================================================================== *)
(** * Further properties: processing the same feed again *)
(* ================================================================== *)

Section RerunFacts.

Import JsNumber Store Pipeline.
Local Open Scope string_scope.

Variable webhookUrl : string.
Variable slack : nat -> SlackMessageResponse.
Variable num : nat -> number -> decimal.

Hypothesis webhook_configured : JsString.truthy (Some webhookUrl) = true.

(** A database that takes every number. *)
Definition accepting (s : nat) (x : number) : option decimal := Some (num s x).

(** Kept by every write the jobs make. *)
Definition stable (Q : DB -> Prop) : Prop :=
  (forall d c t n, Q d -> Q (snd (upsertIssuer d c t n))) /\
  (forall d i n t, Q d -> Q (snd (upsertInsider d i n t))) /\
  (forall d data, Q d -> Q (snd (upsertTransaction d data))) /\
  (forall d data, Q d -> Q (snd (recordSlackAlert d data))).

Definition has_key (d : DB) (k : dedupe_key) : Prop :=
  (0 < count_key k (transactions d))%nat.

Definition issuer_known (d : DB) (c : string) (iss : uuid) : Prop :=
  option_map issuer_id (find (fun x => String.eqb (cik x) c) (issuers d)) = Some iss.

Definition insider_known (d : DB) (n : string) (iss ins : uuid) : Prop :=
  option_map insider_id (find (same_insider n iss) (insiders d)) = Some ins.

(** The key under which a transaction of a filing is stored. *)
Definition key_for (form : Form4Data) (tx : TransactionInfo) (ins : uuid) : dedupe_key :=
  (accessionNumber form, ins, tx_transactionDate tx,
   num 4 (tx_shares tx), num 4 (tx_pricePerShare tx)).

Lemma upsertIssuer_tables (d : DB) c t n :
  insiders (snd (upsertIssuer d c t n)) = insiders d /\
  transactions (snd (upsertIssuer d c t n)) = transactions d.
Proof.
  unfold upsertIssuer.
  destruct (update_issuer c t n (issuers d)) as [[r rows']|]; split; reflexivity.
Qed.

Lemma upsertInsider_tables (d : DB) i n t :
  issuers (snd (upsertInsider d i n t)) = issuers d /\
  transactions (snd (upsertInsider d i n t)) = transactions d.
Proof.
  unfold upsertInsider.
  destruct (update_insider i n t (insiders d)) as [[r rows']|]; split; reflexivity.
Qed.

Lemma stable_has_key (k : dedupe_key) : stable (fun d => has_key d k).
Proof.
  unfold has_key. split; [|split; [|split]].
  - intros d c t n H. now rewrite (proj2 (upsertIssuer_tables d c t n)).
  - intros d i n t H. now rewrite (proj2 (upsertInsider_tables d i n t)).
  - intros d data H. destruct (upsert_rows d data) as (_ & _ & _ & Hc & _).
    rewrite Hc. destruct (key_eqb (key_of data) k); lia.
  - intros d data H. exact H.
Qed.

Lemma find_app_some (A : Type) (f : A -> bool) (l1 l2 : list A) (a : A) :
  find f l1 = Some a -> find f (l1 ++ l2) = Some a.
Proof.
  induction l1 as [|b l1 IH]; [discriminate|]. simpl.
  destruct (f b); [trivial | exact IH].
Qed.

Lemma issuer_known_upsert (d : DB) (c : string) (iss : uuid) c' t n :
  issuer_known d c iss -> issuer_known (snd (upsertIssuer d c' t n)) c iss.
Proof.
  unfold issuer_known, upsertIssuer. intros H.
  pose proof (update_issuer_find c' t n (issuers d)) as Hu.
  destruct (update_issuer c' t n (issuers d)) as [[r rows']|];
    cbn [snd issuers set_issuers].
  - destruct Hu as (Hf & _ & _ & _ & (old & Hold & Hid) & _ & Hother).
    destruct (String.eqb_spec c c') as [->|Hne].
    + rewrite Hf. rewrite Hold in H. cbn [option_map] in *. congruence.
    + now rewrite (Hother c Hne).
  - destruct (find (fun x => String.eqb (cik x) c) (issuers d)) as [x|] eqn:E;
      [|discriminate H].
    now rewrite (@find_app_some _ _ _ _ _ E).
Qed.

Lemma stable_issuer_known (c : string) (iss : uuid) :
  stable (fun d => issuer_known d c iss).
Proof.
  unfold issuer_known. split; [|split; [|split]].
  - intros d c' t n H. now apply issuer_known_upsert.
  - intros d i n t H. now rewrite (proj1 (upsertInsider_tables d i n t)).
  - intros d data H. now rewrite (proj1 (upsertTransaction_tables d data)).
  - intros d data H. exact H.
Qed.

Lemma insider_known_upsert (d : DB) (n : string) (iss ins : uuid) i' n' t :
  insider_known d n iss ins -> insider_known (snd (upsertInsider d i' n' t)) n iss ins.
Proof.
  unfold insider_known, upsertInsider. intros H.
  pose proof (update_insider_find i' n' t (insiders d)) as Hu.
  destruct (update_insider i' n' t (insiders d)) as [[r rows']|];
    cbn [snd insiders set_insiders].
  - destruct Hu as (Hf & _ & _ & _ & (old & Hold & Hid) & _ & Hother).
    destruct (string_dec n n') as [->|Hne].
    + destruct (Nat.eq_dec iss i') as [->|Hi].
      * rewrite Hf. rewrite Hold in H. cbn [option_map] in *. congruence.
      * rewrite (Hother n' iss); [exact H | congruence].
    + rewrite (Hother n iss); [exact H | congruence].
  - destruct (find (same_insider n iss) (insiders d)) as [x|] eqn:E;
      [|discriminate H].
    now rewrite (@find_app_some _ _ _ _ _ E).
Qed.

Lemma stable_insider_known (n : string) (iss ins : uuid) :
  stable (fun d => insider_known d n iss ins).
Proof.
  unfold insider_known. split; [|split; [|split]].
  - intros d c t n' H.
    assert (E : insiders (snd (upsertIssuer d c t n')) = insiders d)
      by apply upsertIssuer_tables.
    now rewrite E.
  - intros d i n' t H. now apply insider_known_upsert.
  - intros d data H.
    destruct (upsertTransaction_tables d data) as (_ & E & _). now rewrite E.
  - intros d data H. exact H.
Qed.

(** ** One transaction of a filing *)

Lemma processTransaction_effect (form : Form4Data) (tx : TransactionInfo)
    (iss ins : uuid) (w : World) :
  exists w',
    processTransaction webhookUrl slack accepting form tx iss ins w = Returned tt w' /\
    has_key (db w') (key_for form tx ins) /\
    (forall Q, stable Q -> Q (db w) -> Q (db w')) /\
    issuers (db w') = issuers (db w) /\
    insiders (db w') = insiders (db w) /\
    (has_key (db w) (key_for form tx ins) ->
     length (transactions (db w')) = length (transactions (db w))).
Proof.
  remember (processTransaction webhookUrl slack accepting form tx iss ins w)
    as o eqn:Ho.
  cbv beta iota zeta delta [processTransaction accepting to_decimal bind ret query mutate]
    in Ho.
  match type of Ho with
  | context [upsertTransaction (db w) ?data] =>
      pose proof (upsert_rows (db w) data) as (_ & _ & _ & Hcount & Hlen & _);
      pose proof (upsertTransaction_tables (db w) data) as (Hi & Hn & Ha);
      assert (Hst : forall Q, stable Q -> Q (db w) ->
                              Q (snd (upsertTransaction (db w) data)))
        by (intros Q (_ & _ & HQ & _); apply HQ);
      change (key_of data) with (key_for form tx ins) in Hcount, Hlen;
      destruct (upsertTransaction (db w) data) as [transaction d']
  end.
  cbn [fst snd] in *.
  assert (Hkey : has_key d' (key_for form tx ins)).
  { unfold has_key. rewrite Hcount, key_eqb_refl. lia. }
  assert (Hsame : has_key (db w) (key_for form tx ins) ->
                  length (transactions d') = length (transactions (db w))).
  { unfold has_key. intros H. rewrite Hlen.
    replace (0 <? _)%nat with true by (symmetry; now apply Nat.ltb_lt).
    reflexivity. }
  destruct (Scoring.shouldTriggerUrgentAlert _ _).
  - cbv beta iota delta [postUrgentAlert bind ret query mutate postMessage] in Ho.
    match type of Ho with
    | context [if ?b then _ else _] => destruct b
    end; cbv beta iota in Ho; cbn [db outbox] in Ho.
    + subst o. eexists. split; [reflexivity|]. cbn [db]. auto 6.
    + rewrite webhook_configured in Ho. cbn [negb] in Ho.
      match type of Ho with
      | context [if ?b then _ else _] => destruct b
      end; cbv beta iota in Ho; cbn [db outbox recordSlackAlert] in Ho.
      * subst o. eexists. split; [reflexivity|].
        cbn [db]. split; [exact Hkey|]. split; [|auto].
        intros Q HQ Hw. pose proof HQ as (_ & _ & _ & H4).
        match goal with
        | |- Q (set_slackAlerts d' ?l ?n) =>
            match l with
            | (_ ++ [{| alert_id := _; alert := ?data |}])%list =>
                change (Q (snd (recordSlackAlert d' data)))
            end
        end.
        apply H4. now apply Hst.
      * subst o. eexists. split; [reflexivity|]. cbn [db]. auto 6.
  - subst o. eexists. split; [reflexivity|]. cbn [db]. auto 6.
Qed.

Lemma for_each_effect (form : Form4Data) (iss ins : uuid) (l : list TransactionInfo) :
  forall w : World,
    exists w',
      for_each (fun txInfo =>
                  processTransaction webhookUrl slack accepting form txInfo iss ins)
               l w = Returned tt w' /\
      (forall tx, In tx l -> has_key (db w') (key_for form tx ins)) /\
      (forall Q, stable Q -> Q (db w) -> Q (db w')) /\
      issuers (db w') = issuers (db w) /\
      insiders (db w') = insiders (db w) /\
      ((forall tx, In tx l -> has_key (db w) (key_for form tx ins)) ->
       length (transactions (db w')) = length (transactions (db w))).
Proof.
  induction l as [|tx l IH]; intros w.
  - exists w. cbn [for_each ret]. split; [reflexivity|].
    split; [intros tx []|]. auto.
  - cbn [for_each]. unfold bind at 1.
    destruct (processTransaction_effect form tx iss ins w)
      as (w1 & Hrun & Hkey & Hst & Hi & Hn & Hlen).
    rewrite Hrun.
    destruct (IH w1) as (w' & Hrun' & Hkeys & Hst' & Hi' & Hn' & Hlen').
    exists w'. split; [exact Hrun'|]. split; [|split; [|split; [|split]]].
    + intros x [<-|Hx]; [|now apply Hkeys].
      apply (Hst' (fun d => has_key d (key_for form tx ins)));
        [apply stable_has_key | exact Hkey].
    + intros Q HQ Hw. apply (Hst' Q HQ). now apply Hst.
    + congruence.
    + congruence.
    + intros Hall. rewrite Hlen', Hlen.
      * reflexivity.
      * apply Hall. now left.
      * intros x Hx.
        apply (Hst (fun d => has_key d (key_for form x ins)));
          [apply stable_has_key | apply Hall; now right].
Qed.

(** ** One filing *)

Lemma upsertIssuer_known (d : DB) c t n :
  issuer_known (snd (upsertIssuer d c t n)) c (issuer_id (fst (upsertIssuer d c t n))) /\
  (forall iss, issuer_known d c iss ->
     issuer_id (fst (upsertIssuer d c t n)) = iss /\
     length (issuers (snd (upsertIssuer d c t n))) = length (issuers d)).
Proof.
  unfold issuer_known, upsertIssuer.
  pose proof (update_issuer_find c t n (issuers d)) as Hu.
  destruct (update_issuer c t n (issuers d)) as [[r rows']|];
    cbn [fst snd issuers set_issuers issuer_id].
  - destruct Hu as (Hf & _ & _ & _ & (old & Hold & Hid) & Hlen & _).
    rewrite Hf, Hold. cbn [option_map]. split; [reflexivity|].
    intros iss H. split; [congruence | exact Hlen].
  - rewrite Hu. split.
    + rewrite find_app_none by exact Hu. cbn [find cik].
      now rewrite String.eqb_refl.
    + intros iss H. discriminate H.
Qed.

Lemma upsertInsider_known (d : DB) iss n t :
  insider_known (snd (upsertInsider d iss n t)) n iss
                (insider_id (fst (upsertInsider d iss n t))) /\
  (forall ins, insider_known d n iss ins ->
     insider_id (fst (upsertInsider d iss n t)) = ins /\
     length (insiders (snd (upsertInsider d iss n t))) = length (insiders d)).
Proof.
  unfold insider_known, upsertInsider.
  pose proof (update_insider_find iss n t (insiders d)) as Hu.
  destruct (update_insider iss n t (insiders d)) as [[r rows']|];
    cbn [fst snd insiders set_insiders insider_id].
  - destruct Hu as (Hf & _ & _ & _ & (old & Hold & Hid) & Hlen & _).
    rewrite Hf, Hold. cbn [option_map]. split; [reflexivity|].
    intros ins H. split; [congruence | exact Hlen].
  - rewrite Hu. split.
    + rewrite find_app_none by exact Hu. cbn [find]. unfold same_insider.
      cbn [name insider_issuerId]. now rewrite String.eqb_refl, Nat.eqb_refl.
    + intros ins H. discriminate H.
Qed.

(** A filing whose issuer, insider and rows are on file. *)
Definition settled (d : DB) (form : Form4Data) : Prop :=
  exists iss ins,
    issuer_known d (info_cik (form_issuer form)) iss /\
    insider_known d (info_name (form_insider form)) iss ins /\
    forall tx, In tx (filter is_buy_or_sell (form_transactions form)) ->
               has_key d (key_for form tx ins).

Lemma stable_settled (form : Form4Data) : stable (fun d => settled d form).
Proof.
  assert (H : forall (step : DB -> DB),
            (forall Q, stable Q -> forall d, Q d -> Q (step d)) ->
            forall d, settled d form -> settled (step d) form).
  { intros step Hstep d (iss & ins & H1 & H2 & H3). exists iss, ins.
    split; [|split].
    - apply (Hstep (fun x => issuer_known x _ iss)); [apply stable_issuer_known | exact H1].
    - apply (Hstep (fun x => insider_known x _ iss ins));
        [apply stable_insider_known | exact H2].
    - intros tx Htx.
      apply (Hstep (fun x => has_key x (key_for form tx ins)));
        [apply stable_has_key | now apply H3]. }
  split; [|split; [|split]].
  - intros d c t n. apply (H (fun x => snd (upsertIssuer x c t n))).
    intros Q (HQ & _) x. apply HQ.
  - intros d i n t. apply (H (fun x => snd (upsertInsider x i n t))).
    intros Q (_ & HQ & _) x. apply HQ.
  - intros d data. apply (H (fun x => snd (upsertTransaction x data))).
    intros Q (_ & _ & HQ & _) x. apply HQ.
  - intros d data. apply (H (fun x => snd (recordSlackAlert x data))).
    intros Q (_ & _ & _ & HQ) x. apply HQ.
Qed.

Definition same_size (d d' : DB) : Prop :=
  length (issuers d') = length (issuers d) /\
  length (insiders d') = length (insiders d) /\
  length (transactions d') = length (transactions d).

Lemma processSingleFiling_effect (f : Filing) (form : Form4Data) (w : World) :
  fetched f = inr form ->
  exists w',
    processSingleFiling webhookUrl slack accepting f w = Returned tt w' /\
    settled (db w') form /\
    (forall Q, stable Q -> Q (db w) -> Q (db w')) /\
    (settled (db w) form -> same_size (db w) (db w')).
Proof.
  intros Hf. unfold processSingleFiling. rewrite Hf.
  unfold bind at 1, mutate.
  set (c := info_cik (form_issuer form)).
  set (t := info_ticker (form_issuer form)).
  set (n := info_companyName (form_issuer form)).
  destruct (upsertIssuer_known (db w) c t n) as [Hknown1 Hsame1].
  pose proof (upsertIssuer_tables (db w) c t n) as [Hn1 Ht1].
  assert (Hst1 : forall Q, stable Q -> Q (db w) -> Q (snd (upsertIssuer (db w) c t n)))
    by (intros Q (HQ & _); apply HQ).
  destruct (upsertIssuer (db w) c t n) as [issuer d1]. cbn [fst snd] in *.
  unfold bind at 1, mutate. cbn [db outbox].
  set (nm := info_name (form_insider form)).
  set (tl := info_title (form_insider form)).
  destruct (upsertInsider_known d1 (issuer_id issuer) nm tl) as [Hknown2 Hsame2].
  pose proof (upsertInsider_tables d1 (issuer_id issuer) nm tl) as [Hi2 Ht2].
  assert (Hst2 : forall Q, stable Q -> Q d1 ->
                           Q (snd (upsertInsider d1 (issuer_id issuer) nm tl)))
    by (intros Q (_ & HQ & _); apply HQ).
  destruct (upsertInsider d1 (issuer_id issuer) nm tl) as [insider d2].
  cbn [fst snd] in *.
  destruct (for_each_effect form (issuer_id issuer) (insider_id insider)
              (filter is_buy_or_sell (form_transactions form))
              {| db := d2; outbox := outbox w |})
    as (w' & Hrun & Hkeys & Hst3 & Hi3 & Hn3 & Hlen3).
  cbn [db] in *. exists w'. split; [exact Hrun|].
  assert (Hissuer : issuer_known (db w') c (issuer_id issuer)).
  { apply (Hst3 (fun x => issuer_known x c (issuer_id issuer)));
      [apply stable_issuer_known|].
    apply (Hst2 (fun x => issuer_known x c (issuer_id issuer)));
      [apply stable_issuer_known | exact Hknown1]. }
  assert (Hinsider : insider_known (db w') nm (issuer_id issuer) (insider_id insider)).
  { apply (Hst3 (fun x => insider_known x nm (issuer_id issuer) (insider_id insider)));
      [apply stable_insider_known | exact Hknown2]. }
  split; [|split].
  - exists (issuer_id issuer), (insider_id insider).
    split; [exact Hissuer|]. split; [exact Hinsider | exact Hkeys].
  - intros Q HQ Hw. apply (Hst3 Q HQ). apply (Hst2 Q HQ). now apply Hst1.
  - intros (iss & ins & H1 & H2 & H3).
    destruct (Hsame1 iss H1) as [Eiss Hlen1]. subst iss.
    assert (H2' : insider_known d1 nm (issuer_id issuer) ins).
    { apply (Hst1 (fun x => insider_known x nm (issuer_id issuer) ins));
        [apply stable_insider_known | exact H2]. }
    destruct (Hsame2 ins H2') as [Eins Hlen2]. subst ins.
    unfold same_size. rewrite Hi3, Hn3, Hi2, Hlen2, Hn1, Hlen1.
    split; [reflexivity|]. split; [reflexivity|].
    rewrite Hlen3; [congruence|].
    intros tx Htx.
    apply (Hst2 (fun x => has_key x (key_for form tx (insider_id insider))));
      [apply stable_has_key|].
    apply (Hst1 (fun x => has_key x (key_for form tx (insider_id insider))));
      [apply stable_has_key | now apply H3].
Qed.

(** ** A feed, and the same feed again *)

Definition all_settled (d : DB) (filings : list Filing) : Prop :=
  forall f form, In f filings -> fetched f = inr form -> settled d form.

Lemma process_filings_effect (filings : list Filing) :
  forall (stats : ProcessorStats) (w : World),
    exists stats' w',
      process_filings webhookUrl slack accepting filings stats w = Returned stats' w' /\
      all_settled (db w') filings /\
      (forall Q, stable Q -> Q (db w) -> Q (db w')) /\
      (all_settled (db w) filings -> same_size (db w) (db w')).
Proof.
  induction filings as [|f rest IH]; intros stats w.
  - exists stats, w. cbn [process_filings ret]. split; [reflexivity|].
    split; [intros f form []|]. split; [auto|]. intros _. repeat split.
  - cbn [process_filings]. unfold bind at 1, try_catch. unfold bind at 1.
    destruct (fetched f) as [e|form] eqn:Ef.
    + unfold processSingleFiling. rewrite Ef. cbn [throw ret].
      destruct (IH (push_error stats (filing_accession f) e) w)
        as (stats' & w' & Hrun & Hall & Hst & Hsize).
      exists stats', w'. split; [exact Hrun|]. split; [|split; [exact Hst|]].
      * intros g form [<-|Hg] Hform; [congruence | now apply (Hall g)].
      * intros Hpre. apply Hsize. intros g form Hg. apply Hpre. now right.
    + destruct (@processSingleFiling_effect f form w Ef) as (w1 & Hrun1 & Hset & Hst1 & Hsize1).
      rewrite Hrun1. cbn [ret].
      destruct (IH (count_filing stats) w1) as (stats' & w' & Hrun & Hall & Hst & Hsize).
      exists stats', w'. split; [exact Hrun|]. split; [|split].
      * intros g form' [<-|Hg] Hform.
        -- assert (form' = form) by congruence. subst form'.
           apply (Hst (fun d => settled d form)); [apply stable_settled | exact Hset].
        -- now apply (Hall g).
      * intros Q HQ Hw. apply (Hst Q HQ). now apply Hst1.
      * intros Hpre.
        assert (H1 : same_size (db w) (db w1))
          by (apply Hsize1; apply (Hpre f); [now left | exact Ef]).
        assert (H2 : same_size (db w1) (db w')).
        { apply Hsize. intros g form' Hg Hform.
          apply (Hst1 (fun d => settled d form')); [apply stable_settled|].
          apply (Hpre g); [now right | exact Hform]. }
        destruct H1 as (A1 & B1 & C1). destruct H2 as (A2 & B2 & C2).
        repeat split; congruence.
Qed.

(** X24. Processing a feed a second time adds nothing when a webhook is
    configured and the database takes every number: after [process] has
    run over a feed, running it over the same feed again leaves the number
    of issuers, of insiders and of transactions as it is, whatever Slack
    replies. *)
Theorem X24_processing_a_feed_again_adds_no_rows :
  forall (feed : string + list Filing) (w : World),
    length (issuers (db (world_of (process webhookUrl slack accepting feed
              (world_of (process webhookUrl slack accepting feed w))))))
    = length (issuers (db (world_of (process webhookUrl slack accepting feed w)))) /\
    length (insiders (db (world_of (process webhookUrl slack accepting feed
              (world_of (process webhookUrl slack accepting feed w))))))
    = length (insiders (db (world_of (process webhookUrl slack accepting feed w)))) /\
    length (transactions (db (world_of (process webhookUrl slack accepting feed
              (world_of (process webhookUrl slack accepting feed w))))))
    = length (transactions (db (world_of (process webhookUrl slack accepting feed w)))).
Proof.
  intros [e|filings] w; unfold process; [repeat split|].
  match goal with
  | |- context [process_filings _ _ _ filings ?s w] =>
      destruct (process_filings_effect filings s w) as (s1 & w1 & Hrun1 & Hall & _ & _);
      rewrite Hrun1; cbn [world_of];
      destruct (process_filings_effect filings s w1) as (s2 & w2 & Hrun2 & _ & _ & Hsize);
      rewrite Hrun2; cbn [world_of]
  end.
  exact (Hsize Hall).
Qed.

End RerunFacts.

(** X24 on the feed of the large sale, from the empty database. *)
Lemma X24_processing_a_feed_again_adds_no_rows_witness :
  JsString.truthy (Some "https://hooks.example"%string) = true /\
  length (Store.transactions
            (Pipeline.db
               (Pipeline.world_of
                  (Pipeline.process "https://hooks.example" always_ok
                     (accepting (fun _ _ => Store.Dec 0)) large_feed
                     (Pipeline.world_of
                        (Pipeline.process "https://hooks.example" always_ok
                           (accepting (fun _ _ => Store.Dec 0)) large_feed
                           {| Pipeline.db := Store.empty_db;
                              Pipeline.outbox := [] |}))))))
  = length (Store.transactions
              (Pipeline.db
                 (Pipeline.world_of
                    (Pipeline.process "https://hooks.example" always_ok
                       (accepting (fun _ _ => Store.Dec 0)) large_feed
                       {| Pipeline.db := Store.empty_db;
                          Pipeline.outbox := [] |})))).
Proof.
  split; [reflexivity|].
  exact (proj2 (proj2 (@X24_processing_a_feed_again_adds_no_rows
                         "https://hooks.example" always_ok (fun _ _ => Store.Dec 0)
                         eq_refl large_feed
                         {| Pipeline.db := Store.empty_db;
                            Pipeline.outbox := [] |}))).
Defined.
